(* ===== verification/_CoqProject ===== *)
-Q . S2P
Prelude.v
Memory.v
Physical.v
FrameAllocator.v
PhysicalSpec.v
FrameCount.v
LibString.v
Stdio.v
Paging.v
PagingDebug.v
PagingSpec.v
Mapping.v
MapRange.v
TableCount.v
Heap.v
Gdt.v
GdtSpec.v
Acpi.v
Stack.v
Start.v
EfiPmm.v
EfiPmmSpec.v
EfiDump.v
Ssfn.v
Utf8.v
Console.v
ItoaSpec.v
StdioSpec.v
FormatSpec.v
Idt.v
IdtSpec.v
SsfnSpec.v
ConsoleSpec.v
Kernel.v
KernelText.v
KernelSpec.v
KernelBoot.v
Firmware.v
Loader.v
LoaderMain.v
LoaderSpec.v
ReserveSpec.v
LoaderBoot.v
Machine.v
ImageMachine.v
PhysicalThm.v
PagingThm.v
PagingDebugThm.v
HeapThm.v
GdtThm.v
IdtThm.v
StringThm.v
StackThm.v
StdioThm.v
ConsoleThm.v
Utf8Thm.v
AcpiThm.v
EfiPmmThm.v
KernelThm.v
KernelHeap.v
LoaderThm.v
BootThm.v
