(* ===== verification/Prelude.v ===== *)
(** * The echOS kernel and its UEFI loader

    echOS is a small x86-64 kernel with its own boot loader.  The loader
    (src/efi-stage) reads the console font and the kernel from the boot volume,
    fetches the firmware's memory map, builds from it the physical memory manager,
    leaves Boot Services and calls the kernel.  The kernel (src/kernel) sets up its
    descriptor table and its page tables and halts; it has a heap, an interrupt
    descriptor table, ACPI table walks and a console.  Both use the small C library
    of src/lib.

    This library embeds that code in Rocq and proves what it does.  The definitions
    follow the C code function by function, under the names of the C code; the
    comment at the top of each file names the files under src/ it models.

    ** The parts

    Foundations.
    - Prelude.v (this file): the results of C computations ([res]), total correctness
      ([wp]), wrap-around of machine words ([u8] to [u64], [s8], [s32]), loops
      ([for_range], [while_fuel]), bits, lists, and the tactics [zlia], [wp_step],
      [wp_ret].
    - Memory.v: byte-addressed memory, little-endian loads and stores, and frames:
      [mem_upd P m m'] says that only bytes satisfying [P] have changed.

    The physical memory manager (kernel/memory/physical.c).
    - Physical.v: the operations on a block and its bitmap, and their lemmas.
    - FrameAllocator.v: the interface to the clients, the classes [FrameAllocator] of
      operations and [FrameAllocatorLaws] of laws.
    - PhysicalSpec.v: the invariant [pmm_inv], the set of free frames [pmm_avail], and
      the instances of both classes.
    - FrameCount.v: the number of free frames, as the blocks count it.
    - PhysicalThm.v: allocation and freeing refine operations on the set of free
      frames; frames held at the same time are distinct, over any sequence of calls.

    Page tables (kernel/memory/paging.c, paging_debug.c) and heap (heap.c).
    - Paging.v: the operations, over the class [FrameAllocator].  PagingDebug.v,
      PagingDebugThm.v: the dumps, as the calls of ssfn_printf they make, and the text of
      these.
    - PagingSpec.v: the address translation of the processor ([walk], [translate]) and
      the invariant [tables_ok].  Mapping.v, MapRange.v: what map_page, map_large_page
      and map_range make of the translation.  TableCount.v: how many tables mapping some
      ranges takes at most.  PagingThm.v: the theorems.
    - Heap.v, HeapThm.v: get_heap, on both its outcomes.  KernelHeap.v: a heap on the
      tables that init_paging makes.

    Descriptor tables and ACPI (kernel/gdt.c, gdt_flush.s, idt.c, acpi/).
    - Gdt.v, GdtSpec.v, GdtThm.v: encoding segment descriptors, the table kernel_start
      builds, what the processor reads back and loads.
    - Idt.v, IdtSpec.v, IdtThm.v: the interrupt table in memory from an allocator that is
      the class [Malloc], and the map from vectors to handlers it stands for.
    - Acpi.v, AcpiThm.v: the walks over the XSDT and the MADT.

    The C library (lib/string, lib/stdio, lib/stack.c, and its start-up stubs).
    - LibString.v, ItoaSpec.v, StringThm.v: the string functions and itoa.
    - Stdio.v, StdioSpec.v, StdioThm.v: vsprintf, and that it writes what [print], a
      reference on lists of characters, prints.  FormatSpec.v: [print] on the formats of
      the kernel.
    - Stack.v, StackThm.v: the stack of words, and the dumps of the loader.
    - Start.v: crt0.s, c.c and exit.c, which start no program yet: _start as a step
      relation, which always has a next step.

    The console (include/ssfn.h, kernel/drivers/ssfn_fb.c).
    - Ssfn.v, SsfnSpec.v: the renderer ssfn_putc, and the pixels it draws.
    - Utf8.v, Utf8Thm.v: the UTF-8 decoder ssfn_utf8, the encoding it reads, and the texts
      of the error codes.
    - Console.v, ConsoleSpec.v, ConsoleThm.v: the cursor and ssfn_printf, and when the
      text stays on the screen.

    The kernel entry (kernel/kernel.c).
    - Kernel.v: init_paging and kernel_start with the messages it prints, over the
      machine of memory, control registers, segments, the global [system] and the
      globals of the console.
    - KernelText.v: the text of each message.  KernelSpec.v: which addresses init_paging
      maps, and the tables that takes.  KernelBoot.v: what the console needs ([console_on]), and that the messages
      leave the tables, the allocator and the descriptor table alone.
    - KernelThm.v: the kernel reaches its idle loop unless frames run out, which they
      do not if there are more than [kernel_tables_needed] and two.

    The loader (efi-stage/).
    - Firmware.v: the firmware as a parameter, a world of memory and a log of the calls
      made, and the monad [io] of code over it.
    - EfiPmm.v, EfiPmmSpec.v, EfiPmmThm.v: build_pmm, from the memory map to the memory
      manager.  EfiDump.v: dump_pmm and compare_pmm, as the calls of
      Print they make.
    - Loader.v: pool, files, memory map, reserve_pmm.  LoaderMain.v: main.c and
      efi_video.c.
    - LoaderSpec.v, ReserveSpec.v, LoaderThm.v: what the loader allocates, releases and
      opens, and the protocol of ExitBootServices.
    - LoaderBoot.v, BootThm.v: the parts together: efi_main boots the kernel.

    Machine.v has the concrete machine most witnesses run on, ImageMachine.v a kernel
    image for it: a font with one glyph, the strings, a stack and a screen.

    ** How code is modelled

    - A function of the C code becomes a function that takes and returns the memory and
      the structures it changes.  An integer is a [Z] within the range of its type, with
      the wrap-around of every operation that can leave it written out.
    - An access to an address that no memory backs gives [Fault].  NULL, -1 and all
      ones are returned as the values they are.
    - The fields of pmm, pmm_block, framebuffer_t, colonel_t and the like are records,
      since no code takes the address of their fields; bitmaps, page tables, descriptor
      tables, ACPI tables, fonts, pixels and strings are bytes of memory.
    - Local arrays live at addresses that are arguments.
    - Loops the code counts run by [for_range], without fuel.  Loops that end by what
      they find in memory, and the loops of map_range and of the loader, run by
      [while_fuel] or [forever], which give [OutOfFuel] when the fuel is used up.
      Total correctness [wp] excludes that: every theorem proves that the code ends
      given the fuel it names, which is the number of rounds: of pages of the range for
      map_range ([range_pages]), of characters for strings, of records for the MADT, of
      code points (0x110000) for ssfn_putc and so for kernel_start and efi_main, of
      refused keys for ExitBootServices.
    - The memory is physical.  The processor's translation through the tables is a
      function of it ([translate]); the code runs in the identity mapping it builds,
      which the theorems on init_paging establish.

    ** The theorems

    - Memory manager: frame_allocate, frames_allocate and frame_free refine picking the
      first free frame, the first free run and adding a frame back; nothing is handed
      out twice.
    - Page tables: each mapping operation changes the translation of the pages it was
      given, and of nothing else; failures name their reason; ranges that reach the end
      of the address space are mapped not at all.  The dumps print what the processor reads
      from an entry, but for the user bit and the highest bits of the address.
    - Heap: on success the range is backed by frames of its own, on failure all its
      frames are free again; the mappings made before a failure stay, and what they
      reach is handed out to the next request of the same size.  A heap at an address inside
      a page always reaches one frame too far.  With a run of
      frames, an unmapped range and frames for its tables it succeeds.  On the kernel's own
      tables it leaves all that the kernel has mapped as it was.
    - Kernel: the descriptor table takes two distinct free frames; the tables map exactly the blocks of RAM above page 0 and the framebuffer;
      kernel_start, messages included, faults nowhere, writes only to the bitmaps, to
      free frames, to the screen and to its stack, and stops short of its idle loop only
      if no frame is left; it reaches the loop whenever it is given more free frames than
      the bounds of the regions say the tables may take.
    - Interrupts: after any sequence of idt_entry_add an interrupt reaches the handler last
      installed for its vector.
    - Loader: nothing is leaked or freed twice; Boot Services end with the key of the
      last map; the storage suffices for the final map; under any firmware that
      conforms to UEFI ([conforming]), on a machine and a boot volume that suit it
      ([suitable]), efi_main ends, and its one fault is the use of a graphics output protocol
      that does not exist ([no_gop]); if it starts the kernel, then with the font it read and
      on only the conventional memory of the final map.
    - Library and console: the text vsprintf writes is that of the reference; itoa's
      digits have the number's value; strcmp decides equality; ssfn_putc draws the
      bitmap of the glyph and nothing else; ssfn_utf8 reads back every encoded code point; ssfn_printf moves the cursor as its text says
      and stays on the screen while there are lines left ([fits], [room]), and a character
      past the last line is drawn behind the framebuffer.

    ** What is assumed

    The firmware is any function from the log of calls and the memory to a reply and a
    new memory.  [sound] and [conforming] state what the UEFI specification promises of it:
    buffers that are new and do not overlap, maps that describe memory, the effect of each
    call on the memory; a protocol need not exist, and any call may fail.  [suitable] is what
    the loader relies on without looking, and UEFI does not promise: a bounded number of
    refused keys ([refuses]), a final map and a video mode within bounds, a screen with room
    for the messages and a font file that is a font.  BootThm.v has a firmware that
    satisfies both.
    The layout of the firmware's own structures and CompareGuid are the class
    [Platform].  The allocator that idt_init takes has room for the table ([Malloc]).
    Where the linker and the compiler put the strings, kernel_start and the local arrays of
    the console are the classes [Image] and [DumpStrings].  For kernel_start alone, too, the
    font is a font ([font_ok]), and the screen is large enough for the messages ([room]).

    ** Not modelled

    - The message behind the last idle loop of kernel_start, which is never reached.
    - The words gdt_flush.s pushes for its far return: they lie below the
      caller's stack pointer, and it pops them itself.
    - include/ssfn.h but for ssfn_putc, ssfn_utf8, the error texts and what they use: the
      rest is compiled only with macros that the kernel does not define.
    - The headers that only declare (string.h, stdint.h, stdio.h, elf.h, sys/): nothing to
      model. *)

(** ** Foundations: results, machine words, loops and bits *)
From stdpp Require Import base tactics numbers list option.
From Stdlib Require Import ZArith Lia.
Local Open Scope Z_scope.

(** ** Results

    A C computation either produces a value, faults (it touches an address no
    memory backs), or has not finished within the fuel it was given.  Error
    codes that the C code returns ([-1], [NULL], all ones) are ordinary values. *)
Inductive res (A : Type) : Type :=
  | Ok (a : A)
  | Fault
  | OutOfFuel.
Arguments Ok {A} a.
Arguments Fault {A}.
Arguments OutOfFuel {A}.

#[export] Instance res_ret : MRet res := fun A a => Ok a.
#[export] Instance res_bind : MBind res := fun A B f c =>
  match c with
  | Ok a => f a
  | Fault => Fault
  | OutOfFuel => OutOfFuel
  end.

#[export] Instance res_eq_dec {A} `{EqDecision A} : EqDecision (res A).
Proof. solve_decision. Defined.

(** A faulting memory access as a result. *)
Definition of_option {A} (o : option A) : res A :=
  match o with
  | Some a => Ok a
  | None => Fault
  end.

(** Total correctness: the computation returns, and what it returns satisfies [Q]. *)
Definition wp {A} (c : res A) (Q : A -> Prop) : Prop :=
  match c with
  | Ok a => Q a
  | _ => False
  end.

(** ** Machine words: a [w]-bit unsigned value is a [Z] reduced modulo [2^w]. *)
Definition u8 (x : Z) : Z := x mod 2 ^ 8.
Definition u16 (x : Z) : Z := x mod 2 ^ 16.
Definition u32 (x : Z) : Z := x mod 2 ^ 32.
Definition u64 (x : Z) : Z := x mod 2 ^ 64.

(** Two's complement reading of the low 8 and 32 bits. *)
Definition s8 (x : Z) : Z := (x + 2 ^ 7) mod 2 ^ 8 - 2 ^ 7.
Definition s32 (x : Z) : Z := (x + 2 ^ 31) mod 2 ^ 32 - 2 ^ 31.

(** [0xFFFFFFFFFFFFFFFF], the error value of the frame allocators. *)
Definition ALL_ONES : Z := 0xFFFFFFFFFFFFFFFF.

(** Bitwise complement of a 64-bit word. *)
Definition not64 (x : Z) : Z := Z.lxor x ALL_ONES.

(** A C truth value used as an integer. *)
Definition c_bool (b : bool) : Z := if b then 1 else 0.

(** ** Loops

    A loop body either falls through with a new loop state ([inl]) or leaves
    the enclosing function with a result ([inr]). *)
Fixpoint for_steps {S R} (k : nat) (i : Z) (body : Z -> S -> res (S + R)) (s : S)
  : res (S + R) :=
  match k with
  | O => Ok (inl s)
  | Datatypes.S k =>
      c ← body i s;
      match c with
      | inl s' => for_steps k (i + 1) body s'
      | inr r => Ok (inr r)
      end
  end.

(** [for (i = lo; i < hi; i++) body], where the body changes neither [i] nor [hi]. *)
Definition for_range {S R} (lo hi : Z) (body : Z -> S -> res (S + R)) (s : S)
  : res (S + R) :=
  for_steps (Z.to_nat (hi - lo)) lo body s.

(** [while (cond) body], for at most [fuel] iterations of the body. *)
Fixpoint while_fuel {S R} (fuel : nat) (cond : S -> res bool)
    (body : S -> res (S + R)) (s : S) : res (S + R) :=
  b ← cond s;
  if b : bool then
    match fuel with
    | O => OutOfFuel
    | Datatypes.S fuel =>
        c ← body s;
        match c with
        | inl s' => while_fuel fuel cond body s'
        | inr r => Ok (inr r)
        end
    end
  else Ok (inl s).

(** The value a function returns after a loop: the early return, or what the
    code after the loop computes from the final loop state. *)
Definition after {S R} (c : res (S + R)) (k : S -> res R) : res R :=
  x ← c;
  match x with
  | inl s => k s
  | inr r => Ok r
  end.

(** ** Reasoning about results *)
Section wp_rules.
Context {A B : Type}.
Implicit Types (c : res A) (Q : A -> Prop).

Lemma wp_ok (a : A) Q : Q a -> wp (Ok a) Q.
Proof. done. Qed.

Lemma wp_bind c (f : A -> res B) (Q : B -> Prop) :
  wp (c ≫= f) Q <-> wp c (fun a => wp (f a) Q).
Proof. by destruct c. Qed.

Lemma wp_mono c Q Q' : wp c Q -> (forall a, Q a -> Q' a) -> wp c Q'.
Proof. destruct c; simpl; auto. Qed.

(** Remembering the result. *)
Lemma wp_result c Q : wp c Q -> wp c (fun a => Q a /\ c = Ok a).
Proof. by destruct c. Qed.

Lemma wp_and c Q Q' : wp c Q -> wp c Q' -> wp c (fun a => Q a /\ Q' a).
Proof. by destruct c. Qed.

Lemma wp_inv c Q : wp c Q -> exists a, c = Ok a /\ Q a.
Proof. destruct c; simpl; [eauto | done | done]. Qed.

Lemma wp_elim c Q a : wp c Q -> c = Ok a -> Q a.
Proof. by intros H ->. Qed.

Lemma wp_intro c Q a : c = Ok a -> Q a -> wp c Q.
Proof. by intros ->. Qed.
End wp_rules.

#[export] Instance wp_proper {A} :
  Proper (eq ==> pointwise_relation A impl ==> impl) (@wp A).
Proof. intros c ? <- Q Q' HQ H. eapply wp_mono; [exact H | exact HQ]. Qed.

#[export] Instance wp_proper_iff {A} :
  Proper (eq ==> pointwise_relation A iff ==> iff) (@wp A).
Proof. intros c ? <- Q Q' HQ. split; intros H; eapply wp_mono; eauto; apply HQ. Qed.

Section loop_rules.
Context {S R : Type}.
Implicit Types (I : Z -> S -> Prop) (Q : R -> Prop).

(** The state of a loop in the middle of a function body: either the
    invariant holds or the function has returned with [Q]. *)
Definition loop_post (I : S -> Prop) (Q : R -> Prop) (c : S + R) : Prop :=
  match c with
  | inl s => I s
  | inr r => Q r
  end.

Lemma wp_for_steps I Q k : forall i body s,
  I i s ->
  (forall j s, i <= j < i + Z.of_nat k -> I j s ->
     wp (body j s) (loop_post (I (j + 1)) Q)) ->
  wp (for_steps k i body s) (loop_post (I (i + Z.of_nat k)) Q).
Proof.
  induction k as [|k IH]; intros i body s Hs Hbody; cbn [for_steps].
  - by rewrite Z.add_0_r.
  - apply wp_bind. eapply wp_mono; [apply Hbody; [lia | done] |].
    intros [s'|r] Hc; simpl in Hc |- *; [|done].
    replace (i + Z.of_nat (Datatypes.S k)) with (i + 1 + Z.of_nat k) by lia.
    apply IH; [done |]. intros j t Hj. apply Hbody. lia.
Qed.

Lemma wp_for_range I Q lo hi body s :
  lo <= hi ->
  I lo s ->
  (forall j s, lo <= j < hi -> I j s -> wp (body j s) (loop_post (I (j + 1)) Q)) ->
  wp (for_range lo hi body s) (loop_post (I hi) Q).
Proof.
  intros Hle Hs Hbody. unfold for_range.
  replace hi with (lo + Z.of_nat (Z.to_nat (hi - lo))) at 2 by lia.
  apply wp_for_steps; [done |]. intros j t Hj. apply Hbody. lia.
Qed.

(** A loop whose [measure] decreases finishes with that much fuel. *)
Lemma wp_while (I : S -> Prop) Q (measure : S -> Z) cond body fuel : forall s,
  measure s <= Z.of_nat fuel ->
  I s ->
  (forall s, I s ->
     wp (cond s) (fun b => if b : bool then
       0 < measure s /\
       wp (body s) (loop_post (fun s' => I s' /\ measure s' <= measure s - 1) Q)
     else True)) ->
  wp (while_fuel fuel cond body s)
     (loop_post (fun s => I s /\ cond s = Ok false) Q).
Proof.
  induction fuel as [|fuel IH]; intros s Hm Hs Hstep;
    cbn [while_fuel]; apply wp_bind;
    destruct (wp_inv _ _ (Hstep s Hs)) as ([|] & Hc & Hb); rewrite Hc; simpl; try done.
  - lia.
  - destruct Hb as [Hpos Hb]. apply wp_bind. eapply wp_mono; [exact Hb |].
    intros [s'|r] H; simpl in H |- *; [|done].
    destruct H as [HI Hm']. apply IH; [lia | done | done].
Qed.

Lemma wp_after (c : res (S + R)) k Q :
  wp c (loop_post (fun s => wp (k s) Q) Q) -> wp (after c k) Q.
Proof.
  intros H. apply wp_bind. eapply wp_mono; [exact H |]. by intros [s|r].
Qed.
End loop_rules.

(** ** Loops that do not end *)
Section endless.
Context {S R : Type} (cond : S -> res bool) (body : S -> res (S + R)).

(** A loop whose condition always holds never falls out of its end. *)
Lemma while_forever (I : S -> Prop) fuel : forall s,
  I s -> (forall s, I s -> cond s = Ok true) ->
  (forall s s', I s -> body s = Ok (inl s') -> I s') ->
  forall s', while_fuel fuel cond body s <> Ok (inl s').
Proof.
  induction fuel as [|fuel IH]; intros s Hs Hc Hb s'; cbn [while_fuel];
    rewrite (Hc s Hs); cbn [mbind res_bind]; [done|].
  destruct (body s) as [[s1|r]| |] eqn:Hbody; cbn [mbind res_bind]; try done.
  apply IH; [by apply (Hb s) | done..].
Qed.

(** What a loop returns with, its body returned. *)
Lemma while_end_state fuel : forall s r,
  while_fuel fuel cond body s = Ok (inr r) -> exists s', body s' = Ok (inr r).
Proof.
  induction fuel as [|fuel IH]; intros s r; cbn [while_fuel];
    destruct (cond s) as [[]| |]; cbn [mbind res_bind]; try done.
  destruct (body s) as [[s1|r1]| |] eqn:Hbody; cbn [mbind res_bind]; try done.
  - apply IH.
  - intros [= <-]. by exists s.
Qed.

(** A loop whose body always falls through runs out of any fuel. *)
Lemma while_diverges (I : S -> Prop) fuel : forall s,
  I s -> (forall s, I s -> cond s = Ok true /\ exists s', body s = Ok (inl s') /\ I s') ->
  while_fuel fuel cond body s = OutOfFuel.
Proof.
  induction fuel as [|fuel IH]; intros s Hs Hstep; cbn [while_fuel];
    destruct (Hstep s Hs) as (-> & s' & Hb & Hs'); cbn [mbind res_bind]; [done|].
  rewrite Hb. cbn [mbind res_bind]. by apply IH.
Qed.
End endless.

(** [zlia]: [lia] with literal powers of two evaluated and divisions unfolded. *)
Ltac eval_pow2 :=
  repeat match goal with
  | |- context [2 ^ Zpos ?p] =>
      let v := eval vm_compute in (2 ^ Zpos p) in change (2 ^ Zpos p) with v
  | H : context [2 ^ Zpos ?p] |- _ =>
      let v := eval vm_compute in (2 ^ Zpos p) in change (2 ^ Zpos p) with v in H
  end.
Ltac zlia := eval_pow2; Z.to_euclidean_division_equations; lia.

(** ** Bits of 64-bit words *)
Lemma pow2_bound_bits x k :
  0 <= k -> 0 <= x -> (forall j, k <= j -> Z.testbit x j = false) -> x < 2 ^ k.
Proof.
  intros Hk Hx H. destruct (Z.eq_dec x 0) as [->|Hne]; [apply Z.pow_pos_nonneg; lia|].
  apply Z.log2_lt_pow2; [lia|].
  destruct (Z.lt_ge_cases (Z.log2 x) k) as [|Hge]; [done|].
  specialize (H _ Hge). rewrite Z.bit_log2 in H by lia. done.
Qed.

Lemma testbit_high x k j : 0 <= x < 2 ^ k -> k <= j -> Z.testbit x j = false.
Proof.
  intros Hx Hj. destruct (Z.lt_ge_cases k 0) as [Hk|Hk].
  { rewrite Z.pow_neg_r in Hx by done. lia. }
  rewrite <- (Z.mod_small x (2 ^ k)) by done.
  by rewrite Z.mod_pow2_bits_high by lia.
Qed.

Lemma lor_range k x y : 0 <= k -> 0 <= x < 2 ^ k -> 0 <= y < 2 ^ k -> 0 <= Z.lor x y < 2 ^ k.
Proof.
  intros Hk Hx Hy.
  assert (Hn : 0 <= Z.lor x y) by (apply Z.lor_nonneg; lia).
  split; [done|]. apply pow2_bound_bits; [done..|]. intros j Hj.
  by rewrite Z.lor_spec, (testbit_high x k), (testbit_high y k).
Qed.

Lemma land_range k x y : 0 <= k -> 0 <= x < 2 ^ k -> 0 <= Z.land x y < 2 ^ k.
Proof.
  intros Hk Hx.
  assert (Hn : 0 <= Z.land x y) by (apply Z.land_nonneg; lia).
  split; [done|]. apply pow2_bound_bits; [done..|]. intros j Hj.
  by rewrite Z.land_spec, (testbit_high x k).
Qed.

Lemma shiftl_1_range k w : 0 <= k < w -> 0 <= Z.shiftl 1 k < 2 ^ w.
Proof.
  intros Hk. rewrite Z.shiftl_1_l. split; [apply Z.pow_nonneg; lia|].
  apply Z.pow_lt_mono_r; lia.
Qed.

Lemma testbit_shiftl_1 k j : 0 <= k -> Z.testbit (Z.shiftl 1 k) j = (k =? j).
Proof. intros Hk. rewrite Z.shiftl_1_l. by apply Z.pow2_bits_eqb. Qed.

(** [w & (1 << k)] is non-zero exactly when bit [k] is set. *)
Lemma land_bit w k : 0 <= k -> (Z.land w (Z.shiftl 1 k) =? 0) = negb (Z.testbit w k).
Proof.
  intros Hk. destruct (Z.testbit w k) eqn:Hb; simpl.
  - apply Z.eqb_neq. intros H. apply (f_equal (fun x => Z.testbit x k)) in H.
    rewrite Z.land_spec, testbit_shiftl_1, Hb, Z.eqb_refl, Z.bits_0 in H; done.
  - apply Z.eqb_eq. apply Z.bits_inj'. intros j Hj.
    rewrite Z.land_spec, testbit_shiftl_1, Z.bits_0 by done.
    destruct (Z.eqb_spec k j) as [<-|]; [by rewrite Hb | apply andb_false_r].
Qed.

(** [(w >> k) & 1] is bit [k]. *)
Lemma shiftr_land_1 w k : 0 <= k -> Z.land (Z.shiftr w k) 1 = Z.b2z (Z.testbit w k).
Proof.
  intros Hk. change 1 with (Z.ones 1). rewrite Z.land_ones by lia.
  change (2 ^ 1) with 2. by rewrite <- Z.bit0_mod, Z.shiftr_spec, Z.add_0_l by lia.
Qed.

Lemma testbit_set w k j :
  0 <= k -> Z.testbit (Z.lor w (Z.shiftl 1 k)) j = Z.testbit w j || (k =? j).
Proof. intros Hk. by rewrite Z.lor_spec, testbit_shiftl_1. Qed.

Lemma testbit_ALL_ONES j : 0 <= j -> Z.testbit ALL_ONES j = (j <? 64).
Proof. intros Hj. change ALL_ONES with (Z.ones 64). by apply Z.testbit_ones_nonneg. Qed.

Lemma testbit_not64 x j : 0 <= j < 64 -> Z.testbit (not64 x) j = negb (Z.testbit x j).
Proof.
  intros Hj. unfold not64. rewrite Z.lxor_spec, testbit_ALL_ONES by lia.
  rewrite (proj2 (Z.ltb_lt j 64)) by lia. by rewrite xorb_true_r.
Qed.

Lemma testbit_clear w k j :
  0 <= k -> 0 <= j < 64 ->
  Z.testbit (Z.land w (not64 (Z.shiftl 1 k))) j = Z.testbit w j && negb (k =? j).
Proof. intros Hk Hj. by rewrite Z.land_spec, testbit_not64, testbit_shiftl_1. Qed.

Lemma ALL_ONES_bits w :
  0 <= w < 2 ^ 64 -> (w = ALL_ONES <-> forall j, 0 <= j < 64 -> Z.testbit w j = true).
Proof.
  intros Hw. split.
  - intros -> j Hj. rewrite testbit_ALL_ONES by lia. apply Z.ltb_lt. lia.
  - intros H. apply Z.bits_inj'. intros j Hj. rewrite testbit_ALL_ONES by done.
    destruct (Z.ltb_spec j 64); [apply H; lia | apply (testbit_high w 64); lia].
Qed.

(** [a << j | b << k] for fields that do not overlap. *)
Lemma lor_fields a j b k :
  0 <= k <= j -> 0 <= b < 2 ^ (j - k) -> Z.lor (a * 2 ^ j) (b * 2 ^ k) = (a * 2 ^ (j - k) + b) * 2 ^ k.
Proof.
  intros Hk Hb. replace (a * 2 ^ j) with (a * 2 ^ (j - k) * 2 ^ k)
    by (rewrite <- Z.mul_assoc, <- Z.pow_add_r by lia; repeat f_equal; lia).
  rewrite <- !(Z.shiftl_mul_pow2 _ k), <- Z.shiftl_lor by lia. f_equal.
  rewrite <- Z.shiftl_mul_pow2 by lia. apply Z.bits_inj'. intros i Hi. rewrite Z.lor_spec.
  destruct (Z.lt_ge_cases i (j - k)) as [Hlt|Hge].
  - rewrite Z.shiftl_spec_low by lia. rewrite Z.shiftl_mul_pow2 by lia.
    rewrite <- (Z.mod_pow2_bits_low (_ + b) (j - k)) by lia.
    by rewrite Z.add_comm, Z.mod_add, Z.mod_small by lia.
  - rewrite Z.shiftl_spec by lia. rewrite (testbit_high b (j - k)) by lia. rewrite orb_false_r.
    replace i with ((i - (j - k)) + (j - k)) at 2 by lia.
    rewrite <- Z.div_pow2_bits by lia. f_equal.
    rewrite Z.shiftl_mul_pow2, Z.div_add_l by lia. rewrite Z.div_small by lia. lia.
Qed.

Lemma u64_small x : 0 <= x < 2 ^ 64 -> u64 x = x.
Proof. apply Z.mod_small. Qed.

Lemma u64_range x : 0 <= u64 x < 2 ^ 64.
Proof. by apply Z.mod_pos_bound. Qed.

(** [wp_step] takes the next bind apart; [wp_auto] also closes returned values. *)
Ltac wp_step := first [apply wp_bind | apply wp_after].
Ltac wp_ret := cbn [wp mret res_ret loop_post].

(** ** Counting *)
Section counting.
Context {A : Type} (P Q : A -> Prop).
Context `{HP : forall x, Decision (P x)} `{HQ : forall x, Decision (Q x)}.

Lemma filter_length_ext l :
  (forall y, y ∈ l -> P y <-> Q y) -> length (filter P l) = length (filter Q l).
Proof using Type.
  induction l as [|y l IH]; intros H; [done|]. rewrite !filter_cons.
  assert (Hy : P y <-> Q y) by (apply H; left).
  assert (Hl : length (filter P l) = length (filter Q l)).
  { apply IH. intros z Hz. apply H. by right. }
  do 2 case_decide; simpl; tauto || lia.
Qed.

Lemma length_filter_all l : (forall x, x ∈ l -> P x) -> length (filter P l) = length l.
Proof using Type.
  induction l as [|x l IH]; intros Hl; [done|]. rewrite filter_cons_True by (apply Hl; left).
  simpl. f_equal. apply IH. intros y Hy. apply Hl. by right.
Qed.

Lemma length_filter_none l : (forall x, x ∈ l -> ~ P x) -> length (filter P l) = 0%nat.
Proof using Type.
  induction l as [|x l IH]; intros Hl; [done|]. rewrite filter_cons_False by (apply Hl; left).
  apply IH. intros y Hy. apply Hl. by right.
Qed.

(** Two predicates that differ at one element of a duplicate-free list. *)
Lemma filter_length_flip l x :
  NoDup l -> x ∈ l -> P x -> ~ Q x -> (forall y, y ∈ l -> y <> x -> P y <-> Q y) ->
  length (filter P l) = S (length (filter Q l)).
Proof using Type.
  intros Hnd Hx HPx HQx. induction Hnd as [|y l Hy Hnd IH]; [by apply not_elem_of_nil in Hx|].
  intros Hiff. rewrite !filter_cons. apply elem_of_cons in Hx as [->|Hx].
  - rewrite decide_True, decide_False by done. simpl. f_equal.
    apply filter_length_ext. intros z Hz. apply Hiff; [by right|]. congruence.
  - assert (Hyx : y <> x) by congruence.
    assert (Hy' : P y <-> Q y) by (apply Hiff; [left | done]).
    assert (Hl : length (filter P l) = S (length (filter Q l))).
    { apply IH; [done|]. intros z Hz. apply Hiff. by right. }
    do 2 case_decide; simpl; tauto || lia.
Qed.
End counting.

(** ** Filtering *)
Section filter.
Context {A : Type} (P : A -> Prop) `{!forall x, Decision (P x)}.

Lemma list_filter_all l : Forall P l -> filter P l = l.
Proof. induction 1 as [|x l Hx _ IH]; [done|]. by rewrite filter_cons_True, IH. Qed.

Lemma list_filter_none l : Forall (fun x => ~ P x) l -> filter P l = [].
Proof. induction 1 as [|x l Hx _ IH]; [done|]. by rewrite filter_cons_False. Qed.
End filter.
