(* ===== verification/Memory.v ===== *)
(** Byte-addressed physical memory with little-endian loads and stores.

    A memory is a finite map from physical addresses to bytes; an access to an
    address outside the map faults.  Pointers of the C code are addresses. *)
From coqutil Require Import Byte Word.LittleEndianList.
From stdpp Require Import gmap list list_numbers.
From Stdlib Require Import ZArith Lia.
From S2P Require Import Prelude.
Local Open Scope Z_scope.

Abbreviation mem := (gmap Z byte).

Definition NULL : Z := 0.

(** ** Accesses *)
Fixpoint load_bytes (m : mem) (a : Z) (n : nat) : option (list byte) :=
  match n with
  | O => Some []
  | S n => b ← m !! a; bs ← load_bytes m (a + 1) n; Some (b :: bs)
  end.

Fixpoint store_bytes (m : mem) (a : Z) (bs : list byte) : option mem :=
  match bs with
  | [] => Some m
  | b :: bs =>
      match m !! a with
      | Some _ => store_bytes (<[a := b]> m) (a + 1) bs
      | None => None
      end
  end.

Definition loadn (n : nat) (m : mem) (a : Z) : res Z :=
  bs ← of_option (load_bytes m a n); Ok (le_combine bs).

Definition storen (n : nat) (m : mem) (a v : Z) : res mem :=
  of_option (store_bytes m a (le_split n v)).

Abbreviation load8 := (loadn 1).
Abbreviation load16 := (loadn 2).
Abbreviation load32 := (loadn 4).
Abbreviation load64 := (loadn 8).
Abbreviation store8 := (storen 1).
Abbreviation store16 := (storen 2).
Abbreviation store32 := (storen 4).
Abbreviation store64 := (storen 8).

(** ** The total counterparts used in specifications *)

(** The [n] bytes from [a] on are backed by memory. *)
Definition backed (m : mem) (a n : Z) : Prop :=
  forall x, a <= x < a + n -> is_Some (m !! x).

(** The addresses of [n] bytes from [a] on. *)
Definition region (a n : Z) : Z -> Prop := fun x => a <= x < a + n.

Definition byte_at (m : mem) (a : Z) : byte := default Byte.x00 (m !! a).

Definition peekn (n : nat) (m : mem) (a : Z) : Z :=
  le_combine (byte_at m <$> seqZ a (Z.of_nat n)).

Fixpoint poke (m : mem) (a : Z) (bs : list byte) : mem :=
  match bs with
  | [] => m
  | b :: bs => poke (<[a := b]> m) (a + 1) bs
  end.

Definition poken (n : nat) (m : mem) (a v : Z) : mem := poke m a (le_split n v).

Abbreviation peek8 := (peekn 1).
Abbreviation peek16 := (peekn 2).
Abbreviation peek32 := (peekn 4).
Abbreviation peek64 := (peekn 8).
Abbreviation poke8 := (poken 1).
Abbreviation poke16 := (poken 2).
Abbreviation poke32 := (poken 4).
Abbreviation poke64 := (poken 8).

(** [m'] backs the same addresses as [m] and differs from it inside [P] only. *)
Record mem_upd (P : Z -> Prop) (m m' : mem) : Prop := {
  upd_extent : forall a, is_Some (m' !! a) <-> is_Some (m !! a);
  upd_outside : forall a, ~ P a -> m' !! a = m !! a
}.

(** ** Lookups after a write *)
Lemma lookup_le_split (n i : nat) v :
  (i < n)%nat -> le_split n v !! i = Some (byte.of_Z (Z.shiftr v (8 * Z.of_nat i))).
Proof.
  intros Hi. rewrite <- nth_error_le_split with (n := n) by done.
  generalize (le_split n v) as l. clear Hi. induction i as [|i IH]; intros [|b l]; try done.
  apply IH.
Qed.

Lemma lookup_poke bs : forall (m : mem) a x,
  poke m a bs !! x =
  if decide (a <= x < a + Z.of_nat (length bs)) then bs !! Z.to_nat (x - a) else m !! x.
Proof.
  induction bs as [|b bs IH]; intros m a x; cbn [poke length].
  - case_decide; [lia | done].
  - rewrite IH. destruct (decide (x = a)) as [->|Hne].
    + rewrite decide_False by lia. rewrite decide_True by lia.
      rewrite Z.sub_diag. apply lookup_insert_eq.
    + rewrite lookup_insert_ne by done.
      destruct (decide (a + 1 <= x < a + 1 + Z.of_nat (length bs))).
      * rewrite decide_True by lia.
        replace (Z.to_nat (x - a)) with (S (Z.to_nat (x - (a + 1)))) by lia. done.
      * rewrite decide_False by lia. done.
Qed.

Lemma lookup_poken n m a v x :
  poken n m a v !! x =
  if decide (a <= x < a + Z.of_nat n)
  then le_split n v !! Z.to_nat (x - a) else m !! x.
Proof. unfold poken. by rewrite lookup_poke, length_le_split. Qed.

Lemma lookup_poken_ne n m a v x :
  ~ region a (Z.of_nat n) x -> poken n m a v !! x = m !! x.
Proof. intros H. rewrite lookup_poken. by rewrite decide_False. Qed.

Lemma byte_at_poken n m a v i :
  0 <= i < Z.of_nat n ->
  byte_at (poken n m a v) (a + i) = byte.of_Z (Z.shiftr v (8 * i)).
Proof.
  intros Hi. unfold byte_at. rewrite lookup_poken, decide_True by lia.
  rewrite lookup_le_split by lia. simpl. do 2 f_equal. lia.
Qed.

(** ** Reading back *)
Lemma seqZ_byte_at m n : forall a bs,
  load_bytes m a n = Some bs -> bs = byte_at m <$> seqZ a (Z.of_nat n).
Proof.
  induction n as [|n IH]; intros a bs; cbn [load_bytes].
  - by intros [= <-].
  - destruct (m !! a) as [b|] eqn:Hb; simpl; [|done].
    destruct (load_bytes m (a + 1) n) as [l|] eqn:Hl; simpl; [|done].
    intros [= <-]. rewrite seqZ_cons by lia.
    replace (Z.pred (Z.of_nat (S n))) with (Z.of_nat n) by lia.
    cbn [fmap list_fmap]. unfold byte_at at 1. rewrite Hb.
    replace (Z.succ a) with (a + 1) by lia. by rewrite (IH _ _ Hl).
Qed.

Lemma load_bytes_backed n : forall m a,
  backed m a (Z.of_nat n) -> is_Some (load_bytes m a n).
Proof.
  induction n as [|n IH]; intros m a H; cbn [load_bytes]; [done|].
  destruct (H a) as [b ->]; [lia|]. simpl.
  destruct (IH m (a + 1)) as [l ->]; [|done].
  intros x Hx. apply H. lia.
Qed.

Lemma store_bytes_backed bs : forall m a,
  backed m a (Z.of_nat (length bs)) -> store_bytes m a bs = Some (poke m a bs).
Proof.
  induction bs as [|b bs IH]; intros m a H; cbn [store_bytes poke]; [done|].
  cbn [length] in H.
  destruct (H a) as [b' ->]; [lia|]. apply IH.
  intros x Hx. rewrite lookup_insert_ne by lia. apply H. lia.
Qed.

Lemma loadn_ok n m a : backed m a (Z.of_nat n) -> loadn n m a = Ok (peekn n m a).
Proof.
  intros H. unfold loadn, peekn. destruct (load_bytes_backed n m a H) as [l Hl].
  rewrite Hl. simpl. by rewrite (seqZ_byte_at m n a l Hl).
Qed.

Lemma storen_ok n m a v :
  backed m a (Z.of_nat n) -> storen n m a v = Ok (poken n m a v).
Proof.
  intros H. unfold storen. rewrite store_bytes_backed; [done|].
  by rewrite length_le_split.
Qed.

Lemma wp_loadn n m a Q :
  backed m a (Z.of_nat n) -> Q (peekn n m a) -> wp (loadn n m a) Q.
Proof. intros H HQ. by rewrite loadn_ok. Qed.

Lemma wp_storen n m a v Q :
  backed m a (Z.of_nat n) -> Q (poken n m a v) -> wp (storen n m a v) Q.
Proof. intros H HQ. by rewrite storen_ok. Qed.

(** ** Values *)
Lemma peekn_range n m a : 0 <= peekn n m a < 2 ^ (8 * Z.of_nat n).
Proof.
  unfold peekn.
  pose proof (le_combine_bound (byte_at m <$> seqZ a (Z.of_nat n))) as H.
  rewrite length_fmap, length_seqZ in H. by rewrite Nat2Z.id in H.
Qed.

Lemma peek64_range m a : 0 <= peek64 m a < 2 ^ 64.
Proof. exact (peekn_range 8 m a). Qed.

Lemma peekn_ext n m m' a :
  (forall x, region a (Z.of_nat n) x -> m !! x = m' !! x) -> peekn n m a = peekn n m' a.
Proof.
  intros H. unfold peekn. f_equal. apply list_fmap_ext. intros i x Hx.
  apply lookup_seqZ in Hx as [-> Hi]. unfold byte_at. rewrite H; [done|].
  unfold region. lia.
Qed.

Lemma byte_at_ext m m' a : m !! a = m' !! a -> byte_at m a = byte_at m' a.
Proof. intros H. unfold byte_at. by rewrite H. Qed.

Lemma peekn_poken_eq n m a v : peekn n (poken n m a v) a = v mod 2 ^ (8 * Z.of_nat n).
Proof.
  unfold peekn. replace (byte_at (poken n m a v) <$> seqZ a (Z.of_nat n)) with (le_split n v).
  { rewrite le_combine_split. f_equal. f_equal. lia. }
  apply list_eq. intros i. rewrite list_lookup_fmap.
  destruct (decide (i < n)%nat) as [Hi|Hi].
  - rewrite lookup_seqZ_lt by lia. simpl.
    rewrite byte_at_poken by lia.
    by rewrite lookup_le_split by lia.
  - rewrite lookup_seqZ_ge by lia. simpl. apply lookup_ge_None. rewrite length_le_split. lia.
Qed.

Lemma peekn_poken_ne n k m a b v :
  b + Z.of_nat k <= a \/ a + Z.of_nat n <= b ->
  peekn k (poken n m a v) b = peekn k m b.
Proof.
  intros H. apply peekn_ext. unfold region. intros x Hx.
  apply lookup_poken_ne. unfold region. lia.
Qed.

Lemma peek64_poke64_eq m a v : peek64 (poke64 m a v) a = u64 v.
Proof. exact (peekn_poken_eq 8 m a v). Qed.

Lemma peek64_poke64_ne m a b v :
  b + 8 <= a \/ a + 8 <= b -> peek64 (poke64 m a v) b = peek64 m b.
Proof. apply (peekn_poken_ne 8 8). Qed.

Lemma poken_mod n m a v : poken n m a (v mod 2 ^ (Z.of_nat n * 8)) = poken n m a v.
Proof. unfold poken. by rewrite <- le_split_mod. Qed.

(** Writing over a word, and writing back what was there. *)
Lemma poken_poken n m a x y : poken n (poken n m a x) a y = poken n m a y.
Proof.
  apply map_eq. intros i. rewrite !lookup_poken. by destruct (decide _).
Qed.

Lemma poken_peekn n m a : backed m a (Z.of_nat n) -> poken n m a (peekn n m a) = m.
Proof.
  intros Hb. apply map_eq. intros i. rewrite lookup_poken. case_decide as Hi; [|done].
  destruct (Hb i Hi) as [b Hl]. rewrite Hl. unfold peekn.
  rewrite split_le_combine' by (rewrite length_fmap, length_seqZ; lia).
  rewrite list_lookup_fmap, lookup_seqZ_lt by lia. simpl. unfold byte_at.
  replace (a + Z.of_nat (Z.to_nat (i - a))) with i by lia. by rewrite Hl.
Qed.

Lemma poke64_restore m a x : backed m a 8 -> poke64 (poke64 m a x) a (peek64 m a) = m.
Proof. intros Hb. by rewrite poken_poken, (poken_peekn 8). Qed.

(** A word that is all zero bytes reads as zero. *)
Lemma peekn_zero n m a :
  (forall x, region a (Z.of_nat n) x -> byte_at m x = Byte.x00) -> peekn n m a = 0.
Proof.
  intros H. unfold peekn. rewrite <- (le_combine_0 n). f_equal.
  revert a H. induction n as [|n IH]; intros a H; [done|].
  rewrite seqZ_cons by lia. cbn [fmap list_fmap List.repeat]. f_equal.
  - apply H. unfold region. lia.
  - replace (Z.pred (Z.of_nat (S n))) with (Z.of_nat n) by lia.
    apply IH. intros x Hx. apply H. unfold region in *. lia.
Qed.

(** ** Backed ranges and updates *)
Lemma backed_sub m a n b k : backed m a n -> a <= b -> b + k <= a + n -> backed m b k.
Proof. intros H H1 H2 x Hx. apply H. lia. Qed.

Lemma backed_poken n m b v a k : backed m a k -> backed (poken n m b v) a k.
Proof.
  intros B x Hx. rewrite lookup_poken. case_decide; [|by apply B].
  apply lookup_lt_is_Some. rewrite length_le_split. lia.
Qed.

#[export] Instance mem_upd_refl P : Reflexive (mem_upd P).
Proof. by split. Qed.

#[export] Instance mem_upd_trans P : Transitive (mem_upd P).
Proof.
  intros m1 m2 m3 [E1 O1] [E2 O2]. split; intros a.
  - by rewrite E2, E1.
  - intros H. by rewrite O2, O1.
Qed.

Lemma mem_upd_mono (P P' : Z -> Prop) m m' :
  mem_upd P m m' -> (forall a, P a -> P' a) -> mem_upd P' m m'.
Proof. intros [E O] H. split; [done|]. intros a Ha. apply O. auto. Qed.

Lemma mem_upd_poken n m a v :
  backed m a (Z.of_nat n) -> mem_upd (region a (Z.of_nat n)) m (poken n m a v).
Proof.
  intros H. split; intros x.
  - rewrite lookup_poken. case_decide; [|done]. split; [auto|].
    intros _. apply lookup_lt_is_Some. rewrite length_le_split. lia.
  - apply lookup_poken_ne.
Qed.

Lemma mem_upd_poke64 m a v : backed m a 8 -> mem_upd (region a 8) m (poke64 m a v).
Proof. apply (mem_upd_poken 8). Qed.

Lemma mem_upd_backed P m m' a n : mem_upd P m m' -> backed m' a n <-> backed m a n.
Proof. intros [E _]. unfold backed. by setoid_rewrite E. Qed.

Lemma mem_upd_peekn P m m' n a :
  mem_upd P m m' -> (forall x, region a (Z.of_nat n) x -> ~ P x) ->
  peekn n m' a = peekn n m a.
Proof. intros [_ O] H. apply peekn_ext. intros x Hx. apply O. by apply H. Qed.

Lemma mem_upd_peek64 P m m' a :
  mem_upd P m m' -> (forall x, a <= x < a + 8 -> ~ P x) -> peek64 m' a = peek64 m a.
Proof. intros H HP. by apply (mem_upd_peekn P). Qed.

Lemma mem_upd_byte_at P m m' a :
  mem_upd P m m' -> ~ P a -> byte_at m' a = byte_at m a.
Proof. intros [_ O] H. apply byte_at_ext. auto. Qed.

(** ** Concrete memories *)

(** [n] bytes of value [b] from [a] on, added to [m]. *)
Definition fill (m : mem) (a : Z) (n : nat) (b : byte) : mem := poke m a (replicate n b).

Lemma lookup_fill m a n b x :
  fill m a n b !! x = if decide (a <= x < a + Z.of_nat n) then Some b else m !! x.
Proof.
  unfold fill. rewrite lookup_poke, length_replicate. case_decide; [|done].
  apply lookup_replicate_2. lia.
Qed.

Lemma backed_fill m a n b x k :
  a <= x -> x + k <= a + Z.of_nat n -> backed (fill m a n b) x k.
Proof. intros H1 H2 y Hy. rewrite lookup_fill, decide_True by lia. done. Qed.

Lemma backed_fill_mono m a n b x k : backed m x k -> backed (fill m a n b) x k.
Proof. intros H y Hy. rewrite lookup_fill. case_decide; [done|]. by apply H. Qed.

Create HintDb mem discriminated.
#[export] Hint Resolve peekn_range peek64_range : mem.
