(* ===== verification/Physical.v ===== *)
(** The physical frame allocator: kernel/memory/physical.h and physical.c.

    A [pm_block] describes one region of physical memory; its bitmap lives in
    memory at the address [pb_map] holds.  The block structures themselves are
    records: reserve_pmm gives every block its own storage, so no two of them
    share a field. *)
From stdpp Require Import list.
From Stdlib Require Import ZArith Lia.
From S2P Require Import Prelude Memory.
Local Open Scope Z_scope.

Definition frame_size : Z := 4096.
Definition frame_map_size (frame_count : Z) : Z := u64 (frame_count + 63) / 64.

Inductive pm_type :=
  | PM_USABLE
  | PM_RECLAIMABLE
  | PM_ACPI_RECLAIM
  | PM_ACPI_NVS
  | PM_FIRMWARE
  | PM_MMIO
  | PM_RESERVED.

#[export] Instance pm_type_eq_dec : EqDecision pm_type.
Proof. solve_decision. Defined.

Record pm_block := {
  pb_address : Z;
  pb_frames_total : Z;
  pb_frames_free : Z;
  pb_map : Z;
  pb_type : pm_type;
  pb_attributes : Z
}.

(** [blocks] is the whole array of block slots, [block_count] how many are in use. *)
Record pmm := {
  blocks : list pm_block;
  block_count : Z
}.

(** block->frames_free = n *)
Definition set_frames_free (b : pm_block) (n : Z) : pm_block :=
  {| pb_address := pb_address b;
     pb_frames_total := pb_frames_total b;
     pb_frames_free := n;
     pb_map := pb_map b;
     pb_type := pb_type b;
     pb_attributes := pb_attributes b |}.

(** physical_memory->blocks[i], and an update of the block it points to *)
Definition get_block (pm : pmm) (i : Z) : res pm_block :=
  of_option (blocks pm !! Z.to_nat i).

Definition put_block (pm : pmm) (i : Z) (b : pm_block) : pmm :=
  {| blocks := <[Z.to_nat i := b]> (blocks pm); block_count := block_count pm |}.

(** &block->map[entry] *)
Definition map_word (b : pm_block) (entry : Z) : Z := pb_map b + 8 * entry.

(** ** One block *)
Definition frame_allocate_from_block (m : mem) (block : pm_block)
  : res (Z * (mem * pm_block)) :=
  after
    (for_range 0 (frame_map_size (pb_frames_total block)) (fun entry (_ : unit) =>
       w ← load64 m (map_word block entry);
       if w =? ALL_ONES then Ok (inl tt) else
       for_range 0 64 (fun bit (_ : unit) =>
         w ← load64 m (map_word block entry);
         if negb (Z.land w (Z.shiftl 1 bit) =? 0) then Ok (inl tt) else
         m' ← store64 m (map_word block entry) (Z.lor w (Z.shiftl 1 bit));
         let frame_offset := u64 (u64 (entry * 64) + bit) in
         let address := u64 (pb_address block + u64 (frame_offset * frame_size)) in
         let block' := set_frames_free block (u64 (pb_frames_free block - 1)) in
         Ok (inr (address, (m', block')))) tt) tt)
    (fun _ => Ok (ALL_ONES, (m, block))).

Definition frame_free_from_block (m : mem) (block : pm_block) (address : Z)
  : res (mem * pm_block) :=
  if pb_map block =? NULL then Ok (m, block) else
  let offset := u64 (address - pb_address block) in
  let frame_offset := offset / frame_size in
  let entry := frame_offset / 64 in
  let bit := frame_offset mod 64 in
  w ← load64 m (map_word block entry);
  let block' :=
    if negb (Z.land w (Z.shiftl 1 bit) =? 0)
    then set_frames_free block (u64 (pb_frames_free block + 1)) else block in
  m' ← store64 m (map_word block entry) (Z.land w (not64 (Z.shiftl 1 bit)));
  Ok (m', block').

Definition frame_is_used (m : mem) (block : pm_block) (frame : Z) : res Z :=
  w ← load64 m (map_word block (frame / 64));
  Ok (Z.land (Z.shiftr w (frame mod 64)) 1).

(** The inner loop of frames_allocate_from_block: claim frames [lo] to [hi - 1]. *)
Definition mark_frames (m : mem) (block : pm_block) (lo hi : Z) : res (mem + Z * (mem * pm_block)) :=
  for_range lo hi (fun f m =>
    w ← load64 m (map_word block (f / 64));
    m' ← store64 m (map_word block (f / 64)) (Z.lor w (Z.shiftl 1 (f mod 64)));
    Ok (inl m')) m.

Definition frames_allocate_from_block (m : mem) (block : pm_block) (count : Z)
  : res (Z * (mem * pm_block)) :=
  after
    (for_range 0 (pb_frames_total block) (fun frame '(run_start, run_length) =>
       used ← frame_is_used m block frame;
       if negb (used =? 0) then Ok (inl (run_start, 0)) else
       let run_start := if run_length =? 0 then frame else run_start in
       let run_length := u64 (run_length + 1) in
       if run_length <? count then Ok (inl (run_start, run_length)) else
       r ← after (mark_frames m block run_start (u64 (run_start + count))) (fun m' =>
         Ok (u64 (pb_address block + u64 (run_start * frame_size)),
             (m', set_frames_free block (u64 (pb_frames_free block - count)))));
       Ok (inr r)) (0, 0))
    (fun _ => Ok (ALL_ONES, (m, block))).

(** ** All blocks *)
Definition frame_allocate (m : mem) (physical_memory : pmm) : res (Z * (mem * pmm)) :=
  after
    (for_range 0 (block_count physical_memory) (fun i '(m, pm) =>
       block ← get_block pm i;
       if pb_frames_free block =? 0 then Ok (inl (m, pm)) else
       '(address, (m', block')) ← frame_allocate_from_block m block;
       let pm' := put_block pm i block' in
       if negb (address =? ALL_ONES) then Ok (inr (address, (m', pm')))
       else Ok (inl (m', pm'))) (m, physical_memory))
    (fun s => Ok (ALL_ONES, s)).

Definition frame_free (m : mem) (physical_memory : pmm) (address : Z) : res (mem * pmm) :=
  after
    (for_range 0 (block_count physical_memory) (fun i (_ : unit) =>
       block ← get_block physical_memory i;
       let end_ := u64 (pb_address block + u64 (pb_frames_total block * frame_size)) in
       if (pb_address block <=? address) && (address <? end_) then
         '(m', block') ← frame_free_from_block m block address;
         Ok (inr (m', put_block physical_memory i block'))
       else Ok (inl tt)) tt)
    (fun _ => Ok (m, physical_memory)).

Definition frames_allocate (m : mem) (physical_memory : pmm) (count : Z)
  : res (Z * (mem * pmm)) :=
  if count =? 0 then Ok (ALL_ONES, (m, physical_memory)) else
  after
    (for_range 0 (block_count physical_memory) (fun i '(m, pm) =>
       block ← get_block pm i;
       if (pb_map block =? NULL) || (pb_frames_free block <? count)
       then Ok (inl (m, pm)) else
       '(address, (m', block')) ← frames_allocate_from_block m block count;
       let pm' := put_block pm i block' in
       if negb (address =? ALL_ONES) then Ok (inr (address, (m', pm')))
       else Ok (inl (m', pm'))) (m, physical_memory))
    (fun s => Ok (ALL_ONES, s)).

(** sizeof(pm_block): four 8-byte fields, the enum padded to 8 bytes, one more field. *)
Definition sizeof_pm_block : Z := 48.

Definition get_pmm_size (physical_memory : pmm) : res Z :=
  after
    (for_range 0 (block_count physical_memory) (fun i length =>
       block ← get_block physical_memory i;
       let size := u64 (frame_map_size (pb_frames_total block) * 8) in
       Ok (inl (u64 (length + size))))
       (u64 (block_count physical_memory * sizeof_pm_block)))
    (fun length => Ok length).

(** ** The bitmap as a set of used frames *)

(** Frame [f] of the block is marked used. *)
Definition used (m : mem) (b : pm_block) (f : Z) : bool :=
  Z.testbit (peek64 m (map_word b (f / 64))) (f mod 64).

(** The memory after the mark of frame [f] has been set or cleared. *)
Definition set_used (m : mem) (b : pm_block) (f : Z) (v : bool) : mem :=
  let w := peek64 m (map_word b (f / 64)) in
  let bit := Z.shiftl 1 (f mod 64) in
  poke64 m (map_word b (f / 64)) (if v then Z.lor w bit else Z.land w (not64 bit)).

(** The bitmap's length in words, and its addresses. *)
Definition map_words (b : pm_block) : Z := (pb_frames_total b + 63) / 64.
Definition map_region (b : pm_block) : Z -> Prop := region (pb_map b) (8 * map_words b).

Definition frame_addr (b : pm_block) (f : Z) : Z := pb_address b + f * frame_size.

Definition free_count (m : mem) (b : pm_block) : Z :=
  Z.of_nat (length (filter (fun f => used m b f = false) (seqZ 0 (pb_frames_total b)))).

(** What the firmware's descriptors guarantee of a block: page aligned and
    within the 52-bit physical address space. *)
Record block_geom (b : pm_block) : Prop := {
  geom_total : 0 <= pb_frames_total b;
  geom_address : 0 <= pb_address b;
  geom_aligned : pb_address b mod frame_size = 0;
  geom_end : pb_address b + pb_frames_total b * frame_size <= 2 ^ 52
}.

(** A block with a bitmap: the bitmap is backed, the bits past the last frame
    are set, and [frames_free] counts the clear ones. *)
Record block_managed (m : mem) (b : pm_block) : Prop := {
  mng_geom : block_geom b;
  mng_map : pb_map b <> NULL;
  mng_backed : backed m (pb_map b) (8 * map_words b);
  mng_free : pb_frames_free b = free_count m b;
  mng_pad : forall f, pb_frames_total b <= f < 64 * map_words b -> used m b f = true
}.

(** Setting the counter changes nothing else. *)
Lemma map_words_set b n : map_words (set_frames_free b n) = map_words b.
Proof. done. Qed.

Lemma used_set_frames m b n : used m (set_frames_free b n) = used m b.
Proof. done. Qed.

Section block_facts.
Context (m : mem) (b : pm_block).

Lemma map_words_eq : block_geom b -> frame_map_size (pb_frames_total b) = map_words b.
Proof.
  intros [? ? ? He]. unfold frame_map_size, map_words, frame_size in *.
  rewrite u64_small; [done | zlia].
Qed.

Lemma map_words_bounds :
  block_geom b ->
  0 <= map_words b /\ pb_frames_total b <= 64 * map_words b < 2 ^ 41 /\
  64 * map_words b < pb_frames_total b + 64.
Proof. intros [? ? ? He]. unfold map_words, frame_size in *. zlia. Qed.

Lemma frame_word f :
  block_geom b -> 0 <= f < 64 * map_words b ->
  0 <= f / 64 < map_words b /\ 0 <= f mod 64 < 64.
Proof. intros G Hf. zlia. Qed.

Lemma backed_word e :
  block_managed m b -> 0 <= e < map_words b -> backed m (map_word b e) 8.
Proof.
  intros M He. apply (backed_sub m (pb_map b) (8 * map_words b));
    [apply M | unfold map_word; lia..].
Qed.

Lemma wp_load_map_word e Q :
  block_managed m b -> 0 <= e < map_words b ->
  Q (peek64 m (map_word b e)) -> wp (load64 m (map_word b e)) Q.
Proof. intros M He HQ. apply wp_loadn; [|done]. by apply backed_word. Qed.

Lemma wp_store_map_word e v Q :
  block_managed m b -> 0 <= e < map_words b ->
  Q (poke64 m (map_word b e) v) -> wp (store64 m (map_word b e) v) Q.
Proof. intros M He HQ. apply wp_storen; [|done]. by apply backed_word. Qed.

Lemma frame_split f : f = 64 * (f / 64) + f mod 64.
Proof. zlia. Qed.

Lemma used_word e bit :
  0 <= bit < 64 -> used m b (64 * e + bit) = Z.testbit (peek64 m (map_word b e)) bit.
Proof.
  intros Hb. unfold used. replace ((64 * e + bit) / 64) with e by zlia.
  by replace ((64 * e + bit) mod 64) with bit by zlia.
Qed.

Lemma used_set_used f v g :
  used (set_used m b f v) b g = if decide (g = f) then v else used m b g.
Proof.
  unfold used, set_used. pose proof (peek64_range m (map_word b (f / 64))) as Hw.
  pose proof (shiftl_1_range (f mod 64) 64 ltac:(zlia)) as Hbit.
  destruct (decide (g / 64 = f / 64)) as [He|He].
  - rewrite He, peek64_poke64_eq, u64_small.
    2:{ destruct v; [apply lor_range | apply land_range]; zlia. }
    destruct v; [rewrite testbit_set by zlia | rewrite testbit_clear by zlia];
      case_decide as Hg.
    + subst. by rewrite Z.eqb_refl, orb_true_r.
    + rewrite (proj2 (Z.eqb_neq _ _)) by zlia. apply orb_false_r.
    + subst. by rewrite Z.eqb_refl, andb_false_r.
    + rewrite (proj2 (Z.eqb_neq _ _)) by zlia. apply andb_true_r.
  - rewrite decide_False by congruence.
    rewrite peek64_poke64_ne; [done|]. unfold map_word. lia.
Qed.

Lemma set_used_upd f v :
  block_managed m b -> 0 <= f < 64 * map_words b ->
  mem_upd (map_region b) m (set_used m b f v).
Proof.
  intros M Hf. destruct (frame_word f) as [He _]; [apply M | done |].
  eapply mem_upd_mono; [apply mem_upd_poke64, backed_word; [exact M | done] |].
  unfold map_region, region, map_word. lia.
Qed.
End block_facts.

(** ** Marking frames *)
Section block_marks.
Context (m : mem) (b : pm_block).

(** Changing one mark keeps the block consistent once the counter follows. *)
Lemma managed_set_used f v n :
  block_managed m b -> 0 <= f < pb_frames_total b ->
  n = free_count (set_used m b f v) b ->
  block_managed (set_used m b f v) (set_frames_free b n).
Proof.
  intros M Hf Hn. pose proof (map_words_bounds b (mng_geom _ _ M)) as Hw.
  pose proof (set_used_upd m b f v M ltac:(lia)) as U.
  destruct M as [G Hmap Hb _ Hp]. split; [by destruct G | done | | done |].
  - by apply (proj2 (mem_upd_backed _ _ _ _ _ U)).
  - intros g Hg. change (used (set_used m b f v) b g = true).
    rewrite used_set_used, decide_False by (simpl in Hg; lia). by apply Hp.
Qed.

(** The counters before and after setting a clear mark. *)
Lemma free_count_set f :
  0 <= f < pb_frames_total b -> used m b f = false ->
  free_count m b = 1 + free_count (set_used m b f true) b.
Proof.
  intros Hf Hu. unfold free_count.
  rewrite (filter_length_flip _ (fun g => used (set_used m b f true) b g = false) _ f).
  - lia.
  - apply NoDup_seqZ.
  - apply elem_of_seqZ. lia.
  - done.
  - by rewrite used_set_used, decide_True.
  - intros g _ Hg. by rewrite used_set_used, decide_False.
Qed.

Lemma free_count_clear f :
  0 <= f < pb_frames_total b -> used m b f = true ->
  free_count (set_used m b f false) b = 1 + free_count m b.
Proof.
  intros Hf Hu. unfold free_count.
  rewrite (filter_length_flip (fun g => used (set_used m b f false) b g = false)
             (fun g => used m b g = false) _ f).
  - lia.
  - apply NoDup_seqZ.
  - apply elem_of_seqZ. lia.
  - by rewrite used_set_used, decide_True.
  - by rewrite Hu.
  - intros g _ Hg. by rewrite used_set_used, decide_False.
Qed.

Lemma free_count_bounds : 0 <= pb_frames_total b -> 0 <= free_count m b <= pb_frames_total b.
Proof.
  intros H. unfold free_count.
  pose proof (length_filter (fun f => used m b f = false) (seqZ 0 (pb_frames_total b))) as Hl.
  rewrite length_seqZ in Hl. lia.
Qed.

Lemma free_count_pos f :
  0 <= f < pb_frames_total b -> used m b f = false -> 0 < free_count m b.
Proof. intros Hf Hu. rewrite (free_count_set f Hf Hu). unfold free_count. lia. Qed.
End block_marks.

(** Writes outside the bitmap leave the block as it is. *)
Section elsewhere.
Context (P : Z -> Prop) (m m' : mem) (b : pm_block) (U : mem_upd P m m').
Context (HP : forall x, map_region b x -> ~ P x).

Lemma used_upd f : 0 <= f < 64 * map_words b -> used m' b f = used m b f.
Proof using U HP.
  intros Hf. unfold used. f_equal. apply (mem_upd_peek64 _ _ _ _ U). intros x Hx. apply HP.
  unfold map_region, region, map_word in *. zlia.
Qed.

Lemma managed_upd : block_managed m b -> block_managed m' b.
Proof using U HP.
  intros [G H0 Hb Hf Hp]. pose proof (map_words_bounds b G) as Hw.
  split; [done | done | by apply (mem_upd_backed _ _ _ _ _ U) | |].
  - rewrite Hf. unfold free_count. f_equal. apply filter_length_ext.
    intros f Hin%elem_of_seqZ. by rewrite used_upd by lia.
  - intros f Hf'. rewrite used_upd; [by apply Hp | destruct G; lia].
Qed.
End elsewhere.

(** ** What the operations on one block do *)

(** The first free frame of the block, if there is one. *)
Definition first_free (m : mem) (b : pm_block) (f : Z) : Prop :=
  0 <= f < pb_frames_total b /\ used m b f = false /\
  forall g, 0 <= g < f -> used m b g = true.

Definition all_used (m : mem) (b : pm_block) : Prop :=
  forall f, 0 <= f < pb_frames_total b -> used m b f = true.

(** A successful allocation claims the first free frame. *)
Definition took_first (m : mem) (b : pm_block) (r : Z * (mem * pm_block)) : Prop :=
  exists f, first_free m b f /\
    r = (frame_addr b f,
         (set_used m b f true, set_frames_free b (pb_frames_free b - 1))).

Lemma frame_addr_u64 b f :
  block_geom b -> 0 <= f < pb_frames_total b ->
  u64 (pb_address b + u64 (f * frame_size)) = frame_addr b f /\
  0 <= frame_addr b f < 2 ^ 52 /\ frame_addr b f mod frame_size = 0.
Proof.
  intros [? ? Ha He] Hf. unfold frame_addr, frame_size in *.
  rewrite (u64_small (f * 4096)) by zlia. rewrite u64_small by zlia. zlia.
Qed.

(** A claim of frame [f], as the stores of the C code perform it. *)
Lemma set_used_word m b e bit :
  0 <= bit < 64 ->
  poke64 m (map_word b e) (Z.lor (peek64 m (map_word b e)) (Z.shiftl 1 bit)) =
  set_used m b (64 * e + bit) true.
Proof.
  intros Hb. unfold set_used. replace ((64 * e + bit) / 64) with e by zlia.
  by replace ((64 * e + bit) mod 64) with bit by zlia.
Qed.

Section allocate_from_block.
Context (m : mem) (b : pm_block) (M : block_managed m b).

(** The bits of word [entry] below [bit], and all earlier words, are set. *)
Let scanned (n : Z) : Prop := forall g, 0 <= g < n -> used m b g = true.

Lemma scanned_all_ones e :
  0 <= e -> peek64 m (map_word b e) = ALL_ONES -> scanned (64 * e) -> scanned (64 * (e + 1)).
Proof using Type.
  intros He Hw Hs g Hg. destruct (decide (g < 64 * e)) as [|Hge]; [apply Hs; lia|].
  rewrite (frame_split g). replace (g / 64) with e by zlia.
  rewrite used_word by zlia. rewrite Hw, testbit_ALL_ONES by zlia. apply Z.ltb_lt. zlia.
Qed.

Lemma scanned_first f :
  0 <= f < 64 * map_words b -> scanned f -> used m b f = false -> first_free m b f.
Proof using M.
  intros Hf Hs Hu. split_and!; [lia | | done..].
  destruct (Z.lt_ge_cases f (pb_frames_total b)) as [|Hge]; [done|].
  rewrite (mng_pad _ _ M) in Hu; [done | lia].
Qed.

(** One iteration of the inner loop. *)
Lemma wp_try_bit e bit :
  0 <= e < map_words b -> 0 <= bit < 64 -> scanned (64 * e + bit) ->
  wp (w ← load64 m (map_word b e);
      if negb (Z.land w (Z.shiftl 1 bit) =? 0) then Ok (inl tt) else
      m' ← store64 m (map_word b e) (Z.lor w (Z.shiftl 1 bit));
      let frame_offset := u64 (u64 (e * 64) + bit) in
      let address := u64 (pb_address b + u64 (frame_offset * frame_size)) in
      let block' := set_frames_free b (u64 (pb_frames_free b - 1)) in
      Ok (inr (address, (m', block'))))
    (loop_post (fun _ : unit => scanned (64 * e + (bit + 1))) (took_first m b)).
Proof using M.
  intros He Hb Hs. pose proof (map_words_bounds b (mng_geom _ _ M)) as Hw.
  wp_step. apply wp_load_map_word; [done..|].
  rewrite land_bit, negb_involutive, <- (used_word m b e bit) by lia.
  destruct (used m b (64 * e + bit)) eqn:Hu.
  - wp_ret. intros g Hg. destruct (decide (g = 64 * e + bit)) as [->|]; [done|]. apply Hs. lia.
  - wp_step. apply wp_store_map_word; [done..|]. wp_ret.
    assert (F : first_free m b (64 * e + bit)) by (apply scanned_first; [lia | done..]).
    exists (64 * e + bit). split; [done|]. rewrite set_used_word by done.
    pose proof (free_count_pos m b (64 * e + bit) (proj1 F) Hu) as Hpos.
    pose proof (free_count_bounds m b ltac:(lia)) as Hle.
    rewrite <- (mng_free _ _ M) in Hpos, Hle.
    rewrite (u64_small (e * 64)) by zlia. rewrite (u64_small (e * 64 + bit)) by zlia.
    rewrite (u64_small (pb_frames_free b - 1)) by zlia.
    replace (e * 64 + bit) with (64 * e + bit) by lia.
    by rewrite (proj1 (frame_addr_u64 b _ (mng_geom _ _ M) (proj1 F))).
Qed.

Lemma wp_frame_allocate_from_block :
  wp (frame_allocate_from_block m b) (fun r =>
    took_first m b r \/ (all_used m b /\ r = (ALL_ONES, (m, b)))).
Proof using M.
  pose proof (map_words_bounds b (mng_geom _ _ M)) as Hw.
  unfold frame_allocate_from_block. rewrite map_words_eq by apply M. wp_step.
  eapply wp_mono.
  - apply (wp_for_range (fun e _ => scanned (64 * e)) (took_first m b)); [lia | intros g; lia |].
    intros e _ He Hs. wp_step. apply wp_load_map_word; [done..|].
    destruct (Z.eqb_spec (peek64 m (map_word b e)) ALL_ONES) as [Hones|_].
    { wp_ret. apply scanned_all_ones; [lia | done..]. }
    eapply wp_mono.
    + apply (wp_for_range (fun bit _ => scanned (64 * e + bit)) (took_first m b));
        [lia | by rewrite Z.add_0_r |].
      intros bit [] Hbit Hs'. by apply wp_try_bit.
    + intros [u|r]; simpl; [|done]. by replace (64 * e + 64) with (64 * (e + 1)) by lia.
  - intros [u|r] H; wp_ret; [|by left]. simpl in H. right. split; [|done].
    intros f Hf. apply H. lia.
Qed.
End allocate_from_block.

(** [m'], [b'] are [m], [b] after frames [lo] to [hi - 1], all free before, were claimed. *)
Record claimed (m : mem) (b : pm_block) (lo hi : Z) (m' : mem) (b' : pm_block) : Prop := {
  clm_block : b' = set_frames_free b (pb_frames_free b - (hi - lo));
  clm_managed : block_managed m' b';
  clm_upd : mem_upd (map_region b) m m';
  clm_used : forall g, used m' b g = bool_decide (lo <= g < hi) || used m b g
}.

(** [n] free frames from [s] on. *)
Definition free_run (m : mem) (b : pm_block) (s n : Z) : Prop :=
  0 <= s /\ s + n <= pb_frames_total b /\ forall f, s <= f < s + n -> used m b f = false.

(** The first such run. *)
Definition first_run (m : mem) (b : pm_block) (s n : Z) : Prop :=
  free_run m b s n /\ forall t, t < s -> ~ free_run m b t n.

Lemma claimed_refl m b lo : block_managed m b -> claimed m b lo lo m b.
Proof.
  intros M. split; [| done | done |].
  - rewrite Z.sub_diag, Z.sub_0_r. by destruct b.
  - intros g. by rewrite bool_decide_eq_false_2 by lia.
Qed.

Lemma claimed_step m b lo f m1 b1 :
  claimed m b lo f m1 b1 -> lo <= f -> 0 <= f < pb_frames_total b -> used m b f = false ->
  claimed m b lo (f + 1) (set_used m1 b f true) (set_frames_free b1 (pb_frames_free b1 - 1)).
Proof.
  intros [-> M U Hu] Hlo Hf Hb.
  assert (Hf1 : used m1 b f = false).
  { by rewrite Hu, Hb, bool_decide_eq_false_2 by lia. }
  pose proof (map_words_bounds _ (mng_geom _ _ M)) as Hw. cbn in Hw.
  split.
  - unfold set_frames_free. cbn. f_equal. lia.
  - apply (managed_set_used m1 (set_frames_free b _) f true); [done | done |].
    rewrite (mng_free _ _ M), (free_count_set m1 _ f); [|done..].
    change (free_count (set_used m1 (set_frames_free b ?n) f true) (set_frames_free b ?n))
      with (free_count (set_used m1 b f true) b). lia.
  - etrans; [exact U |].
    apply (set_used_upd m1 (set_frames_free b (pb_frames_free b - (f - lo)))); [done |].
    cbn. change (map_words (set_frames_free b _)) with (map_words b) in *. lia.
  - intros g. rewrite used_set_used, Hu. repeat case_bool_decide; case_decide; try done; lia.
Qed.

Lemma claimed_first m b f :
  block_managed m b -> 0 <= f < pb_frames_total b -> used m b f = false ->
  claimed m b f (f + 1) (set_used m b f true) (set_frames_free b (pb_frames_free b - 1)).
Proof. intros M Hf Hu. eapply claimed_step; [by apply claimed_refl | lia | done..]. Qed.

Section mark_frames.
Context (m : mem) (b : pm_block) (M : block_managed m b).

Lemma wp_mark_frames s n :
  0 <= n -> free_run m b s n ->
  wp (mark_frames m b s (s + n)) (loop_post (fun m' =>
    claimed m b s (s + n) m' (set_frames_free b (pb_frames_free b - n))) (fun _ => False)).
Proof using M.
  intros Hn (Hs & Hsn & Hfree). pose proof (map_words_bounds b (mng_geom _ _ M)) as Hw.
  unfold mark_frames. eapply wp_mono.
  - apply (wp_for_range (fun f m1 => exists b1, claimed m b s f m1 b1) (fun _ => False));
      [lia | exists b; by apply claimed_refl |].
    intros f m1 Hf [b1 C]. pose proof (clm_managed _ _ _ _ _ _ C) as M1.
    pose proof (clm_block _ _ _ _ _ _ C) as ->.
    wp_step. apply (wp_load_map_word m1 _ (f / 64) _ M1); [rewrite map_words_set; zlia|].
    wp_step. apply (wp_store_map_word m1 _ (f / 64) _ _ M1); [rewrite map_words_set; zlia|]. wp_ret.
    eexists. apply (claimed_step _ _ _ _ _ _ C); [lia | lia |]. apply Hfree. lia.
  - intros [m'|r] H; [|done]. destruct H as [b' C]. simpl.
    pose proof (clm_block _ _ _ _ _ _ C) as Hb'. by rewrite Z.add_simpl_l in Hb'; subst b'.
Qed.
End mark_frames.

Lemma wp_frame_is_used m b f Q :
  block_managed m b -> 0 <= f < pb_frames_total b ->
  Q (c_bool (used m b f)) -> wp (frame_is_used m b f) Q.
Proof.
  intros M Hf HQ. pose proof (map_words_bounds b (mng_geom _ _ M)) as Hw.
  unfold frame_is_used. wp_step. apply wp_load_map_word; [done | zlia |]. wp_ret.
  by rewrite shiftr_land_1 by zlia.
Qed.

(** A successful contiguous allocation claims the first run that is long enough. *)
Definition took_run (m : mem) (b : pm_block) (count : Z) (r : Z * (mem * pm_block)) : Prop :=
  exists s m' b', first_run m b s count /\ claimed m b s (s + count) m' b' /\
    r = (frame_addr b s, (m', b')).

(** No frame of the block starts [count] free ones. *)
Definition no_run (m : mem) (b : pm_block) (count : Z) : Prop :=
  forall s, ~ free_run m b s count.

Lemma free_count_run m b s n :
  block_managed m b -> 0 <= n -> free_run m b s n -> n <= pb_frames_free b.
Proof.
  intros M Hn R. pose proof (wp_mark_frames m b M s n Hn R) as H.
  apply wp_inv in H as ([m'|r] & _ & H); [|done]. simpl in H.
  pose proof (mng_free _ _ (clm_managed _ _ _ _ _ _ H)) as Hc.
  pose proof (free_count_bounds m' b) as Hb. destruct (mng_geom _ _ M).
  unfold free_count in Hc, Hb. simpl in Hc. rewrite used_set_frames in Hc. lia.
Qed.

Section allocate_run.
Context (m : mem) (b : pm_block) (M : block_managed m b) (count : Z) (Hcount : 1 <= count < 2 ^ 64).

(** The scan has passed the frames below [frame] without finding a run; the
    last [rl] of them, from [rs] on, are free, and the one before is not. *)
Definition scan_state (frame : Z) (st : Z * Z) : Prop :=
  let '(rs, rl) := st in
  0 <= rl < count /\ rl <= frame /\ (0 < rl -> rs = frame - rl) /\
  (forall f, frame - rl <= f < frame -> used m b f = false) /\
  (rl < frame -> used m b (frame - rl - 1) = true) /\
  (forall t, t + count <= frame -> ~ free_run m b t count).

Lemma scan_used frame rs rl :
  0 <= frame -> scan_state frame (rs, rl) -> used m b frame = true ->
  scan_state (frame + 1) (rs, 0).
Proof using Hcount.
  intros Hf (Hrl & _ & _ & Hfree & _ & Hno) Hu.
  split_and!; [lia.. | | |]; [intros; lia | intros _; by replace (frame + 1 - 0 - 1) with frame by lia |].
  intros t Ht R. destruct (decide (t + count <= frame)) as [|Hgt]; [by apply (Hno t)|].
  destruct R as (_ & _ & R). rewrite R in Hu; [done | lia].
Qed.

Lemma scan_run_free frame rs rl f :
  scan_state frame (rs, rl) -> used m b frame = false ->
  frame - rl <= f < frame + 1 -> used m b f = false.
Proof using Type.
  intros (_ & _ & _ & Hfree & _) Hu Hf.
  destruct (decide (f = frame)) as [->|]; [done | apply Hfree; lia].
Qed.

Lemma scan_free frame rs rl :
  0 <= frame -> scan_state frame (rs, rl) -> used m b frame = false -> rl + 1 < count ->
  scan_state (frame + 1) (frame - rl, rl + 1).
Proof using Hcount.
  intros Hf Hst Hu Hlt. pose proof (scan_run_free frame rs rl) as Hrun.
  pose proof Hst as (Hrl & Hle & _ & Hfree & Hmax & Hno).
  split_and!; [lia.. | | |].
  - intros f Hf'. apply Hrun; [done | done | lia].
  - intros Hlt'. replace (frame + 1 - (rl + 1) - 1) with (frame - rl - 1) by lia. apply Hmax. lia.
  - intros t Ht R. destruct (decide (t + count <= frame)) as [|Hgt]; [by apply (Hno t)|].
    destruct R as (H0 & _ & R).
    pose proof (R (frame - rl - 1) ltac:(lia)). pose proof (Hmax ltac:(lia)). congruence.
Qed.

Lemma scan_found frame rs rl :
  0 <= frame < pb_frames_total b -> scan_state frame (rs, rl) -> used m b frame = false ->
  count <= rl + 1 -> first_run m b (frame - rl) count /\ rl + 1 = count.
Proof using Type.
  intros Hf Hst Hu Hge. pose proof (scan_run_free frame rs rl) as Hrun.
  pose proof Hst as (Hrl & Hle & _ & _ & _ & Hno).
  split; [|lia]. split.
  - split_and!; [lia.. |]. intros f Hf'. apply Hrun; [done | done | lia].
  - intros t Ht. apply Hno. lia.
Qed.

Lemma wp_frames_allocate_from_block :
  wp (frames_allocate_from_block m b count) (fun r =>
    took_run m b count r \/ (no_run m b count /\ r = (ALL_ONES, (m, b)))).
Proof using M Hcount.
  pose proof (map_words_bounds b (mng_geom _ _ M)) as Hw. destruct (mng_geom _ _ M) as [Ht _ _ _].
  unfold frames_allocate_from_block. wp_step. eapply wp_mono.
  - apply (wp_for_range scan_state (took_run m b count)); [done | |].
    { split_and!; try lia. intros t Hle (H0 & _). lia. }
    intros frame [rs rl] Hf Hst. wp_step. apply wp_frame_is_used; [done..|].
    destruct (used m b frame) eqn:Hu; cbn [c_bool negb Z.eqb].
    { wp_ret. by apply (scan_used frame rs rl); [lia|..]. }
    pose proof Hst as (Hrl & Hle & Hrs & _).
    assert (Hstart : (if rl =? 0 then frame else rs) = frame - rl).
    { destruct (Z.eqb_spec rl 0); [lia | apply Hrs; lia]. }
    rewrite Hstart, (u64_small (rl + 1)) by lia.
    destruct (Z.ltb_spec (rl + 1) count) as [Hlt|Hge].
    { wp_ret. by apply (scan_free frame rs rl); [lia|..]. }
    destruct (scan_found frame rs rl) as [F Hlen]; [done..|].
    rewrite (u64_small (frame - rl + count)) by zlia.
    wp_step. wp_step. eapply wp_mono; [apply wp_mark_frames; [done | lia | apply F] |].
    intros [m'|] C; [|done]. simpl in C. wp_ret.
    pose proof (free_count_run m b _ count M ltac:(lia) (proj1 F)) as Hcf.
    pose proof (free_count_bounds m b Ht) as Hbd. rewrite <- (mng_free _ _ M) in Hbd.
    rewrite (u64_small (pb_frames_free b - count)) by zlia.
    eexists _, _, _. split_and!; [exact F | exact C |].
    by rewrite (proj1 (frame_addr_u64 b (frame - rl) (mng_geom _ _ M) ltac:(lia))).
  - intros [[rs rl]|r] H; wp_ret; [|by left]. right. split; [|done].
    destruct H as (_ & _ & _ & _ & _ & Hno). intros s R. apply (Hno s); [apply R | done].
Qed.
End allocate_run.

Section free_from_block.
Context (m : mem) (b : pm_block) (M : block_managed m b).

(** The block after [frame_free_from_block] of its frame [f]. *)
Definition released (f : Z) : mem * pm_block :=
  (set_used m b f false,
   if used m b f then set_frames_free b (pb_frames_free b + 1) else b).

Lemma managed_released f :
  0 <= f < pb_frames_total b ->
  block_managed (released f).1 (released f).2.
Proof using M.
  intros Hf. unfold released. destruct (used m b f) eqn:Hu; cbn [fst snd].
  - apply managed_set_used; [done..|].
    rewrite (free_count_clear m b f), (mng_free _ _ M) by done. lia.
  - replace b with (set_frames_free b (pb_frames_free b)) at 2 by (by destruct b).
    apply managed_set_used; [done..|]. rewrite (mng_free _ _ M).
    unfold free_count. f_equal. apply filter_length_ext. intros g _.
    rewrite used_set_used. case_decide; [|done]. subst. by rewrite Hu.
Qed.

Lemma wp_frame_free_from_block a f :
  0 <= f < pb_frames_total b -> frame_addr b f <= a < frame_addr b (f + 1) ->
  wp (frame_free_from_block m b a) (fun r => r = released f).
Proof using M.
  intros Hf Ha. pose proof (map_words_bounds b (mng_geom _ _ M)) as Hw.
  pose proof (free_count_bounds m b ltac:(lia)) as Hbd. rewrite <- (mng_free _ _ M) in Hbd.
  pose proof (mng_geom _ _ M) as [_ H0 _ He].
  unfold frame_addr, frame_size in *.
  unfold frame_free_from_block. rewrite (proj2 (Z.eqb_neq _ _) (mng_map _ _ M)).
  rewrite (u64_small (a - pb_address b)) by zlia. unfold frame_size.
  replace ((a - pb_address b) / 4096) with f by zlia.
  wp_step. apply wp_load_map_word; [done | zlia |].
  wp_step. apply wp_store_map_word; [done | zlia |]. wp_ret.
  unfold released, set_used. rewrite land_bit, negb_involutive by zlia.
  change (Z.testbit _ (f mod 64)) with (used m b f).
  by rewrite (u64_small (pb_frames_free b + 1)) by zlia.
Qed.
End free_from_block.
