(* ===== verification/FrameAllocator.v ===== *)
(** The interface between the physical frame allocator and its clients (the
    page tables and the heap): the operations they call and the laws they rely
    on.  Physical.v implements the operations, PhysicalSpec.v proves the laws. *)
From stdpp Require Import base.
From Stdlib Require Import ZArith Lia.
From S2P Require Import Prelude Memory Physical.
Local Open Scope Z_scope.

(** The operations of kernel/memory/physical.h on an allocator of type [A]. *)
Class FrameAllocator (A : Type) := {
  fa_allocate : mem -> A -> res (Z * (mem * A));
  fa_free : mem -> A -> Z -> res (mem * A);
  fa_allocate_run : mem -> A -> Z -> res (Z * (mem * A))
}.

(** What is known of a frame that may be handed out: it is page aligned, not
    frame 0, within the physical address space, backed, and holds none of the
    allocator's own data ([priv]). *)
Record frame_ok (m : mem) (priv : Z -> Prop) (a : Z) : Prop := {
  frame_pos : 0 < a;
  frame_aligned : a mod frame_size = 0;
  frame_end : a + frame_size <= 2 ^ 52;
  frame_backed : backed m a frame_size;
  frame_not_priv : forall x, region a frame_size x -> ~ priv x
}.

(** Frames do not overlap. *)
Lemma frames_disjoint a b x :
  a mod frame_size = 0 -> b mod frame_size = 0 -> a <> b ->
  region a frame_size x -> ~ region b frame_size x.
Proof. unfold region, frame_size. intros. zlia. Qed.

(** [avail m A a]: frame [a] is free; [owned A a]: frame [a] is one the allocator
    manages; [priv A]: the bytes the allocator keeps its bitmaps in; [layout A]:
    what it manages, all that no operation changes; [has_run m A n]: there are [n] free
    frames in a row that a run can be taken from. *)
Class FrameAllocatorLaws (A : Type) `{FrameAllocator A} := {
  fa_inv : mem -> A -> Prop;
  avail : mem -> A -> Z -> Prop;
  owned : A -> Z -> Prop;
  priv : A -> Z -> Prop;
  has_run : mem -> A -> Z -> Prop;
  Layout : Type;
  layout : A -> Layout;
  layout_owned s s' : layout s' = layout s -> forall a, owned s' a <-> owned s a;
  (** every operation keeps the invariant and the layout, and writes to the
      allocator's own data only *)
  fa_step (m : mem) (s : A) (m' : mem) (s' : A) : Prop :=
    fa_inv m' s' /\ mem_upd (priv s) m m' /\
    (forall x, priv s' x <-> priv s x) /\ layout s' = layout s;
  avail_ok m s a : fa_inv m s -> avail m s a -> frame_ok m (priv s) a;
  avail_owned m s a : avail m s a -> owned s a;
  (** writes elsewhere do not disturb the allocator *)
  fa_stable P m m' s :
    fa_inv m s -> mem_upd P m m' -> (forall x, P x -> ~ priv s x) ->
    fa_inv m' s /\ forall a, avail m' s a <-> avail m s a;
  fa_allocate_spec m s :
    fa_inv m s ->
    wp (fa_allocate m s) (fun '(r, (m', s')) =>
      (r = ALL_ONES /\ m' = m /\ s' = s /\ forall a, ~ avail m s a) \/
      (avail m s r /\ fa_step m s m' s' /\
       forall a, avail m' s' a <-> avail m s a /\ a <> r));
  fa_allocate_run_spec m s count :
    fa_inv m s -> 1 <= count < 2 ^ 64 ->
    wp (fa_allocate_run m s count) (fun '(r, (m', s')) =>
      (r = ALL_ONES /\ m' = m /\ s' = s /\ ~ has_run m s count) \/
      (r + count * frame_size <= 2 ^ 52 /\
       (forall i, 0 <= i < count -> avail m s (r + i * frame_size)) /\
       fa_step m s m' s' /\
       forall a, avail m' s' a <->
         avail m s a /\ forall i, 0 <= i < count -> a <> r + i * frame_size));
  fa_free_spec m s a :
    fa_inv m s -> owned s a -> frame_ok m (priv s) a ->
    wp (fa_free m s a) (fun '(m', s') =>
      fa_step m s m' s' /\ forall x, avail m' s' x <-> avail m s x \/ x = a)
}.

#[export] Instance pmm_allocator : FrameAllocator pmm := {
  fa_allocate := frame_allocate;
  fa_free := frame_free;
  fa_allocate_run := frames_allocate
}.
