(* ===== verification/PhysicalSpec.v ===== *)
(** The frame allocator over all blocks: its invariant, what each operation of
    physical.c does to the set of free frames, and the [FrameAllocator] laws. *)
From stdpp Require Import list.
From Stdlib Require Import ZArith Lia.
From S2P Require Import Prelude Memory Physical FrameAllocator.
Local Open Scope Z_scope.

(** Block [b] is in use, at index [i]. *)
Definition active (pm : pmm) (i : Z) (b : pm_block) : Prop :=
  0 <= i < block_count pm /\ blocks pm !! Z.to_nat i = Some b.

(** Frame [f] of an active block with a bitmap. *)
Definition frame_of (pm : pmm) (i : Z) (b : pm_block) (f : Z) : Prop :=
  active pm i b /\ pb_map b <> NULL /\ 0 <= f < pb_frames_total b.

Definition pmm_owned (pm : pmm) (a : Z) : Prop :=
  exists i b f, frame_of pm i b f /\ a = frame_addr b f.

Definition pmm_avail (m : mem) (pm : pmm) (a : Z) : Prop :=
  exists i b f, frame_of pm i b f /\ used m b f = false /\ a = frame_addr b f.

(** The bytes of the bitmaps. *)
Definition pmm_priv (pm : pmm) (x : Z) : Prop :=
  exists i b, active pm i b /\ pb_map b <> NULL /\ map_region b x.

(** The blocks but for their counters: what no operation changes. *)
Definition pmm_layout (pm : pmm) : list pm_block * Z :=
  ((fun b => set_frames_free b 0) <$> blocks pm, block_count pm).

Definition block_end (b : pm_block) : Z := pb_address b + pb_frames_total b * frame_size.

Record pmm_inv (m : mem) (pm : pmm) : Prop := {
  inv_count : 0 <= block_count pm <= Z.of_nat (length (blocks pm));
  inv_geom : forall i b, active pm i b -> block_geom b;
  inv_unmanaged : forall i b, active pm i b -> pb_map b = NULL -> pb_frames_free b = 0;
  inv_managed : forall i b, active pm i b -> pb_map b <> NULL -> block_managed m b;
  inv_disjoint : forall i j b c, i <> j -> active pm i b -> active pm j c ->
    block_end b <= pb_address c \/ block_end c <= pb_address b;
  inv_maps : forall i j b c x, i <> j -> active pm i b -> active pm j c ->
    pb_map b <> NULL -> pb_map c <> NULL -> map_region b x -> ~ map_region c x;
  inv_avail : forall a, pmm_avail m pm a -> frame_ok m (pmm_priv pm) a
}.

Lemma active_lookup pm i b : active pm i b -> get_block pm i = Ok b.
Proof. intros [_ H]. unfold get_block. by rewrite H. Qed.

Lemma active_exists m pm i :
  pmm_inv m pm -> 0 <= i < block_count pm -> exists b, active pm i b.
Proof.
  intros Hinv Hi. destruct (inv_count _ _ Hinv) as [_ Hc].
  destruct (lookup_lt_is_Some_2 (blocks pm) (Z.to_nat i)) as [b Hb]; [lia|]. by exists b.
Qed.

Lemma active_inj pm i b c : active pm i b -> active pm i c -> b = c.
Proof. intros [_ H1] [_ H2]. congruence. Qed.

Lemma put_block_same pm i b : active pm i b -> put_block pm i b = pm.
Proof. intros [_ H]. destruct pm. unfold put_block. simpl in *. by rewrite list_insert_id. Qed.

Lemma frame_addr_bounds b f :
  0 <= f < pb_frames_total b ->
  pb_address b <= frame_addr b f /\ frame_addr b f + frame_size <= block_end b.
Proof. unfold frame_addr, block_end, frame_size. lia. Qed.

(** A frame address determines its block and its number there. *)
Lemma frame_of_inj m pm i j b c f g :
  pmm_inv m pm -> frame_of pm i b f -> frame_of pm j c g -> frame_addr b f = frame_addr c g ->
  i = j /\ b = c /\ f = g.
Proof.
  intros Hinv (A1 & _ & F1) (A2 & _ & F2) He.
  pose proof (frame_addr_bounds b f F1). pose proof (frame_addr_bounds c g F2).
  destruct (decide (i = j)) as [->|Hij].
  - rewrite (active_inj _ _ _ _ A1 A2) in *. split_and!; [done..|].
    unfold frame_addr, frame_size in He. lia.
  - destruct (inv_disjoint _ _ Hinv i j b c Hij A1 A2); unfold frame_size in *; lia.
Qed.

(** Two states of one allocator have the same blocks, up to the counters. *)
Lemma layout_active pm pm' i b :
  pmm_layout pm' = pmm_layout pm -> active pm i b -> exists n, active pm' i (set_frames_free b n).
Proof.
  intros [Hl Hc]%pair_eq [Hi Hb].
  assert (Hf : ((fun b => set_frames_free b 0) <$> blocks pm') !! Z.to_nat i = Some (set_frames_free b 0))
    by (by rewrite Hl, list_lookup_fmap, Hb).
  rewrite list_lookup_fmap in Hf. destruct (blocks pm' !! Z.to_nat i) as [c|] eqn:Hc'; [|done].
  simpl in Hf. exists (pb_frames_free c). split; [by rewrite Hc|]. rewrite Hc'. f_equal.
  destruct b, c. unfold set_frames_free in *. simpl in *. congruence.
Qed.

Lemma pmm_layout_owned pm pm' :
  pmm_layout pm' = pmm_layout pm -> forall a, pmm_owned pm' a <-> pmm_owned pm a.
Proof.
  assert (H1 : forall p q a, pmm_layout q = pmm_layout p -> pmm_owned p a -> pmm_owned q a).
  { intros p q a Hl (i & b & f & (A & Hm & Hf) & ->).
    destruct (layout_active _ _ _ _ Hl A) as [n A']. by exists i, (set_frames_free b n), f. }
  intros Hl a. split; by apply H1.
Qed.

(** ** Replacing one block by a new version of itself *)
Section update.
Context (m : mem) (pm : pmm) (Hinv : pmm_inv m pm).
Context (i : Z) (b : pm_block) (Ab : active pm i b) (Hmap : pb_map b <> NULL).
Context (m' : mem) (n : Z).
Let b' := set_frames_free b n.
Let pm' := put_block pm i b'.
Context (M' : block_managed m' b') (U : mem_upd (map_region b) m m').

Lemma active_put j c :
  active pm' j c <-> (j = i /\ c = b') \/ (j <> i /\ active pm j c).
Proof using Ab.
  destruct Ab as [Hi Hb]. unfold active, pm', put_block. cbn [block_count blocks].
  assert (Hlt : (Z.to_nat i < length (blocks pm))%nat) by (by eapply lookup_lt_Some).
  split.
  - intros [Hj Hc]. destruct (decide (j = i)) as [->|Hne]; [left | right; split; [done|]].
    + rewrite list_lookup_insert_eq in Hc by done. split; congruence.
    + rewrite list_lookup_insert_ne in Hc by lia. done.
  - intros [[-> ->]|(Hne & Hj & Hc)].
    + split; [done|]. by rewrite list_lookup_insert_eq.
    + split; [done|]. by rewrite list_lookup_insert_ne by lia.
Qed.

(** An active block of the new state is one of the old state, but for its counter. *)
Lemma active_put_old j c :
  active pm' j c -> exists c0 k, active pm j c0 /\ c = set_frames_free c0 k.
Proof using Ab.
  intros H. apply active_put in H as [[-> ->]|[_ H]]; [by exists b, n|].
  exists c, (pb_frames_free c). split; [done | by destruct c].
Qed.

Lemma active_put_new j c :
  active pm j c -> exists k, active pm' j (set_frames_free c k).
Proof using Ab.
  intros H. destruct (decide (j = i)) as [->|Hne].
  - rewrite (active_inj _ _ _ _ H Ab). exists n. apply active_put. by left.
  - exists (pb_frames_free c). apply active_put. right. split; [done|].
    destruct c. exact H.
Qed.

Lemma priv_put x : pmm_priv pm' x <-> pmm_priv pm x.
Proof using Ab.
  split.
  - intros (j & c & A & Hm & Hx). apply active_put_old in A as (c0 & k & A & ->). by exists j, c0.
  - intros (j & c & A & Hm & Hx). apply active_put_new in A as [k A]. by eexists j, _.
Qed.

Lemma layout_put : pmm_layout pm' = pmm_layout pm.
Proof using Ab.
  destruct Ab as [_ Hb]. unfold pmm_layout, pm', put_block. cbn [blocks block_count]. f_equal.
  rewrite list_fmap_insert. apply list_insert_id. by rewrite list_lookup_fmap, Hb.
Qed.

Lemma used_other j c f :
  j <> i -> frame_of pm j c f -> used m' c f = used m c f.
Proof using Ab Hmap Hinv U.
  intros Hne (A & Hm & Hf). pose proof (map_words_bounds c (inv_geom _ _ Hinv _ _ A)).
  apply (used_upd _ _ _ c U); [|lia]. intros x. by apply (inv_maps _ _ Hinv j i c b x).
Qed.

Lemma avail_put a :
  pmm_avail m' pm' a <->
  (exists f, 0 <= f < pb_frames_total b /\ a = frame_addr b f /\ used m' b f = false) \/
  (pmm_avail m pm a /\ forall f, 0 <= f < pb_frames_total b -> a <> frame_addr b f).
Proof using Ab Hmap Hinv U.
  split.
  - intros (j & c & f & (A & Hm & Hf) & Hu & ->). apply active_put in A as [[-> ->]|[Hne A]].
    + left. by exists f.
    + right. assert (F : frame_of pm j c f) by done.
      rewrite (used_other j c f Hne F) in Hu. split; [by exists j, c, f|].
      intros g Hg He. destruct (frame_of_inj m pm j i c b f g Hinv F); [|done..].
      by split.
  - intros [(f & Hf & -> & Hu)|[(j & c & f & F & Hu & ->) Hno]].
    + exists i, b', f. split; [|done]. split; [|done]. apply active_put. by left.
    + destruct (decide (j = i)) as [->|Hne].
      { destruct F as (A & _ & Hf). rewrite (active_inj _ _ _ _ A Ab) in *. by destruct (Hno f). }
      exists j, c, f. rewrite (used_other j c f Hne F). split; [|done].
      destruct F as (A & ?). split; [|done]. apply active_put. by right.
Qed.

Lemma frame_ok_put a : frame_ok m (pmm_priv pm) a -> frame_ok m' (pmm_priv pm') a.
Proof using Ab U.
  intros [? ? ? Hb Hp]. split; [done.. | |].
  - by apply (mem_upd_backed _ _ _ _ _ U).
  - intros x Hx. rewrite priv_put. by apply Hp.
Qed.

Lemma managed_other j c : j <> i -> active pm j c -> pb_map c <> NULL -> block_managed m' c.
Proof using Ab Hmap Hinv U.
  intros Hne A Hm. apply (managed_upd _ _ _ c U); [|by apply (inv_managed _ _ Hinv j)].
  intros x. by apply (inv_maps _ _ Hinv j i c b x).
Qed.

(** The invariant survives if every frame that became free may be handed out. *)
Lemma pmm_update :
  (forall f, 0 <= f < pb_frames_total b -> used m' b f = false ->
     pmm_avail m pm (frame_addr b f) \/ frame_ok m (pmm_priv pm) (frame_addr b f)) ->
  pmm_inv m' pm'.
Proof using Ab Hmap Hinv M' U.
  intros Hnew. split.
  - unfold pm', put_block. simpl. rewrite length_insert. apply Hinv.
  - intros j c A. apply active_put in A as [[-> ->]|[_ A]]; [apply M' | by apply (inv_geom _ _ Hinv j)].
  - intros j c A Hm. apply active_put in A as [[-> ->]|[_ A]]; [done | by apply (inv_unmanaged _ _ Hinv j)].
  - intros j c A Hm. apply active_put in A as [[-> ->]|[Hne A]]; [done | by apply (managed_other j)].
  - intros j k c d Hne A1 A2.
    apply active_put_old in A1 as (c0 & ? & A1 & ->). apply active_put_old in A2 as (d0 & ? & A2 & ->).
    exact (inv_disjoint _ _ Hinv j k c0 d0 Hne A1 A2).
  - intros j k c d x Hne A1 A2 H1 H2.
    apply active_put_old in A1 as (c0 & ? & A1 & ->). apply active_put_old in A2 as (d0 & ? & A2 & ->).
    exact (inv_maps _ _ Hinv j k c0 d0 x Hne A1 A2 H1 H2).
  - intros a Ha. apply frame_ok_put. apply avail_put in Ha as [(f & Hf & -> & Hu)|[Ha _]].
    + destruct (Hnew f Hf Hu) as [Ha|]; [by apply (inv_avail _ _ Hinv) | done].
    + by apply (inv_avail _ _ Hinv).
Qed.
End update.

(** ** The operations on all blocks *)

(** Blocks before index [n] have no free frame. *)
Definition exhausted (m : mem) (pm : pmm) (n : Z) : Prop :=
  forall i b f, i < n -> frame_of pm i b f -> used m b f = true.

Definition took_frame (m : mem) (pm : pmm) (r : Z * (mem * pmm)) : Prop :=
  exists i b f, frame_of pm i b f /\ first_free m b f /\ exhausted m pm i /\
    r = (frame_addr b f,
         (set_used m b f true, put_block pm i (set_frames_free b (pb_frames_free b - 1)))).

(** The first block that has a long enough run serves a contiguous request. *)
Definition took_frames (m : mem) (pm : pmm) (count : Z) (r : Z * (mem * pmm)) : Prop :=
  exists i b s m' b', active pm i b /\ pb_map b <> NULL /\ first_run m b s count /\
    (forall j c, j < i -> active pm j c -> pb_map c <> NULL -> no_run m c count) /\
    claimed m b s (s + count) m' b' /\ r = (frame_addr b s, (m', put_block pm i b')).

Definition gave_frame (m : mem) (pm : pmm) (a : Z) (r : mem * pmm) : Prop :=
  exists i b f, frame_of pm i b f /\ frame_addr b f <= a < frame_addr b (f + 1) /\
    r = ((released m b f).1, put_block pm i (released m b f).2).

Section operations.
Context (m : mem) (pm : pmm) (Hinv : pmm_inv m pm).

Lemma managed_of i b f : frame_of pm i b f -> block_managed m b.
Proof using Hinv. intros (A & Hm & _). by apply (inv_managed _ _ Hinv i). Qed.

Lemma frame_addr_not_ones i b f : frame_of pm i b f -> frame_addr b f <> ALL_ONES.
Proof using Hinv.
  intros F. pose proof (managed_of _ _ _ F) as M. destruct F as (_ & _ & Hf).
  destruct (frame_addr_u64 b f (mng_geom _ _ M) Hf) as (_ & H & _). unfold ALL_ONES. zlia.
Qed.

(** A block whose counter is not zero has a bitmap. *)
Lemma counted_managed i b : active pm i b -> pb_frames_free b <> 0 -> pb_map b <> NULL.
Proof using Hinv. intros A Hf Hm. by apply Hf, (inv_unmanaged _ _ Hinv i). Qed.

Lemma exhausted_step i b :
  active pm i b -> (pb_map b <> NULL -> all_used m b) -> exhausted m pm i ->
  exhausted m pm (i + 1).
Proof using Type.
  intros A Hall He j c f Hj F. destruct (decide (j = i)) as [->|].
  - destruct F as (A' & Hm & Hf). rewrite (active_inj _ _ _ _ A' A) in *. by apply Hall.
  - apply (He j c f); [lia | done].
Qed.

Lemma zero_all_used i b :
  active pm i b -> pb_frames_free b = 0 -> pb_map b <> NULL -> all_used m b.
Proof using Hinv.
  intros A Hz Hm f Hf. pose proof (inv_managed _ _ Hinv i b A Hm) as M.
  destruct (used m b f) eqn:Hu; [done|].
  pose proof (free_count_pos m b f Hf Hu) as Hp. rewrite <- (mng_free _ _ M) in Hp. lia.
Qed.

Lemma wp_frame_allocate :
  wp (frame_allocate m pm) (fun r =>
    took_frame m pm r \/ (exhausted m pm (block_count pm) /\ r = (ALL_ONES, (m, pm)))).
Proof using Hinv.
  unfold frame_allocate. wp_step. eapply wp_mono.
  - apply (wp_for_range (fun i s => s = (m, pm) /\ exhausted m pm i) (took_frame m pm)).
    + apply (inv_count _ _ Hinv).
    + split; [done|]. intros i b f Hi ((? & _) & _). lia.
    + intros i s Hi [-> He]. destruct (active_exists _ _ _ Hinv Hi) as [b A].
      rewrite (active_lookup _ _ _ A). cbn [mbind res_bind].
      destruct (Z.eqb_spec (pb_frames_free b) 0) as [Hz|Hnz].
      { wp_ret. split; [done|]. apply (exhausted_step i b A); [|done]. by apply (zero_all_used i). }
      pose proof (counted_managed i b A Hnz) as Hm.
      pose proof (inv_managed _ _ Hinv i b A Hm) as M.
      wp_step. eapply wp_mono; [by apply wp_frame_allocate_from_block |].
      intros r [(f & F & ->)|[Hall ->]].
      * assert (Fr : frame_of pm i b f) by (split; [done | split; [done | apply F]]).
        rewrite (proj2 (Z.eqb_neq _ _) (frame_addr_not_ones i b f Fr)). wp_ret. by exists i, b, f.
      * cbn. rewrite (put_block_same _ _ _ A). split; [done|]. by apply (exhausted_step i b A).
  - intros [s|r] H; [destruct H as [-> H] | ]; wp_ret; [by right | by left].
Qed.

Lemma no_run_free_lt b count :
  block_managed m b -> 1 <= count -> pb_frames_free b < count -> no_run m b count.
Proof using Type.
  intros M Hc Hlt s R. pose proof (free_count_run m b s count M ltac:(lia) R). lia.
Qed.

Lemma wp_frames_allocate count :
  1 <= count < 2 ^ 64 ->
  wp (frames_allocate m pm count) (fun r =>
    took_frames m pm count r \/
    ((forall i b, active pm i b -> pb_map b <> NULL -> no_run m b count) /\
     r = (ALL_ONES, (m, pm)))).
Proof using Hinv.
  intros Hcount. unfold frames_allocate. rewrite (proj2 (Z.eqb_neq count 0)) by lia.
  wp_step. eapply wp_mono.
  - apply (wp_for_range (fun i s => s = (m, pm) /\
      forall j c, j < i -> active pm j c -> pb_map c <> NULL -> no_run m c count)
      (took_frames m pm count)).
    + apply (inv_count _ _ Hinv).
    + split; [done|]. intros j c Hj [? _]. lia.
    + intros i s Hi [-> He]. destruct (active_exists _ _ _ Hinv Hi) as [b A].
      assert (Hnext : (pb_map b <> NULL -> no_run m b count) ->
        forall j c, j < i + 1 -> active pm j c -> pb_map c <> NULL -> no_run m c count).
      { intros Hb j c Hj A' Hm. destruct (decide (j = i)) as [->|]; [|apply (He j c); [lia | done..]].
        rewrite (active_inj _ _ _ _ A' A) in *. by apply Hb. }
      rewrite (active_lookup _ _ _ A). cbn [mbind res_bind].
      destruct (Z.eqb_spec (pb_map b) NULL) as [Hz|Hm]; cbn [orb].
      { wp_ret. split; [done|]. by apply Hnext. }
      pose proof (inv_managed _ _ Hinv i b A Hm) as M.
      destruct (Z.ltb_spec (pb_frames_free b) count) as [Hlt|Hge].
      { wp_ret. split; [done|]. apply Hnext. intros _. apply no_run_free_lt; [done | lia | done]. }
      wp_step. eapply wp_mono; [by apply wp_frames_allocate_from_block |].
      intros r [(s & m' & b' & F & C & ->)|[Hno ->]].
      * assert (Fr : frame_of pm i b s).
        { split; [done|]. split; [done|]. destruct F as [(? & ? & _) _]. lia. }
        rewrite (proj2 (Z.eqb_neq _ _) (frame_addr_not_ones i b s Fr)). wp_ret.
        by exists i, b, s, m', b'.
      * cbn. rewrite (put_block_same _ _ _ A). split; [done|]. by apply Hnext.
  - intros [s|r] H; [destruct H as [-> H] | ]; wp_ret; [right; split; [|done] | by left].
    intros i b A. apply (H i b); [apply A | done].
Qed.

Lemma block_end_u64 b :
  block_geom b ->
  u64 (pb_address b + u64 (pb_frames_total b * frame_size)) = block_end b.
Proof using Type.
  intros [? ? _ He]. unfold block_end, frame_size in *.
  rewrite (u64_small (_ * _)) by zlia. apply u64_small. zlia.
Qed.

(** The frame of a block that an address falls into. *)
Lemma frame_at b a :
  pb_address b <= a < block_end b ->
  let f := (a - pb_address b) / frame_size in
  0 <= f < pb_frames_total b /\ frame_addr b f <= a < frame_addr b (f + 1).
Proof using Type. unfold block_end, frame_addr, frame_size. intros H. zlia. Qed.

Lemma wp_free_here i b a :
  active pm i b -> pb_address b <= a < block_end b ->
  wp (frame_free_from_block m b a) (fun '(m', b') =>
    gave_frame m pm a (m', put_block pm i b') \/
    ((forall j c f, frame_of pm j c f -> ~ frame_addr c f <= a < frame_addr c (f + 1)) /\
     (m', put_block pm i b') = (m, pm))).
Proof using Hinv.
  intros A Ha. destruct (frame_at b a Ha) as [Hf Hfa].
  destruct (decide (pb_map b = NULL)) as [Hz|Hm].
  - unfold frame_free_from_block. rewrite Hz, Z.eqb_refl. wp_ret. right.
    rewrite (put_block_same _ _ _ A). split; [|done]. intros j c f (A' & Hm & Hf') Hac.
    destruct (decide (j = i)) as [->|Hne].
    { rewrite (active_inj _ _ _ _ A' A) in *. done. }
    pose proof (frame_addr_bounds c f Hf').
    destruct (inv_disjoint _ _ Hinv j i c b Hne A' A); unfold frame_addr, frame_size in *; lia.
  - eapply wp_mono; [apply wp_frame_free_from_block; [by apply (inv_managed _ _ Hinv i) | done..] |].
    intros [m' b'] Hr. left. exists i, b, ((a - pb_address b) / frame_size).
    rewrite <- Hr. split; [by unfold frame_of | done].
Qed.

(** frame_free: the first block that contains the address takes it back,
    unless it has no bitmap. *)
Lemma wp_frame_free a :
  wp (frame_free m pm a) (fun r =>
    gave_frame m pm a r \/
    ((forall i b f, frame_of pm i b f -> ~ frame_addr b f <= a < frame_addr b (f + 1)) /\
     r = (m, pm))).
Proof using Hinv.
  unfold frame_free. wp_step. eapply wp_mono.
  - apply (wp_for_range (fun i _ => forall j c, j < i -> active pm j c ->
        ~ pb_address c <= a < block_end c)
      (fun r => gave_frame m pm a r \/ ((forall i b f, frame_of pm i b f ->
        ~ frame_addr b f <= a < frame_addr b (f + 1)) /\ r = (m, pm)))).
    + apply (inv_count _ _ Hinv).
    + intros j c Hj [? _]. lia.
    + intros i [] Hi He. destruct (active_exists _ _ _ Hinv Hi) as [b A].
      rewrite (active_lookup _ _ _ A). cbn [mbind res_bind].
      pose proof (inv_geom _ _ Hinv i b A) as G. rewrite (block_end_u64 b G).
      destruct ((pb_address b <=? a) && (a <? block_end b)) eqn:Hin.
      * wp_step. eapply wp_mono; [apply (wp_free_here i b a A); lia |].
        by intros [m' b'].
      * wp_ret. intros j c Hj A'. destruct (decide (j = i)) as [->|]; [|apply (He j c); [lia | done]].
        rewrite (active_inj _ _ _ _ A' A). lia.
  - intros [[]|r] H; wp_ret; [right; split; [|done] | done].
    intros i b f (A & _ & Hf) Ha. apply (H i b); [apply A | done |].
    unfold block_end, frame_addr, frame_size in *. lia.
Qed.
End operations.

(** ** The effect on the set of free frames *)

(** The invariant is kept and only the bitmaps are written. *)
Definition pmm_step (m : mem) (pm : pmm) (m' : mem) (pm' : pmm) : Prop :=
  pmm_inv m' pm' /\ mem_upd (pmm_priv pm) m m' /\
  (forall x, pmm_priv pm' x <-> pmm_priv pm x) /\
  pmm_layout pm' = pmm_layout pm.

Section effects.
Context (m : mem) (pm : pmm) (Hinv : pmm_inv m pm).

Lemma map_region_priv i b x :
  active pm i b -> pb_map b <> NULL -> map_region b x -> pmm_priv pm x.
Proof using Type. intros. by exists i, b. Qed.

Lemma step_put i b m' n :
  active pm i b -> pb_map b <> NULL -> block_managed m' (set_frames_free b n) ->
  mem_upd (map_region b) m m' ->
  (forall f, 0 <= f < pb_frames_total b -> used m' b f = false ->
     pmm_avail m pm (frame_addr b f) \/ frame_ok m (pmm_priv pm) (frame_addr b f)) ->
  pmm_step m pm m' (put_block pm i (set_frames_free b n)).
Proof using Hinv.
  intros A Hm M' U Hnew. split_and!.
  - by apply (pmm_update m pm Hinv i b A Hm).
  - eapply mem_upd_mono; [exact U |]. intros x. by apply (map_region_priv i).
  - by apply priv_put.
  - by apply layout_put.
Qed.

(** Claiming frames of one block removes exactly them from the free set. *)
Lemma claimed_step_put i b lo hi m' b' :
  active pm i b -> pb_map b <> NULL -> claimed m b lo hi m' b' ->
  pmm_step m pm m' (put_block pm i b') /\
  forall a, pmm_avail m' (put_block pm i b') a <->
    pmm_avail m pm a /\ forall f, lo <= f < hi -> 0 <= f < pb_frames_total b -> a <> frame_addr b f.
Proof using Hinv.
  intros A Hm [-> M U Hu]. split.
  - apply step_put; [done..|]. intros f Hf Hfree. left. exists i, b, f.
    split; [done|]. split; [|done]. rewrite Hu in Hfree. by apply orb_false_iff in Hfree as [_ ->].
  - intros a. rewrite (avail_put m pm Hinv i b A Hm m' _ U a). split.
    + intros [(f & Hf & -> & Hfree)|[Ha Hne]]; [|split; auto].
      rewrite Hu in Hfree. apply orb_false_iff in Hfree as [Hr Hfree].
      apply bool_decide_eq_false in Hr. split; [by exists i, b, f|].
      intros g Hg _ He. unfold frame_addr, frame_size in He.
      assert (f = g) by lia. by subst g.
    + intros [(j & c & f & F & Hfree & ->) Hne].
      destruct (decide (j = i)) as [->|Hji].
      * left. pose proof F as (A' & _ & Hf). rewrite (active_inj _ _ _ _ A' A) in *.
        exists f. split_and!; [lia | lia | done |]. rewrite Hu, Hfree, orb_false_r.
        apply bool_decide_eq_false. intros Hr. by apply (Hne f).
      * right. split; [by exists j, c, f|]. intros g Hg He.
        by destruct (frame_of_inj m pm j i c b f g Hinv F).
Qed.

Lemma took_frame_effect r m' pm' :
  took_frame m pm (r, (m', pm')) ->
  pmm_avail m pm r /\ pmm_step m pm m' pm' /\
  forall a, pmm_avail m' pm' a <-> pmm_avail m pm a /\ a <> r.
Proof using Hinv.
  intros (i & b & f & F & (Hf & Hu & _) & _ & [= -> -> ->]).
  pose proof (managed_of m pm Hinv i b f F) as M. pose proof F as (A & Hm & _).
  destruct (claimed_step_put i b f (f + 1) (set_used m b f true)
    (set_frames_free b (pb_frames_free b - 1))) as [S Hav]; [done..| by apply claimed_first |].
  split_and!; [by exists i, b, f | done |]. intros a. rewrite Hav. split; intros [Ha Hne]; split; auto.
  - apply Hne; lia.
  - intros g Hg _. replace g with f by lia. done.
Qed.

Lemma took_frames_effect count r m' pm' :
  1 <= count -> took_frames m pm count (r, (m', pm')) ->
  r + count * frame_size <= 2 ^ 52 /\
  (forall i, 0 <= i < count -> pmm_avail m pm (r + i * frame_size)) /\
  pmm_step m pm m' pm' /\
  forall a, pmm_avail m' pm' a <->
    pmm_avail m pm a /\ forall i, 0 <= i < count -> a <> r + i * frame_size.
Proof using Hinv.
  intros Hc (i & b & s & m1 & b' & A & Hm & [(Hs & Hst & Hfree) _] & _ & C & [= -> -> ->]).
  destruct (claimed_step_put i b s (s + count) m1 b' A Hm C) as [S Hav].
  assert (Haddr : forall k, frame_addr b s + k * frame_size = frame_addr b (s + k))
    by (unfold frame_addr, frame_size; lia).
  destruct (inv_geom _ _ Hinv i b A) as [_ _ _ He].
  split_and!; [| | done |].
  - unfold frame_addr, frame_size in *. zlia.
  - intros k Hk. rewrite Haddr. exists i, b, (s + k). split; [|split; [apply Hfree; lia | done]].
    split_and!; [done | done | lia | lia].
  - intros a. rewrite Hav. split; intros [Ha Hne]; split; auto.
    + intros k Hk. rewrite Haddr. apply Hne; lia.
    + intros f Hf _. replace f with (s + (f - s)) by lia. rewrite <- Haddr. apply Hne. lia.
Qed.

Lemma gave_frame_effect a m' pm' :
  gave_frame m pm a (m', pm') ->
  frame_ok m (pmm_priv pm) (a - a mod frame_size) ->
  pmm_step m pm m' pm' /\
  forall x, pmm_avail m' pm' x <-> pmm_avail m pm x \/ x = a - a mod frame_size.
Proof using Hinv.
  intros (i & b & f & F & Ha & Hr) Hok.
  apply pair_eq in Hr as [-> ->].
  pose proof (managed_of m pm Hinv i b f F) as M. pose proof F as (A & Hm & Hf).
  assert (Hpage : a - a mod frame_size = frame_addr b f).
  { pose proof (geom_aligned _ (mng_geom _ _ M)). unfold frame_addr, frame_size in *. zlia. }
  rewrite Hpage in *. pose proof (map_words_bounds b (mng_geom _ _ M)) as Hw.
  pose proof (managed_released m b M f Hf) as M'.
  assert (Hset : exists n, (released m b f).2 = set_frames_free b n).
  { unfold released. destruct (used m b f); [by eexists | exists (pb_frames_free b); by destruct b]. }
  destruct Hset as [n Hn]. rewrite Hn in *.
  assert (U : mem_upd (map_region b) m (released m b f).1) by (apply set_used_upd; [done | lia]).
  assert (Hu : forall g, used (released m b f).1 b g = if decide (g = f) then false else used m b g)
    by (intros g; apply used_set_used).
  split.
  - apply step_put; [done..|]. intros g Hg. rewrite Hu. case_decide; [subst; by right |].
    intros Hfree. left. by exists i, b, g.
  - intros x. rewrite (avail_put m pm Hinv i b A Hm _ _ U x). split.
    + intros [(g & Hg & -> & Hfree)|[Hx _]]; [|by left]. rewrite Hu in Hfree.
      case_decide; [subst; by right | left; by exists i, b, g].
    + intros [(j & c & g & Fg & Hfree & ->)| ->].
      * destruct (decide (j = i)) as [->|Hji].
        -- left. pose proof Fg as (A' & _ & Hg). rewrite (active_inj _ _ _ _ A' A) in *.
           exists g. split_and!; [lia | lia | done |]. rewrite Hu. by case_decide.
        -- right. split; [by exists j, c, g|]. intros h Hh He.
           by destruct (frame_of_inj m pm j i c b g h Hinv Fg).
      * left. exists f. split_and!; [lia | lia | done |]. rewrite Hu. by rewrite decide_True.
Qed.

Lemma pmm_stable P m' :
  mem_upd P m m' -> (forall x, P x -> ~ pmm_priv pm x) ->
  pmm_inv m' pm /\ forall a, pmm_avail m' pm a <-> pmm_avail m pm a.
Proof using Hinv.
  intros U HP.
  assert (Hu : forall i b f, active pm i b -> pb_map b <> NULL -> 0 <= f < 64 * map_words b ->
    used m' b f = used m b f).
  { intros i b f A Hm Hf. apply (used_upd _ _ _ b U); [|done]. intros x Hx Px.
    apply (HP x Px). by apply (map_region_priv i b). }
  assert (Hav : forall a, pmm_avail m' pm a <-> pmm_avail m pm a).
  { intros a. split; intros (i & b & f & F & Hfree & ->); exists i, b, f; split_and!; try done;
      pose proof F as (A & Hm & Hf);
      pose proof (map_words_bounds b (inv_geom _ _ Hinv i b A));
      [rewrite <- (Hu i b f A Hm ltac:(lia)) | rewrite (Hu i b f A Hm ltac:(lia))]; done. }
  split; [|done]. destruct Hinv as [? Hg ? Hman ? ? Hok]. split; try done.
  - intros i b A Hm. apply (managed_upd _ _ _ b U); [|by apply (Hman i)].
    intros x Hx Px. apply (HP x Px). by apply (map_region_priv i b).
  - intros a Ha. apply Hav in Ha. destruct (Hok a Ha) as [? ? ? Hb Hp]. split; try done.
    by apply (mem_upd_backed _ _ _ _ _ U).
Qed.
End effects.

(** ** The laws *)

(** A run is taken from a single block. *)
Definition pmm_has_run (m : mem) (pm : pmm) (count : Z) : Prop :=
  exists i b s, active pm i b /\ pb_map b <> NULL /\ free_run m b s count.

#[export, refine] Instance pmm_laws : FrameAllocatorLaws pmm := {
  fa_inv := pmm_inv;
  avail := pmm_avail;
  owned := pmm_owned;
  priv := pmm_priv;
  has_run := pmm_has_run;
  layout := pmm_layout
}.
Proof.
  - intros pm pm'. apply pmm_layout_owned.
  - intros m pm a Hinv. apply (inv_avail _ _ Hinv).
  - intros m pm a (i & b & f & F & _ & ->). by exists i, b, f.
  - intros P m m' pm Hinv U HP. by apply (pmm_stable m pm Hinv P m').
  - intros m pm Hinv. eapply wp_mono; [by apply wp_frame_allocate |].
    intros [r [m' pm']] [T|[He [= -> -> ->]]].
    + right. destruct (took_frame_effect m pm Hinv r m' pm' T) as (? & ? & ?). done.
    + left. split_and!; [done..|]. intros a (i & b & f & F & Hu & ->).
      rewrite (He i b f) in Hu; [done | apply F | done].
  - intros m pm count Hinv Hc. eapply wp_mono; [by apply wp_frames_allocate |].
    intros [r [m' pm']] [T|[Hno [= -> -> ->]]]; [right | left].
    2: { do 3 (split; [done|]). intros (i & b & s & A & Hm & R). by apply (Hno i b A Hm s). }
    apply (took_frames_effect m pm Hinv count r m' pm'); [lia | done].
  - intros m pm a Hinv (i & b & f & F & ->) Hok.
    eapply wp_mono; [by apply wp_frame_free |]. intros [m' pm'] [G|[Hno _]].
    + assert (Ha : frame_addr b f - frame_addr b f mod frame_size = frame_addr b f)
        by (pose proof (frame_aligned _ _ _ Hok); lia).
      destruct (gave_frame_effect m pm Hinv _ m' pm' G) as [S Hav]; rewrite ?Ha in *; done.
    + destruct (Hno i b f F). unfold frame_addr, frame_size. lia.
Defined.

(** ** The same run again *)

(** A run, by the frames that are free. *)
Lemma free_run_avail m pm i b s n :
  pmm_inv m pm -> active pm i b -> pb_map b <> NULL -> 0 <= s -> s + n <= pb_frames_total b ->
  free_run m b s n <-> forall f, s <= f < s + n -> pmm_avail m pm (frame_addr b f).
Proof.
  intros Hinv A Hm Hs Hn. split.
  - intros (_ & _ & Hf) f Hfr. exists i, b, f. split; [|split; [by apply Hf | done]]. split; [done|]. split; [done | lia].
  - intros Hav. split; [done|]. split; [done|]. intros f Hfr.
    destruct (Hav f Hfr) as (j & c & g & F & Hu & E).
    assert (F' : frame_of pm i b f) by (split; [done|]; split; [done | lia]).
    by destruct (frame_of_inj m pm i j b c f g Hinv F' F E) as (_ & -> & ->).
Qed.

(** In a state with the same blocks and no more free frames a run is also one before. *)
Lemma free_run_earlier m pm m' pm' i b s n :
  pmm_inv m pm -> pmm_inv m' pm' -> pmm_layout pm' = pmm_layout pm ->
  (forall a, pmm_avail m' pm' a -> pmm_avail m pm a) ->
  active pm' i b -> pb_map b <> NULL -> free_run m' b s n ->
  exists k, active pm i (set_frames_free b k) /\ free_run m (set_frames_free b k) s n.
Proof.
  intros Hinv Hinv' HL Hav A Hm R. destruct (layout_active _ _ _ _ (eq_sym HL) A) as [k A0]. exists k. split; [done|].
  pose proof R as (Hs & Hn & _). apply (free_run_avail m pm i); [done..|]. intros f Hf. apply Hav.
  by apply (proj1 (free_run_avail m' pm' i b s n Hinv' A Hm Hs Hn) R).
Qed.

(** A run that was handed out and given back is handed out again, if meanwhile no other
    frame has become free. *)
Lemma wp_frames_again m pm count r m1 pm1 m' pm' :
  pmm_inv m pm -> 1 <= count < 2 ^ 64 -> frames_allocate m pm count = Ok (r, (m1, pm1)) -> r <> ALL_ONES ->
  pmm_inv m' pm' -> pmm_layout pm' = pmm_layout pm ->
  (forall a, pmm_avail m' pm' a -> pmm_avail m pm a) ->
  (forall k, 0 <= k < count -> pmm_avail m' pm' (r + k * frame_size)) ->
  wp (frames_allocate m' pm' count) (fun '(r', _) => r' = r).
Proof.
  intros Hinv Hc E Hr Hinv' HL Hav Hback.
  pose proof (wp_elim _ _ _ (wp_frames_allocate m pm Hinv count Hc) E) as [T|[_ [= ? _ _]]]; [|done].
  destruct T as (i & b & s & m2 & b2 & A & Hm & [R Hfirst] & Hearly & _ & [= -> _ _]).
  pose proof R as (Hs & Hn & _). destruct (layout_active _ _ _ _ HL A) as [k A'].
  assert (R' : free_run m' (set_frames_free b k) s count).
  { apply (free_run_avail m' pm' i); [done..|]. intros f Hf. specialize (Hback (f - s) ltac:(lia)).
    change (frame_addr (set_frames_free b k) f) with (frame_addr b f).
    replace (frame_addr b f) with (frame_addr b s + (f - s) * frame_size) by (unfold frame_addr; lia). done. }
  eapply wp_mono; [by apply wp_frames_allocate|]. intros [r' [m3 pm3]] [T|[Hno _]]; [|by destruct (Hno i _ A' Hm s)].
  destruct T as (j & c & t & m4 & b4 & Aj & Hmj & [Rj Hfj] & Hej & _ & [= -> _ _]).
  destruct (free_run_earlier m pm m' pm' j c t count Hinv Hinv' HL Hav Aj Hmj Rj) as (k' & A0 & R0).
  assert (Hij : j = i).
  { destruct (Z.lt_trichotomy j i) as [Hlt|[->|Hlt]]; [|done|].
    - by destruct (Hearly j _ Hlt A0 Hmj t).
    - by destruct (Hej i _ Hlt A' Hm s). }
  subst j. assert (Hcb : c = set_frames_free b k) by exact (active_inj _ _ _ _ Aj A'). subst c.
  pose proof (active_inj _ _ _ _ A0 A) as Eb. rewrite Eb in R0.
  assert (t = s); [|by subst].
  destruct (Z.lt_trichotomy t s) as [Hlt|[->|Hlt]]; [by destruct (Hfirst t Hlt) | done | by destruct (Hfj s Hlt)].
Qed.
