(* ===== verification/FrameCount.v ===== *)
(** Counting the free frames: the blocks' counters add up to the number of frames that can
    be allocated. *)
From stdpp Require Import list list_numbers.
From Stdlib Require Import ZArith Lia.
From S2P Require Import Prelude Memory Physical FrameAllocator PhysicalSpec.
Local Open Scope Z_scope.

(** ** Lists without duplicates *)
Lemma NoDup_concat_apart {A} (ls : list (list A)) :
  (forall i l, ls !! i = Some l -> NoDup l) ->
  (forall i j l k x, i <> j -> ls !! i = Some l -> ls !! j = Some k -> x ∈ l -> x ∉ k) ->
  NoDup (concat ls).
Proof.
  induction ls as [|l ls IH]; intros Hd Hap; cbn [concat]; [constructor|].
  apply NoDup_app. split; [by apply (Hd 0%nat)|]. split.
  - intros x Hx (k & Hk & Hx')%list_elem_of_In%in_concat.
    apply list_elem_of_In, list_elem_of_lookup_1 in Hk as [j Hj].
    apply (Hap 0%nat (S j) l k x); [done | done | done | done | by apply list_elem_of_In].
  - apply IH; [intros i k; by apply (Hd (S i))|].
    intros i j k k' x Hij. apply (Hap (S i) (S j)). congruence.
Qed.

(** The elements of [xs] each have one of [ys] to themselves. *)
Lemma length_related {A B} (R : A -> B -> Prop) xs : forall ys,
  NoDup xs -> (forall x, x ∈ xs -> exists y, y ∈ ys /\ R x y) ->
  (forall x x' y, R x y -> R x' y -> x = x') -> (length xs <= length ys)%nat.
Proof.
  induction xs as [|x xs IH]; intros ys Hnd Hys Hinj; [cbn; lia|].
  apply NoDup_cons in Hnd as [Hx Hnd]. destruct (Hys x) as (y & Hy & HR); [left|].
  apply elem_of_Permutation in Hy as [ys' Hp]. rewrite Hp. cbn [length].
  enough (length xs <= length ys')%nat by lia. apply IH; [done | | done].
  intros x' Hx'. destruct (Hys x') as (y' & Hy' & HR'); [by right|].
  rewrite Hp in Hy'. apply elem_of_cons in Hy' as [->|Hy']; [|by exists y'].
  rewrite (Hinj x' x y HR' HR) in Hx'. done.
Qed.

(** ** The free frames *)
Definition used_blocks (pm : pmm) : list pm_block := take (Z.to_nat (block_count pm)) (blocks pm).

Definition frames_free (pm : pmm) : Z := foldr (fun b n => pb_frames_free b + n) 0 (used_blocks pm).

Definition block_free_list (m : mem) (b : pm_block) : list Z :=
  if pb_map b =? NULL then []
  else frame_addr b <$> filter (fun f => used m b f = false) (seqZ 0 (pb_frames_total b)).

Definition free_list (m : mem) (pm : pmm) : list Z := concat (block_free_list m <$> used_blocks pm).

Lemma used_blocks_active pm i b :
  used_blocks pm !! i = Some b <-> active pm (Z.of_nat i) b.
Proof.
  unfold used_blocks, active. rewrite lookup_take_Some, Nat2Z.id. split; intros [H1 H2]; split; try done; lia.
Qed.

Lemma elem_block_free_list m b a :
  a ∈ block_free_list m b <->
  pb_map b <> NULL /\ exists f, 0 <= f < pb_frames_total b /\ used m b f = false /\ a = frame_addr b f.
Proof.
  unfold block_free_list. destruct (Z.eqb_spec (pb_map b) NULL) as [|Hm].
  - split; [by intros ?%elem_of_nil | by intros [? _]].
  - rewrite list_elem_of_fmap. setoid_rewrite list_elem_of_filter. setoid_rewrite elem_of_seqZ. split.
    + intros (f & -> & Hu & Hf). split; [done|]. exists f. split; [lia | done].
    + intros (_ & f & Hf & Hu & ->). exists f. split; [done|]. split; [done | lia].
Qed.

Lemma elem_free_list m pm a : a ∈ free_list m pm <-> pmm_avail m pm a.
Proof.
  unfold free_list. rewrite list_elem_of_In, in_concat. split.
  - intros (l & Hl%list_elem_of_In & Ha%list_elem_of_In). apply list_elem_of_fmap in Hl as (b & -> & Hb).
    apply list_elem_of_lookup_1 in Hb as [i A%used_blocks_active].
    apply elem_block_free_list in Ha as (Hm & f & Hf & Hu & ->). by exists (Z.of_nat i), b, f.
  - intros (i & b & f & (A & Hm & Hf) & Hu & ->). exists (block_free_list m b).
    rewrite <- !list_elem_of_In. split.
    + apply list_elem_of_fmap. exists b. split; [done|]. apply (list_elem_of_lookup_2 _ (Z.to_nat i)), used_blocks_active.
      rewrite Z2Nat.id; [done | apply A].
    + apply elem_block_free_list. split; [done|]. by exists f.
Qed.

Section inv.
Context (m : mem) (pm : pmm) (Hinv : pmm_inv m pm).

Lemma NoDup_free_list : NoDup (free_list m pm).
Proof using Hinv.
  apply NoDup_concat_apart.
  - intros i l. rewrite list_lookup_fmap. intros (b & Hb & ->)%fmap_Some_1.
    unfold block_free_list. destruct (_ =? _); [constructor|]. apply NoDup_fmap_2.
    + intros f g. unfold frame_addr, frame_size. lia.
    + apply NoDup_filter, NoDup_seqZ.
  - intros i j l k x Hij. rewrite !list_lookup_fmap. intros (b & Hb & ->)%fmap_Some_1 (c & Hc & ->)%fmap_Some_1.
    apply used_blocks_active in Hb as A, Hc as A'. rewrite !elem_block_free_list.
    intros (Hm & f & Hf & _ & ->) (Hm' & g & Hg & _ & He).
    destruct (frame_of_inj m pm (Z.of_nat i) (Z.of_nat j) b c f g Hinv) as [? _]; [done | done | done | lia].
Qed.

Lemma length_block_free_list i b :
  used_blocks pm !! i = Some b -> Z.of_nat (length (block_free_list m b)) = pb_frames_free b.
Proof using Hinv.
  intros A%used_blocks_active. unfold block_free_list. destruct (Z.eqb_spec (pb_map b) NULL) as [Hm|Hm].
  - by rewrite (inv_unmanaged _ _ Hinv _ _ A Hm).
  - rewrite length_fmap. by rewrite (mng_free _ _ (inv_managed _ _ Hinv _ _ A Hm)).
Qed.

Lemma length_free_list : Z.of_nat (length (free_list m pm)) = frames_free pm.
Proof using Hinv.
  pose proof length_block_free_list as Hl. unfold free_list, frames_free. revert Hl.
  generalize (used_blocks pm). intros bs Hl. induction bs as [|b bs IH]; [done|].
  cbn [fmap list_fmap concat foldr]. rewrite length_app, Nat2Z.inj_add, (Hl 0%nat b eq_refl), IH; [done|].
  intros i c Hc. by apply (Hl (S i)).
Qed.

(** If all free frames are in a list then it is long enough. *)
Lemma frames_free_le l :
  (forall a, pmm_avail m pm a -> a ∈ l) -> frames_free pm <= Z.of_nat (length l).
Proof using Hinv.
  intros Hl. rewrite <- length_free_list. apply Nat2Z.inj_le, submseteq_length, NoDup_submseteq; [exact NoDup_free_list|].
  intros a Ha%elem_free_list. by apply Hl.
Qed.

(** The free frames, each once. *)
Lemma free_frames : exists l, Z.of_nat (length l) = frames_free pm /\ forall a, pmm_avail m pm a -> a ∈ l.
Proof using Hinv. exists (free_list m pm). split; [exact length_free_list|]. intros a. apply elem_free_list. Qed.
End inv.
