(* ===== verification/LibString.v ===== *)
(** The kernel's string library: lib/string/*.c on byte-addressed memory.

    [char] is signed on this target.  Loops whose end is only found in memory
    run with [fuel]; local arrays live at an address the caller supplies. *)
From coqutil Require Import Byte Word.LittleEndianList.
From stdpp Require Import gmap list.
From Stdlib Require Import ZArith Lia.
From S2P Require Import Prelude Memory.
Local Open Scope Z_scope.

(** ** memset, memcpy, memcmp *)
Definition memset (m : mem) (s c n : Z) : res (Z * mem) :=
  after
    (for_range 0 n (fun counter m =>
       m' ← store8 m (s + counter) c; Ok (inl m')) m)
    (fun m => Ok (s, m)).

Definition memcpy (m : mem) (dest src length : Z) : res (Z * mem) :=
  if dest =? src then Ok (dest, m) else
  after
    (for_range 0 length (fun counter m =>
       c ← load8 m (src + counter);
       m' ← store8 m (dest + counter) c; Ok (inl m')) m)
    (fun m => Ok (dest, m)).

(** One step of memcmp and strcmp: fall through on equal characters. *)
Definition compare_chars (m : mem) (s1 s2 i : Z) : res (unit + Z) :=
  c1 ← load8 m (s1 + i);
  c2 ← load8 m (s2 + i);
  if s8 c1 =? s8 c2 then Ok (inl tt)
  else if s8 c1 <? s8 c2 then Ok (inr (-1)) else Ok (inr 1).

Definition memcmp (m : mem) (str1 str2 length : Z) : res Z :=
  after (for_range 0 length (fun i (_ : unit) => compare_chars m str1 str2 i) tt)
    (fun _ => Ok 0).

(** ** NUL-terminated strings *)
Definition strlen (fuel : nat) (m : mem) (str : Z) : res Z :=
  after
    (while_fuel fuel (fun length => c ← load8 m (str + length); Ok (negb (c =? 0)))
       (fun length => Ok (inl (u64 (length + 1)))) 0)
    (fun length => Ok length).

Definition strcmp (fuel : nat) (m : mem) (s1 s2 : Z) : res Z :=
  length ← strlen fuel m s1;
  length2 ← strlen fuel m s2;
  let length := if length <? length2 then length2 else length in
  after (for_range 0 length (fun i (_ : unit) => compare_chars m s1 s2 i) tt)
    (fun _ => Ok 0).

Definition strcpy (fuel : nat) (m : mem) (dest src : Z) : res (Z * mem) :=
  length ← strlen fuel m src;
  memcpy m dest src (u64 (length + 1)).

(** ** itoa.c *)

(** [temp] is the address of the local array of reverse_string. *)
Definition reverse_string (fuel : nat) (m : mem) (s temp : Z) : res mem :=
  n ← strlen fuel m s;
  let length := u64 (n - 1) in
  '(_, m) ← strcpy fuel m temp s;
  after
    (while_fuel fuel (fun '(_, c1, _) => Ok (c1 <=? length))
       (fun '(m, c1, c2) =>
          c ← load8 m (temp + c2);
          m ← store8 m (s + c1) c;
          Ok (inl (m, u64 (c1 + 1), u64 (c2 - 1)))) (m, 0, length))
    (fun '(m, _, _) => Ok m).

(** The loop of itoa that writes the digits, lowest first; dividing by zero traps. *)
Definition itoa_digits (fuel : nat) (m : mem) (str num base : Z) : res (mem * Z) :=
  after
    (while_fuel fuel (fun '(_, num, _) => Ok (negb (num =? 0)))
       (fun '(m, num, pos) =>
          if base =? 0 then Fault else
          let value := Z.rem num base in
          m ← store8 m (str + pos) (value + 48);
          Ok (inl (m, s32 (Z.quot num base), s32 (pos + 1)))) (m, num, 0))
    (fun '(m, _, pos) => Ok (m, pos)).

(** [zero] is the address of the literal of itoa, [temp] as above. *)
Definition itoa (fuel : nat) (zero temp : Z) (m : mem) (num str base : Z) : res (Z * mem) :=
  if num =? 0 then
    '(_, m) ← strcpy fuel m str zero;
    Ok (str, m)
  else
    let negative := (num <? 0) && (base =? 10) in
    let num := if negative then s32 (- num) else num in
    '(m, pos) ← itoa_digits fuel m str num base;
    '(m, pos) ← (if negative then m ← store8 m (str + pos) 45; Ok (m, s32 (pos + 1))
                 else Ok (m, pos));
    m ← store8 m (str + pos) 0;
    m ← reverse_string fuel m str temp;
    Ok (str, m).

(** ** Theorems about memset *)
Lemma lookup_poken1 m a v x :
  poken 1 m a v !! x = if decide (x = a) then Some (byte.of_Z v) else m !! x.
Proof.
  rewrite lookup_poken. destruct (decide (x = a)) as [->|Hne].
  - rewrite decide_True by lia. replace (Z.to_nat (a - a)) with 0%nat by lia.
    by rewrite lookup_le_split, Z.shiftr_0_r by lia.
  - by rewrite decide_False by lia.
Qed.

Lemma wp_memset m s c n :
  0 <= n -> backed m s n ->
  wp (memset m s c n) (fun '(p, m') =>
    p = s /\ mem_upd (region s n) m m' /\
    forall x, region s n x -> m' !! x = Some (byte.of_Z c)).
Proof.
  intros Hn Hb. unfold memset. wp_step. eapply wp_mono.
  - apply (wp_for_range (fun i m' => mem_upd (region s n) m m' /\
      forall x, region s i x -> m' !! x = Some (byte.of_Z c)) (fun _ => False)).
    + done.
    + split; [done|]. unfold region. lia.
    + intros i m1 Hi [U Hx]. wp_step.
      assert (B : backed m1 (s + i) 1).
      { apply (backed_sub m1 s n); [by apply (mem_upd_backed _ _ _ _ _ U) | lia..]. }
      apply (wp_storen 1); [exact B |]. wp_ret. split.
      * etrans; [exact U |]. eapply mem_upd_mono; [by apply (mem_upd_poken 1) |].
        unfold region. lia.
      * intros x Hr. rewrite lookup_poken1. case_decide; [done|]. apply Hx.
        unfold region in *. lia.
  - intros [m'|r]; [|done]. intros [U Hx]. wp_ret. done.
Qed.

(** ** Comparing and copying memory *)

(** The bytes at [a] and [b] agree before position [i]. *)
Definition agree (m : mem) (a b i : Z) : Prop :=
  forall j, 0 <= j < i -> peek8 m (a + j) = peek8 m (b + j).

(** The first difference, and the order of the (signed) characters there. *)
Definition differ (m : mem) (a b i r : Z) : Prop :=
  agree m a b i /\ peek8 m (a + i) <> peek8 m (b + i) /\
  r = if s8 (peek8 m (a + i)) <? s8 (peek8 m (b + i)) then -1 else 1.

Lemma peek8_range m a : 0 <= peek8 m a < 2 ^ 8.
Proof. apply (peekn_range 1). Qed.

Lemma s8_inj x y : 0 <= x < 2 ^ 8 -> 0 <= y < 2 ^ 8 -> s8 x = s8 y -> x = y.
Proof. unfold s8. intros. zlia. Qed.

Lemma wp_compare_chars m a b i :
  backed m (a + i) 1 -> backed m (b + i) 1 -> agree m a b i ->
  wp (compare_chars m a b i)
    (loop_post (fun _ => agree m a b (i + 1)) (fun r => differ m a b i r)).
Proof.
  intros Ba Bb Hag. unfold compare_chars. wp_step. apply (wp_loadn 1); [exact Ba|].
  wp_step. apply (wp_loadn 1); [exact Bb|].
  pose proof (peek8_range m (a + i)). pose proof (peek8_range m (b + i)).
  destruct (Z.eqb_spec (s8 (peek8 m (a + i))) (s8 (peek8 m (b + i)))) as [He|Hne].
  - wp_ret. intros j Hj. destruct (decide (j = i)) as [->|]; [by apply s8_inj | apply Hag; lia].
  - assert (Hne' : peek8 m (a + i) <> peek8 m (b + i)) by congruence.
    unfold differ. destruct (Z.ltb_spec (s8 (peek8 m (a + i))) (s8 (peek8 m (b + i)))); wp_ret; done.
Qed.

Lemma wp_memcmp m a b n :
  0 <= n -> backed m a n -> backed m b n ->
  wp (memcmp m a b n) (fun r =>
    (r = 0 /\ agree m a b n) \/ exists i, 0 <= i < n /\ differ m a b i r).
Proof.
  intros Hn Ba Bb. unfold memcmp. wp_step. eapply wp_mono.
  - apply (wp_for_range (fun i _ => agree m a b i) (fun r => exists i, 0 <= i < n /\ differ m a b i r));
      [done | unfold agree; lia |].
    intros i _ Hi Hag. eapply wp_mono.
    + apply wp_compare_chars; [apply (backed_sub _ _ _ _ _ Ba); lia | apply (backed_sub _ _ _ _ _ Bb); lia | done].
    + intros [?|r] Hr; [done|]. by exists i.
  - intros [u|r] Hr; wp_ret; [by left | by right].
Qed.

(** Zero means equal, and only that. *)
Lemma differ_nonzero m a b i r : differ m a b i r -> r <> 0.
Proof. intros (_ & _ & ->). by destruct (_ <? _). Qed.

Lemma wp_memcpy m dest src n :
  0 <= n -> backed m dest n -> backed m src n ->
  (dest <= src \/ src + n <= dest) ->
  wp (memcpy m dest src n) (fun '(p, m') =>
    p = dest /\ mem_upd (region dest n) m m' /\
    forall i, 0 <= i < n -> peek8 m' (dest + i) = peek8 m (src + i)).
Proof.
  intros Hn Bd Bs Hov. unfold memcpy. destruct (Z.eqb_spec dest src) as [->|Hne]; [by wp_ret|].
  wp_step. eapply wp_mono.
  - apply (wp_for_range (fun i m' => mem_upd (region dest i) m m' /\
      forall j, 0 <= j < i -> peek8 m' (dest + j) = peek8 m (src + j)) (fun _ => False)).
    + done.
    + split; [done | lia].
    + intros i m1 Hi [U Hc]. wp_step.
      assert (Bs1 : backed m1 (src + i) 1).
      { apply (mem_upd_backed _ _ _ _ _ U). apply (backed_sub _ _ _ _ _ Bs); lia. }
      assert (Bd1 : backed m1 (dest + i) 1).
      { apply (mem_upd_backed _ _ _ _ _ U). apply (backed_sub _ _ _ _ _ Bd); lia. }
      apply (wp_loadn 1); [exact Bs1|]. wp_step. apply (wp_storen 1); [exact Bd1|]. wp_ret.
      assert (Hsrc : peek8 m1 (src + i) = peek8 m (src + i)).
      { apply (mem_upd_peekn _ _ _ _ _ U). unfold region. simpl. lia. }
      split.
      * etrans; [eapply mem_upd_mono; [exact U|]; unfold region; lia|].
        eapply mem_upd_mono; [by apply (mem_upd_poken 1)|]. unfold region. lia.
      * intros j Hj. destruct (decide (j = i)) as [->|Hji].
        -- rewrite (peekn_poken_eq 1), Z.mod_small by apply peek8_range. done.
        -- rewrite (peekn_poken_ne 1 1) by (simpl; lia). apply Hc. lia.
  - intros [m'|r]; [|done]. intros [U Hc]. by wp_ret.
Qed.

(** ** Strings *)

(** [m] holds the characters [s], none of them NUL, and a NUL at [a]. *)
Record cstring (m : mem) (a : Z) (s : list Z) : Prop := {
  cs_backed : backed m a (Z.of_nat (length s) + 1);
  cs_char (i : nat) c : s !! i = Some c -> peek8 m (a + Z.of_nat i) = c /\ c <> 0;
  cs_end : peek8 m (a + Z.of_nat (length s)) = 0
}.

Lemma cs_backed1 m a s i : cstring m a s -> 0 <= i <= Z.of_nat (length s) -> backed m (a + i) 1.
Proof. intros C Hi. apply (backed_sub _ _ _ _ _ (cs_backed _ _ _ C)); lia. Qed.

Lemma wp_strlen fuel m a s :
  cstring m a s -> Z.of_nat (length s) < 2 ^ 64 - 1 -> Z.of_nat (length s) <= Z.of_nat fuel ->
  wp (strlen fuel m a) (fun n => n = Z.of_nat (length s)).
Proof.
  intros C Hlen Hfuel. unfold strlen. wp_step. eapply wp_mono.
  - apply (wp_while (fun n => 0 <= n <= Z.of_nat (length s)) (fun _ => False)
             (fun n => Z.of_nat (length s) - n)); [lia | lia |].
    intros n Hn. wp_step. apply (wp_loadn 1); [by apply (cs_backed1 m a s)|]. wp_ret.
    destruct (decide (n = Z.of_nat (length s))) as [->|Hne].
    + by rewrite (cs_end _ _ _ C).
    + destruct (lookup_lt_is_Some_2 s (Z.to_nat n)) as [c Hc]; [lia|].
      destruct (cs_char _ _ _ C _ _ Hc) as [Hp H0]. rewrite Z2Nat.id in Hp by lia.
      rewrite Hp, (proj2 (Z.eqb_neq c 0)) by done. cbn [negb]. split; [lia|]. wp_ret.
      rewrite u64_small by lia. lia.
  - intros [n|r]; [|done]. intros [Hn Hc]. wp_ret.
    destruct (decide (n = Z.of_nat (length s))) as [->|Hne]; [done|]. exfalso.
    destruct (lookup_lt_is_Some_2 s (Z.to_nat n)) as [c Hc']; [lia|].
    destruct (cs_char _ _ _ C _ _ Hc') as [Hp H0]. rewrite Z2Nat.id in Hp by lia.
    rewrite loadn_ok in Hc by (by apply (cs_backed1 m a s)). cbn [mbind res_bind] in Hc.
    rewrite Hp, (proj2 (Z.eqb_neq c 0)) in Hc by done. done.
Qed.

(** The character at a position of a string, the final NUL included. *)
Lemma cs_peek m a s i :
  cstring m a s -> 0 <= i <= Z.of_nat (length s) ->
  peek8 m (a + i) = default 0 (s !! Z.to_nat i) /\
  (i < Z.of_nat (length s) -> peek8 m (a + i) <> 0).
Proof.
  intros C Hi. destruct (decide (i = Z.of_nat (length s))) as [->|Hne].
  - rewrite (cs_end _ _ _ C), lookup_ge_None_2 by lia. split; [done | lia].
  - destruct (lookup_lt_is_Some_2 s (Z.to_nat i)) as [c Hc]; [lia|].
    destruct (cs_char _ _ _ C _ _ Hc) as [Hp H0]. rewrite Z2Nat.id in Hp by lia.
    rewrite Hp, Hc. done.
Qed.

Lemma agree_within m a b s1 s2 i :
  cstring m a s1 -> cstring m b s2 -> agree m a b i ->
  0 <= i <= Z.max (Z.of_nat (length s1)) (Z.of_nat (length s2)) ->
  i <= Z.of_nat (length s1) /\ i <= Z.of_nat (length s2).
Proof.
  intros C1 C2 Hag Hi.
  destruct (Z.lt_trichotomy (Z.of_nat (length s1)) (Z.of_nat (length s2))) as [Hlt|[Heq|Hlt]]; [|lia|].
  - split; [|lia]. destruct (decide (i <= Z.of_nat (length s1))) as [|Hgt]; [done|]. exfalso.
    pose proof (Hag (Z.of_nat (length s1)) ltac:(lia)) as He. rewrite (cs_end _ _ _ C1) in He.
    destruct (cs_peek m b s2 (Z.of_nat (length s1)) C2 ltac:(lia)) as [_ Hn]. by apply Hn.
  - split; [lia|]. destruct (decide (i <= Z.of_nat (length s2))) as [|Hgt]; [done|]. exfalso.
    pose proof (Hag (Z.of_nat (length s2)) ltac:(lia)) as He. rewrite (cs_end _ _ _ C2) in He.
    destruct (cs_peek m a s1 (Z.of_nat (length s2)) C1 ltac:(lia)) as [_ Hn]. by apply Hn.
Qed.

Lemma agree_eq m a b s1 s2 :
  cstring m a s1 -> cstring m b s2 ->
  agree m a b (Z.max (Z.of_nat (length s1)) (Z.of_nat (length s2))) -> s1 = s2.
Proof.
  intros C1 C2 Hag.
  destruct (agree_within m a b s1 s2 _ C1 C2 Hag) as [H1 H2]; [lia|].
  apply list_eq. intros i. destruct (decide (i < length s1)%nat) as [Hi|Hi].
  - destruct (lookup_lt_is_Some_2 s1 i Hi) as [c Hc].
    destruct (lookup_lt_is_Some_2 s2 i ltac:(lia)) as [d Hd].
    destruct (cs_char _ _ _ C1 i c Hc) as [Hpc _]. destruct (cs_char _ _ _ C2 i d Hd) as [Hpd _].
    rewrite Hc, Hd, <- Hpc, <- Hpd. f_equal. apply Hag. lia.
  - rewrite !lookup_ge_None_2 by lia. done.
Qed.

Lemma wp_strcmp fuel m a b s1 s2 :
  cstring m a s1 -> cstring m b s2 ->
  Z.of_nat (length s1) < 2 ^ 64 - 1 -> Z.of_nat (length s2) < 2 ^ 64 - 1 ->
  Z.of_nat (length s1) <= Z.of_nat fuel -> Z.of_nat (length s2) <= Z.of_nat fuel ->
  wp (strcmp fuel m a b) (fun r =>
    (r = 0 /\ s1 = s2) \/
    exists i, 0 <= i <= Z.of_nat (length s1) /\ i <= Z.of_nat (length s2) /\ differ m a b i r).
Proof.
  intros C1 C2 L1 L2 F1 F2. unfold strcmp. wp_step.
  eapply wp_mono; [by apply wp_strlen|]. intros n1 ->. wp_step.
  eapply wp_mono; [by apply wp_strlen|]. intros n2 ->.
  set (n := if _ <? _ then _ else _).
  assert (Hn : n = Z.max (Z.of_nat (length s1)) (Z.of_nat (length s2)))
    by (unfold n; destruct (Z.ltb_spec (Z.of_nat (length s1)) (Z.of_nat (length s2))); lia).
  rewrite Hn. clear n Hn. wp_step. eapply wp_mono.
  - apply (wp_for_range (fun i _ => agree m a b i) (fun r => exists i,
      0 <= i <= Z.of_nat (length s1) /\ i <= Z.of_nat (length s2) /\ differ m a b i r));
      [lia | unfold agree; lia |].
    intros i _ Hi Hag. destruct (agree_within m a b s1 s2 i C1 C2 Hag) as [H1 H2]; [lia|].
    eapply wp_mono.
    { apply wp_compare_chars; [apply (cs_backed1 m a s1); [done | lia] |
        apply (cs_backed1 m b s2); [done | lia] | done]. }
    intros [?|r] Hr; [done|]. exists i. split; [lia | done].
  - intros [u|r] Hr; wp_ret; [left | by right]. split; [done|]. by apply (agree_eq m a b).
Qed.

Lemma wp_strcpy fuel m dest src s :
  cstring m src s -> backed m dest (Z.of_nat (length s) + 1) ->
  (dest + Z.of_nat (length s) < src \/ src + Z.of_nat (length s) < dest) ->
  Z.of_nat (length s) < 2 ^ 64 - 1 -> Z.of_nat (length s) <= Z.of_nat fuel ->
  wp (strcpy fuel m dest src) (fun '(p, m') =>
    p = dest /\ mem_upd (region dest (Z.of_nat (length s) + 1)) m m' /\ cstring m' dest s).
Proof.
  intros C Bd Hov L F. unfold strcpy. wp_step. eapply wp_mono; [by apply wp_strlen|].
  intros n ->. rewrite u64_small by lia. eapply wp_mono.
  { apply wp_memcpy; [lia | done | apply C | lia]. }
  intros [p m'] (-> & U & Hc). split; [done|]. split; [done|]. split.
  - by apply (mem_upd_backed _ _ _ _ _ U).
  - intros i c Hi. pose proof (lookup_lt_Some _ _ _ Hi). rewrite Hc by lia. by apply (cs_char _ _ _ C).
  - rewrite Hc by lia. exact (cs_end _ _ _ C).
Qed.
