(* ===== verification/Stdio.v ===== *)
(** Formatted output: lib/stdio/vsprintf.c.

    A va_list is the list of the 64-bit words of the arguments.  The local arrays are
    given by their addresses: [temp] of vsprintf and [rev] of reverse_string; [zero]
    is the literal of itoa. *)
From stdpp Require Import base list strings.
From Stdlib Require Import ZArith Lia Ascii.
From S2P Require Import Prelude Memory LibString.
Local Open Scope Z_scope.

(** The characters of a string literal. *)
Definition chars (s : string) : list Z := (fun c => Z.of_N (N_of_ascii c)) <$> String.list_ascii_of_string s.

(** A call of ssfn_printf: its format and its arguments. *)
Definition print_call : Type := list Z * list Z.

(** '0'..'9', 'A'..'F' *)
Definition hex_chars : list Z :=
  [48; 49; 50; 51; 52; 53; 54; 55; 56; 57; 65; 66; 67; 68; 69; 70].
Definition hex_char (v : Z) : Z := default 0 (hex_chars !! Z.to_nat (Z.land v 0xF)).

(** The digits for i = 4 * [k], ..., 4, and the last one. *)
Definition hex_toa (k : Z) (m : mem) (num str : Z) : res mem :=
  after
    (for_range 0 k (fun pos m =>
       m ← store8 m (str + pos) (hex_char (Z.shiftr num (4 * (k - pos)))); Ok (inl m)) m)
    (fun m => store8 m (str + k) (hex_char num)).

Definition x32toa : mem -> Z -> Z -> res mem := hex_toa 7.
Definition x64toa : mem -> Z -> Z -> res mem := hex_toa 15.

(** for(counter = 0; counter < strlen(src); counter++) str[written++] = src[counter] *)
Definition copy_out (fuel : nat) (m : mem) (src str written : Z) : res (mem * Z) :=
  after
    (while_fuel fuel
       (fun '(m, counter, _) => n ← strlen fuel m src; Ok (counter <? n))
       (fun '(m, counter, written) =>
          c ← load8 m (src + counter);
          m ← store8 m (str + written) c;
          Ok (inl (m, u64 (counter + 1), s32 (written + 1)))) (m, 0, written))
    (fun '(m, _, written) => Ok (m, written)).

(** va_arg: the next word. *)
Definition va_arg (arg : list Z) : res (Z * list Z) :=
  match arg with
  | [] => Fault
  | v :: arg => Ok (v, arg)
  end.

Section format.
Context (fuel : nat) (zero rev temp str format : Z).

(** The state of the loop: memory, i, written and the arguments left. *)
Definition vs_state : Type := mem * Z * Z * list Z.

(** A conversion into temp, and its text. *)
Definition put_temp (toa : mem -> Z -> res mem) (st : vs_state) (i : Z) : res vs_state :=
  let '(m, _, written, arg) := st in
  '(v, arg) ← va_arg arg;
  m ← toa m v;
  '(m, written) ← copy_out fuel m temp str written;
  Ok (m, i, written, arg).

(** The switch, entered with i at the character after the percent sign. *)
Definition conversion (st : vs_state) : res vs_state :=
  let '(m, i, written, arg) := st in
  c ← load8 m (format + i);
  match c with
  | 99 (* c *) =>
      '(v, arg) ← va_arg arg;
      m ← store8 m (str + written) (u8 v);
      Ok (m, u64 (i + 1), s32 (written + 1), arg)
  | 100 (* d *) =>
      put_temp (fun m v => '(_, m) ← itoa fuel zero rev m (s32 v) temp 10; Ok m) st (u64 (i + 1))
  | 120 (* x *) => put_temp (fun m v => x32toa m (u32 v) temp) st (u64 (i + 1))
  | 108 (* l *) =>
      let i := u64 (i + 1) in
      c ← load8 m (format + i);
      match c with
      | 108 =>
          let i := u64 (i + 1) in
          c ← load8 m (format + i);
          match c with
          | 120 => put_temp (fun m v => x64toa m v temp) st (u64 (i + 1))
          | _ => Ok (m, i, written, arg)
          end
      | _ => Ok (m, i, written, arg)
      end
  | 115 (* s *) =>
      '(s, arg) ← va_arg arg;
      '(m, written) ← copy_out fuel m s str written;
      Ok (m, u64 (i + 1), written, arg)
  | _ => Ok st
  end.

Definition vsprintf_step (st : vs_state) : res (vs_state + Z * mem) :=
  let '(m, i, written, arg) := st in
  c ← load8 m (format + i);
  '(m, i, written, arg) ←
    (if c =? 37 then conversion (m, u64 (i + 1), written, arg) else Ok (m, i, written, arg));
  c ← load8 m (format + i);
  m ← store8 m (str + written) c;
  Ok (inl (m, u64 (i + 1), s32 (written + 1), arg)).

Definition vsprintf (m : mem) (arg : list Z) : res (Z * mem) :=
  '(_, m) ← memset m temp 0 32;
  after
    (while_fuel fuel (fun '(m, i, _, _) => n ← strlen fuel m format; Ok (i <? n))
       vsprintf_step (m, 0, 0, arg))
    (fun '(m, _, written, _) => Ok (written, m)).
End format.
