(* ===== verification/Paging.v ===== *)
(** The four-level page tables: kernel/memory/paging.h and paging.c.

    Tables live in physical memory and are reached by their physical address,
    as the kernel does.  The frames they occupy come from a [FrameAllocator]. *)
From stdpp Require Import base.
From Stdlib Require Import ZArith Lia.
From S2P Require Import Prelude Memory Physical FrameAllocator LibString.
Local Open Scope Z_scope.

Definition page_size : Z := 4096.
Definition large_page_size : Z := 0x200000.

(** Bits 12 to 51 of an entry hold the physical address. *)
Definition PHYS_ADDR_MASK : Z := 0x000FFFFFFFFFF000.

Definition PRESENT_BIT : Z := 0x1.
Definition READ_WRITE_BIT : Z := 0x2.
Definition USER_SUPERVISOR_BIT : Z := 0x4.
Definition PAGE_SIZE_BIT : Z := 0x80.

(** A flag test of the C code: [x & bit]. *)
Definition has (x bit : Z) : bool := negb (Z.land x bit =? 0).

(** &table[index] *)
Definition entry_addr (table index : Z) : Z := table + 8 * index.

(** ** Entries *)
Definition init_pt_entry (paddr flags : Z) : Z := Z.lor (Z.land paddr PHYS_ADDR_MASK) flags.
Definition get_pt (entry : Z) : Z := Z.land entry PHYS_ADDR_MASK.
Definition get_pd (entry : Z) : Z := Z.land entry PHYS_ADDR_MASK.
Definition get_pdp (entry : Z) : Z := Z.land entry PHYS_ADDR_MASK.

(** ** Control registers *)
Record control_registers := { cr0 : Z; cr2 : Z; cr3 : Z; cr4 : Z; cr8 : Z }.

Definition get_cr (c : control_registers) (index : Z) : Z :=
  match index with
  | 0 => cr0 c
  | 2 => cr2 c
  | 3 => cr3 c
  | 4 => cr4 c
  | 8 => cr8 c
  | _ => ALL_ONES
  end.

Definition set_cr3 (c : control_registers) (entry : Z) : control_registers :=
  {| cr0 := cr0 c; cr2 := cr2 c; cr3 := entry; cr4 := cr4 c; cr8 := cr8 c |}.

(** The mmap stub. *)
Definition mmap (start length prot flags fd offset : Z) : Z := 0.

(** The table indexes of a virtual address. *)
Definition index1 (vaddr : Z) : Z := u16 (Z.land (Z.shiftr vaddr 12) 0x1FF).
Definition index2 (vaddr : Z) : Z := u16 (Z.land (Z.shiftr vaddr 21) 0x1FF).
Definition index3 (vaddr : Z) : Z := u16 (Z.land (Z.shiftr vaddr 30) 0x1FF).
Definition index4 (vaddr : Z) : Z := u16 (Z.land (Z.shiftr vaddr 39) 0x1FF).

Section paging.
Context {A : Type} `{FrameAllocator A}.
Implicit Types (m : mem) (physical_memory : A).

Definition alloc_table m physical_memory : res (Z * (mem * A)) :=
  '(frame, (m, physical_memory)) ← fa_allocate m physical_memory;
  if frame =? ALL_ONES then Ok (NULL, (m, physical_memory)) else
  '(_, m) ← memset m frame 0 frame_size;
  Ok (frame, (m, physical_memory)).

Definition next_table m physical_memory (table index flags : Z) : res (Z * (mem * A)) :=
  e ← load64 m (entry_addr table index);
  if negb (has e PRESENT_BIT) then
    '(next, (m, physical_memory)) ← alloc_table m physical_memory;
    if next =? NULL then Ok (NULL, (m, physical_memory)) else
    m ← store64 m (entry_addr table index)
          (Z.lor (Z.lor (Z.lor next PRESENT_BIT) READ_WRITE_BIT)
             (Z.land flags USER_SUPERVISOR_BIT));
    Ok (next, (m, physical_memory))
  else if has e PAGE_SIZE_BIT then Ok (NULL, (m, physical_memory))
  else
    m ← store64 m (entry_addr table index) (Z.lor e (Z.land flags USER_SUPERVISOR_BIT));
    e ← load64 m (entry_addr table index);
    Ok (Z.land e PHYS_ADDR_MASK, (m, physical_memory)).

Definition init_pml4 m physical_memory : res (Z * (mem * A)) := alloc_table m physical_memory.

Definition map_page m physical_memory (pml4 vaddr paddr flags : Z) : res (Z * (mem * A)) :=
  '(pdp, (m, physical_memory)) ← next_table m physical_memory pml4 (index4 vaddr) flags;
  if pdp =? NULL then Ok (-1, (m, physical_memory)) else
  '(pd, (m, physical_memory)) ← next_table m physical_memory pdp (index3 vaddr) flags;
  if pd =? NULL then Ok (-1, (m, physical_memory)) else
  e ← load64 m (entry_addr pd (index2 vaddr));
  if has e PRESENT_BIT && has e PAGE_SIZE_BIT then
    let mapped :=
      u64 (Z.land (Z.land e PHYS_ADDR_MASK) (not64 (large_page_size - 1))
           + Z.land vaddr (large_page_size - 1)) in
    Ok (if mapped =? Z.land paddr PHYS_ADDR_MASK then 0 else -1, (m, physical_memory))
  else
  '(pt, (m, physical_memory)) ← next_table m physical_memory pd (index2 vaddr) flags;
  if pt =? NULL then Ok (-1, (m, physical_memory)) else
  m ← store64 m (entry_addr pt (index1 vaddr)) (init_pt_entry paddr (Z.lor flags PRESENT_BIT));
  Ok (0, (m, physical_memory)).

Definition map_large_page m physical_memory (pml4 vaddr paddr flags : Z)
  : res (Z * (mem * A)) :=
  '(pdp, (m, physical_memory)) ← next_table m physical_memory pml4 (index4 vaddr) flags;
  if pdp =? NULL then Ok (-1, (m, physical_memory)) else
  '(pd, (m, physical_memory)) ← next_table m physical_memory pdp (index3 vaddr) flags;
  if pd =? NULL then Ok (-1, (m, physical_memory)) else
  e ← load64 m (entry_addr pd (index2 vaddr));
  if has e PRESENT_BIT && negb (has e PAGE_SIZE_BIT) then Ok (-1, (m, physical_memory)) else
  m ← store64 m (entry_addr pd (index2 vaddr))
        (Z.lor (Z.lor (Z.lor (Z.land paddr PHYS_ADDR_MASK) flags) PRESENT_BIT) PAGE_SIZE_BIT);
  Ok (0, (m, physical_memory)).

(** One iteration of the loop of map_range; its state is the memory, the
    allocator, and the current virtual and physical address. *)
Definition map_range_step (pml4 end_ flags : Z) (s : mem * A * Z * Z)
  : res ((mem * A * Z * Z) + Z * (mem * A)) :=
  let '(m, physical_memory, vaddr, paddr) := s in
  '(large, (m, physical_memory)) ←
    (if (Z.land vaddr (large_page_size - 1) =? 0) && (Z.land paddr (large_page_size - 1) =? 0)
        && (large_page_size <=? u64 (end_ - vaddr))
     then '(r, s) ← map_large_page m physical_memory pml4 vaddr paddr flags; Ok (r =? 0, s)
     else Ok (false, (m, physical_memory)));
  if large : bool then
    Ok (inl (m, physical_memory, u64 (vaddr + large_page_size), u64 (paddr + large_page_size)))
  else
  '(r, (m, physical_memory)) ← map_page m physical_memory pml4 vaddr paddr flags;
  if negb (r =? 0) then Ok (inr (-1, (m, physical_memory))) else
  Ok (inl (m, physical_memory, u64 (vaddr + page_size), u64 (paddr + page_size))).

Definition map_range (fuel : nat) m physical_memory (pml4 vaddr paddr length flags : Z)
  : res (Z * (mem * A)) :=
  let end_ := u64 (vaddr + length) in
  let vaddr := Z.land vaddr (not64 (page_size - 1)) in
  let paddr := Z.land paddr (not64 (page_size - 1)) in
  after
    (while_fuel fuel (fun '(_, _, vaddr, _) => Ok (vaddr <? end_))
       (map_range_step pml4 end_ flags) (m, physical_memory, vaddr, paddr))
    (fun '(m, physical_memory, _, _) => Ok (0, (m, physical_memory))).
End paging.
