(* ===== verification/PagingDebug.v ===== *)
(** The page table dumps of kernel/memory/paging_debug.c, as the calls of ssfn_printf they
    make. *)
From stdpp Require Import base list strings.
From Stdlib Require Import ZArith Lia.
From S2P Require Import Prelude Memory LibString Stdio Paging.
Local Open Scope Z_scope.

Definition PAGE_LEVEL_WRITETHROUGH_BIT : Z := 0x8.
Definition PAGE_LEVEL_CACHE_DISABLE_BIT : Z := 0x10.
Definition ACCESSED_BIT : Z := 0x20.
Definition DIRTY_BIT : Z := 0x40.
Definition GLOBAL_PAGE_BIT : Z := 0x100.
Definition NX_BIT : Z := 0x8000000000000000.

(** Where the kernel's image has the strings that the dumps pass for %s. *)
Class DumpStrings := { at_True : Z; at_False : Z; at_1 : Z; at_0 : Z }.

Section dumps.
Context `{DumpStrings}.

Definition true_false (entry bit : Z) : list Z := [if has entry bit then at_True else at_False].
Definition false_true (entry bit : Z) : list Z := [if has entry bit then at_False else at_True].
Definition one_zero (entry bit : Z) : list Z := [if has entry bit then at_1 else at_0].

Definition dump_pte (entry : Z) : list print_call :=
  [(chars "Page table entry: 0x%llx" ++ [10], [entry]);
   (chars "    Physical address: 0x%llx" ++ [10], [Z.land entry 0xFFFFFFFFF000]);
   (chars "    Present: %s" ++ [10], true_false entry PRESENT_BIT);
   (chars "    Writeable: %s" ++ [10], true_false entry READ_WRITE_BIT);
   (chars "    User accessible: %s" ++ [10], false_true entry USER_SUPERVISOR_BIT);
   (chars "    Page level write-through: %s" ++ [10], true_false entry PAGE_LEVEL_WRITETHROUGH_BIT);
   (chars "    Page level cache disable: %s" ++ [10], true_false entry PAGE_LEVEL_CACHE_DISABLE_BIT);
   (chars "    Accessed: %s" ++ [10], true_false entry ACCESSED_BIT);
   (chars "    Dirty: %s" ++ [10], true_false entry DIRTY_BIT);
   (chars "    PAT: %s" ++ [10], one_zero entry PAGE_SIZE_BIT);
   (chars "    Global: %s" ++ [10], true_false entry GLOBAL_PAGE_BIT);
   (chars "    NX: %s" ++ [10], true_false entry NX_BIT)].

Definition dump_paging_bits (entry : Z) : list print_call :=
  [(chars "    Physical address of table: 0x%llx" ++ [10], [Z.land entry 0xFFFFFFFFF000]);
   (chars "    Present: %s" ++ [10], true_false entry PRESENT_BIT);
   (chars "    Writeable: %s" ++ [10], true_false entry READ_WRITE_BIT);
   (chars "    User accessible: %s" ++ [10], false_true entry USER_SUPERVISOR_BIT);
   (chars "    Page level write-through: %s" ++ [10], true_false entry PAGE_LEVEL_WRITETHROUGH_BIT);
   (chars "    Page level cache disable: %s" ++ [10], true_false entry PAGE_LEVEL_CACHE_DISABLE_BIT);
   (chars "    Accessed: %s" ++ [10], true_false entry ACCESSED_BIT);
   (chars "    Dirty: %s" ++ [10], true_false entry DIRTY_BIT);
   (chars "    Page size: %s" ++ [10], one_zero entry PAGE_SIZE_BIT);
   (chars "    Global: %s" ++ [10], true_false entry GLOBAL_PAGE_BIT);
   (chars "    NX: %s" ++ [10], true_false entry NX_BIT)].

Definition dump_pde (entry : Z) : list print_call :=
  (chars "Page directory entry: 0x%llx" ++ [10], [entry]) :: dump_paging_bits entry.

Definition dump_pdpe (entry : Z) : list print_call :=
  (chars "Page directory pointer entry: 0x%llx" ++ [10], [entry]) :: dump_paging_bits entry.
End dumps.
