(* ===== verification/PagingSpec.v ===== *)
(** What the processor makes of the page tables, and the invariant of the tables
    that paging.c maintains.

    [walk] is the address translation of the MMU (4-level paging); the theorems
    of Mapping.v say how map_page, map_large_page and map_range change it. *)
From stdpp Require Import gmap.
From Stdlib Require Import ZArith Lia.
From S2P Require Import Prelude Memory Physical FrameAllocator LibString Paging.
Local Open Scope Z_scope.

(** ** Entries *)
Definition present (e : Z) : bool := Z.testbit e 0.
Definition large (e : Z) : bool := Z.testbit e 7.
Definition target (e : Z) : Z := Z.land e PHYS_ADDR_MASK.

(** An entry that points to a table of the next level. *)
Definition pointer (e : Z) : bool := present e && negb (large e).

(** Flags that leave the address bits of an entry alone. *)
Definition flags_ok (flags : Z) : Prop := 0 <= flags < 2 ^ 64 /\ Z.land flags PHYS_ADDR_MASK = 0.

(** ** The MMU's translation *)

(** The bytes one entry of a level-[l] table covers, and the index a virtual
    address selects there; level 1 is the page table, level 4 the PML4. *)
Definition span (l : nat) : Z := 2 ^ (12 + 9 * (Z.of_nat l - 1)).
Definition idx (l : nat) (va : Z) : Z := (va / span l) mod 512.

(** The entry a virtual address selects in a level-[l] table. *)
Definition pte (m : mem) (table : Z) (l : nat) (va : Z) : Z :=
  peek64 m (entry_addr table (idx l va)).

(** The physical address and the leaf entry a virtual address is mapped to, if
    any, starting from a level-[l] table.  A level-4 entry cannot be a page. *)
Fixpoint walk (l : nat) (m : mem) (table va : Z) : option (Z * Z) :=
  match l with
  | O => None
  | S l' =>
      let e := pte m table l va in
      if negb (present e) then None
      else if (l =? 1)%nat then Some (target e + va mod span l, e)
      else if large e then
        if (l <=? 3)%nat then Some (target e / span l * span l + va mod span l, e) else None
      else walk l' m (target e) va
  end.

(** The table of level [k] on the walk from a table of level [l]. *)
Fixpoint reach (l k : nat) (m : mem) (table va : Z) : option Z :=
  if (l =? k)%nat then Some table else
  match l with
  | O => None
  | S l' => let e := pte m table l va in
      if pointer e then reach l' k m (target e) va else None
  end.

(** Translation of a virtual address by the tables below [pml4]. *)
Definition translate (m : mem) (pml4 va : Z) : option Z := fst <$> walk 4 m pml4 va.

(** ** The invariant of the tables

    [T] is the ghost state: the frames that hold tables, with their level. *)
Section invariant.
Context {A : Type} `{FrameAllocatorLaws A}.

Record tables_ok (m : mem) (s : A) (T : gmap Z nat) (root : Z) : Prop := {
  tb_root : T !! root = Some 4%nat;
  tb_level a l : T !! a = Some l -> (1 <= l <= 4)%nat;
  tb_frame a l : T !! a = Some l -> frame_ok m (priv s) a;
  tb_used a l : T !! a = Some l -> ~ avail m s a;
  (** pointers lead to tables of the next level *)
  tb_child a l va : T !! a = Some (S l) -> l <> O -> pointer (pte m a (S l) va) = true ->
    T !! target (pte m a (S l) va) = Some l;
  (** every table has one parent entry *)
  tb_parent a b l va vb : T !! a = Some (S l) -> T !! b = Some (S l) -> l <> O ->
    pointer (pte m a (S l) va) = true -> pointer (pte m b (S l) vb) = true ->
    target (pte m a (S l) va) = target (pte m b (S l) vb) ->
    a = b /\ idx (S l) va = idx (S l) vb;
  (** a page has at most 2 MiB *)
  tb_page a l va : T !! a = Some l -> (3 <= l)%nat -> present (pte m a l va) = true ->
    large (pte m a l va) = false
}.

(** What an operation on the tables may change. *)
Record tables_step (m : mem) (s : A) (T : gmap Z nat) (m' : mem) (s' : A) (T' : gmap Z nat)
  : Prop := {
  ts_inv : fa_inv m' s';
  ts_grow : T ⊆ T';
  ts_new a l : T' !! a = Some l -> T !! a = Some l \/ avail m s a;
  ts_avail a : avail m' s' a <-> avail m s a /\ T' !! a = None;
  ts_priv x : priv s' x <-> priv s x;
  ts_layout : layout s' = layout s;
  ts_upd : mem_upd (fun x => priv s x \/ exists a l, T' !! a = Some l /\ region a frame_size x) m m'
}.
End invariant.

(** ** Arithmetic of entries and indexes *)
Lemma has_present e : has e PRESENT_BIT = present e.
Proof. unfold has. change PRESENT_BIT with (Z.shiftl 1 0). rewrite (land_bit e 0) by lia. apply negb_involutive. Qed.

Lemma has_page_size e : has e PAGE_SIZE_BIT = large e.
Proof. unfold has. change PAGE_SIZE_BIT with (Z.shiftl 1 7). rewrite (land_bit e 7) by lia. apply negb_involutive. Qed.

Lemma land_mask x : Z.land x PHYS_ADDR_MASK = (x / 4096) mod 2 ^ 40 * 4096.
Proof.
  change 4096 with (2 ^ 12). rewrite <- Z.shiftl_mul_pow2, <- Z.shiftr_div_pow2 by lia.
  rewrite <- Z.land_ones by lia. rewrite Z.shiftl_land.
  change (Z.shiftl (Z.ones 40) 12) with PHYS_ADDR_MASK.
  apply Z.bits_inj'. intros j Hj. rewrite !Z.land_spec.
  change PHYS_ADDR_MASK with (Z.shiftl (Z.ones 40) 12).
  rewrite (Z.shiftl_spec (Z.ones 40)) by lia.
  destruct (Z.lt_ge_cases j 12).
  - by rewrite (Z.testbit_neg_r _ (j - 12)), !andb_false_r by lia.
  - rewrite Z.shiftl_spec, Z.shiftr_spec by lia. by replace (j - 12 + 12) with j by lia.
Qed.

Lemma target_range e : 0 <= target e < 2 ^ 52 /\ target e mod 4096 = 0.
Proof. unfold target. rewrite land_mask. zlia. Qed.

Lemma target_aligned r : 0 <= r < 2 ^ 52 -> r mod 4096 = 0 -> target r = r.
Proof. intros Hr Ha. unfold target. rewrite land_mask. zlia. Qed.

Lemma target_lor x y : target (Z.lor x y) = Z.lor (target x) (target y).
Proof. apply Z.land_lor_distr_l. Qed.

Lemma target_land_const x c : Z.land c PHYS_ADDR_MASK = 0 -> target (Z.land x c) = 0.
Proof. intros Hc. unfold target. by rewrite <- Z.land_assoc, Hc, Z.land_0_r. Qed.

Lemma idx_range l va : 0 <= idx l va < 512.
Proof. apply Z.mod_pos_bound. lia. Qed.

Lemma idx_shift va k l :
  12 + 9 * (Z.of_nat l - 1) = k -> 0 <= k -> u16 (Z.land (Z.shiftr va k) 0x1FF) = idx l va.
Proof.
  intros Hk H0. change 0x1FF with (Z.ones 9). rewrite Z.land_ones by lia.
  unfold u16. change (2 ^ 9) with 512.
  pose proof (Z.mod_pos_bound (Z.shiftr va k) 512 ltac:(lia)).
  rewrite Z.mod_small by zlia. unfold idx, span. by rewrite Hk, Z.shiftr_div_pow2.
Qed.

Lemma index1_idx va : index1 va = idx 1 va.
Proof. by apply idx_shift. Qed.
Lemma index2_idx va : index2 va = idx 2 va.
Proof. by apply idx_shift. Qed.
Lemma index3_idx va : index3 va = idx 3 va.
Proof. by apply idx_shift. Qed.
Lemma index4_idx va : index4 va = idx 4 va.
Proof. by apply idx_shift. Qed.

(** ** The entries paging.c writes *)

(** Bounds of the flag constants. *)
Ltac flag_range :=
  unfold PRESENT_BIT, READ_WRITE_BIT, USER_SUPERVISOR_BIT, PAGE_SIZE_BIT; zlia.

Lemma user_bits_range flags k : 3 <= k -> 0 <= Z.land flags USER_SUPERVISOR_BIT < 2 ^ k.
Proof.
  intros Hk. rewrite Z.land_comm. apply land_range; [lia|].
  pose proof (Z.pow_le_mono_r 2 3 k ltac:(lia) Hk). flag_range.
Qed.

(** A pointer to a fresh table. *)
Lemma pointer_entry r flags :
  0 <= r < 2 ^ 52 -> r mod 4096 = 0 ->
  let e := Z.lor (Z.lor (Z.lor r PRESENT_BIT) READ_WRITE_BIT) (Z.land flags USER_SUPERVISOR_BIT) in
  0 <= e < 2 ^ 64 /\ pointer e = true /\ target e = r.
Proof.
  intros Hr Ha e. subst e.
  assert (He : 0 <= Z.lor (Z.lor (Z.lor r PRESENT_BIT) READ_WRITE_BIT)
                 (Z.land flags USER_SUPERVISOR_BIT) < 2 ^ 52).
  { repeat (apply lor_range; [lia | | solve [flag_range | apply user_bits_range; lia]]).
    done. }
  split; [zlia|]. split.
  - unfold pointer, present, large. rewrite !Z.lor_spec, !Z.land_spec.
    assert (H7 : Z.testbit r 7 = false).
    { replace r with (r / 4096 * 2 ^ 12) by zlia. apply Z.mul_pow2_bits_low. lia. }
    rewrite H7. change (Z.testbit PRESENT_BIT 0) with true. rewrite orb_true_r.
    change (Z.testbit PRESENT_BIT 7) with false. change (Z.testbit READ_WRITE_BIT 7) with false.
    change (Z.testbit USER_SUPERVISOR_BIT 7) with false. by rewrite !andb_false_r.
  - rewrite !target_lor, (target_aligned r) by done.
    rewrite (target_land_const flags) by done. change (target PRESENT_BIT) with 0.
    change (target READ_WRITE_BIT) with 0. by rewrite !Z.lor_0_r.
Qed.

(** Granting user access keeps an entry's meaning. *)
Lemma user_entry e flags :
  0 <= e < 2 ^ 64 ->
  let e' := Z.lor e (Z.land flags USER_SUPERVISOR_BIT) in
  0 <= e' < 2 ^ 64 /\ present e' = present e /\ large e' = large e /\ target e' = target e.
Proof.
  intros He e'. subst e'. unfold present, large. split; [|split_and!].
  - apply lor_range; [lia | done | apply user_bits_range; lia].
  - rewrite Z.lor_spec, Z.land_spec. change (Z.testbit USER_SUPERVISOR_BIT 0) with false.
    by rewrite andb_false_r, orb_false_r.
  - rewrite Z.lor_spec, Z.land_spec. change (Z.testbit USER_SUPERVISOR_BIT 7) with false.
    by rewrite andb_false_r, orb_false_r.
  - by rewrite target_lor, target_land_const, Z.lor_0_r.
Qed.

(** A 4 KiB leaf and a 2 MiB leaf. *)
Lemma leaf_entry pa flags :
  flags_ok flags ->
  let e := init_pt_entry pa (Z.lor flags PRESENT_BIT) in
  0 <= e < 2 ^ 64 /\ present e = true /\ target e = target pa.
Proof.
  intros [Hf Hm] e. subst e. unfold init_pt_entry. pose proof (target_range pa) as Hp.
  fold (target pa). split; [|split].
  - apply lor_range; [lia | zlia |]. apply lor_range; [lia | done | flag_range].
  - unfold present. rewrite !Z.lor_spec. change (Z.testbit PRESENT_BIT 0) with true.
    by rewrite !orb_true_r.
  - rewrite !target_lor, (target_aligned (target pa)) by apply Hp.
    fold (target flags) in Hm. rewrite Hm. change (target PRESENT_BIT) with 0.
    by rewrite !Z.lor_0_r.
Qed.

Lemma large_entry pa flags :
  flags_ok flags ->
  let e := Z.lor (Z.lor (Z.lor (Z.land pa PHYS_ADDR_MASK) flags) PRESENT_BIT) PAGE_SIZE_BIT in
  0 <= e < 2 ^ 64 /\ present e = true /\ large e = true /\ target e = target pa.
Proof.
  intros [Hf Hm] e. subst e. pose proof (target_range pa) as Hp.
  fold (target pa). split_and!.
  - repeat (apply Z.lor_nonneg; split); try (done || lia).
  - repeat (apply lor_range; [lia | | first [done | flag_range]]). zlia.
  - unfold present. rewrite !Z.lor_spec. change (Z.testbit PRESENT_BIT 0) with true.
    by rewrite orb_true_r.
  - unfold large. rewrite !Z.lor_spec. change (Z.testbit PAGE_SIZE_BIT 7) with true.
    by rewrite orb_true_r.
  - rewrite !target_lor, (target_aligned (target pa)) by apply Hp.
    fold (target flags) in Hm. rewrite Hm. change (target PRESENT_BIT) with 0.
    change (target PAGE_SIZE_BIT) with 0. by rewrite !Z.lor_0_r.
Qed.

(** ** Walks *)

(** Entries that a level-[l] table can exchange without changing any walk. *)
Definition entry_like (l : nat) (e e' : Z) : Prop :=
  e' = e \/ (l <> 1%nat /\ pointer e = true /\ pointer e' = true /\ target e' = target e).

Lemma pointer_spec e : pointer e = true <-> present e = true /\ large e = false.
Proof. unfold pointer. by rewrite andb_true_iff, negb_true_iff. Qed.

Lemma reach_self l m a va : reach l l m a va = Some a.
Proof. destruct l; cbn [reach]; by rewrite Nat.eqb_refl. Qed.

Lemma reach_step l k m a va :
  (k <= l)%nat ->
  reach (S l) k m a va =
  if pointer (pte m a (S l) va) then reach l k m (target (pte m a (S l) va)) va else None.
Proof. intros Hk. cbn [reach]. by rewrite (proj2 (Nat.eqb_neq _ _)) by lia. Qed.

Lemma reach_le l : forall k m a va t, reach l k m a va = Some t -> (k <= l)%nat.
Proof.
  induction l as [|l IH]; intros k m a va t; cbn [reach].
  - destruct (Nat.eqb_spec 0 k); [lia | done].
  - destruct (Nat.eqb_spec (S l) k); [lia|]. destruct (pointer _); [|done].
    intros Hr. apply IH in Hr. lia.
Qed.

Lemma walk_reach l : forall k m a va t,
  (1 <= k)%nat -> reach l k m a va = Some t -> walk l m a va = walk k m t va.
Proof.
  induction l as [|l IH]; intros k m a va t Hk Hr.
  { apply reach_le in Hr. lia. }
  destruct (decide (S l = k)) as [<-|Hne].
  { rewrite reach_self in Hr. congruence. }
  pose proof (reach_le _ _ _ _ _ _ Hr). rewrite reach_step in Hr by lia.
  destruct (pointer _) eqn:Hp; [|done]. apply pointer_spec in Hp as [Hp Hl].
  cbn [walk]. rewrite Hp, Hl. cbn [negb]. rewrite (proj2 (Nat.eqb_neq _ _)) by lia. by apply IH.
Qed.

Lemma reach_reach l : forall k j m a va t,
  (j <= k)%nat -> reach l k m a va = Some t -> reach l j m a va = reach k j m t va.
Proof.
  induction l as [|l IH]; intros k j m a va t Hj Hr.
  { pose proof (reach_le _ _ _ _ _ _ Hr). replace k with O in * by lia.
    rewrite reach_self in Hr. congruence. }
  destruct (decide (S l = k)) as [<-|Hne].
  { rewrite reach_self in Hr. congruence. }
  pose proof (reach_le _ _ _ _ _ _ Hr). rewrite reach_step in Hr |- * by lia.
  destruct (pointer _); [|done]. by apply IH.
Qed.

Section walks.
Context {A : Type} `{FrameAllocatorLaws A}.
Context (m : mem) (s : A) (T : gmap Z nat) (root : Z) (OK : tables_ok m s T root).

Lemma reach_level l : forall k a va t,
  (1 <= k)%nat -> T !! a = Some l -> reach l k m a va = Some t -> T !! t = Some k.
Proof using OK.
  induction l as [|l IH]; intros k a va t Hk Ha Hr.
  { apply reach_le in Hr. lia. }
  destruct (decide (S l = k)) as [<-|Hne].
  { rewrite reach_self in Hr. congruence. }
  pose proof (reach_le _ _ _ _ _ _ Hr). rewrite reach_step in Hr by lia.
  destruct (pointer _) eqn:Hp; [|done]. apply (IH k) in Hr; [done..|].
  by apply (tb_child _ _ _ _ OK); [|lia|].
Qed.

(** Walks that meet in a table came the same way. *)
Lemma reach_inj l : forall k a b va vb t,
  (1 <= k)%nat -> T !! a = Some l -> T !! b = Some l ->
  reach l k m a va = Some t -> reach l k m b vb = Some t ->
  a = b /\ forall j, (k < j <= l)%nat -> idx j va = idx j vb.
Proof using OK.
  induction l as [|l IH]; intros k a b va vb t Hk Ha Hb Hra Hrb.
  { apply reach_le in Hra. lia. }
  destruct (decide (S l = k)) as [<-|Hne].
  { rewrite reach_self in Hra, Hrb. split; [congruence | lia]. }
  pose proof (reach_le _ _ _ _ _ _ Hra). rewrite reach_step in Hra, Hrb by lia.
  destruct (pointer (pte m a _ _)) eqn:Hpa; [|done].
  destruct (pointer (pte m b _ _)) eqn:Hpb; [|done].
  assert (Hl0 : l <> O) by lia.
  destruct (IH k _ _ _ _ _ Hk (tb_child _ _ _ _ OK _ _ _ Ha Hl0 Hpa)
    (tb_child _ _ _ _ OK _ _ _ Hb Hl0 Hpb) Hra Hrb) as [Ht Hidx].
  destruct (tb_parent _ _ _ _ OK a b l va vb) as [-> Hi]; [done..|]. split; [done|].
  intros j Hj. destruct (decide (j = S l)) as [->|]; [done | apply Hidx; lia].
Qed.

(** Changing entries into equivalent ones changes no walk. *)
Lemma walk_ext m' va l : forall a,
  T !! a = Some l ->
  (forall b k, (1 <= k)%nat -> T !! b = Some k -> reach l k m a va = Some b ->
     entry_like k (pte m b k va) (pte m' b k va)) ->
  walk l m' a va = walk l m a va /\
  forall k, (1 <= k)%nat -> reach l k m' a va = reach l k m a va.
Proof using OK.
  induction l as [|l IH]; intros a Ha Hsame.
  { destruct (tb_level _ _ _ _ OK a 0 Ha). lia. }
  assert (Hrec : pointer (pte m a (S l) va) = true -> l <> O ->
    walk l m' (target (pte m a (S l) va)) va = walk l m (target (pte m a (S l) va)) va /\
    forall k, (1 <= k)%nat -> reach l k m' (target (pte m a (S l) va)) va =
      reach l k m (target (pte m a (S l) va)) va).
  { intros Hp Hl. apply IH; [by apply (tb_child _ _ _ _ OK)|].
    intros b k Hk Hb Hr. apply Hsame; [done..|].
    pose proof (reach_le _ _ _ _ _ _ Hr). by rewrite reach_step, Hp by lia. }
  destruct (Hsame a (S l)) as [He|(Hl1 & Hp & Hp' & Ht)]; [lia | done | apply reach_self | |].
  - split.
    + cbn [walk]. rewrite He. destruct (present _) eqn:Hpr; [|done]. cbn [negb].
      destruct (Nat.eqb_spec (S l) 1); [done|]. destruct (large _) eqn:Hlg; [done|].
      apply Hrec; [by apply pointer_spec | lia].
    + intros k Hk. cbn [reach]. rewrite He. destruct (Nat.eqb_spec (S l) k); [done|].
      destruct (pointer _) eqn:Hp; [|done].
      destruct (decide (l = O)) as [->|]; [by destruct k; [lia|] | by apply Hrec].
  - assert (Hl0 : l <> O) by lia. destruct (Hrec Hp Hl0) as [Hw Hrch]. split.
    + cbn [walk]. pose proof Hp as [Hpr Hlg]%pointer_spec. pose proof Hp' as [Hpr' Hlg']%pointer_spec.
      rewrite Hpr, Hlg, Hpr', Hlg', Ht, Hw. cbn [negb].
      by rewrite (proj2 (Nat.eqb_neq (S l) 1)) by lia.
    + intros k Hk. cbn [reach]. rewrite Hp, Hp', Ht. destruct (Nat.eqb_spec (S l) k); [done|].
      by apply Hrch.
Qed.
End walks.

(** ** Writing entries *)
Lemma entry_in_frame t i x :
  0 <= i < 512 -> region (entry_addr t i) 8 x -> region t frame_size x.
Proof. unfold region, entry_addr, frame_size. lia. Qed.

Lemma pte_upd P m m' b l va :
  mem_upd P m m' -> (forall x, region b frame_size x -> ~ P x) -> pte m' b l va = pte m b l va.
Proof.
  intros U HP. apply (mem_upd_peek64 P); [done|]. intros x Hx. apply HP.
  by apply (entry_in_frame b (idx l va)); [apply idx_range|].
Qed.

Lemma pte_poke t k v0 m b l va e :
  0 <= e < 2 ^ 64 -> t mod frame_size = 0 -> b mod frame_size = 0 ->
  pte (poke64 m (entry_addr t (idx k v0)) e) b l va =
  if decide (b = t /\ idx l va = idx k v0) then e else pte m b l va.
Proof.
  intros He Ht Hb. unfold pte. pose proof (idx_range k v0). pose proof (idx_range l va).
  destruct (decide (b = t /\ idx l va = idx k v0)) as [[-> ->]|Hne].
  - by rewrite peek64_poke64_eq, u64_small.
  - rewrite peek64_poke64_ne; [done|]. unfold entry_addr, frame_size in *.
    destruct (decide (b = t)) as [->|]; [|zlia]. assert (idx l va <> idx k v0) by naive_solver. lia.
Qed.

Section writes.
Context {A : Type} `{FrameAllocatorLaws A}.
Implicit Types (m : mem) (s : A) (T : gmap Z nat) (root : Z).

(** Tables are not disturbed by writes that avoid them. *)
Lemma tables_transport P m s T root m' s' :
  tables_ok m s T root -> mem_upd P m m' ->
  (forall a l x, T !! a = Some l -> region a frame_size x -> ~ P x) ->
  (forall x, priv s' x <-> priv s x) -> (forall a, avail m' s' a -> avail m s a) ->
  tables_ok m' s' T root.
Proof.
  intros OK U HP Hpriv Hav.
  assert (Hpte : forall a l k va, T !! a = Some l -> pte m' a k va = pte m a k va).
  { intros a l k va Ha. apply (pte_upd P); [done|]. intros x. by apply (HP a l). }
  destruct OK as [Hroot Hlvl Hfr Hused Hch Hpar Hpage]. split; try done.
  - intros a l Ha. destruct (Hfr a l Ha) as [? ? ? Hb Hp]. split; try done.
    + by apply (mem_upd_backed _ _ _ _ _ U).
    + intros x Hx. rewrite Hpriv. by apply Hp.
  - intros a l Ha Hv. apply (Hused a l Ha). by apply Hav.
  - intros a l va Ha Hl. rewrite (Hpte a _ _ _ Ha). by apply Hch.
  - intros a b l va vb Ha Hb Hl. rewrite (Hpte a _ _ _ Ha), (Hpte b _ _ _ Hb). by apply Hpar.
  - intros a l va Ha. rewrite (Hpte a _ _ _ Ha). by apply Hpage.
Qed.

Lemma step_refl m s T : fa_inv m s ->
  (forall a l, T !! a = Some l -> ~ avail m s a) -> tables_step m s T m s T.
Proof.
  intros Hinv Hused. split; try done; [by left|].
  intros a. destruct (T !! a) as [l|] eqn:Ha; [|tauto].
  split; [intros Hav; by destruct (Hused a l Ha) | by intros [? ?]].
Qed.

Lemma step_trans m s T m1 s1 T1 m2 s2 T2 :
  tables_step m s T m1 s1 T1 -> tables_step m1 s1 T1 m2 s2 T2 -> tables_step m s T m2 s2 T2.
Proof.
  intros [_ G1 N1 A1 P1 O1 U1] [I2 G2 N2 A2 P2 O2 U2]. split.
  - done.
  - by etrans.
  - intros a l Ha. destruct (N2 a l Ha) as [Ha1|Ha1]; [by apply N1|].
    right. by apply A1 in Ha1 as [].
  - intros a. rewrite A2, A1. split; [naive_solver|]. intros [Hav Hn]. split_and!; [done | | done].
    destruct (T1 !! a) eqn:Ha; [|done]. by rewrite (lookup_weaken _ _ _ _ Ha G2) in Hn.
  - intros x. by rewrite P2, P1.
  - by rewrite O2.
  - etrans; [eapply mem_upd_mono; [exact U1 |] | eapply mem_upd_mono; [exact U2 |]];
      intros x [Hx|(a & l & Ha & Hx)].
    + by left.
    + right. exists a, l. split; [by eapply lookup_weaken | done].
    + left. by apply P1.
    + right. by exists a, l.
Qed.

(** A write into a table. *)
Lemma step_store m s T root t k va e :
  fa_inv m s -> tables_ok m s T root -> T !! t = Some k ->
  tables_step m s T (poke64 m (entry_addr t (idx k va)) e) s T.
Proof.
  intros Hinv OK Ht. pose proof (tb_frame _ _ _ _ OK t k Ht) as [_ _ _ Hb Hp].
  pose proof (idx_range k va) as Hi.
  assert (U : mem_upd (region (entry_addr t (idx k va)) 8) m (poke64 m (entry_addr t (idx k va)) e)).
  { apply mem_upd_poke64. apply (backed_sub _ _ _ _ _ Hb); unfold entry_addr, frame_size; lia. }
  destruct (fa_stable _ _ _ s Hinv U) as [I Hav].
  { intros x Hx. apply Hp. by apply (entry_in_frame t (idx k va)). }
  split; try done; [by left | |].
  - intros a. rewrite Hav. split; [|by intros []]. intros Ha. split; [done|].
    destruct (T !! a) as [l|] eqn:HT; [|done]. by destruct (tb_used _ _ _ _ OK a l HT).
  - eapply mem_upd_mono; [exact U |]. intros x Hx. right. exists t, k.
    split; [done|]. by apply (entry_in_frame t (idx k va)).
Qed.

(** The invariant after a write that adds no new pointer. *)
Lemma tables_store m s T root t k va e :
  fa_inv m s -> tables_ok m s T root -> T !! t = Some k -> 0 <= e < 2 ^ 64 ->
  k = 1%nat \/ pointer e = false \/
    (pointer (pte m t k va) = true /\ target e = target (pte m t k va)) ->
  ((3 <= k)%nat -> large e = false) ->
  tables_ok (poke64 m (entry_addr t (idx k va)) e) s T root.
Proof.
  intros Hinv OK Ht He Hptr Hsmall.
  pose proof (step_store m s T root t k va e Hinv OK Ht) as [I _ _ Hav _ _ U].
  assert (Hal : forall a l, T !! a = Some l -> a mod frame_size = 0)
    by (intros a l Ha; apply (tb_frame _ _ _ _ OK a l Ha)).
  assert (Hold : forall a l v, T !! a = Some (S l) -> l <> O ->
    pointer (pte (poke64 m (entry_addr t (idx k va)) e) a (S l) v) = true ->
    pointer (pte m a (S l) v) = true /\
    target (pte (poke64 m (entry_addr t (idx k va)) e) a (S l) v) = target (pte m a (S l) v)).
  { intros a l v Ha Hl. rewrite (pte_poke t k va m a (S l) v e) by eauto.
    destruct (decide _) as [[-> Hi]|_]; [|done].
    assert (k = S l) as -> by congruence. intros Hp.
    destruct Hptr as [|[|[Hp' Htg]]]; [lia | congruence |].
    unfold pte in *. by rewrite Hi. }
  destruct OK as [Hroot Hlvl Hfr Hused Hch Hpar Hpage]. split; try done.
  - intros a l Ha. destruct (Hfr a l Ha) as [? ? ? Hb Hp]. split; try done.
    by apply (mem_upd_backed _ _ _ _ _ U).
  - intros a l Ha Hv. apply Hav in Hv as [Hv _]. by apply (Hused a l).
  - intros a l v Ha Hl Hp. destruct (Hold a l v Ha Hl Hp) as [Hp' ->]. by apply Hch.
  - intros a b l v w Ha Hb Hl Hpa Hpb.
    destruct (Hold a l v Ha Hl Hpa) as [? ->]. destruct (Hold b l w Hb Hl Hpb) as [? ->].
    by apply Hpar.
  - intros a l v Ha Hl. rewrite (pte_poke t k va m a l v e) by eauto.
    destruct (decide _) as [[-> _]|_]; [|by apply Hpage].
    intros _. apply Hsmall. assert (k = l) as -> by congruence. done.
Qed.
End writes.

(** ** Linking in a fresh table *)
Section new_table.
Context {A : Type} `{FrameAllocatorLaws A}.
Context (m : mem) (s : A) (T : gmap Z nat) (root : Z).
Context (Hinv : fa_inv m s) (OK : tables_ok m s T root).
(** the entry of table [t] at level [k + 1] that [v0] selects is absent *)
Context (t : Z) (k : nat) (v0 : Z) (Ht : T !! t = Some (S k)) (Hk : k <> O).
Context (Habsent : present (pte m t (S k) v0) = false).
(** [r] is a zeroed frame outside the allocator and the tables *)
Context (r : Z) (Hr : frame_ok m (priv s) r) (Hrav : ~ avail m s r) (HrT : T !! r = None).
Context (Hzero : forall l va, pte m r l va = 0).
Context (e : Z) (He : 0 <= e < 2 ^ 64) (Hptr : pointer e = true) (Htgt : target e = r).
Let m' := poke64 m (entry_addr t (idx (S k) v0)) e.
Let T' := <[r := k]> T.

Lemma grow_subseteq : T ⊆ T'.
Proof. by apply insert_subseteq. Qed.

Lemma old_or_new a l : T' !! a = Some l -> (a = r /\ l = k) \/ (a <> r /\ T !! a = Some l).
Proof.
  unfold T'. intros Ha. destruct (decide (a = r)) as [->|Hne].
  - rewrite lookup_insert_eq in Ha. left. split; congruence.
  - rewrite lookup_insert_ne in Ha by done. by right.
Qed.

Lemma aligned_in a l : T' !! a = Some l -> a mod frame_size = 0.
Proof.
  intros Ha. apply old_or_new in Ha as [[-> _]|[_ Ha]]; [apply Hr | by apply (tb_frame _ _ _ _ OK a l)].
Qed.

Lemma pte_new a l k' va :
  T' !! a = Some l ->
  pte m' a k' va =
  if decide (a = t /\ idx k' va = idx (S k) v0) then e else pte m a k' va.
Proof.
  intros Ha. apply pte_poke; [done | | by eapply aligned_in].
  by apply (tb_frame _ _ _ _ OK t (S k)).
Qed.

(** The pointers of the new state: the old ones and the one to [r]. *)
Lemma pointer_new a l va :
  T' !! a = Some (S l) -> l <> O -> pointer (pte m' a (S l) va) = true ->
  (a = t /\ l = k /\ idx (S l) va = idx (S k) v0 /\ target (pte m' a (S l) va) = r) \/
  (T !! a = Some (S l) /\ pte m' a (S l) va = pte m a (S l) va).
Proof.
  intros Ha Hl. rewrite (pte_new a (S l) (S l) va Ha).
  pose proof Ha as Ha'. apply old_or_new in Ha' as [[-> ->]|[Hne Ha']].
  - rewrite decide_False by (intros [-> _]; congruence). by rewrite Hzero.
  - destruct (decide _) as [[-> Hi]|_]; [|by right].
    intros _. left. assert (l = k) as -> by congruence. done.
Qed.

Lemma step_link : tables_step m s T m' s T.
Proof. by apply (step_store m s T root). Qed.

Lemma tables_link : tables_ok m' s T' root.
Proof.
  pose proof step_link as [_ _ _ Hav _ _ U].
  pose proof OK as [Hroot Hlvl Hfr Hused Hch Hpar Hpage]. split.
  - by eapply lookup_weaken, grow_subseteq.
  - intros a l Ha. apply old_or_new in Ha as [[_ ->]|[_ Ha]]; [|by apply (Hlvl a)].
    pose proof (Hlvl _ _ Ht). lia.
  - intros a l Ha.
    assert (F : frame_ok m (priv s) a) by (apply old_or_new in Ha as [[-> _]|[_ Ha]]; eauto).
    destruct F as [? ? ? Hb Hp]. split; try done. by apply (mem_upd_backed _ _ _ _ _ U).
  - intros a l Ha Hv. apply Hav in Hv as [Hv _].
    apply old_or_new in Ha as [[-> _]|[_ Ha]]; [done | by apply (Hused a l)].
  - intros a l va Ha Hl Hp.
    destruct (pointer_new a l va Ha Hl Hp) as [(-> & -> & _ & ->)|[Ha' He']].
    + by apply lookup_insert_eq.
    + rewrite He' in Hp |- *. eapply lookup_weaken; [by apply Hch | apply grow_subseteq].
  - intros a b l va vb Ha Hb Hl Hpa Hpb Heq.
    assert (Hold : forall c w, T !! c = Some (S l) -> pte m' c (S l) w = pte m c (S l) w ->
      pointer (pte m' c (S l) w) = true -> target (pte m' c (S l) w) = r -> False).
    { intros c w Hc Hw Hpc Htc. rewrite Hw in Hpc, Htc.
      pose proof (Hch c l w Hc Hl Hpc) as Hx. congruence. }
    destruct (pointer_new a l va Ha Hl Hpa) as [(-> & Hlk' & Hi & Hta)|[Ha' Hea]];
      destruct (pointer_new b l vb Hb Hl Hpb) as [(-> & Hlk & Hj & Htb)|[Hb' Heb]].
    + split; congruence.
    + destruct (Hold b vb Hb' Heb Hpb). congruence.
    + destruct (Hold a va Ha' Hea Hpa). congruence.
    + rewrite Hea, Heb in *. by apply Hpar.
  - intros a l va Ha Hl. rewrite (pte_new a l l va Ha). destruct (decide _) as [_|_].
    + intros _. by apply pointer_spec in Hptr as [_ ?].
    + apply old_or_new in Ha as [[-> ->]|[_ Ha]]; [by rewrite Hzero | by apply Hpage].
Qed.

(** A walk that enters the fresh table finds nothing there. *)
Lemma walk_zero l va : (1 <= l)%nat -> r <> t -> walk l m' r va = None.
Proof.
  intros Hl Hne. destruct l as [|l]; [lia|]. cbn [walk].
  rewrite (pte_new r k) by apply lookup_insert_eq.
  rewrite decide_False by naive_solver. by rewrite Hzero.
Qed.

Lemma walk_link va l : forall a, T !! a = Some l ->
  walk l m' a va = walk l m a va /\
  forall j b, (1 <= j)%nat -> reach l j m a va = Some b -> reach l j m' a va = Some b.
Proof.
  assert (Hrt : r <> t) by congruence.
  pose proof Hptr as [Hpr Hlg]%pointer_spec. pose proof (tb_child _ _ _ _ OK) as Hch.
  induction l as [|l IH]; intros a Ha.
  { destruct (tb_level _ _ _ _ OK a 0 Ha). lia. }
  pose proof (pte_new a (S l) (S l) va (lookup_weaken _ _ _ _ Ha grow_subseteq)) as Hp'.
  destruct (decide (a = t /\ idx (S l) va = idx (S k) v0)) as [[-> Hi]|_].
  - assert (l = k) as -> by congruence.
    assert (Hab : present (pte m t (S k) va) = false) by (unfold pte in *; by rewrite Hi).
    split.
    + cbn [walk]. rewrite Hp', Hab, Hpr, Hlg, Htgt. cbn [negb].
      rewrite (proj2 (Nat.eqb_neq (S k) 1)) by lia. apply walk_zero; [lia | done].
    + intros j b Hj. cbn [reach]. unfold pointer at 1. rewrite Hab. by destruct (_ =? _)%nat.
  - split.
    + cbn [walk]. rewrite Hp'. destruct (present (pte m a (S l) va)) eqn:Hp; cbn [negb]; [|done].
      destruct (Nat.eqb_spec (S l) 1); [done|]. destruct (large (pte m a (S l) va)) eqn:Hlarge; [done|].
      apply IH. apply Hch; [done | lia | by apply pointer_spec].
    + intros j b Hj. cbn [reach]. rewrite Hp'. destruct (Nat.eqb_spec (S l) j); [done|].
      destruct (pointer (pte m a (S l) va)) eqn:Hp; [|done]. destruct (decide (l = O)) as [->|Hl0].
      * intros Hb%reach_le. lia.
      * by apply (proj2 (IH _ (Hch _ _ _ Ha Hl0 Hp))).
Qed.

(** The new entry leads to the fresh table. *)
Lemma reach_link va l a :
  T !! a = Some l -> reach l (S k) m a va = Some t -> idx (S k) va = idx (S k) v0 ->
  reach l k m' a va = Some r.
Proof.
  intros Ha Hrch Hi. destruct (walk_link va l a Ha) as [_ Hm].
  rewrite (reach_reach l (S k) k m' a va t) by (lia || (apply Hm; [lia | done])).
  rewrite reach_step by lia.
  rewrite (pte_new t (S k)) by (by eapply lookup_weaken, grow_subseteq).
  by rewrite decide_True, Hptr, Htgt, reach_self by done.
Qed.
End new_table.
