(* ===== verification/Mapping.v ===== *)
(** What next_table, map_page, map_large_page and map_range of paging.c do to
    the tables and to the translation they define. *)
From stdpp Require Import gmap.
From Stdlib Require Import ZArith Lia.
From S2P Require Import Prelude Memory Physical FrameAllocator LibString Paging PagingSpec.
Local Open Scope Z_scope.

(** The number of the level-[l] page (4 KiB, 2 MiB, ...) of a virtual address;
    the tables ignore bits 48 and up. *)
Definition page (l : nat) (va : Z) : Z := (va / span l) mod 2 ^ (9 * (5 - Z.of_nat l)).

(** What a leaf entry [e] of a level-[l] table maps an address to. *)
Definition leaf (l : nat) (e va : Z) : Z * Z := (target e / span l * span l + va mod span l, e).

(** ** Pages and table indexes *)
Lemma span_values : span 1 = 4096 /\ span 2 = 2097152 /\ span 3 = 1073741824 /\ span 4 = 549755813888.
Proof. done. Qed.

Lemma page_idx k va vb :
  (1 <= k <= 2)%nat ->
  page k va = page k vb <-> forall j, (k <= j <= 4)%nat -> idx j va = idx j vb.
Proof.
  intros Hk. unfold page, idx. destruct span_values as (E1 & E2 & E3 & E4).
  assert (Hc : k = 1%nat \/ k = 2%nat) by lia. split.
  - intros Hp j Hj. assert (Hj' : j = 1%nat \/ j = 2%nat \/ j = 3%nat \/ j = 4%nat) by lia.
    destruct Hc as [-> | ->], Hj' as [-> |[-> |[-> | ->]]]; try lia;
      rewrite ?E1, ?E2, ?E3, ?E4 in *; simpl in Hp; zlia.
  - intros Hi. pose proof (Hi 2%nat ltac:(lia)) as H2. pose proof (Hi 3%nat ltac:(lia)) as H3.
    pose proof (Hi 4%nat ltac:(lia)) as H4. rewrite ?E1, ?E2, ?E3, ?E4 in *.
    destruct Hc as [-> | ->]; [pose proof (Hi 1%nat ltac:(lia)) as H1; rewrite ?E1 in H1|];
      rewrite ?E1, ?E2; simpl; clear Hi; zlia.
Qed.

Lemma reach_idx l : forall k m a va vb,
  (forall j, (k < j <= l)%nat -> idx j va = idx j vb) -> reach l k m a va = reach l k m a vb.
Proof.
  induction l as [|l IH]; intros k m a va vb Hi; cbn [reach]; [done|].
  destruct (Nat.eqb_spec (S l) k); [done|].
  destruct (Nat.lt_ge_cases k (S l)) as [Hlt|Hge].
  - unfold pte. rewrite (Hi (S l)) by lia. destruct (pointer _); [|done].
    apply IH. intros j Hj. apply Hi. lia.
  - assert (Hnone : forall v b, reach l k m b v = None).
    { intros v b. destruct (reach l k m b v) eqn:Hr; [|done]. apply reach_le in Hr. lia. }
    rewrite !Hnone. by do 2 destruct (pointer _).
Qed.

(** The tables only grow, and the new ones are on the way of addresses in [V]. *)
Record grown (V : Z -> Prop) (m : mem) (T : gmap Z nat) (root : Z) (m' : mem) (T' : gmap Z nat) : Prop := {
  gw_reach v k t : (1 <= k)%nat -> reach 4 k m root v = Some t -> reach 4 k m' root v = Some t;
  gw_new a l : T' !! a = Some l -> T !! a = Some l \/
    (1 <= l)%nat /\ exists v, V v /\ reach 4 l m' root v = Some a
}.

Lemma grown_refl V m T root : grown V m T root m T.
Proof. split; auto. Qed.

Lemma grown_trans V m T root m1 T1 m2 T2 :
  grown V m T root m1 T1 -> grown V m1 T1 root m2 T2 -> grown V m T root m2 T2.
Proof.
  intros [R1 N1] [R2 N2]. split; [auto|]. intros a l Ha.
  destruct (N2 a l Ha) as [Ha1|?]; [|by right]. destruct (N1 a l Ha1) as [|(Hl & v & Hv & Hr)]; [by left | right].
  split; [done|]. exists v. auto.
Qed.

Lemma grown_mono (V W : Z -> Prop) m T root m' T' :
  (forall v, V v -> W v) -> grown V m T root m' T' -> grown W m T root m' T'.
Proof.
  intros HV [R N]. split; [done|]. intros a l Ha. destruct (N a l Ha) as [|(Hl & v & Hv & Hr)]; [by left | right].
  split; [done|]. exists v. auto.
Qed.

Section mapping.
Context {A : Type} `{FrameAllocatorLaws A}.
Implicit Types (m : mem) (s : A) (T : gmap Z nat) (root : Z).

(** ** Tables from the allocator *)
Definition no_frame m s : Prop := forall a, ~ avail m s a.

Lemma alloc_table_spec m s :
  fa_inv m s ->
  wp (alloc_table m s) (fun '(r, (m', s')) =>
    (r = NULL /\ m' = m /\ s' = s /\ forall a, ~ avail m s a) \/
    (avail m s r /\ fa_inv m' s' /\
     mem_upd (fun x => priv s x \/ region r frame_size x) m m' /\
     (forall x, priv s' x <-> priv s x) /\ layout s' = layout s /\
     (forall a, avail m' s' a <-> avail m s a /\ a <> r) /\
     forall x, region r frame_size x -> byte_at m' x = Init.Byte.x00)).
Proof.
  intros Hinv. unfold alloc_table. wp_step. eapply wp_mono; [by apply fa_allocate_spec |].
  intros [r [m1 s1]] [(-> & -> & -> & Hno)|(Hr & (I1 & U1 & P1 & O1) & Hav)].
  { rewrite Z.eqb_refl. wp_ret. by left. }
  pose proof (avail_ok _ _ _ Hinv Hr) as [Hpos _ Hend Hb Hp].
  assert (Hne : (r =? ALL_ONES) = false) by (apply Z.eqb_neq; unfold ALL_ONES, frame_size in *; zlia).
  rewrite Hne. wp_step. eapply wp_mono.
  { apply wp_memset; [done|]. by apply (mem_upd_backed _ _ _ _ _ U1). }
  intros [p m2] (-> & U2 & Hz). wp_ret. right.
  destruct (fa_stable _ _ _ s1 I1 U2) as [I2 Hav2].
  { intros x Hx. rewrite P1. by apply Hp. }
  split_and!; try done.
  - etrans; (eapply mem_upd_mono; [eassumption|]); [by left | by right].
  - intros a. by rewrite Hav2, Hav.
  - intros x Hx. unfold byte_at. by rewrite (Hz x Hx).
Qed.

Lemma pte_zero m r l va :
  (forall x, region r frame_size x -> byte_at m x = Init.Byte.x00) -> pte m r l va = 0.
Proof.
  intros Hz. apply peekn_zero. intros x Hx. apply Hz.
  by apply (entry_in_frame r (idx l va)); [apply idx_range|].
Qed.

Lemma walk_empty l m r va :
  (1 <= l)%nat -> (forall k v, pte m r k v = 0) -> walk l m r va = None.
Proof. intros Hl Hz. destruct l as [|l]; [lia|]. cbn [walk]. by rewrite Hz. Qed.

Lemma init_pml4_spec m s :
  fa_inv m s ->
  wp (init_pml4 m s) (fun '(r, (m', s')) =>
    (r = NULL /\ m' = m /\ s' = s /\ no_frame m s) \/
    (avail m s r /\ tables_ok m' s' {[r := 4%nat]} r /\ tables_step m s ∅ m' s' {[r := 4%nat]} /\
     forall va, walk 4 m' r va = None)).
Proof.
  intros Hinv. eapply wp_mono; [by apply alloc_table_spec |].
  intros [r [m' s']] [Hno|(Hav & I1 & U1 & P1 & O1 & A1 & Hz)]; [by left | right].
  assert (Hpte : forall k v, pte m' r k v = 0) by (intros; by apply pte_zero).
  pose proof (avail_ok _ _ _ Hinv Hav) as [Hpos Hal Hend Hb Hp].
  split; [done|]. split; [|split].
  - split.
    + apply lookup_singleton_eq.
    + intros a l Ha. apply lookup_singleton_Some in Ha as [<- <-]. lia.
    + intros a l Ha. apply lookup_singleton_Some in Ha as [<- <-]. split; try done.
      * by apply (mem_upd_backed _ _ _ _ _ U1).
      * intros x Hx. rewrite P1. by apply Hp.
    + intros a l Ha. apply lookup_singleton_Some in Ha as [<- <-]. rewrite A1. tauto.
    + intros a l va Ha Hl Hptr. apply lookup_singleton_Some in Ha as [<- _].
      by rewrite Hpte in Hptr.
    + intros a b l va vb Ha _ Hl Hptr. apply lookup_singleton_Some in Ha as [<- _].
      by rewrite Hpte in Hptr.
    + intros a l va Ha _. apply lookup_singleton_Some in Ha as [<- _]. by rewrite Hpte.
  - split; try done.
    + apply map_empty_subseteq.
    + intros a l Ha. apply lookup_singleton_Some in Ha as [<- _]. by right.
    + intros a. rewrite A1, lookup_singleton_None. naive_solver.
    + eapply mem_upd_mono; [exact U1|]. intros x [Hx|Hx]; [by left|right].
      exists r, 4%nat. by rewrite lookup_singleton_eq.
  - intros va. by apply walk_empty; [lia|].
Qed.

(** ** Entries *)

(** Reading an entry of a table. *)
Lemma backed_entry m s T root t k l va :
  tables_ok m s T root -> T !! t = Some k -> backed m (entry_addr t (idx l va)) 8.
Proof.
  intros OK Ht. pose proof (idx_range l va).
  apply (backed_sub _ _ _ _ _ (frame_backed _ _ _ (tb_frame _ _ _ _ OK t k Ht)));
    unfold entry_addr, frame_size; lia.
Qed.

Lemma wp_load_entry m s T root t k l va Q :
  tables_ok m s T root -> T !! t = Some k -> Q (pte m t l va) ->
  wp (load64 m (entry_addr t (idx l va))) Q.
Proof. intros OK Ht HQ. apply wp_loadn; [|done]. by apply (backed_entry m s T root t k). Qed.

Lemma wp_store_entry m s T root t k l va e Q :
  tables_ok m s T root -> T !! t = Some k ->
  Q (poke64 m (entry_addr t (idx l va)) e) ->
  wp (store64 m (entry_addr t (idx l va)) e) Q.
Proof. intros OK Ht HQ. apply wp_storen; [|done]. by apply (backed_entry m s T root t k). Qed.

Lemma target_not_null m s T root t k :
  tables_ok m s T root -> T !! t = Some k -> target t = t /\ t <> NULL.
Proof.
  intros OK Ht. destruct (tb_frame _ _ _ _ OK t k Ht) as [Hpos Hal Hend _ _].
  unfold frame_size, NULL in *. split; [apply target_aligned; lia | lia].
Qed.

(** ** Linking a new table in *)

(** A frame newly taken from the allocator and zeroed, seen by the tables. *)
Record fresh (m : mem) (s : A) (T : gmap Z nat) (root : Z) (r : Z) (m1 : mem) (s1 : A) : Prop := {
  fr_ok : tables_ok m1 s1 T root;
  fr_pte a l j va : T !! a = Some l -> pte m1 a j va = pte m a j va;
  fr_walk va : walk 4 m1 root va = walk 4 m root va;
  fr_reach va j : (1 <= j)%nat -> reach 4 j m1 root va = reach 4 j m root va;
  fr_new : T !! r = None;
  fr_frame : frame_ok m1 (priv s1) r;
  fr_taken : ~ avail m1 s1 r;
  fr_zero l va : pte m1 r l va = 0
}.

Lemma fresh_frame m s T root r m1 s1 :
  fa_inv m s -> tables_ok m s T root -> avail m s r ->
  mem_upd (fun x => priv s x \/ region r frame_size x) m m1 ->
  (forall x, priv s1 x <-> priv s x) ->
  (forall a, avail m1 s1 a <-> avail m s a /\ a <> r) ->
  (forall x, region r frame_size x -> byte_at m1 x = Init.Byte.x00) ->
  fresh m s T root r m1 s1.
Proof.
  intros Hinv OK Hav U1 P1 A1 Hz. pose proof (avail_ok _ _ _ Hinv Hav) as Fr.
  assert (HrT : T !! r = None).
  { destruct (T !! r) eqn:HT; [|done]. by destruct (tb_used _ _ _ _ OK r _ HT). }
  assert (Hdis : forall a l x, T !! a = Some l -> region a frame_size x ->
    ~ (priv s x \/ region r frame_size x)).
  { intros a l x Ha Hx. pose proof (tb_frame _ _ _ _ OK a l Ha) as Fa.
    intros [Hp|Hp]; [by apply (frame_not_priv _ _ _ Fa x)|].
    apply (frames_disjoint a r x); [apply Fa | apply Fr | congruence | done..]. }
  assert (Hpte : forall a l j v, T !! a = Some l -> pte m1 a j v = pte m a j v).
  { intros a l j v Ha. apply (pte_upd _ _ _ _ _ _ U1). intros x. by apply (Hdis a l). }
  assert (Hw : forall v, walk 4 m1 root v = walk 4 m root v /\
    forall j, (1 <= j)%nat -> reach 4 j m1 root v = reach 4 j m root v).
  { intros v. apply (walk_ext m s T root OK); [apply OK|]. intros b j _ Hb' _. left. by apply (Hpte b j). }
  destruct Fr as [Hpos Hal Hend Hb Hnp]. split; try done.
  - apply (tables_transport _ m s T root m1 s1 OK U1 Hdis P1). intros a Ha. by apply A1 in Ha as [].
  - apply Hw.
  - apply Hw.
  - split; try done; [by apply (mem_upd_backed _ _ _ _ _ U1) | intros x Hx; rewrite P1; auto].
  - rewrite A1. tauto.
  - intros. by apply pte_zero.
Qed.

(** Linking a fresh frame in as the table below an absent entry. *)
Lemma link_fresh m s T root t k va r m1 s1 e :
  tables_ok m s T root -> fresh m s T root r m1 s1 -> fa_inv m1 s1 -> k <> O ->
  reach 4 (S k) m root va = Some t -> present (pte m t (S k) va) = false ->
  0 <= e < 2 ^ 64 -> pointer e = true -> target e = r ->
  let m' := poke64 m1 (entry_addr t (idx (S k) va)) e in
  let T' := <[r := k]> T in
  tables_step m1 s1 T m' s1 T /\ tables_ok m' s1 T' root /\ reach 4 k m' root va = Some r /\
  forall v, walk 4 m' root v = walk 4 m root v /\
    forall j b, (1 <= j)%nat -> reach 4 j m root v = Some b -> reach 4 j m' root v = Some b.
Proof.
  intros OK F I1 Hk Hrch Hab He Hp Ht m' T'.
  assert (HtT : T !! t = Some (S k)).
  { apply (reach_level m s T root OK 4 (S k) root va t); [lia | apply OK | done]. }
  destruct F as [OK1 Hpte Hw Hre HrT Fr Hrav Hz]. rewrite <- (Hpte t (S k)) in Hab by done.
  rewrite <- Hre in Hrch by lia. pose proof (tb_root _ _ _ _ OK1) as Hroot.
  split_and!.
  - by apply (step_store m1 s1 T root).
  - by apply tables_link.
  - by apply (reach_link m1 s1 T root OK1 t k va HtT Hk Hab r Fr HrT Hz e He Hp Ht va 4 root).
  - intros v.
    destruct (walk_link m1 s1 T root OK1 t k va HtT Hk Hab r Fr HrT Hz e He Hp Ht v 4 root Hroot)
      as [Hw' Hr']. split; [by rewrite <- Hw |].
    intros j b Hj Hb. apply Hr'; [done|]. by rewrite Hre.
Qed.

(** ** Ways to a table *)

(** The way to a level-[k] table only depends on the entries above it. *)
Lemma reach_above m s T root m' k va :
  tables_ok m s T root -> (1 <= k)%nat ->
  (forall b j, (k < j)%nat -> T !! b = Some j -> pte m' b j va = pte m b j va) ->
  forall l a, T !! a = Some l -> reach l k m' a va = reach l k m a va.
Proof.
  intros OK Hk Hsame l. induction l as [|l IH]; intros a Ha.
  { destruct (tb_level _ _ _ _ OK a 0 Ha). lia. }
  destruct (Nat.lt_ge_cases k (S l)) as [Hlt|Hge].
  - rewrite !reach_step by lia. rewrite (Hsame a (S l)) by done.
    destruct (pointer (pte m a (S l) va)) eqn:Hp; [|done]. apply IH.
    apply (tb_child _ _ _ _ OK); [done | lia | done].
  - cbn [reach]. destruct (Nat.eqb_spec (S l) k); [done|].
    assert (Hnone : forall n b, reach l k n b va = None).
    { intros n' b. destruct (reach l k n' b va) eqn:Hr; [|done]. apply reach_le in Hr. lia. }
    rewrite !Hnone. by do 2 destruct (pointer _).
Qed.

(** A table that was reached stays reached, through pointers. *)
Lemma reach_pointer m s T root k va t u :
  tables_ok m s T root -> (1 <= k <= 3)%nat -> reach 4 k m root va = Some u ->
  reach 4 (S k) m root va = Some t -> pointer (pte m t (S k) va) = true.
Proof.
  intros OK Hk Hu Ht. rewrite (reach_reach 4 (S k) k m root va t) in Hu by (lia || done).
  rewrite reach_step in Hu by lia. by destruct (pointer _).
Qed.

Lemma reach_mid m root va u k :
  (1 <= k <= 4)%nat -> reach 4 1 m root va = Some u -> exists t, reach 4 k m root va = Some t.
Proof.
  intros Hk Hu. destruct (reach 4 k m root va) as [t|] eqn:Ht; [by exists t|]. exfalso.
  assert (Hc : k = 1%nat \/ k = 2%nat \/ k = 3%nat \/ k = 4%nat) by lia.
  destruct Hc as [-> |[-> |[-> | ->]]]; cbn [reach Nat.eqb] in Hu, Ht;
    repeat (destruct (pointer _); try done).
Qed.

(** ** Writing a leaf *)

Lemma walk_leaf k m t va e :
  pte m t k va = e -> present e = true -> k = 1%nat \/ (k = 2%nat /\ large e = true) ->
  walk k m t va = Some (leaf k e va).
Proof.
  intros He Hp Hk. unfold leaf. destruct Hk as [->|[-> Hl]]; cbn [walk]; rewrite He, Hp; cbn [negb Nat.eqb].
  - pose proof (target_range e) as [_ Ha]. destruct span_values as [-> _].
    by replace (target e / 4096 * 4096) with (target e) by zlia.
  - by rewrite Hl.
Qed.

(** Writing a leaf maps its page and touches no other. *)
Lemma store_leaf m s T root k t va e :
  fa_inv m s -> tables_ok m s T root -> reach 4 k m root va = Some t ->
  0 <= e < 2 ^ 64 -> present e = true -> k = 1%nat \/ (k = 2%nat /\ large e = true) ->
  let m' := poke64 m (entry_addr t (idx k va)) e in
  tables_step m s T m' s T /\ tables_ok m' s T root /\
  (forall vb, page k vb = page k va -> walk 4 m' root vb = Some (leaf k e vb)) /\
  (forall vb, page k vb <> page k va -> walk 4 m' root vb = walk 4 m root vb).
Proof.
  intros Hinv OK Hrch He Hp Hk m'.
  assert (Hk' : (1 <= k <= 2)%nat) by lia. pose proof (tb_root _ _ _ _ OK) as Hroot.
  assert (Ht : T !! t = Some k) by (apply (reach_level m s T root OK 4 k root va t); [lia | done..]).
  assert (Hal : forall a l, T !! a = Some l -> a mod frame_size = 0)
    by (intros a l Ha; apply (tb_frame _ _ _ _ OK a l Ha)).
  split; [by apply (step_store m s T root)|]. split.
  { apply tables_store; try done; [|lia]. destruct Hk as [->|[-> Hl]]; [by left | right; left].
    unfold pointer. by rewrite Hl, andb_false_r. }
  split; intros vb Hpg.
  - pose proof (proj1 (page_idx k vb va Hk') Hpg) as Hi.
    assert (Hr' : reach 4 k m' root vb = Some t).
    { rewrite (reach_above m s T root m' k vb OK) with (l := 4%nat); [|lia | | done].
      - rewrite <- Hrch. apply reach_idx. intros j Hj. apply Hi. lia.
      - intros b j Hj Hb. unfold m'. rewrite pte_poke by eauto. rewrite decide_False; [done|].
        intros [-> _]. assert (j = k) by congruence. lia. }
    rewrite (walk_reach 4 k m' root vb t) by (lia || done).
    apply walk_leaf; [|done..]. unfold m'. rewrite pte_poke by eauto.
    rewrite decide_True; [done|]. split; [done|]. apply Hi. lia.
  - apply (walk_ext m s T root OK); [done|]. intros b j Hj Hb Hrb. unfold m'.
    rewrite pte_poke by eauto. destruct (decide _) as [[-> Hi]|_]; [|by left].
    destruct Hpg. apply (proj2 (page_idx k vb va Hk')). assert (j = k) as -> by congruence.
    destruct (reach_inj m s T root OK 4 k root root vb va t) as [_ Hidx]; [lia | done..|].
    intros j Hj'. destruct (decide (j = k)) as [->|]; [done | apply Hidx; lia].
Qed.

(** A leaf in an entry that was no pointer cuts no way to a table. *)
Lemma leaf_reach m s T root k t va e v j b :
  tables_ok m s T root -> T !! t = Some k -> (1 <= k <= 2)%nat -> 0 <= e < 2 ^ 64 ->
  k = 1%nat \/ pointer (pte m t k va) = false -> (1 <= j)%nat ->
  reach 4 j m root v = Some b -> reach 4 j (poke64 m (entry_addr t (idx k va)) e) root v = Some b.
Proof.
  intros OK Ht Hk He Hp Hj Hr. set (m' := poke64 _ _ _). pose proof (tb_root _ _ _ _ OK) as Hroot.
  assert (Hpte : forall c l, T !! c = Some l -> (c, idx l v) <> (t, idx k va) -> pte m' c l v = pte m c l v).
  { intros c l Hc Hne. unfold m'. rewrite pte_poke by (first [done | by eapply frame_aligned, (tb_frame _ _ _ _ OK)]).
    rewrite decide_False; [done|]. intros [-> Hi]. apply Hne. congruence. }
  assert (Habove : forall i, (k <= i)%nat -> reach 4 i m' root v = reach 4 i m root v).
  { intros i Hi. apply (reach_above m s T root m' i v OK) with (l := 4%nat); [lia | | done].
    intros c l Hl Hc. apply Hpte; [done|]. intros [= -> _]. assert (l = k) by congruence. lia. }
  destruct (Nat.le_gt_cases k j) as [|Hlt]; [by rewrite Habove|]. assert (k = 2%nat) as -> by lia.
  assert (j = 1%nat) as -> by lia. destruct Hp as [|Hp]; [done|].
  destruct (reach_mid m root v b 2 ltac:(lia) Hr) as [c Hc].
  rewrite (reach_reach 4 2 1 m root v c) in Hr by (lia || done). rewrite reach_step in Hr by lia.
  rewrite <- Habove in Hc by lia. rewrite (reach_reach 4 2 1 m' root v c) by (lia || done).
  rewrite Habove in Hc by lia. rewrite reach_step by lia. rewrite Hpte; [done | |].
  - by apply (reach_level m s T root OK 4 2 root v c); [lia | ..].
  - intros [= -> Hi]. unfold pte in Hp, Hr. rewrite <- Hi in Hp. by rewrite Hp in Hr.
Qed.

(** ** What a mapping does *)

(** Why a mapping could not be made: no frame is left for a table, or a 2 MiB page
    maps [va] to another address than [pa], or, for a large page, a page table is in
    the way. *)
Definition blocked m root va pa : Prop :=
  exists t, reach 4 2 m root va = Some t /\
    let e := pte m t 2 va in present e = true /\ large e = true /\
    target e / span 2 * span 2 + va mod span 2 <> target pa.
Lemma blocked_translate m root va pa :
  blocked m root va pa -> exists q, translate m root va = Some q /\ q <> target pa.
Proof using Type.
  intros (t & Hr & Hp & Hl & Hne). eexists. split; [|exact Hne].
  unfold translate. rewrite (walk_reach 4 2 m root va t) by (lia || done).
  by rewrite (walk_leaf 2 m t va _ eq_refl Hp) by auto.
Qed.

Definition subdivided m root va : Prop := exists t, reach 4 1 m root va = Some t.

(** The page of [va] is mapped by leaf [e] and no other page changed. *)
Definition mapped k e m root m' va : Prop :=
  (forall vb, page k vb = page k va -> walk 4 m' root vb = Some (leaf k e vb)) /\
  (forall vb, page k vb <> page k va -> walk 4 m' root vb = walk 4 m root vb).

(** No translation changed. *)
Definition unmoved m root m' : Prop := forall vb, walk 4 m' root vb = walk 4 m root vb.

(** An existing 2 MiB page already maps the page of [va] to [pa]. *)
Definition covered m root va pa : Prop :=
  forall vb, page 1 vb = page 1 va -> translate m root vb = Some (target pa + vb mod page_size).

(** The address a 2 MiB page gives, as map_page computes it. *)
Lemma large_mapped e va :
  u64 (Z.land (Z.land e PHYS_ADDR_MASK) (not64 (large_page_size - 1))
       + Z.land va (large_page_size - 1)) = target e / span 2 * span 2 + va mod span 2.
Proof.
  pose proof (target_range e) as [He _]. fold (target e). destruct span_values as (_ & -> & _).
  assert (Hva : Z.land va (large_page_size - 1) = va mod 2097152).
  { change (large_page_size - 1) with (Z.ones 21). by rewrite Z.land_ones by lia. }
  assert (Hlo : Z.land (target e) (not64 (large_page_size - 1)) = target e / 2097152 * 2097152).
  { change 2097152 with (2 ^ 21). rewrite <- Z.shiftl_mul_pow2, <- Z.shiftr_div_pow2 by lia.
    rewrite <- Z.ldiff_ones_r by lia. apply Z.bits_inj'. intros j Hj.
    rewrite Z.land_spec, Z.ldiff_spec. change (large_page_size - 1) with (Z.ones 21).
    destruct (Z.lt_ge_cases j 64).
    - by rewrite testbit_not64 by lia.
    - rewrite (testbit_high (target e) 52) by lia. done. }
  rewrite Hva, Hlo. apply u64_small. zlia.
Qed.

(** A 2 MiB page that gives [va] the address [pa] covers the 4 KiB page of [va]. *)
Lemma covered_large m s T root t va pa e :
  tables_ok m s T root -> reach 4 2 m root va = Some t -> pte m t 2 va = e ->
  present e = true -> large e = true ->
  target e / span 2 * span 2 + va mod span 2 = target pa -> covered m root va pa.
Proof.
  intros OK Hrch He Hp Hl Hpa vb Hpg.
  pose proof (proj1 (page_idx 1 vb va ltac:(lia)) Hpg) as Hi.
  unfold translate. rewrite (reach_idx 4 2 m root va vb) in Hrch by (intros; symmetry; apply Hi; lia).
  rewrite (walk_reach 4 2 m root vb t) by (lia || done).
  assert (He' : pte m t 2 vb = e) by (rewrite <- He; unfold pte; by rewrite (Hi 2%nat) by lia).
  rewrite (walk_leaf 2 m t vb e He' Hp) by auto. unfold leaf. cbn [fmap option_fmap option_map fst].
  f_equal. pose proof (target_range pa) as [_ Hal]. pose proof (Hi 1%nat ltac:(lia)) as Hi1.
  unfold idx in Hi1. destruct span_values as (E1 & E2 & _). rewrite ?E1, ?E2 in *.
  unfold page_size. zlia.
Qed.

(** ** The tables grow, the translation stays

    [V] holds the addresses that are being mapped. *)
Context (V : Z -> Prop).

(** The tables changed, the translation did not. *)
Record quiet (m : mem) (s : A) (T : gmap Z nat) (root : Z) (m' : mem) (s' : A) (T' : gmap Z nat)
  : Prop := {
  q_step : tables_step m s T m' s' T';
  q_ok : tables_ok m' s' T' root;
  q_walk va : walk 4 m' root va = walk 4 m root va;
  q_grown : grown V m T root m' T'
}.

Lemma q_reach m s T root m' s' T' va k t :
  quiet m s T root m' s' T' -> (1 <= k)%nat -> reach 4 k m root va = Some t -> reach 4 k m' root va = Some t.
Proof. intros Q. apply (gw_reach _ _ _ _ _ _ (q_grown _ _ _ _ _ _ _ Q)). Qed.

Lemma quiet_refl m s T root : fa_inv m s -> tables_ok m s T root -> quiet m s T root m s T.
Proof. intros Hinv OK. split; try done; [apply step_refl; [done | apply OK] | apply grown_refl]. Qed.

Lemma quiet_trans m s T root m1 s1 T1 m2 s2 T2 :
  quiet m s T root m1 s1 T1 -> quiet m1 s1 T1 root m2 s2 T2 -> quiet m s T root m2 s2 T2.
Proof.
  intros [S1 _ W1 R1] [S2 O2 W2 R2]. split.
  - by eapply step_trans.
  - done.
  - intros va. by rewrite W2.
  - by eapply grown_trans.
Qed.

(** Replacing a pointer by an equivalent one. *)
Lemma quiet_pointer m s T root t k va e :
  fa_inv m s -> tables_ok m s T root -> T !! t = Some k -> k <> 1%nat -> 0 <= e < 2 ^ 64 ->
  pointer (pte m t k va) = true -> pointer e = true -> target e = target (pte m t k va) ->
  quiet m s T root (poke64 m (entry_addr t (idx k va)) e) s T.
Proof.
  intros Hinv OK Ht Hk He Hp Hpe Hte.
  assert (Hal : forall a l, T !! a = Some l -> a mod frame_size = 0)
    by (intros a l Ha; apply (tb_frame _ _ _ _ OK a l Ha)).
  assert (Hext : forall v, walk 4 (poke64 m (entry_addr t (idx k va)) e) root v = walk 4 m root v /\
    forall j, (1 <= j)%nat ->
      reach 4 j (poke64 m (entry_addr t (idx k va)) e) root v = reach 4 j m root v).
  { intros v. apply (walk_ext m s T root OK); [apply OK|]. intros b j Hj Hb _.
    rewrite pte_poke by eauto. destruct (decide _) as [[-> Hi]|_]; [|by left].
    assert (j = k) as -> by congruence. right. unfold pte in *. by rewrite Hi. }
  split.
  - by apply (step_store m s T root).
  - apply tables_store; auto. intros _. by apply pointer_spec in Hpe as [_ ?].
  - apply Hext.
  - split; [|by left]. intros v j b Hj Hr. by rewrite (proj2 (Hext v)).
Qed.

Lemma quiet_fresh m s T root k va r m1 s1 m' :
  V va -> (1 <= k)%nat -> reach 4 k m' root va = Some r -> avail m s r -> mem_upd (fun x => priv s x \/ region r frame_size x) m m1 ->
  (forall x, priv s1 x <-> priv s x) -> layout s1 = layout s ->
  (forall a, avail m1 s1 a <-> avail m s a /\ a <> r) -> T !! r = None ->
  tables_step m1 s1 T m' s1 T -> tables_ok m' s1 (<[r := k]> T) root ->
  (forall v, walk 4 m' root v = walk 4 m root v /\
    forall j b, (1 <= j)%nat -> reach 4 j m root v = Some b -> reach 4 j m' root v = Some b) ->
  quiet m s T root m' s1 (<[r := k]> T).
Proof.
  intros HV Hk Hr Hav U1 P1 O1 A1 HrT [I2 _ _ A2 _ _ U2] OK2 Hw.
  split; [| done | apply Hw |].
  2: { split; [intros v j b; apply Hw|]. intros a l.
    rewrite lookup_insert_Some. intros [[<- <-]|[_ Ha]]; [right | by left]. split; [done | by exists va]. }
  split; [done | by apply insert_subseteq | | | done | done |].
  - intros a l. destruct (decide (a = r)) as [->|]; [by right|].
    rewrite lookup_insert_ne by done. by left.
  - intros a. rewrite A2, A1. destruct (decide (a = r)) as [->|].
    + rewrite lookup_insert_eq. naive_solver.
    + rewrite lookup_insert_ne by done. naive_solver.
  - etrans; (eapply mem_upd_mono; [eassumption|]).
    + intros x [Hx|Hx]; [by left | right; exists r, k]. by rewrite lookup_insert_eq.
    + intros x [Hx|(a & l & Ha & Hx)]; [left; by apply P1 | right; exists a, l].
      rewrite lookup_insert_ne by congruence. done.
Qed.

(** What next_table returns: the table one level down, allocated if needed.
    It fails only on a large page or for want of a frame, and then changes
    nothing. *)
Definition next_table_post m s T root t k va (c : Z * (mem * A)) : Prop :=
  let '(r, (m', s')) := c in
  (r = NULL /\ m' = m /\ s' = s /\
   if present (pte m t (S k) va) then large (pte m t (S k) va) = true
   else forall a, ~ avail m s a) \/
  (exists T', r <> NULL /\ T' !! r = Some k /\ reach 4 k m' root va = Some r /\
     quiet m s T root m' s' T').

Lemma next_table_present m s T root t k va flags :
  let e := pte m t (S k) va in
  let e' := Z.lor e (Z.land flags USER_SUPERVISOR_BIT) in
  fa_inv m s -> tables_ok m s T root -> k <> O -> reach 4 (S k) m root va = Some t ->
  T !! t = Some (S k) -> pointer e = true ->
  wp (m' ← store64 m (entry_addr t (idx (S k) va)) e';
      e ← load64 m' (entry_addr t (idx (S k) va));
      Ok (Z.land e PHYS_ADDR_MASK, (m', s))) (next_table_post m s T root t k va).
Proof.
  intros e e' Hinv OK Hk Hrch Ht Hp. assert (He : 0 <= e < 2 ^ 64) by apply peek64_range.
  pose proof Hp as [Hpe Hle]%pointer_spec.
  destruct (user_entry e flags He) as (He' & Hpe' & Hle' & Hte'). fold e' in He', Hpe', Hle', Hte'.
  assert (Hp' : pointer e' = true) by (apply pointer_spec; split; congruence).
  pose proof (quiet_pointer m s T root t (S k) va e' Hinv OK Ht ltac:(lia) He' Hp Hp' Hte') as Q.
  wp_step. apply (wp_store_entry m s T root t (S k) (S k) va); [done..|].
  wp_step. apply (wp_load_entry _ _ _ _ t (S k) (S k) va _ (q_ok _ _ _ _ _ _ _ Q) Ht).
  wp_ret. right. exists T. unfold pte at 1 2 3. rewrite peek64_poke64_eq, u64_small by done.
  fold (target e'). rewrite Hte'.
  pose proof (tb_child _ _ _ _ OK t k va Ht Hk Hp) as Hc. fold e in Hc.
  split_and!; [by apply (target_not_null m s T root _ k OK Hc) | done | | done].
  apply (q_reach _ _ _ _ _ _ _ va k _ Q); [lia|].
  rewrite (reach_reach 4 (S k) k m root va t) by (lia || done).
  rewrite reach_step by lia. fold e. by rewrite Hp, reach_self.
Qed.

Lemma next_table_absent m s T root t k va flags :
  V va -> fa_inv m s -> tables_ok m s T root -> k <> O -> reach 4 (S k) m root va = Some t ->
  T !! t = Some (S k) -> present (pte m t (S k) va) = false ->
  wp ('(next, (m1, s1)) ← alloc_table m s;
      if next =? NULL then Ok (NULL, (m1, s1)) else
      m' ← store64 m1 (entry_addr t (idx (S k) va))
            (Z.lor (Z.lor (Z.lor next PRESENT_BIT) READ_WRITE_BIT)
               (Z.land flags USER_SUPERVISOR_BIT));
      Ok (next, (m', s1))) (next_table_post m s T root t k va).
Proof.
  intros HV Hinv OK Hk Hrch Ht Hab. wp_step. eapply wp_mono; [by apply alloc_table_spec |].
  intros [r [m1 s1]] [(-> & -> & -> & Hno)|(Hav & I1 & U1 & P1 & O1 & A1 & Hz)].
  { rewrite Z.eqb_refl. wp_ret. left. by rewrite Hab. }
  pose proof (avail_ok _ _ _ Hinv Hav) as [Hpos Hal Hend _ _].
  pose proof (fresh_frame m s T root r m1 s1 Hinv OK Hav U1 P1 A1 Hz) as F.
  destruct (pointer_entry r flags) as (He' & Hp' & Ht'); [unfold frame_size in *; lia | done |].
  set (e' := Z.lor _ _) in *.
  destruct (link_fresh m s T root t k va r m1 s1 e' OK F I1 Hk Hrch Hab He' Hp' Ht')
    as (S2 & OK2 & Hr2 & Hw).
  assert (Hnull : (r =? NULL) = false) by (apply Z.eqb_neq; unfold NULL; lia).
  rewrite Hnull. wp_step.
  apply (wp_store_entry m1 s1 T root t (S k) (S k) va); [apply F | done |]. wp_ret.
  right. exists (<[r := k]> T). split_and!; [by apply Z.eqb_neq | apply lookup_insert_eq | done |].
  apply (quiet_fresh m s T root k va r m1 s1); try done; [lia | apply F].
Qed.

Lemma next_table_spec m s T root t k va flags :
  V va -> fa_inv m s -> tables_ok m s T root -> k <> O -> reach 4 (S k) m root va = Some t ->
  wp (next_table m s t (idx (S k) va) flags) (next_table_post m s T root t k va).
Proof.
  intros HV Hinv OK Hk Hrch.
  assert (Ht : T !! t = Some (S k)).
  { apply (reach_level m s T root OK 4 (S k) root va t); [lia | apply OK | done]. }
  unfold next_table. wp_step. apply (wp_load_entry m s T root t (S k) (S k) va); [done..|].
  rewrite has_present, has_page_size.
  destruct (present _) eqn:Hpe; cbn [negb]; [|by apply next_table_absent].
  destruct (large _) eqn:Hle; [wp_ret; left; by rewrite Hpe|].
  apply next_table_present; try done. by apply pointer_spec.
Qed.

(** ** map_page and map_large_page *)

Definition map_page_post m s T root va pa flags (c : Z * (mem * A)) : Prop :=
  let '(r, (m', s')) := c in
  exists T', tables_step m s T m' s' T' /\ tables_ok m' s' T' root /\ grown V m T root m' T' /\
    ((r = 0 /\ mapped 1 (init_pt_entry pa (Z.lor flags PRESENT_BIT)) m root m' va) \/
     (r = 0 /\ unmoved m root m' /\ covered m root va pa) \/
     (r = -1 /\ unmoved m root m' /\ (no_frame m' s' \/ blocked m' root va pa))).

Definition map_large_page_post m s T root va pa flags (c : Z * (mem * A)) : Prop :=
  let '(r, (m', s')) := c in
  exists T', tables_step m s T m' s' T' /\ tables_ok m' s' T' root /\ grown V m T root m' T' /\
    ((r = 0 /\ mapped 2 (Z.lor (Z.lor (Z.lor (Z.land pa PHYS_ADDR_MASK) flags) PRESENT_BIT) PAGE_SIZE_BIT)
        m root m' va) \/
     (r = -1 /\ unmoved m root m' /\
      (no_frame m' s' \/ subdivided m' root va))).

(** A descent of one level: it fails without moving anything, or goes on. *)
Lemma descend m0 s0 T0 m s T root t k va flags (Q : Z * (mem * A) -> Prop) f :
  V va -> quiet m0 s0 T0 root m s T -> k <> O -> reach 4 (S k) m root va = Some t ->
  (no_frame m s \/ (k = 1%nat /\ present (pte m t (S k) va) = true /\ large (pte m t (S k) va) = true) ->
    Q (-1, (m, s))) ->
  (forall r m' s' T', r <> NULL -> reach 4 k m' root va = Some r ->
    quiet m0 s0 T0 root m' s' T' -> wp (f r m' s') Q) ->
  wp ('(r, (m', s')) ← next_table m s t (idx (S k) va) flags;
      if r =? NULL then Ok (-1, (m', s')) else f r m' s') Q.
Proof.
  intros HV Q0 Hk Hrch Hfail Hgo. pose proof (ts_inv _ _ _ _ _ _ (q_step _ _ _ _ _ _ _ Q0)) as Hinv.
  pose proof (q_ok _ _ _ _ _ _ _ Q0) as OK.
  wp_step. eapply wp_mono; [by apply (next_table_spec m s T root t k va flags) |].
  intros [r [m' s']] [(-> & -> & -> & Hwhy)|(T' & Hr & _ & Hrch' & Q1)].
  - rewrite Z.eqb_refl. wp_ret. apply Hfail.
    destruct (present _) eqn:Hp; [right | by left].
    assert (Ht : T !! t = Some (S k)).
    { apply (reach_level m s T root OK 4 (S k) root va t); [lia | apply OK | done]. }
    split; [|done]. destruct (decide (k = 1%nat)) as [|Hk1]; [done|].
    rewrite (tb_page _ _ _ _ OK t (S k) va Ht ltac:(lia) Hp) in Hwhy. done.
  - rewrite (proj2 (Z.eqb_neq _ _) Hr). apply (Hgo r m' s' T'); [done..|]. by eapply quiet_trans.
Qed.

Lemma failed_post m s T root va m' s' T' pa flags :
  quiet m s T root m' s' T' -> no_frame m' s' ->
  map_page_post m s T root va pa flags (-1, (m', s')) /\
  map_large_page_post m s T root va pa flags (-1, (m', s')).
Proof.
  intros Q Hwhy. split; exists T'; (split; [apply Q|]; split; [apply Q|]; split; [apply Q|]); right.
  - right. split; [done|]. split; [intros vb; apply Q | by left].
  - split; [done|]. split; [intros vb; apply Q | by left].
Qed.

(** A leaf written after a quiet descent. *)
Lemma quiet_leaf m s T root k t va e m1 s1 T1 :
  quiet m s T root m1 s1 T1 -> reach 4 k m1 root va = Some t ->
  0 <= e < 2 ^ 64 -> present e = true ->
  k = 1%nat \/ (k = 2%nat /\ large e = true /\ pointer (pte m1 t 2 va) = false) ->
  let m' := poke64 m1 (entry_addr t (idx k va)) e in
  tables_step m s T m' s1 T1 /\ tables_ok m' s1 T1 root /\ grown V m T root m' T1 /\ mapped k e m root m' va.
Proof.
  intros Q Hrch He Hp Hk2 m'. pose proof (q_ok _ _ _ _ _ _ _ Q) as OK1.
  assert (Hk : k = 1%nat \/ (k = 2%nat /\ large e = true)) by tauto. pose proof (q_step _ _ _ _ _ _ _ Q) as S.
  destruct (store_leaf m1 s1 T1 root k t va e) as (S' & OK' & Hin & Hout);
    [apply S | apply Q | done..|].
  split; [by eapply step_trans|]. split; [done|]. split.
  - apply (grown_trans V m T root m1 T1); [apply Q|]. split; [|by left].
    intros v j b. apply (leaf_reach m1 s1 T1 root k t va e v j b OK1); [| lia | done |].
    + apply (reach_level m1 s1 T1 root OK1 4 k root va t); [lia | apply OK1 | done].
    + destruct Hk2 as [->|(-> & _ & ?)]; [by left | by right].
  - split; [done|]. intros vb Hpg. rewrite Hout by done. apply Q.
Qed.

Lemma map_page_spec m s T root va pa flags :
  V va -> fa_inv m s -> tables_ok m s T root -> flags_ok flags ->
  wp (map_page m s root va pa flags) (map_page_post m s T root va pa flags).
Proof.
  intros HV Hinv OK Hfl. unfold map_page.
  rewrite index4_idx, index3_idx, index2_idx, index1_idx.
  apply (descend m s T m s T root root 3 va flags); [done | by apply quiet_refl | done | apply reach_self | |].
  { intros Hwhy. apply (failed_post m s T root va m s T); [by apply quiet_refl|].
    by destruct Hwhy as [|(? & _)]. }
  intros pdp m1 s1 T1 Hpdp Hr1 Q1.
  apply (descend m s T m1 s1 T1 root pdp 2 va flags); [done.. | |].
  { intros Hwhy. apply (failed_post m s T root va m1 s1 T1); [done|].
    by destruct Hwhy as [|(? & _)]. }
  intros pd m2 s2 T2 Hpd Hr2 Q2. pose proof (q_ok _ _ _ _ _ _ _ Q2) as OK2.
  assert (Ht2 : T2 !! pd = Some 2%nat)
    by (apply (reach_level m2 s2 T2 root OK2 4 2 root va pd); [lia | apply OK2 | done]).
  wp_step. apply (wp_load_entry m2 s2 T2 root pd 2 2 va); [done..|].
  rewrite has_present, has_page_size. set (e := pte m2 pd 2 va).
  destruct (present e && large e) eqn:Hbig.
  - apply andb_true_iff in Hbig as [Hp Hl]. wp_ret. exists T2. rewrite large_mapped.
    split; [apply Q2|]. split; [done|]. split; [apply Q2|]. right. fold (target pa).
    destruct (Z.eqb_spec (target e / span 2 * span 2 + va mod span 2) (target pa)) as [Heq|Hne].
    + left. split; [done|]. split; [intros vb; apply Q2|]. intros vb Hpg. unfold translate.
      rewrite <- (q_walk _ _ _ _ _ _ _ Q2).
      by apply (covered_large m2 s2 T2 root pd va pa e OK2 Hr2).
    + right. split; [done|]. split; [intros vb; apply Q2|]. right. by exists pd.
  - apply (descend m s T m2 s2 T2 root pd 1 va flags); [done.. | |].
    { intros Hwhy. apply (failed_post m s T root va m2 s2 T2); [done|].
      destruct Hwhy as [|(_ & Hp & Hl)]; [done|]. fold e in Hp, Hl. by rewrite Hp, Hl in Hbig. }
    intros pt m3 s3 T3 Hpt Hr3 Q3. pose proof (q_ok _ _ _ _ _ _ _ Q3) as OK3.
    assert (Ht3 : T3 !! pt = Some 1%nat)
      by (apply (reach_level m3 s3 T3 root OK3 4 1 root va pt); [lia | apply OK3 | done]).
    destruct (leaf_entry pa flags Hfl) as (He & Hp & _).
    wp_step. apply (wp_store_entry m3 s3 T3 root pt 1 1 va); [done..|]. wp_ret. exists T3.
    destruct (quiet_leaf m s T root 1 pt va _ m3 s3 T3 Q3 Hr3 He Hp ltac:(by left)) as (? & ? & ? & ?).
    split; [done|]. split; [done|]. split; [done|]. by left.
Qed.

Lemma map_large_page_spec m s T root va pa flags :
  V va -> fa_inv m s -> tables_ok m s T root -> flags_ok flags ->
  wp (map_large_page m s root va pa flags) (map_large_page_post m s T root va pa flags).
Proof.
  intros HV Hinv OK Hfl. unfold map_large_page.
  rewrite index4_idx, index3_idx, index2_idx.
  apply (descend m s T m s T root root 3 va flags); [done | by apply quiet_refl | done | apply reach_self | |].
  { intros Hwhy. apply (failed_post m s T root va m s T); [by apply quiet_refl|].
    by destruct Hwhy as [|(? & _)]. }
  intros pdp m1 s1 T1 Hpdp Hr1 Q1.
  apply (descend m s T m1 s1 T1 root pdp 2 va flags); [done.. | |].
  { intros Hwhy. apply (failed_post m s T root va m1 s1 T1); [done|].
    by destruct Hwhy as [|(? & _)]. }
  intros pd m2 s2 T2 Hpd Hr2 Q2. pose proof (q_ok _ _ _ _ _ _ _ Q2) as OK2.
  assert (Ht2 : T2 !! pd = Some 2%nat)
    by (apply (reach_level m2 s2 T2 root OK2 4 2 root va pd); [lia | apply OK2 | done]).
  wp_step. apply (wp_load_entry m2 s2 T2 root pd 2 2 va); [done..|].
  rewrite has_present, has_page_size. set (e := pte m2 pd 2 va).
  destruct (present e && negb (large e)) eqn:Hptr.
  - wp_ret. exists T2. split; [apply Q2|]. split; [done|]. split; [apply Q2|]. right. split; [done|].
    split; [intros vb; apply Q2|]. right. exists (target e).
    rewrite (reach_reach 4 2 1 m2 root va pd) by (lia || done). rewrite reach_step by lia.
    fold e. unfold pointer. by rewrite Hptr, reach_self.
  - destruct (large_entry pa flags Hfl) as (He & Hp & Hl & _).
    wp_step. apply (wp_store_entry m2 s2 T2 root pd 2 2 va); [done..|]. wp_ret. exists T2.
    destruct (quiet_leaf m s T root 2 pd va _ m2 s2 T2 Q2 Hr2 He Hp ltac:(by right)) as (? & ? & ? & ?).
    split; [done|]. split; [done|]. split; [done|]. by left.
Qed.

(** ** Remapping *)

(** Where pointers already lead down, next_table cannot fail. *)
Lemma descend_pointer m0 s0 T0 m s T root t k va flags (Q : Z * (mem * A) -> Prop) f :
  V va -> quiet m0 s0 T0 root m s T -> k <> O -> reach 4 (S k) m root va = Some t ->
  pointer (pte m t (S k) va) = true ->
  (forall r m' s' T', r <> NULL -> reach 4 k m' root va = Some r ->
    quiet m0 s0 T0 root m' s' T' -> wp (f r m' s') Q) ->
  wp ('(r, (m', s')) ← next_table m s t (idx (S k) va) flags;
      if r =? NULL then Ok (-1, (m', s')) else f r m' s') Q.
Proof.
  intros HV Q0 Hk Hrch Hptr Hgo. pose proof (ts_inv _ _ _ _ _ _ (q_step _ _ _ _ _ _ _ Q0)) as Hinv.
  pose proof (q_ok _ _ _ _ _ _ _ Q0) as OK. apply pointer_spec in Hptr as [Hp Hl].
  wp_step. eapply wp_mono; [by apply (next_table_spec m s T root t k va flags) |].
  intros [r [m' s']] [(-> & -> & -> & Hwhy)|(T' & Hr & _ & Hrch' & Q1)].
  - rewrite Hp in Hwhy. congruence.
  - rewrite (proj2 (Z.eqb_neq _ _) Hr). apply (Hgo r m' s' T'); [done..|]. by eapply quiet_trans.
Qed.

Lemma map_page_remaps m s T root va pa flags u :
  V va -> fa_inv m s -> tables_ok m s T root -> flags_ok flags -> reach 4 1 m root va = Some u ->
  wp (map_page m s root va pa flags) (fun '(r, (m', s')) => r = 0 /\
    mapped 1 (init_pt_entry pa (Z.lor flags PRESENT_BIT)) m root m' va).
Proof.
  intros HV Hinv OK Hfl Hu. unfold map_page.
  rewrite index4_idx, index3_idx, index2_idx, index1_idx.
  assert (Hptr : forall m' s' T' k t, quiet m s T root m' s' T' -> (1 <= k <= 3)%nat ->
    reach 4 (S k) m' root va = Some t -> pointer (pte m' t (S k) va) = true).
  { intros m' s' T' k t Q Hk Ht.
    pose proof (q_reach _ _ _ _ _ _ _ va 1 u Q ltac:(lia) Hu) as Hu'.
    destruct (reach_mid m' root va u k ltac:(lia) Hu') as [w Hw].
    by apply (reach_pointer m' s' T' root k va t w (q_ok _ _ _ _ _ _ _ Q)). }
  pose proof (quiet_refl m s T root Hinv OK) as Q0.
  apply (descend_pointer m s T m s T root root 3 va flags); [done.. | apply reach_self | |].
  { apply (Hptr m s T 3%nat); [done | lia | apply reach_self]. }
  intros pdp m1 s1 T1 _ Hr1 Q1.
  apply (descend_pointer m s T m1 s1 T1 root pdp 2 va flags); [done.. | |].
  { apply (Hptr m1 s1 T1 2%nat); [done | lia | done]. }
  intros pd m2 s2 T2 _ Hr2 Q2. pose proof (q_ok _ _ _ _ _ _ _ Q2) as OK2.
  assert (Ht2 : T2 !! pd = Some 2%nat)
    by (apply (reach_level m2 s2 T2 root OK2 4 2 root va pd); [lia | apply OK2 | done]).
  pose proof (Hptr m2 s2 T2 1%nat pd Q2 ltac:(lia) Hr2) as Hp2.
  pose proof Hp2 as [Hpp Hpl]%pointer_spec.
  wp_step. apply (wp_load_entry m2 s2 T2 root pd 2 2 va); [done..|].
  rewrite has_present, has_page_size, Hpp, Hpl. cbn [andb].
  apply (descend_pointer m s T m2 s2 T2 root pd 1 va flags); [done..|].
  intros pt m3 s3 T3 _ Hr3 Q3. pose proof (q_ok _ _ _ _ _ _ _ Q3) as OK3.
  assert (Ht3 : T3 !! pt = Some 1%nat)
    by (apply (reach_level m3 s3 T3 root OK3 4 1 root va pt); [lia | apply OK3 | done]).
  destruct (leaf_entry pa flags Hfl) as (He & Hp & _).
  wp_step. apply (wp_store_entry m3 s3 T3 root pt 1 1 va); [done..|]. wp_ret.
  by destruct (quiet_leaf m s T root 1 pt va _ m3 s3 T3 Q3 Hr3 He Hp ltac:(by left)) as (? & ? & ? & ?).
Qed.
End mapping.
