(* ===== verification/MapRange.v ===== *)
(** map_range of paging.c: after it returns 0, every page of the range is mapped
    to the corresponding physical page and no other translation has changed. *)
From stdpp Require Import gmap.
From Stdlib Require Import ZArith Lia.
From S2P Require Import Prelude Memory Physical FrameAllocator LibString Paging PagingSpec Mapping.
Local Open Scope Z_scope.

(** ** Page numbers along a range *)
Definition align_down (x : Z) : Z := x / page_size * page_size.

Lemma land_align_down x : 0 <= x < 2 ^ 64 -> Z.land x (not64 (page_size - 1)) = align_down x.
Proof.
  intros Hx. unfold align_down, page_size. change 4096 with (2 ^ 12) at 2 3.
  rewrite <- Z.shiftl_mul_pow2, <- Z.shiftr_div_pow2, <- Z.ldiff_ones_r by lia.
  apply Z.bits_inj'. intros j Hj. rewrite Z.land_spec, Z.ldiff_spec.
  change (4096 - 1) with (Z.ones 12). destruct (Z.lt_ge_cases j 64).
  - by rewrite testbit_not64 by lia.
  - by rewrite (testbit_high x 64) by lia.
Qed.

Lemma large_aligned x : (Z.land x (large_page_size - 1) =? 0) = (x mod span 2 =? 0).
Proof. change (large_page_size - 1) with (Z.ones 21). by rewrite Z.land_ones by lia. Qed.

Lemma page_off v i : v mod page_size = 0 -> page 1 (v + page_size * i) = (v / page_size + i) mod 2 ^ 36.
Proof.
  unfold page, page_size. destruct span_values as [-> _]. intros Hv.
  change (9 * (5 - Z.of_nat 1)) with 36. f_equal. zlia.
Qed.

Lemma page_off_inj v i j :
  v mod page_size = 0 -> 0 <= i < 2 ^ 36 -> 0 <= j < 2 ^ 36 ->
  page 1 (v + page_size * i) = page 1 (v + page_size * j) -> i = j.
Proof. intros Hv Hi Hj. rewrite !page_off by done. zlia. Qed.

(** The 512 pages of a 2 MiB page. *)
Lemma large_page_pages v vb :
  v mod span 2 = 0 -> page 2 vb = page 2 v ->
  exists j, 0 <= j < 512 /\ page 1 vb = page 1 (v + page_size * j) /\
    vb mod span 2 = page_size * j + vb mod page_size.
Proof.
  unfold page, page_size. destruct span_values as (-> & -> & _).
  change (9 * (5 - Z.of_nat 1)) with 36. change (9 * (5 - Z.of_nat 2)) with 27. intros Hv Hp.
  exists ((vb / 4096) mod 512). zlia.
Qed.

Lemma page_in_large v vb j :
  v mod span 2 = 0 -> 0 <= j < 512 -> page 1 vb = page 1 (v + page_size * j) -> page 2 vb = page 2 v.
Proof.
  unfold page, page_size. destruct span_values as (-> & -> & _).
  change (9 * (5 - Z.of_nat 1)) with 36. change (9 * (5 - Z.of_nat 2)) with 27. intros Hv Hj Hp. zlia.
Qed.

Section map_range.
Context {A : Type} `{FrameAllocatorLaws A}.
Context (m0 : mem) (s0 : A) (T0 : gmap Z nat) (root : Z).
(** the first page, its frame, the number of pages, the flags *)
Context (v0 p0 N flags : Z).
Context (Hv0 : v0 mod page_size = 0) (Hv0r : 0 <= v0).
Context (Hp0 : p0 mod page_size = 0) (Hp0r : 0 <= p0).
Context (HN : 0 <= N < 2 ^ 36) (HpN : p0 + page_size * N <= 2 ^ 52) (Hfl : flags_ok flags).

(** The first [c] pages are mapped, everything else is as before. *)
Definition mapped_pages (c : Z) (m : mem) : Prop :=
  (forall i vb, 0 <= i < c -> page 1 vb = page 1 (v0 + page_size * i) ->
     translate m root vb = Some (p0 + page_size * i + vb mod page_size)) /\
  (forall vb, (forall i, 0 <= i < c -> page 1 vb <> page 1 (v0 + page_size * i)) ->
     walk 4 m root vb = walk 4 m0 root vb).

Definition touched (va : Z) : Prop := v0 <= va < v0 + page_size * N.

Definition range_state (c : Z) (m : mem) (s : A) : Prop :=
  (exists T, tables_step m0 s0 T0 m s T /\ tables_ok m s T root /\ grown touched m0 T0 root m T) /\
  mapped_pages c m.

Lemma mapped_pages_unmoved c m m' :
  mapped_pages c m -> unmoved m root m' -> mapped_pages c m'.
Proof.
  intros [Hin Hout] Hw. split.
  - intros i vb Hi Hp. unfold translate. rewrite Hw. by apply (Hin i vb).
  - intros vb Hp. rewrite Hw. by apply Hout.
Qed.

Lemma target_frame c : 0 <= c < N -> target (p0 + page_size * c) = p0 + page_size * c.
Proof. intros Hc. unfold page_size in *. apply target_aligned; zlia. Qed.

Lemma mapped_pages_small c m m' e :
  0 <= c < N -> mapped_pages c m -> target e = p0 + page_size * c ->
  mapped 1 e m root m' (v0 + page_size * c) -> mapped_pages (c + 1) m'.
Proof.
  intros Hc [Hin Hout] He [Hm Ho]. destruct span_values as [E1 _]. split.
  - intros i vb Hi Hp. destruct (decide (i = c)) as [->|Hne].
    + unfold translate. rewrite Hm by done. cbn. f_equal. rewrite E1, He.
      unfold page_size in *. zlia.
    + unfold translate. rewrite Ho; [by apply (Hin i vb); [lia|] |].
      rewrite Hp. intros Heq. apply page_off_inj in Heq; [lia | done | lia | lia].
  - intros vb Hp. rewrite Ho by (apply Hp; lia). apply Hout. intros i Hi. apply Hp. lia.
Qed.

Lemma mapped_pages_covered c m m' :
  0 <= c < N -> mapped_pages c m -> unmoved m root m' ->
  covered m root (v0 + page_size * c) (p0 + page_size * c) -> mapped_pages (c + 1) m'.
Proof.
  intros Hc M Hw Hcov. destruct (mapped_pages_unmoved c m m' M Hw) as [Hin' Hout'].
  split.
  - intros i vb Hi Hp. destruct (decide (i = c)) as [->|Hne]; [|apply (Hin' i vb); [lia | done]].
    unfold translate. rewrite Hw. fold (translate m root vb).
    rewrite (Hcov vb Hp). by rewrite target_frame.
  - intros vb Hp. apply Hout'. intros i Hi. apply Hp. lia.
Qed.

Lemma mapped_pages_large c m m' e :
  0 <= c -> c + 512 <= N -> mapped_pages c m -> target e = p0 + page_size * c ->
  (v0 + page_size * c) mod span 2 = 0 -> (p0 + page_size * c) mod span 2 = 0 ->
  mapped 2 e m root m' (v0 + page_size * c) -> mapped_pages (c + 512) m'.
Proof.
  intros Hc HcN [Hin Hout] He Hva Hpa [Hm Ho].
  assert (Hoff : forall j, v0 + page_size * c + page_size * j = v0 + page_size * (c + j)) by lia.
  split.
  - intros i vb Hi Hp. destruct (decide (c <= i)) as [Hge|Hlt].
    + assert (Hp2 : page 2 vb = page 2 (v0 + page_size * c)).
      { apply (page_in_large _ vb (i - c)); [done | lia |]. rewrite Hoff. by replace (c + (i - c)) with i by lia. }
      destruct (large_page_pages _ vb Hva Hp2) as (j & Hj & Hpj & Hmod).
      assert (i = c + j) as ->.
      { rewrite Hp, Hoff in Hpj. apply page_off_inj in Hpj; [lia | done | lia | lia]. }
      unfold translate. rewrite Hm by done. cbn. f_equal. rewrite He, Hmod.
      destruct span_values as (_ & E2 & _). rewrite E2 in *. unfold page_size in *. zlia.
    + unfold translate. rewrite Ho; [apply (Hin i vb); [lia | done] |].
      intros Hp2. destruct (large_page_pages _ vb Hva Hp2) as (j & Hj & Hpj & _).
      rewrite Hp, Hoff in Hpj. apply page_off_inj in Hpj; [lia | done | lia | lia].
  - intros vb Hp. rewrite Ho; [apply Hout; intros i Hi; apply Hp; lia |].
    intros Hp2. destruct (large_page_pages _ vb Hva Hp2) as (j & Hj & Hpj & _).
    apply (Hp (c + j)); [lia|]. by rewrite <- Hoff.
Qed.

(** ** The loop *)
Context (end_ : Z) (Hend : v0 + page_size * N - page_size < end_ <= v0 + page_size * N).
Context (Hend64 : v0 + page_size * N < 2 ^ 64).

Definition loop_inv (st : mem * A * Z * Z) : Prop :=
  let '(m, s, v, p) := st in
  exists c, 0 <= c <= N /\ v = v0 + page_size * c /\ p = p0 + page_size * c /\ range_state c m s.

(** What is left to do, in pages. *)
Definition left (st : mem * A * Z * Z) : Z :=
  let '(_, _, v, _) := st in (v0 + page_size * N - v) / page_size.

(** A failed call leaves a proper prefix of the range mapped, and says why. *)
Definition failed (c : Z * (mem * A)) : Prop :=
  let '(r, (m, s)) := c in
  r = -1 /\ exists k, 0 <= k < N /\ range_state k m s /\
    (no_frame m s \/ blocked m root (v0 + page_size * k) (p0 + page_size * k)).

Lemma left_at m s c : left (m, s, v0 + page_size * c, p0 + page_size * c) = N - c.
Proof. clear. unfold left, page_size. zlia. Qed.

Lemma steps_on m s T m1 s1 T1 :
  tables_step m0 s0 T0 m s T -> tables_ok m1 s1 T1 root -> grown touched m0 T0 root m T ->
  tables_step m s T m1 s1 T1 -> grown touched m T root m1 T1 ->
  exists T, tables_step m0 s0 T0 m1 s1 T /\ tables_ok m1 s1 T root /\ grown touched m0 T0 root m1 T.
Proof using Type. intros S OK G S1 G1. exists T1. split; [by eapply step_trans|]. split; [done|]. by eapply grown_trans. Qed.

(** One small page. *)
Lemma small_step m s c :
  0 <= c < N -> range_state c m s ->
  wp ('(r, (m1, s1)) ← map_page m s root (v0 + page_size * c) (p0 + page_size * c) flags;
      if negb (r =? 0) then Ok (inr (-1, (m1, s1))) else
      Ok (inl (m1, s1, u64 (v0 + page_size * c + page_size), u64 (p0 + page_size * c + page_size))))
    (loop_post (fun st => loop_inv st /\ left st <= N - c - 1) failed).
Proof.
  intros Hc [(T & S & OK & G) M]. wp_step. eapply wp_mono.
  { apply (map_page_spec touched m s T root); [unfold touched, page_size; lia | apply S | done..]. }
  intros [r [m1 s1]] (T1 & S1 & OK1 & G1 & Hcase). assert (St := steps_on _ _ _ _ _ _ S OK1 G S1 G1).
  assert (Hnext : mapped_pages (c + 1) m1 ->
    loop_inv (m1, s1, u64 (v0 + page_size * c + page_size), u64 (p0 + page_size * c + page_size)) /\
    left (m1, s1, u64 (v0 + page_size * c + page_size), u64 (p0 + page_size * c + page_size)) <= N - c - 1).
  { intros M1. unfold page_size in *. rewrite !u64_small by zlia.
    replace (v0 + 4096 * c + 4096) with (v0 + page_size * (c + 1)) by (unfold page_size; lia).
    replace (p0 + 4096 * c + 4096) with (p0 + page_size * (c + 1)) by (unfold page_size; lia).
    rewrite left_at. split; [|lia]. exists (c + 1). split; [lia|]. by split. }
  destruct Hcase as [(-> & Hmap)|[(-> & Hw & Hcov)|(-> & Hw & Hwhy)]]; cbn [Z.eqb negb]; wp_ret.
  - apply Hnext. eapply (mapped_pages_small c m m1); [done | done | | exact Hmap].
    destruct (leaf_entry (p0 + page_size * c) flags Hfl) as (_ & _ & ->). by apply target_frame.
  - apply Hnext. by apply (mapped_pages_covered c m m1).
  - split; [done|]. exists c. split; [done|]. split; [|done]. split; [done|].
    by apply (mapped_pages_unmoved c m m1).
Qed.

Lemma map_range_step_spec st :
  loop_inv st -> (let '(_, _, v, _) := st in v < end_) ->
  wp (map_range_step root end_ flags st)
    (loop_post (fun st' => loop_inv st' /\ left st' <= left st - 1) failed).
Proof.
  destruct st as [[[m s] v] p]. intros (c & Hc & -> & -> & St) Hlt. rewrite left_at.
  assert (Hc' : 0 <= c < N) by (unfold page_size in *; nia).
  unfold map_range_step. rewrite !large_aligned.
  rewrite (u64_small (end_ - _)) by (unfold page_size in *; zlia).
  destruct (_ && _) eqn:Hbig; [|by apply small_step].
  apply andb_true_iff in Hbig as [[Hva%Z.eqb_eq Hpa%Z.eqb_eq]%andb_true_iff Hlen%Z.leb_le].
  destruct St as [(T & S & OK & G) M]. wp_step. wp_step. eapply wp_mono.
  { apply (map_large_page_spec touched m s T root); [unfold touched, page_size; lia | apply S | done..]. }
  intros [r [m1 s1]] (T1 & S1 & OK1 & G1 & Hcase). wp_ret. assert (St1 := steps_on _ _ _ _ _ _ S OK1 G S1 G1).
  destruct Hcase as [(-> & Hmap)|(-> & Hw & _)]; cbn [Z.eqb].
  - assert (HcN : c + 512 <= N) by (unfold page_size, large_page_size in *; lia). wp_ret.
    rewrite !u64_small by (unfold page_size, large_page_size in *; zlia).
    replace (v0 + page_size * c + large_page_size) with (v0 + page_size * (c + 512)) by (unfold page_size, large_page_size; lia).
    replace (p0 + page_size * c + large_page_size) with (p0 + page_size * (c + 512)) by (unfold page_size, large_page_size; lia).
    rewrite left_at. split; [|lia]. exists (c + 512). split; [lia|]. split; [done|]. split; [done|].
    split; [done|]. eapply (mapped_pages_large c m m1); [lia | done | done | | done | done | exact Hmap].
    destruct (large_entry (p0 + page_size * c) flags Hfl) as (_ & _ & _ & ->).
    by apply target_frame.
  - apply small_step; [done|]. split; [done|]. by apply (mapped_pages_unmoved c m m1).
Qed.
End map_range.

(** ** map_range *)

(** The number of pages map_range visits. *)
Definition range_pages (vaddr length : Z) : Z :=
  (vaddr + length - align_down vaddr + (page_size - 1)) / page_size.

(** Arguments for which the loop's addresses do not wrap: the range ends below
    the last page, spans less than 2^48 bytes, and its frames are physical. *)
Record range_ok (vaddr paddr length flags : Z) : Prop := {
  rg_vaddr : 0 <= vaddr < 2 ^ 64;
  rg_paddr : 0 <= paddr < 2 ^ 64;
  rg_length : 0 <= length;
  rg_end : vaddr + length <= 2 ^ 64 - page_size;
  rg_pages : range_pages vaddr length < 2 ^ 36;
  rg_frames : align_down paddr + page_size * range_pages vaddr length <= 2 ^ 52;
  rg_flags : flags_ok flags
}.

Lemma align_down_spec x :
  0 <= x -> align_down x mod page_size = 0 /\ align_down x <= x < align_down x + page_size /\
  0 <= align_down x.
Proof. unfold align_down, page_size. intros. zlia. Qed.

Lemma range_pages_spec vaddr length :
  0 <= length ->
  let N := range_pages vaddr length in
  let v0 := align_down vaddr in
  0 <= N /\ v0 + page_size * N - page_size < vaddr + length <= v0 + page_size * N.
Proof. unfold range_pages, align_down, page_size. intros. zlia. Qed.

Section range.
Context {A : Type} `{FrameAllocatorLaws A}.

Lemma wp_map_range fuel m s T root vaddr paddr length flags :
  fa_inv m s -> tables_ok m s T root -> range_ok vaddr paddr length flags ->
  range_pages vaddr length <= Z.of_nat fuel ->
  wp (map_range fuel m s root vaddr paddr length flags) (fun c =>
    (exists m' s', c = (0, (m', s')) /\
       range_state m s T root (align_down vaddr) (align_down paddr)
         (range_pages vaddr length) (range_pages vaddr length) m' s') \/
    failed m s T root (align_down vaddr) (align_down paddr) (range_pages vaddr length) c).
Proof.
  intros Hinv OK [Hv Hp Hl He HN Hfr Hfl] Hfuel.
  pose proof (align_down_spec vaddr ltac:(lia)) as (Hva & Hvb & Hvc).
  pose proof (align_down_spec paddr ltac:(lia)) as (Hpa & _ & Hpc).
  pose proof (range_pages_spec vaddr length Hl) as [HN0 Hends]. cbv zeta in Hends.
  set (v0 := align_down vaddr) in *. set (p0 := align_down paddr) in *.
  set (N := range_pages vaddr length) in *.
  unfold map_range. rewrite (u64_small (vaddr + length)) by (unfold page_size in *; zlia).
  rewrite !land_align_down by done. fold v0 p0. wp_step. eapply wp_mono.
  - apply (wp_while (loop_inv m s T root v0 p0 N) (failed m s T root v0 p0 N) (left v0 N)).
    + unfold left, page_size in *. zlia.
    + exists 0. rewrite !Z.mul_0_r, !Z.add_0_r. split; [lia|]. split; [done|]. split; [done|].
      split; [exists T; split; [apply step_refl; [done | apply OK] | by split; [|apply grown_refl]] |].
      split; [lia | done].
    + intros [[[m1 s1] v] p] (c & Hc & -> & -> & St). wp_ret.
      destruct (Z.ltb_spec (v0 + page_size * c) (vaddr + length)) as [Hlt|]; [|done].
      split.
      * rewrite left_at. unfold page_size in *. nia.
      * apply map_range_step_spec; try done; [unfold page_size in *; zlia | by exists c].
  - intros [[[[m1 s1] v] p]|r] Hpost; wp_ret; [left; exists m1, s1; split; [done|] | by right].
    destruct Hpost as ((c & Hc & -> & -> & St) & [= Hge%Z.ltb_ge]).
    assert (Hcn : c = N) by (unfold page_size in *; nia). by rewrite Hcn in St.
Qed.

(** The translation once [n] pages have been mapped. *)
Lemma pages_translate m root v0 p0 n m' va :
  v0 mod page_size = 0 -> 0 <= v0 -> 0 <= n -> v0 + page_size * n <= 2 ^ 48 -> 0 <= va < 2 ^ 48 ->
  mapped_pages m root v0 p0 n m' ->
  translate m' root va =
    if decide (v0 <= va < v0 + page_size * n) then Some (p0 + (va - v0)) else translate m root va.
Proof.
  intros Hal Hv Hn Hend Hva [Hin Hout]. destruct span_values as [E1 _]. case_decide as Hr.
  - rewrite (Hin ((va - v0) / page_size) va).
    + f_equal. unfold page_size in *. zlia.
    + unfold page_size in *. zlia.
    + rewrite page_off by done. unfold page. rewrite E1. change (9 * (5 - Z.of_nat 1)) with 36.
      unfold page_size in *. f_equal. zlia.
  - unfold translate. rewrite Hout; [done|]. intros i Hi. rewrite page_off by done.
    unfold page. rewrite E1. change (9 * (5 - Z.of_nat 1)) with 36. unfold page_size in *. zlia.
Qed.

(** ** Ranges that touch the last page of the address space *)

Lemma map_range_step_aligned root end_ flags st st' :
  (let '(_, _, v, _) := st in v mod page_size = 0 /\ 0 <= v < 2 ^ 64) ->
  map_range_step root end_ flags st = Ok (inl st') ->
  (let '(_, _, v, _) := st' in v mod page_size = 0 /\ 0 <= v < 2 ^ 64).
Proof.
  destruct st as [[[m s] v] p]. intros [Hal Hv]. unfold map_range_step.
  assert (Hnext : forall k, k mod page_size = 0 ->
    u64 (v + k) mod page_size = 0 /\ 0 <= u64 (v + k) < 2 ^ 64).
  { intros k Hk. split; [|apply u64_range]. unfold u64, page_size in *. zlia. }
  assert (Hsmall : forall m1 s1,
    ('(r, (m2, s2)) ← map_page m1 s1 root v p flags;
     if negb (r =? 0) then Ok (inr (-1, (m2, s2))) else
     Ok (inl (m2, s2, u64 (v + page_size), u64 (p + page_size)))) = Ok (inl st') ->
    (let '(_, _, v, _) := st' in v mod page_size = 0 /\ 0 <= v < 2 ^ 64)).
  { intros m1 s1. destruct (map_page m1 s1 root v p flags) as [[r [m2 s2]]| |]; cbn; try done.
    destruct (r =? 0); cbn; [|done]. intros [= <-]. by apply Hnext. }
  destruct (_ && _); cbn [mbind res_bind]; [|apply Hsmall].
  destruct (map_large_page m s root v p flags) as [[r [m1 s1]]| |]; cbn; try done.
  destruct (r =? 0); [|apply Hsmall]. intros [= <-]. by apply Hnext.
Qed.

Lemma map_range_step_returns root end_ flags st c :
  map_range_step root end_ flags st = Ok (inr c) -> c.1 = -1.
Proof.
  destruct st as [[[m s] v] p]. unfold map_range_step.
  assert (Hsmall : forall m1 s1,
    ('(r, (m2, s2)) ← map_page m1 s1 root v p flags;
     if negb (r =? 0) then Ok (inr (-1, (m2, s2))) else
     Ok (inl (m2, s2, u64 (v + page_size), u64 (p + page_size)))) = Ok (inr c) -> c.1 = -1).
  { intros m1 s1. destruct (map_page m1 s1 root v p flags) as [[r [m2 s2]]| |]; cbn; try done.
    destruct (r =? 0); cbn; [done|]. by intros [= <-]. }
  destruct (_ && _); cbn [mbind res_bind]; [|apply Hsmall].
  destruct (map_large_page m s root v p flags) as [[r [m1 s1]]| |]; cbn; try done.
  destruct (r =? 0); [done | apply Hsmall].
Qed.
End range.
