(* ===== verification/TableCount.v ===== *)
(** Counting the page tables: to map ranges of addresses takes at most one table per level
    and per stretch of addresses that a table of that level serves. *)
From stdpp Require Import gmap list list_numbers.
From Stdlib Require Import ZArith Lia.
From S2P Require Import Prelude Memory Physical FrameAllocator PhysicalSpec FrameCount Paging PagingSpec Mapping.
Local Open Scope Z_scope.

(** ** Every table is on the way of an address *)
Definition reached (V : Z -> Prop) (m : mem) (T : gmap Z nat) (root : Z) : Prop :=
  forall a l, T !! a = Some l -> a = root \/ (1 <= l)%nat /\ exists v, V v /\ reach 4 l m root v = Some a.

Lemma reached_root V m root : reached V m {[root := 4%nat]} root.
Proof. intros a l [<- _]%lookup_singleton_Some. by left. Qed.

Lemma reached_mono (V W : Z -> Prop) m T root :
  (forall v, V v -> W v) -> reached V m T root -> reached W m T root.
Proof. intros HV R a l Ha. destruct (R a l Ha) as [|(Hl & v & Hv & Hr)]; [by left|right]. eauto. Qed.

Lemma reached_grown (V W : Z -> Prop) m T root m' T' :
  reached V m T root -> grown W m T root m' T' -> reached (fun v => V v \/ W v) m' T' root.
Proof.
  intros R [Hr Hn] a l Ha. destruct (Hn a l Ha) as [Ha1|(Hl & v & Hv & Hra)]; [|right; eauto].
  destruct (R a l Ha1) as [|(Hl & v & Hv & Hra)]; [by left | right]. split; [done|]. exists v. auto.
Qed.

(** ** How many tables ranges take *)

(** The tables of level [l] for [lo] to [hi]: each serves [span (S l)] bytes. *)
Definition level_tables (l : nat) (lo hi : Z) : Z := (hi - 1) / span (S l) - lo / span (S l) + 1.

Definition range_tables (r : Z * Z) : Z :=
  let '(lo, hi) := r in
  if lo <? hi then level_tables 1 lo hi + level_tables 2 lo hi + level_tables 3 lo hi else 0.

(** With the root. *)
Definition tables_needed (ranges : list (Z * Z)) : Z := 1 + foldr (fun r n => range_tables r + n) 0 ranges.

(** The tables as pairs of the level and the stretch. *)
Definition level_stretches (l : nat) (lo hi : Z) : list (nat * Z) :=
  pair l <$> seqZ (lo / span (S l)) (level_tables l lo hi).

Definition stretches (r : Z * Z) : list (nat * Z) :=
  let '(lo, hi) := r in
  if lo <? hi then level_stretches 1 lo hi ++ level_stretches 2 lo hi ++ level_stretches 3 lo hi else [].

Lemma span_pos l : 0 < span l.
Proof. unfold span. destruct l; [by vm_compute|]. apply Z.pow_pos_nonneg; lia. Qed.

Lemma level_tables_nonneg l lo hi : lo < hi -> 0 <= level_tables l lo hi.
Proof.
  intros Hlt. pose proof (span_pos (S l)). unfold level_tables.
  pose proof (Z.div_le_mono lo (hi - 1) (span (S l))). lia.
Qed.

Lemma range_tables_nonneg r : 0 <= range_tables r.
Proof.
  destruct r as [lo hi]. unfold range_tables. destruct (Z.ltb_spec lo hi) as [Hlt|]; [|done].
  pose proof (level_tables_nonneg 1 lo hi Hlt). pose proof (level_tables_nonneg 2 lo hi Hlt).
  pose proof (level_tables_nonneg 3 lo hi Hlt). lia.
Qed.

Lemma tables_needed_nonneg ranges : 0 <= tables_needed ranges.
Proof.
  unfold tables_needed. induction ranges as [|r ranges IH]; [done|]. cbn [foldr].
  pose proof (range_tables_nonneg r). lia.
Qed.

Lemma length_stretches ranges :
  Z.of_nat (length (concat (stretches <$> ranges))) = foldr (fun r n => range_tables r + n) 0 ranges.
Proof.
  induction ranges as [|[lo hi] ranges IH]; [done|].
  cbn [fmap list_fmap concat foldr]. rewrite length_app, Nat2Z.inj_add, IH. f_equal.
  unfold stretches, range_tables, level_stretches. destruct (Z.ltb_spec lo hi) as [Hlt|]; [|done].
  rewrite !length_app, !length_fmap, !length_seqZ.
  pose proof (level_tables_nonneg 1 lo hi Hlt). pose proof (level_tables_nonneg 2 lo hi Hlt).
  pose proof (level_tables_nonneg 3 lo hi Hlt). lia.
Qed.

Lemma elem_stretches l v lo hi ranges :
  (1 <= l <= 3)%nat -> (lo, hi) ∈ ranges -> lo <= v < hi -> (l, v / span (S l)) ∈ concat (stretches <$> ranges).
Proof.
  intros Hl Hr Hv. apply list_elem_of_In, in_concat. exists (stretches (lo, hi)).
  rewrite <- !list_elem_of_In. split; [apply list_elem_of_fmap; eauto|].
  unfold stretches. rewrite (proj2 (Z.ltb_lt lo hi)) by lia.
  assert (He : (l, v / span (S l)) ∈ level_stretches l lo hi).
  { apply list_elem_of_fmap. exists (v / span (S l)). split; [done|]. apply elem_of_seqZ. unfold level_tables.
    pose proof (span_pos (S l)). pose proof (Z.div_le_mono lo v (span (S l))).
    pose proof (Z.div_le_mono v (hi - 1) (span (S l))). lia. }
  rewrite !elem_of_app. assert (Hc : l = 1%nat \/ l = 2%nat \/ l = 3%nat) by lia.
  destruct Hc as [-> |[-> | ->]]; auto.
Qed.

(** Addresses in one stretch have the same table. *)
Lemma stretch_idx l v w j :
  (l < j <= 4)%nat -> v / span (S l) = w / span (S l) -> idx j v = idx j w.
Proof.
  intros Hj He. unfold idx.
  assert (Hs : forall x, x / span j = x / span (S l) / 2 ^ (9 * (Z.of_nat j - Z.of_nat (S l)))).
  { intros x. rewrite Z.div_div by (first [apply Z.pow_pos_nonneg; lia | pose proof (span_pos (S l)); lia]).
    f_equal. unfold span. rewrite <- Z.pow_add_r by lia. f_equal. lia. }
  by rewrite !Hs, He.
Qed.

Section count.
Context {A : Type} `{FrameAllocatorLaws A}.

(** Tables, the root aside, that are on the way of addresses in the ranges. *)
Lemma stretches_count V m (s : A) T root (X : gmap Z nat) ranges :
  tables_ok m s T root -> X ⊆ T -> X !! root = None ->
  (forall a l, X !! a = Some l -> (1 <= l)%nat /\ exists v, V v /\ reach 4 l m root v = Some a) ->
  (forall v, V v -> exists lo hi, (lo, hi) ∈ ranges /\ lo <= v < hi) ->
  Z.of_nat (size X) <= foldr (fun r n => range_tables r + n) 0 ranges.
Proof.
  intros OK HX Hroot R HV. rewrite <- length_stretches. apply Nat2Z.inj_le.
  rewrite <- length_map_to_list, <- (length_fmap fst).
  apply (length_related (fun a y => exists v, T !! a = Some y.1 /\ reach 4 y.1 m root v = Some a /\ v / span (S y.1) = y.2)).
  - apply NoDup_fst_map_to_list.
  - intros a ([b l] & -> & Ha)%list_elem_of_fmap. apply elem_of_map_to_list in Ha. cbn [fst].
    destruct (R b l Ha) as (Hl & v & Hv & Hr). destruct (HV v Hv) as (lo & hi & Hin & Hb).
    assert (HT : T !! b = Some l) by (by eapply lookup_weaken).
    destruct (tb_level _ _ _ _ OK b l HT) as [_ Hl4].
    assert (l <> 4%nat) by (intros ->; rewrite reach_self in Hr; congruence).
    exists (l, v / span (S l)). split; [apply (elem_stretches l v lo hi); [lia | done..]|]. by exists v.
  - intros a b [l p] (v & _ & Hv & Hp) (w & _ & Hw & Hq). cbn [fst snd] in *.
    rewrite (reach_idx 4 l m root v w) in Hv; [congruence|]. intros j Hj. apply (stretch_idx l); [done | congruence].
Qed.

Lemma reached_count V m (s : A) T root ranges :
  tables_ok m s T root -> reached V m T root ->
  (forall v, V v -> exists lo hi, (lo, hi) ∈ ranges /\ lo <= v < hi) ->
  Z.of_nat (size T) <= tables_needed ranges.
Proof.
  intros OK R HV. pose proof (tb_root _ _ _ _ OK) as Hroot.
  rewrite <- (insert_delete_id T root 4%nat Hroot), map_size_insert_None by apply lookup_delete_eq.
  unfold tables_needed. rewrite Nat2Z.inj_succ.
  enough (Z.of_nat (size (delete root T)) <= foldr (fun r n => range_tables r + n) 0 ranges) by lia.
  apply (stretches_count V m s T root); [done | apply delete_subseteq | apply lookup_delete_eq | | done].
  intros a l [Hne Ha]%lookup_delete_Some. destruct (R a l Ha) as [->|]; [congruence | done].
Qed.

(** What mapping addresses of the ranges has added. *)
Lemma grown_count V m (s : A) T root m' (s' : A) T' ranges :
  tables_ok m s T root -> tables_ok m' s' T' root -> grown V m T root m' T' ->
  (forall v, V v -> exists lo hi, (lo, hi) ∈ ranges /\ lo <= v < hi) ->
  Z.of_nat (size (T' ∖ T)) <= foldr (fun r n => range_tables r + n) 0 ranges.
Proof.
  intros OK OK' [_ N] HV. apply (stretches_count V m' s' T' root); [done | apply map_subseteq_difference_l; done | | | done].
  - apply lookup_difference_None. right. exists 4%nat. apply OK.
  - intros a l [Ha Hn]%lookup_difference_Some. destruct (N a l Ha); [congruence | done].
Qed.
End count.

(** If all frames that were free now hold tables, there were not too many. *)
Lemma frames_all_tables m pm (T : gmap Z nat) :
  pmm_inv m pm -> (forall a, pmm_avail m pm a -> is_Some (T !! a)) -> frames_free pm <= Z.of_nat (size T).
Proof.
  intros Hinv HT. rewrite <- length_map_to_list, <- (length_fmap fst). apply (frames_free_le m pm Hinv).
  intros a [l Hl]%HT. apply list_elem_of_fmap. exists (a, l). by rewrite elem_of_map_to_list.
Qed.
