(* ===== verification/Heap.v ===== *)
(** The kernel heap: kernel/memory/heap.c.  get_heap is a client of the frame
    allocator's interface and of the page tables. *)
From stdpp Require Import gmap.
From Stdlib Require Import ZArith Lia.
From S2P Require Import Prelude Memory Physical FrameAllocator LibString Paging PagingSpec Mapping MapRange.
Local Open Scope Z_scope.

Section heap.
Context {A : Type} `{FrameAllocator A}.

(** The loop that gives the frames back; [i] is a size_t. *)
Definition free_frames (m : mem) (physical_memory : A) (paddr pages : Z)
  : res (mem * A + Z * (mem * A)) :=
  for_range 0 pages
    (fun i '(m, physical_memory) =>
       c ← fa_free m physical_memory (u64 (paddr + u64 (i * page_size)));
       Ok (inl c))
    (m, physical_memory).

Definition get_heap (fuel : nat) (m : mem) (physical_memory : A) (PML4 vaddr length : Z)
  : res (Z * (mem * A)) :=
  let pages := length / page_size in
  let pages := if u64 (pages * page_size) <? length then u64 (pages + 1) else pages in
  let length := u64 (pages * page_size) in
  '(paddr, (m, physical_memory)) ← fa_allocate_run m physical_memory pages;
  if paddr =? ALL_ONES then Ok (-1, (m, physical_memory)) else
  '(r, (m, physical_memory)) ←
    map_range fuel m physical_memory PML4 vaddr paddr length READ_WRITE_BIT;
  if negb (r =? 0) then
    after (free_frames m physical_memory paddr pages)
      (fun '(m, physical_memory) => Ok (-1, (m, physical_memory)))
  else Ok (0, (m, physical_memory)).
End heap.

(** The number of pages a heap of [length] bytes takes. *)
Definition heap_pages (length : Z) : Z := (length + (page_size - 1)) / page_size.

Lemma heap_pages_ok length :
  0 <= length < 2 ^ 64 ->
  (if u64 (length / page_size * page_size) <? length then u64 (length / page_size + 1)
   else length / page_size) = heap_pages length.
Proof.
  intros Hl. unfold heap_pages, page_size. rewrite !u64_small by zlia.
  destruct (Z.ltb_spec (length / 4096 * 4096) length); zlia.
Qed.

(** The [i]-th frame of a run. *)
Definition run_frame (paddr i : Z) : Z := paddr + i * page_size.
Definition in_run (paddr n a : Z) : Prop := exists i, 0 <= i < n /\ a = run_frame paddr i.

#[export] Instance in_run_dec paddr n a : Decision (in_run paddr n a).
Proof.
  refine (cast_if (decide ((a - paddr) mod page_size = 0 /\ 0 <= (a - paddr) / page_size < n))).
  - exists ((a - paddr) / page_size). unfold run_frame, page_size in *. zlia.
  - intros (i & Hi & ->). apply n0. unfold run_frame, page_size. zlia.
Defined.

Section spec.
Context {A : Type} `{FrameAllocatorLaws A}.
Implicit Types (m : mem) (s : A) (T : gmap Z nat) (root : Z).

Lemma tables_avoid_priv m s T root a l x :
  tables_ok m s T root -> T !! a = Some l -> region a frame_size x -> ~ priv s x.
Proof. intros OK Ha. apply (frame_not_priv _ _ _ (tb_frame _ _ _ _ OK a l Ha)). Qed.

(** A step of the allocator that makes no new frame available. *)
Lemma tables_fa_step m s T root m' s' :
  tables_ok m s T root -> fa_step m s m' s' -> (forall a, avail m' s' a -> avail m s a) ->
  tables_ok m' s' T root.
Proof.
  intros OK (_ & U & P & _) Hav. eapply tables_transport; [done | exact U | | done..].
  intros a l x Ha. by eapply tables_avoid_priv.
Qed.

Lemma pte_fa_step m s T root m' s' a l k va :
  tables_ok m s T root -> fa_step m s m' s' -> T !! a = Some l -> pte m' a k va = pte m a k va.
Proof. intros OK (_ & U & _) Ha. apply (pte_upd (priv s)); [done|]. intros x. by eapply tables_avoid_priv. Qed.

Lemma walk_reach_fa_step m s T root m' s' va :
  tables_ok m s T root -> fa_step m s m' s' ->
  walk 4 m' root va = walk 4 m root va /\ forall k, (1 <= k)%nat -> reach 4 k m' root va = reach 4 k m root va.
Proof.
  intros OK S. apply (walk_ext m s T root OK m' va 4 root); [apply OK|].
  intros b k _ Hb _. left. by eapply pte_fa_step.
Qed.

Lemma walk_fa_step m s T root m' s' va :
  tables_ok m s T root -> fa_step m s m' s' -> walk 4 m' root va = walk 4 m root va.
Proof. intros OK S. apply (walk_reach_fa_step m s T root m' s' va OK S). Qed.

Lemma reach_fa_step m s T root m' s' va k :
  tables_ok m s T root -> fa_step m s m' s' -> (1 <= k)%nat -> reach 4 k m' root va = reach 4 k m root va.
Proof. intros OK S. apply (walk_reach_fa_step m s T root m' s' va OK S). Qed.

Lemma blocked_fa_step m s T root m' s' va pa :
  tables_ok m s T root -> fa_step m s m' s' -> blocked m root va pa -> blocked m' root va pa.
Proof.
  intros OK S (t & Hr & Hb). pose proof (reach_level _ _ _ _ OK 4 2 root va t ltac:(lia) (tb_root _ _ _ _ OK) Hr) as Ht.
  exists t. rewrite (reach_fa_step m s T root m' s') by (done || lia). split; [done|].
  rewrite (pte_fa_step m s T root m' s' t 2 2) by done. exact Hb.
Qed.

(** Freeing gives the table frames nothing to fear as long as they are not freed. *)
Lemma tables_freed m s T root m' s' :
  tables_ok m s T root -> fa_step m s m' s' ->
  (forall a, avail m' s' a -> avail m s a \/ T !! a = None) -> tables_ok m' s' T root.
Proof.
  intros OK (_ & U & P & _) Hav.
  assert (Hpte : forall a l k va, T !! a = Some l -> pte m' a k va = pte m a k va).
  { intros a l k va Ha. apply (pte_upd (priv s)); [done|]. intros x. by eapply tables_avoid_priv. }
  pose proof OK as [Hroot Hlvl Hfr Hused Hch Hpar Hpage]. split; try done.
  - intros a l Ha. destruct (Hfr a l Ha) as [? ? ? Hb Hp]. split; try done.
    + by apply (mem_upd_backed _ _ _ _ _ U).
    + intros x Hx. rewrite P. by apply Hp.
  - intros a l Ha Hv. destruct (Hav a Hv) as [|Hn]; [by apply (Hused a l) | congruence].
  - intros a l va Ha Hl. rewrite (Hpte a _ _ _ Ha). by apply Hch.
  - intros a b l va vb Ha Hb Hl. rewrite (Hpte a _ _ _ Ha), (Hpte b _ _ _ Hb). by apply Hpar.
  - intros a l va Ha. rewrite (Hpte a _ _ _ Ha). by apply Hpage.
Qed.

Lemma fa_step_refl m s : fa_inv m s -> fa_step m s m s.
Proof. intros Hinv. by split_and!. Qed.

Lemma fa_step_trans m s m1 s1 m2 s2 :
  fa_step m s m1 s1 -> fa_step m1 s1 m2 s2 -> fa_step m s m2 s2.
Proof.
  intros (_ & U1 & P1 & O1) (I2 & U2 & P2 & O2). split; [done|]. split; [|split].
  - etrans; [exact U1|]. eapply mem_upd_mono; [exact U2|]. intros x. by rewrite P1.
  - intros x. by rewrite P2.
  - by rewrite O2.
Qed.

(** The loop frees the frames of the run one by one. *)
Lemma wp_free_frames m s paddr n :
  fa_inv m s -> 0 <= n -> 0 <= paddr -> paddr + n * page_size <= 2 ^ 52 ->
  (forall i, 0 <= i < n -> owned s (run_frame paddr i) /\
     frame_ok m (priv s) (run_frame paddr i)) ->
  wp (free_frames m s paddr n) (loop_post (fun '(m', s') =>
    fa_step m s m' s' /\ forall a, avail m' s' a <-> avail m s a \/ in_run paddr n a)
    (fun _ => False)).
Proof.
  intros Hinv Hn Hp Hend Hown.
  eapply (wp_for_range (fun j '(m', s') =>
    fa_step m s m' s' /\ forall a, avail m' s' a <-> avail m s a \/ in_run paddr j a)).
  - done.
  - split; [by apply fa_step_refl|]. intros a. split; [by left|].
    intros [|(i & Hi & _)]; [done | lia].
  - intros j [m1 s1] Hj [S Hav]. destruct (Hown j Hj) as [Ho [H1 H2 H3 H4 H5]].
    pose proof S as (I1 & U1 & P1 & O1).
    replace (u64 (paddr + u64 (j * page_size))) with (run_frame paddr j)
      by (unfold run_frame, page_size in *; rewrite (u64_small (j * 4096)), u64_small by zlia; done).
    wp_step. eapply wp_mono.
    { apply fa_free_spec; [done | by apply (layout_owned _ _ O1) |]. split; [done.. | |].
      - by apply (mem_upd_backed _ _ _ _ _ U1).
      - intros x Hx. rewrite P1. by apply H5. }
    intros [m2 s2] [S2 Hav2]. wp_ret. split; [by eapply fa_step_trans|].
    intros a. rewrite Hav2, Hav. split.
    + intros [[?|(i & Hi & ->)]| ->]; [by left | right; exists i; split; [lia | done] |].
      right. exists j. split; [lia | done].
    + intros [?|(i & Hi & ->)]; [by left; left|].
      destruct (decide (i = j)) as [->|]; [by right|].
      left. right. exists i. split; [lia | done].
Qed.
End spec.

Section get_heap_spec.
Context {A : Type} `{FrameAllocatorLaws A}.
Context (m : mem) (s : A) (T : gmap Z nat) (root vaddr length : Z).
Let n := heap_pages length.

(** The tables after [k] pages of the heap have been mapped to the run at
    [paddr], and what became of the frames. *)
Record heap_state (paddr k : Z) (freed : bool) (m' : mem) (s' : A) (T' : gmap Z nat) : Prop := {
  hs_inv : fa_inv m' s';
  hs_grow : T ⊆ T';
  hs_tables : tables_ok m' s' T' root;
  hs_run a : in_run paddr n a -> avail m s a /\ T' !! a = None;
  hs_avail a : avail m' s' a <->
    avail m s a /\ T' !! a = None /\ (freed = false -> ~ in_run paddr n a);
  hs_grown : grown (touched vaddr n) m T root m' T';
  hs_frame x : ~ priv s x -> (forall a l, T' !! a = Some l -> ~ region a frame_size x) ->
    m' !! x = m !! x;
  hs_pages : mapped_pages m root vaddr paddr k m'
}.

(** Arguments for which get_heap's addresses do not wrap. *)
Record heap_ok : Prop := {
  hp_vaddr : 0 <= vaddr;
  hp_aligned : vaddr mod page_size = 0;
  hp_length : 0 < length;
  hp_end : vaddr + n * page_size <= 2 ^ 64 - page_size;
  hp_pages : n < 2 ^ 36
}.
Context (Hinv : fa_inv m s) (OK : tables_ok m s T root) (Hheap : heap_ok).

Lemma heap_n : 1 <= n < 2 ^ 36 /\ length <= n * page_size < length + page_size /\
  0 <= length < 2 ^ 64.
Proof using Hheap.
  clear Hinv OK. destruct Hheap as [H1 H2 H3 H4 H5]. unfold n, heap_pages, page_size in *. zlia.
Qed.

Lemma heap_range paddr :
  0 <= paddr -> paddr mod page_size = 0 -> paddr + n * page_size <= 2 ^ 52 ->
  range_ok vaddr paddr (n * page_size) READ_WRITE_BIT /\
  range_pages vaddr (n * page_size) = n /\ align_down vaddr = vaddr /\ align_down paddr = paddr.
Proof using Hheap.
  clear Hinv OK. intros Hp Hal Hend. pose proof heap_n as (Hn1 & _ & _).
  destruct Hheap as [H1 H2 H3 H4 H5].
  assert (Hd : forall x, x mod page_size = 0 -> align_down x = x)
    by (intros x Hx; unfold align_down, page_size in *; zlia).
  assert (Hr : range_pages vaddr (n * page_size) = n)
    by (unfold range_pages; rewrite Hd by done; unfold page_size; zlia).
  split; [|by auto]. split; rewrite ?Hr, ?Hd by done; unfold page_size in *; try zlia. by split.
Qed.

(** From the claimed run and the mapped range to the state of the heap. *)
Lemma heap_mapped paddr m1 s1 k m2 s2 :
  (forall i, 0 <= i < n -> avail m s (run_frame paddr i)) -> fa_step m s m1 s1 ->
  (forall a, avail m1 s1 a <-> avail m s a /\ forall i, 0 <= i < n -> a <> run_frame paddr i) ->
  range_state m1 s1 T root vaddr paddr n k m2 s2 ->
  exists T', heap_state paddr k false m2 s2 T'.
Proof using OK.
  intros Hrun S1 Hav1 [(T' & S & OK' & [G1 G2]) M]. pose proof S1 as (I1 & U1 & P1 & O1). exists T'. split.
  - apply S.
  - apply S.
  - done.
  - intros a (i & Hi & ->). split; [by apply Hrun|].
    destruct (T' !! run_frame paddr i) as [l|] eqn:Hl; [|done]. exfalso.
    destruct (ts_new _ _ _ _ _ _ S _ _ Hl) as [Ht|Ht].
    + by apply (tb_used _ _ _ _ OK _ _ Ht), Hrun.
    + apply Hav1 in Ht as [_ Hne]. by apply (Hne i).
  - intros a. rewrite (ts_avail _ _ _ _ _ _ S), Hav1. split.
    + intros [[Ha Hne] Hl]. split_and!; [done..|]. intros _ (i & Hi & ->). by apply (Hne i).
    + intros (Ha & Hl & Hne). split_and!; [done | | done].
      intros i Hi ->. apply Hne; [done | by exists i].
  - split; [|exact G2]. intros v k' t Hk' Hr. apply G1; [done|]. by rewrite (reach_fa_step m s T root m1 s1).
  - intros x Hp Hx. rewrite (upd_outside _ _ _ (ts_upd _ _ _ _ _ _ S)).
    + by apply (upd_outside _ _ _ U1).
    + rewrite P1. intros [?|(a & l & Ha & Hr)]; [done | by apply (Hx a l)].
  - destruct M as [Hin Hout]. split; [done|]. intros vb Hvb. rewrite Hout by done.
    by eapply walk_fa_step.
Qed.

(** Giving the run back leaves the tables as they are. *)
Lemma heap_freed paddr k m2 s2 T' m3 s3 :
  heap_state paddr k false m2 s2 T' -> fa_step m2 s2 m3 s3 ->
  (forall x, priv s2 x <-> priv s x) ->
  (forall a, avail m3 s3 a <-> avail m2 s2 a \/ in_run paddr n a) ->
  heap_state paddr k true m3 s3 T'.
Proof using Type.
  clear Hinv OK Hheap. intros HS S3 P2 Hav3. pose proof S3 as (I3 & U3 & P3 & O3).
  destruct HS as [I2 G2 OK2 R2 A2 [W2 N2] F2 M2]. split.
  - done.
  - done.
  - eapply tables_freed; [done | done |]. intros a Ha. apply Hav3 in Ha as [|Ha]; [by left|].
    right. by apply R2.
  - done.
  - intros a. rewrite Hav3, A2. split.
    + intros [(Ha & Hl & _)|Ha]; [done|]. destruct (R2 a Ha). done.
    + intros (Ha & Hl & _). destruct (decide (in_run paddr n a)); [by right|]. by left.
  - split.
    + intros v k' t Hk' Hr. rewrite (reach_fa_step m2 s2 T' root m3 s3) by done. by apply W2.
    + intros a l [Ha|(Hl & v & Hv & Hr)]%N2; [by left | right]. split; [done|]. exists v.
      by rewrite (reach_fa_step m2 s2 T' root m3 s3).
  - intros x Hp Hx. rewrite (upd_outside _ _ _ U3) by (by rewrite P2). by apply F2.
  - destruct M2 as [Hin Hout].
    assert (Hw : forall vb, walk 4 m3 root vb = walk 4 m2 root vb)
      by (intros vb; by eapply walk_fa_step).
    split.
    + intros i vb Hi Hp. unfold translate. rewrite Hw. by apply (Hin i vb).
    + intros vb Hp. rewrite Hw. by apply Hout.
Qed.

(** The frames of a claimed run may be freed in any later state. *)
Lemma run_owned paddr m1 s1 m2 s2 T' i :
  avail m s (run_frame paddr i) -> fa_step m s m1 s1 -> tables_step m1 s1 T m2 s2 T' ->
  owned s2 (run_frame paddr i) /\ frame_ok m2 (priv s2) (run_frame paddr i).
Proof using Hinv.
  intros Hav (I1 & U1 & P1 & O1) S.
  pose proof (avail_ok _ _ _ Hinv Hav) as [F1 F2 F3 F4 F5]. split.
  - apply (layout_owned _ _ (ts_layout _ _ _ _ _ _ S)), (layout_owned _ _ O1).
    by eapply avail_owned.
  - split; [done..| |].
    + apply (mem_upd_backed _ _ _ _ _ (ts_upd _ _ _ _ _ _ S)).
      by apply (mem_upd_backed _ _ _ _ _ U1).
    + intros x Hx Hp. apply (F5 x Hx). by apply P1, (ts_priv _ _ _ _ _ _ S).
Qed.

(** get_heap returns: it fails without effect when there is no run, succeeds,
    or maps a prefix of the run that the allocator gave it, and gives the frames back. *)
Lemma get_heap_runs fuel :
  n <= Z.of_nat fuel ->
  wp (get_heap fuel m s root vaddr length) (fun '(r, (m', s')) =>
    (r = -1 /\ m' = m /\ s' = s /\ ~ has_run m s n) \/
    exists paddr ms, fa_allocate_run m s n = Ok (paddr, ms) /\ paddr <> ALL_ONES /\ layout s' = layout s /\
      ((r = 0 /\ exists T', heap_state paddr n false m' s' T') \/
       (r = -1 /\ exists k T', 0 <= k < n /\ heap_state paddr k true m' s' T' /\
          ((forall a, avail m' s' a -> in_run paddr n a) \/
           blocked m' root (vaddr + page_size * k) (paddr + page_size * k))))).
Proof using Hinv OK Hheap.
  intros Hfuel. pose proof heap_n as (Hn & Hlen & Hl64). unfold get_heap.
  rewrite heap_pages_ok by done. fold n.
  rewrite (u64_small (n * page_size)) by (unfold page_size in *; zlia).
  wp_step. eapply wp_mono; [apply wp_result, fa_allocate_run_spec; [done | lia]|].
  intros [paddr [m1 s1]] [[(-> & -> & -> & Hno)|(Hend & Hrun & S1 & Hav1)] Htook].
  { rewrite Z.eqb_refl. wp_ret. by left. }
  change frame_size with page_size in *.
  pose proof (avail_ok _ _ _ Hinv (Hrun 0 ltac:(lia))) as [Hpos Hal _ _ _].
  rewrite Z.add_0_r in *. change frame_size with page_size in Hal.
  assert (Hne : paddr <> ALL_ONES) by (unfold ALL_ONES, page_size in *; zlia).
  rewrite (proj2 (Z.eqb_neq _ _) Hne). destruct (heap_range paddr ltac:(lia) Hal Hend) as (Hok & Hpg & Hva & Hpa).
  assert (OK1 : tables_ok m1 s1 T root)
    by (eapply tables_fa_step; [done | done | intros a Ha; by apply Hav1]).
  wp_step. eapply wp_mono.
  { apply (wp_map_range fuel m1 s1 T root); [apply S1 | done | done | by rewrite Hpg]. }
  rewrite Hpg, Hva, Hpa. intros [r [m2 s2]] [(m' & s' & [= -> -> ->] & St)|(-> & k & Hk & St & Hwhy)];
    cbn [Z.eqb negb]; pose proof St as [(T'' & S2 & _) _].
  - wp_ret. right. exists paddr, (m1, s1). split; [done|]. split; [done|].
    split; [etrans; [exact (ts_layout _ _ _ _ _ _ S2) | apply S1]|]. left. split; [done|]. by eapply heap_mapped.
  - destruct (heap_mapped paddr m1 s1 k m2 s2 Hrun S1 Hav1 St) as [T' HS]. wp_step. eapply wp_mono.
    { apply wp_free_frames; [apply HS | lia | lia | done |].
      intros i Hi. eapply run_owned; [by apply Hrun | done | done]. }
    intros [[m3 s3]|r]; [|done]. intros [S3 Hav3]. wp_ret. right. exists paddr, (m1, s1).
    split; [done|]. split; [done|].
    split; [do 2 (etrans; [first [apply S3 | exact (ts_layout _ _ _ _ _ _ S2)]|]); apply S1|].
    right. split; [done|]. exists k, T'. split; [done|]. split.
    + eapply heap_freed; [done | done | | done]. intros x. rewrite (ts_priv _ _ _ _ _ _ S2). apply S1.
    + destruct Hwhy as [Hno|Hb].
      * left. intros a [Ha|]%Hav3; [by destruct (Hno a) | done].
      * right. by apply (blocked_fa_step m2 s2 T' root m3 s3); [apply HS | ..].
Qed.

Lemma get_heap_spec fuel :
  n <= Z.of_nat fuel ->
  wp (get_heap fuel m s root vaddr length) (fun '(r, (m', s')) =>
    (r = -1 /\ m' = m /\ s' = s /\ ~ has_run m s n) \/
    (r = 0 /\ exists paddr T', heap_state paddr n false m' s' T') \/
    (r = -1 /\ exists paddr k T', 0 <= k < n /\ heap_state paddr k true m' s' T' /\
       ((forall a, avail m' s' a -> in_run paddr n a) \/
        blocked m' root (vaddr + page_size * k) (paddr + page_size * k)))).
Proof using Hinv OK Hheap.
  intros Hfuel. eapply wp_mono; [by apply get_heap_runs|].
  intros [r [m' s']] [?|(paddr & ms & _ & _ & _ & [(-> & T' & HS)|(-> & k & T' & HS)])]; [by left | right..].
  - left. split; [done|]. by exists paddr, T'.
  - right. split; [done|]. by exists paddr, k, T'.
Qed.
End get_heap_spec.
