(* ===== verification/Gdt.v ===== *)
(** The global descriptor table: kernel/gdt.h and gdt.c, and the part of
    kernel_start of kernel.c that fills it. *)
From stdpp Require Import base.
From Stdlib Require Import ZArith Lia.
From S2P Require Import Prelude Memory Physical FrameAllocator.
Local Open Scope Z_scope.

(** gdt_desc is packed: limit (2 bytes), base (8 bytes). *)
Definition gdt_limit_at (desc : Z) : Z := desc.
Definition gdt_base_at (desc : Z) : Z := desc + 2.

Definition gdt_entry_create (base limit access flags : Z) : Z :=
  let base1 := Z.shiftr base 24 in
  let base2 := Z.land (Z.shiftr base 16) 0xFF in
  let base3 := Z.land base 0xFFFF in
  let limit1 := Z.land (Z.shiftr limit 16) 0xF in
  let limit2 := Z.land limit 0xFFFF in
  let entry := u64 (Z.shiftl base1 56) in
  let entry := Z.lor entry (u64 (Z.shiftl (Z.land flags 0xF) 52)) in
  let entry := Z.lor entry (u64 (Z.shiftl limit1 48)) in
  let entry := Z.lor entry (u64 (Z.shiftl access 40)) in
  let entry := Z.lor entry (u64 (Z.shiftl base2 32)) in
  let entry := Z.lor entry (u64 (Z.shiftl base3 16)) in
  Z.lor entry limit2.

Definition gdt_entry_add (m : mem) (desc index entry : Z) : res mem :=
  ptr ← load64 m (gdt_base_at desc);
  store64 m (ptr + 8 * index) entry.

(** ** What the processor reads from an entry *)
Definition seg_limit (e : Z) : Z := Z.lor (Z.land e 0xFFFF) (Z.shiftl (Z.land (Z.shiftr e 48) 0xF) 16).
Definition seg_base (e : Z) : Z :=
  Z.lor (Z.land (Z.shiftr e 16) 0xFFFFFF) (Z.shiftl (Z.land (Z.shiftr e 56) 0xFF) 24).
Definition seg_access (e : Z) : Z := Z.land (Z.shiftr e 40) 0xFF.
Definition seg_flags (e : Z) : Z := Z.land (Z.shiftr e 52) 0xF.

(** The entry as a number: its fields side by side. *)
Lemma gdt_entry_value base limit access flags :
  0 <= base < 2 ^ 32 -> 0 <= limit < 2 ^ 32 -> 0 <= access < 2 ^ 8 -> 0 <= flags < 2 ^ 8 ->
  gdt_entry_create base limit access flags =
    base / 2 ^ 24 * 2 ^ 56 + flags mod 2 ^ 4 * 2 ^ 52 + limit / 2 ^ 16 mod 2 ^ 4 * 2 ^ 48 +
    access * 2 ^ 40 + base mod 2 ^ 24 * 2 ^ 16 + limit mod 2 ^ 16.
Proof.
  intros Hb Hl Ha Hf. unfold gdt_entry_create. cbv zeta.
  change 0xFFFF with (Z.ones 16). change 0xFF with (Z.ones 8). change 0xF with (Z.ones 4).
  rewrite !Z.land_ones, !Z.shiftr_div_pow2, !Z.shiftl_mul_pow2 by lia.
  rewrite !u64_small by zlia.
  rewrite (lor_fields _ 56 _ 52) by zlia. change (56 - 52) with 4.
  rewrite (lor_fields _ 52 _ 48) by zlia. change (52 - 48) with 4.
  rewrite (lor_fields _ 48 _ 40) by zlia. change (48 - 40) with 8.
  rewrite (lor_fields _ 40 _ 32) by zlia. change (40 - 32) with 8.
  rewrite (lor_fields _ 32 _ 16) by zlia. change (32 - 16) with 16.
  rewrite <- (Z.mul_1_r (limit mod 2 ^ 16)). change 1 with (2 ^ 0) at 2.
  rewrite (lor_fields _ 16 _ 0) by zlia. change (16 - 0) with 16. zlia.
Qed.

(** ** The table kernel_start builds *)
Definition gdt_entry_count : Z := 5.

(** The five segments, in order. *)
Definition gdt_segments : list (Z * Z * Z * Z) :=
  [(0, 0, 0, 0); (0, 0xFFFFF, 0x9A, 0xA); (0, 0xFFFFF, 0x92, 0xC);
   (0, 0xFFFFF, 0xFA, 0xA); (0, 0xFFFFF, 0xF2, 0xC)].

(** Creating and adding the entries, from index [i] on. *)
Fixpoint add_segments (m : mem) (desc i : Z) (l : list (Z * Z * Z * Z)) : res mem :=
  match l with
  | [] => Ok m
  | (base, limit, access, flags) :: l =>
      m ← gdt_entry_add m desc i (gdt_entry_create base limit access flags);
      add_segments m desc (i + 1) l
  end.

(** ** gdt_flush.s *)

(** The segment registers that gdt_flush loads. *)
Record segments := {
  gdtr_limit : Z;
  gdtr_base : Z;
  cs : Z;
  ds : Z;
  es : Z;
  ss : Z
}.

(** sgdt: the limit and the base in the register. *)
Definition gdt_get (s : segments) : Z * Z := (gdtr_limit s, gdtr_base s).

(** The descriptor a selector names: outside the table the processor faults. *)
Definition descriptor (m : mem) (limit base selector : Z) : res Z :=
  let i := selector / 8 in
  if limit <? 8 * i + 7 then Fault else load64 m (base + 8 * i).

(** Present, code or data, and either a writable data segment or a 64-bit code segment:
    what the processor requires of SS and of CS. *)
Definition data_segment (e : Z) : bool :=
  Z.testbit e 47 && Z.testbit e 44 && negb (Z.testbit e 43) && Z.testbit e 41.
Definition code_segment (e : Z) : bool :=
  Z.testbit e 47 && Z.testbit e 44 && Z.testbit e 43 && Z.testbit e 53 && negb (Z.testbit e 54).

(** Loading a selector: a descriptor of the wrong kind faults. *)
Definition load_segment (ok : Z -> bool) (m : mem) (limit base selector : Z) : res Z :=
  e ← descriptor m limit base selector;
  if ok e then Ok selector else Fault.

(** lgdt, the three data segments and the far return to the code segment.  The pushes that
    prepare the far return write below the caller's stack pointer and are popped by it; they
    are left out. *)
Definition gdt_flush (m : mem) (desc : Z) : res segments :=
  limit ← load16 m (gdt_limit_at desc);
  base ← load64 m (gdt_base_at desc);
  d ← load_segment data_segment m limit base 0x10;
  e ← load_segment data_segment m limit base 0x10;
  s ← load_segment data_segment m limit base 0x10;
  c ← load_segment code_segment m limit base 0x08;
  Ok {| gdtr_limit := limit; gdtr_base := base; cs := c; ds := d; es := e; ss := s |}.

Section setup.
Context {A : Type} `{FrameAllocator A}.

(** kernel_start from the limit of the descriptor at [gdt] up to gdt_flush: [false] where
    the kernel halts because no frame is left for the table. *)
Definition setup_gdt (m : mem) (physical_memory : A) (gdt : Z) : res (bool * (mem * A)) :=
  m ← store16 m (gdt_limit_at gdt) (u16 (gdt_entry_count * 8 - 1));
  '(base, (m, physical_memory)) ← fa_allocate m physical_memory;
  if base =? ALL_ONES then Ok (false, (m, physical_memory)) else
  m ← store64 m (gdt_base_at gdt) base;
  m ← add_segments m gdt 0 gdt_segments;
  Ok (true, (m, physical_memory)).
End setup.
