(* ===== verification/GdtSpec.v ===== *)
(** What setting up and loading the global descriptor table does. *)
From stdpp Require Import gmap list.
From Stdlib Require Import ZArith Lia.
From S2P Require Import Prelude Memory Physical FrameAllocator Gdt.
Local Open Scope Z_scope.

Definition segment_entry (s : Z * Z * Z * Z) : Z :=
  let '(base, limit, access, flags) := s in gdt_entry_create base limit access flags.

(** Adding entries to a table apart from its descriptor. *)
Lemma wp_add_segments desc base l : forall m i,
  backed m (gdt_base_at desc) 8 -> peek64 m (gdt_base_at desc) = base ->
  0 <= i -> backed m (base + 8 * i) (8 * Z.of_nat (length l)) ->
  (forall x, region (base + 8 * i) (8 * Z.of_nat (length l)) x ->
     ~ region (gdt_base_at desc) 8 x) ->
  wp (add_segments m desc i l) (fun m' =>
    mem_upd (region (base + 8 * i) (8 * Z.of_nat (length l))) m m' /\
    forall j s, l !! j = Some s -> peek64 m' (base + 8 * (i + Z.of_nat j)) = u64 (segment_entry s)).
Proof.
  induction l as [|[[[b0 l0] a0] f0] l IH]; intros m i Hb Hp Hi Hback Hdis; cbn [add_segments].
  { wp_ret. split; [done|]. intros j s Hj. by rewrite lookup_nil in Hj. }
  cbn [length] in *. rewrite Nat2Z.inj_succ in *.
  wp_step. unfold gdt_entry_add. wp_step. apply (wp_loadn 8); [exact Hb|]. rewrite Hp.
  assert (B8 : backed m (base + 8 * i) 8) by (apply (backed_sub _ _ _ _ _ Hback); lia).
  apply (wp_storen 8); [exact B8|].
  set (e := gdt_entry_create b0 l0 a0 f0).
  pose proof (mem_upd_poke64 m _ e B8) as U.
  eapply wp_mono.
  { apply (IH _ (i + 1)); [| | lia | |].
    - by apply (mem_upd_backed _ _ _ _ _ U).
    - rewrite (mem_upd_peek64 _ _ _ _ U); [done|]. intros x Hx Hr. apply (Hdis x); [|done].
      unfold region in *. lia.
    - apply (mem_upd_backed _ _ _ _ _ U). apply (backed_sub _ _ _ _ _ Hback); lia.
    - intros x Hx. apply Hdis. unfold region in *. lia. }
  intros m' [U' He]. split.
  - etrans; [eapply mem_upd_mono; [exact U|] | eapply mem_upd_mono; [exact U'|]];
      unfold region; lia.
  - intros j s Hj. destruct j as [|j].
    + injection Hj as <-. rewrite Z.add_0_r. rewrite (mem_upd_peek64 _ _ _ _ U').
      * by rewrite peek64_poke64_eq.
      * unfold region. lia.
    + rewrite Nat2Z.inj_succ. rewrite <- (He j s Hj). f_equal. lia.
Qed.

(** The fields of a number made of fields side by side. *)
Lemma field hi k lo n : 0 <= k -> 0 <= n -> 0 <= lo < 2 ^ k -> (hi * 2 ^ k + lo) / 2 ^ k mod 2 ^ n = hi mod 2 ^ n.
Proof. intros Hk Hn Hlo. f_equal. rewrite Z.div_add_l by lia. rewrite (Z.div_small lo) by lia. lia. Qed.

Lemma field_low hi k lo : 0 <= k -> 0 <= lo < 2 ^ k -> (hi * 2 ^ k + lo) mod 2 ^ k = lo.
Proof. intros Hk Hlo. by rewrite Z.add_comm, Z.mod_add, Z.mod_small by lia. Qed.

Lemma lor_high_low lo hi k : 0 <= k -> 0 <= lo < 2 ^ k -> Z.lor lo (hi * 2 ^ k) = hi * 2 ^ k + lo.
Proof.
  intros Hk Hlo. rewrite Z.lor_comm. pose proof (lor_fields hi k lo 0) as Hf.
  rewrite Z.pow_0_r, !Z.mul_1_r, Z.sub_0_r in Hf. by apply Hf; lia.
Qed.

(** [n] bits of a number from bit [k] on. *)
Lemma bits_of e hi k mid n lo :
  0 <= k -> 0 <= n -> e = (hi * 2 ^ n + mid) * 2 ^ k + lo -> 0 <= lo < 2 ^ k -> 0 <= mid < 2 ^ n ->
  Z.land (Z.shiftr e k) (Z.ones n) = mid.
Proof.
  intros Hk Hn -> Hlo Hmid. rewrite Z.land_ones, Z.shiftr_div_pow2 by lia.
  rewrite field by lia. by apply field_low.
Qed.

(** The fields of an entry. *)
Lemma gdt_fields b1 f l1 a b0 l0 :
  0 <= b1 < 2 ^ 8 -> 0 <= f < 2 ^ 4 -> 0 <= l1 < 2 ^ 4 -> 0 <= a < 2 ^ 8 -> 0 <= b0 < 2 ^ 24 ->
  0 <= l0 < 2 ^ 16 ->
  let e := b1 * 2 ^ 56 + f * 2 ^ 52 + l1 * 2 ^ 48 + a * 2 ^ 40 + b0 * 2 ^ 16 + l0 in
  0 <= e < 2 ^ 64 /\ seg_base e = b1 * 2 ^ 24 + b0 /\ seg_limit e = l1 * 2 ^ 16 + l0 /\
  seg_access e = a /\ seg_flags e = f.
Proof.
  intros Hb1 Hf Hl1 Ha Hb0 Hl0 e. split; [unfold e; zlia|].
  unfold seg_base, seg_limit, seg_access, seg_flags.
  change 0xFFFFFF with (Z.ones 24). change 0xFFFF with (Z.ones 16).
  change 0xFF with (Z.ones 8). change 0xF with (Z.ones 4).
  rewrite <- (Z.shiftr_0_r e) at 3. rewrite !Z.shiftl_mul_pow2 by lia.
  rewrite (bits_of e (b1 * 2 ^ 16 + f * 2 ^ 12 + l1 * 2 ^ 8 + a) 16 b0 24 l0) by (unfold e; zlia).
  rewrite (bits_of e 0 56 b1 8 (f * 2 ^ 52 + l1 * 2 ^ 48 + a * 2 ^ 40 + b0 * 2 ^ 16 + l0)) by (unfold e; zlia).
  rewrite (bits_of e (b1 * 2 ^ 40 + f * 2 ^ 36 + l1 * 2 ^ 32 + a * 2 ^ 24 + b0) 0 l0 16 0) by (unfold e; zlia).
  rewrite (bits_of e (b1 * 2 ^ 4 + f) 48 l1 4 (a * 2 ^ 40 + b0 * 2 ^ 16 + l0)) by (unfold e; zlia).
  rewrite (bits_of e (b1 * 2 ^ 8 + f * 2 ^ 4 + l1) 40 a 8 (b0 * 2 ^ 16 + l0)) by (unfold e; zlia).
  rewrite (bits_of e b1 52 f 4 (l1 * 2 ^ 48 + a * 2 ^ 40 + b0 * 2 ^ 16 + l0)) by (unfold e; zlia).
  by rewrite !lor_high_low by lia.
Qed.

(** The descriptor table of the kernel: limit, base, and the null, kernel code,
    kernel data, user code and user data segments. *)
Definition gdt_built (m : mem) (desc base : Z) : Prop :=
  peek16 m (gdt_limit_at desc) = 39 /\ peek64 m (gdt_base_at desc) = base /\
  peek64 m (base + 8 * 0) = 0 /\ peek64 m (base + 8 * 1) = 0x00AF9A000000FFFF /\
  peek64 m (base + 8 * 2) = 0x00CF92000000FFFF /\ peek64 m (base + 8 * 3) = 0x00AFFA000000FFFF /\
  peek64 m (base + 8 * 4) = 0x00CFF2000000FFFF.

(** Filling the table, once both frames are there. *)
Lemma wp_fill_gdt {R} (k : mem -> res R) Q m desc base :
  backed m desc frame_size -> backed m base frame_size ->
  desc mod frame_size = 0 -> base mod frame_size = 0 -> desc <> base -> 0 <= base < 2 ^ 64 ->
  peek16 m (gdt_limit_at desc) = 39 ->
  (forall m', gdt_built m' desc base ->
     mem_upd (fun x => region desc frame_size x \/ region base frame_size x) m m' -> wp (k m') Q) ->
  wp (m ← store64 m (gdt_base_at desc) base; m ← add_segments m desc 0 gdt_segments; k m) Q.
Proof.
  intros Bd Bb Ad Ab Hne Hr Hlim Hk. wp_step.
  assert (Bd8 : backed m (gdt_base_at desc) 8)
    by (apply (backed_sub _ _ _ _ _ Bd); unfold gdt_base_at, frame_size; lia).
  apply (wp_storen 8); [exact Bd8|]. pose proof (mem_upd_poke64 m _ base Bd8) as U.
  assert (Hdis : forall x, region base frame_size x -> ~ region desc frame_size x)
    by (intros x; apply frames_disjoint; done).
  wp_step. eapply wp_mono.
  { apply (wp_add_segments desc base gdt_segments).
    - by apply (mem_upd_backed _ _ _ _ _ U).
    - by rewrite peek64_poke64_eq, u64_small.
    - done.
    - apply (mem_upd_backed _ _ _ _ _ U). apply (backed_sub _ _ _ _ _ Bb); simpl; unfold frame_size; lia.
    - intros x Hx Hd. apply (Hdis x); unfold region, gdt_base_at, frame_size in *; simpl in *; lia. }
  intros m' [U' He]. apply Hk.
  - assert (Hout : forall a n, desc <= a -> a + n <= desc + frame_size ->
      forall x, region a n x -> ~ region (base + 8 * 0) (8 * Z.of_nat (length gdt_segments)) x).
    { intros a n Ha1 Ha2 x Hx Hb. apply (Hdis x); unfold region, frame_size in *; simpl in *; lia. }
    split; [|split].
    + rewrite (mem_upd_peekn _ _ _ _ _ U') by (apply Hout; unfold gdt_limit_at, frame_size; lia).
      rewrite (mem_upd_peekn _ _ _ _ _ U); [done|]. unfold region, gdt_limit_at, gdt_base_at. lia.
    + rewrite (mem_upd_peek64 _ _ _ _ U') by (apply Hout; unfold gdt_base_at, frame_size; lia).
      by rewrite peek64_poke64_eq, u64_small.
    + split_and!; [exact (He 0%nat (0, 0, 0, 0) eq_refl) | exact (He 1%nat (0, 0xFFFFF, 0x9A, 0xA) eq_refl)
        | exact (He 2%nat (0, 0xFFFFF, 0x92, 0xC) eq_refl) | exact (He 3%nat (0, 0xFFFFF, 0xFA, 0xA) eq_refl)
        | exact (He 4%nat (0, 0xFFFFF, 0xF2, 0xC) eq_refl)].
  - etrans; [eapply mem_upd_mono; [exact U|] | eapply mem_upd_mono; [exact U'|]];
      unfold region, gdt_base_at, frame_size; simpl; intros; [left | right]; lia.
Qed.

(** setup_gdt on any allocator. *)
Definition gdt_post {A} `{FrameAllocatorLaws A} (m : mem) (s : A) (desc : Z) (ok : bool) (m' : mem) (s' : A) : Prop :=
  if ok then
    exists base, avail m s base /\ desc <> base /\ gdt_built m' desc base /\
      (forall a, avail m' s' a <-> avail m s a /\ a <> base) /\
      mem_upd (fun x => priv s x \/ region desc frame_size x \/ region base frame_size x) m m'
  else (forall a, ~ avail m s a) /\ (forall a, ~ avail m' s' a) /\ mem_upd (region desc frame_size) m m'.

Lemma wp_setup_gdt {A} `{FrameAllocatorLaws A} m (s : A) desc :
  fa_inv m s -> frame_ok m (priv s) desc -> ~ avail m s desc ->
  wp (setup_gdt m s desc) (fun '(ok, (m', s')) =>
    fa_inv m' s' /\ layout s' = layout s /\ (forall x, priv s' x <-> priv s x) /\ gdt_post m s desc ok m' s').
Proof.
  intros Hinv [D1 D2 D3 D4 D5] Hna. unfold setup_gdt. wp_step. set (lim := u16 (gdt_entry_count * 8 - 1)).
  assert (B2 : backed m (gdt_limit_at desc) 2)
    by (apply (backed_sub _ _ _ _ _ D4); unfold gdt_limit_at, frame_size; lia).
  apply (wp_storen 2); [exact B2|]. set (m2 := poke16 m (gdt_limit_at desc) lim).
  assert (U2 : mem_upd (region desc frame_size) m m2).
  { eapply mem_upd_mono; [by apply (mem_upd_poken 2)|]. unfold region, gdt_limit_at, frame_size. lia. }
  destruct (fa_stable _ _ _ s Hinv U2 D5) as [I2 Hav2].
  wp_step. eapply wp_mono; [by apply fa_allocate_spec|].
  intros [base [m3 s3]] [(-> & -> & -> & Hno)|(Hb & (I3 & U3 & P3 & L3) & Hav3)].
  { rewrite Z.eqb_refl. wp_ret. do 3 (split; [done|]). split; [|done]. intros a Ha. apply (Hno a). by apply Hav2. }
  pose proof (avail_ok _ _ _ I2 Hb) as [E1 E2 E3 E4 E5].
  rewrite (proj2 (Z.eqb_neq base ALL_ONES)) by (unfold ALL_ONES, frame_size in *; zlia).
  apply Hav2 in Hb.
  assert (Hne : desc <> base) by (intros ->; done).
  apply (wp_fill_gdt (fun m => Ok (true, (m, s3)))); try done.
  - apply (mem_upd_backed _ _ _ _ _ U3). by apply (mem_upd_backed _ _ _ _ _ U2).
  - by apply (mem_upd_backed _ _ _ _ _ U3).
  - unfold frame_size in *. zlia.
  - rewrite (mem_upd_peekn _ _ _ _ _ U3).
    + unfold m2. rewrite (peekn_poken_eq 2). done.
    + intros x Hx. apply D5. unfold region, gdt_limit_at, frame_size in *. lia.
  - intros m5 Hbuilt U5. wp_ret.
    destruct (fa_stable _ _ _ s3 I3 U5) as [I5 Hav5].
    { intros x Hx. rewrite P3. destruct Hx as [Hx|Hx]; [by apply D5 | by apply E5]. }
    split; [done|]. split; [done|]. split; [done|].
    exists base. split; [done|]. split; [done|]. split; [done|]. split.
    + intros a. rewrite Hav5, Hav3, Hav2. done.
    + etrans; [eapply mem_upd_mono; [exact U2|]; tauto|].
      etrans; [eapply mem_upd_mono; [exact U3|]; tauto|]. eapply mem_upd_mono; [exact U5|]. tauto.
Qed.

(** ** Loading the table *)
Lemma wp_load_segment ok m limit base selector :
  8 * (selector / 8) + 7 <= limit -> backed m (base + 8 * (selector / 8)) 8 ->
  ok (peek64 m (base + 8 * (selector / 8))) = true ->
  wp (load_segment ok m limit base selector) (fun s => s = selector).
Proof.
  intros Hl B Hok. unfold load_segment, descriptor.
  destruct (Z.ltb_spec limit (8 * (selector / 8) + 7)); [lia|].
  wp_step. apply (wp_loadn 8); [exact B|]. by rewrite Hok.
Qed.

Definition kernel_segments (base : Z) : segments :=
  {| gdtr_limit := 39; gdtr_base := base; cs := 0x08; ds := 0x10; es := 0x10; ss := 0x10 |}.

Lemma wp_gdt_flush m desc base :
  backed m desc frame_size -> backed m base frame_size -> gdt_built m desc base ->
  wp (gdt_flush m desc) (fun s => s = kernel_segments base).
Proof.
  intros Bd Bb (Hl & Hb & _ & Hc & Hd & _). unfold gdt_flush.
  wp_step. apply (wp_loadn 2); [apply (backed_sub _ _ _ _ _ Bd); unfold gdt_limit_at, frame_size; lia|].
  wp_step. apply (wp_loadn 8); [apply (backed_sub _ _ _ _ _ Bd); unfold gdt_base_at, frame_size; lia|].
  rewrite Hl, Hb.
  assert (D : wp (load_segment data_segment m 39 base 0x10) (fun s => s = 0x10)).
  { apply wp_load_segment; [done | | by change (base + 8 * (16 / 8)) with (base + 8 * 2); rewrite Hd].
    apply (backed_sub _ _ _ _ _ Bb); change (8 * (16 / 8)) with 16; unfold frame_size; lia. }
  do 3 (wp_step; eapply wp_mono; [exact D|]; intros ? ->).
  wp_step. eapply wp_mono.
  { apply (wp_load_segment code_segment m 39 base 0x08); [done | | by change (base + 8 * (8 / 8)) with (base + 8 * 1); rewrite Hc].
    apply (backed_sub _ _ _ _ _ Bb); change (8 * (8 / 8)) with 8; unfold frame_size; lia. }
  intros ? ->. by wp_ret.
Qed.
