(* ===== verification/Acpi.v ===== *)
(** ACPI tables: kernel/acpi/acpi.h, xsdt.c and madt.c.

    The tables are packed structures in physical memory; a field is the offset
    of its first byte. *)
From stdpp Require Import base list.
From Stdlib Require Import ZArith Lia.
From S2P Require Import Prelude Memory LibString.
Local Open Scope Z_scope.

(** rsdp_desc: Signature (8), Checksum, OEMID (6), Revision, RsdtAddress (4). *)
Definition sizeof_rsdp : Z := 20.
(** rsdp2_desc: rsdp1, Length (4), XsdtAddress (8), ... *)
Definition rsdp2_XsdtAddress (rsdp : Z) : Z := rsdp + sizeof_rsdp + 4.
(** sdt_header: Signature (4), Length (4), 28 more bytes. *)
Definition sdt_Signature (header : Z) : Z := header.
Definition sdt_Length (header : Z) : Z := header + 4.
Definition sizeof_sdt_header : Z := 36.
(** madt_header: EntryType (1), RecordLength (1). *)
Definition madt_EntryType (entry : Z) : Z := entry.
Definition madt_RecordLength (entry : Z) : Z := entry + 1.
(** APIC: header, LocalAPICAddress (4), flags (4), entries. *)
Definition sizeof_APIC : Z := sizeof_sdt_header + 8.
(** XSDT: header, ptr. *)
Definition xsdt_ptr (xsdt i : Z) : Z := xsdt + sizeof_sdt_header + 8 * i.

Definition xsdt_get_table (m : mem) (rsdp signature : Z) : res Z :=
  xsdt ← load64 m (rsdp2_XsdtAddress rsdp);
  len ← load32 m (sdt_Length xsdt);
  let tableCount := u64 (len - sizeof_sdt_header) / 8 in
  after
    (for_range 0 tableCount (fun i (_ : unit) =>
       header ← load64 m (xsdt_ptr xsdt i);
       r ← memcmp m (sdt_Signature header) signature 4;
       if negb (r =? 0) then Ok (inl tt) else Ok (inr header)) tt)
    (fun _ => Ok NULL).

Definition madt_get_processor_local_apic_count (fuel : nat) (m : mem) (apic : Z) : res Z :=
  len ← load32 m (sdt_Length apic);
  let entries_size := u64 (len - sizeof_APIC) in
  after
    (while_fuel fuel (fun '(pos, _, _) => Ok (pos <? entries_size))
       (fun '(pos, offset, count) =>
          type ← load8 m (madt_EntryType offset);
          let count := if type =? 0 then u64 (count + 1) else count in
          n ← load8 m (madt_RecordLength offset);
          Ok (inl (u64 (pos + n), u64 (offset + n), count)))
       (0, apic + sizeof_APIC, 0))
    (fun '(_, _, count) => Ok count).
