(* ===== verification/Stack.v ===== *)
(** The stack of 64-bit words: include/stack.h and lib/stack.c. *)
From stdpp Require Import base list.
From Stdlib Require Import ZArith Lia.
From S2P Require Import Prelude Memory.
Local Open Scope Z_scope.

Record stack64_t := { stack : Z; size : Z; sp : Z }.

Definition set_sp (s : stack64_t) (n : Z) : stack64_t := {| stack := stack s; size := size s; sp := n |}.

(** The size is checked by neither operation. *)
Definition stack64_push (m : mem) (s : stack64_t) (value : Z) : res (mem * stack64_t) :=
  m ← store64 m (stack s + 8 * sp s) value;
  Ok (m, set_sp s (u64 (sp s + 1))).

Definition stack64_pop (m : mem) (s : stack64_t) : res (Z * stack64_t) :=
  let s := set_sp s (u64 (sp s - 1)) in
  v ← load64 m (stack s + 8 * sp s);
  Ok (v, s).

(** ** Last in, first out *)
Fixpoint push_all (m : mem) (s : stack64_t) (l : list Z) : res (mem * stack64_t) :=
  match l with
  | [] => Ok (m, s)
  | v :: l => '(m, s) ← stack64_push m s v; push_all m s l
  end.

Fixpoint pop_all (m : mem) (s : stack64_t) (n : nat) : res (list Z * stack64_t) :=
  match n with
  | O => Ok ([], s)
  | S n => '(v, s) ← stack64_pop m s; '(l, s) ← pop_all m s n; Ok (v :: l, s)
  end.

Lemma pop_all_app m s n k l s' :
  pop_all m s n = Ok (l, s') ->
  pop_all m s (n + k) = ('(l', s2) ← pop_all m s' k; Ok (l ++ l', s2)).
Proof.
  revert s l. induction n as [|n IH]; intros s l; cbn [pop_all Nat.add].
  - intros H. injection H as <- <-. by destruct (pop_all m s k) as [[l' s2]| |].
  - destruct (stack64_pop m s) as [[v s1]| |]; cbn [mbind res_bind]; try done.
    destruct (pop_all m s1 n) as [[l1 s2]| |] eqn:E; cbn [mbind res_bind]; try done.
    intros H. injection H as <- <-. rewrite (IH _ _ E). by destruct (pop_all m s2 k) as [[l' s3]| |].
Qed.

(** Pushing a list and popping as many words: the list comes back reversed, the stack is
    as it was, and only the words pushed have been written. *)
Lemma wp_push_all l : forall m s,
  0 <= sp s -> sp s + Z.of_nat (length l) < 2 ^ 64 -> Forall (fun v => 0 <= v < 2 ^ 64) l ->
  backed m (stack s + 8 * sp s) (8 * Z.of_nat (length l)) ->
  wp (push_all m s l) (fun '(m', s') =>
    stack s' = stack s /\ sp s' = sp s + Z.of_nat (length l) /\ size s' = size s /\
    mem_upd (region (stack s + 8 * sp s) (8 * Z.of_nat (length l))) m m' /\
    pop_all m' s' (length l) = Ok (reverse l, s)).
Proof.
  induction l as [|v l IH]; intros m s H0 Hlt Hl B; cbn [push_all length] in *.
  - split; [done|]. split; [lia|]. split; [done|]. split; [done|]. by destruct s.
  - inversion Hl as [|? ? Hv Hl']; subst. unfold stack64_push. wp_step. wp_step.
    assert (B1 : backed m (stack s + 8 * sp s) 8) by (apply (backed_sub _ _ _ _ _ B); lia).
    apply (wp_storen 8); [exact B1|]. wp_ret. pose proof (mem_upd_poken 8 m (stack s + 8 * sp s) v B1) as U1.
    rewrite u64_small by lia. set (s1 := set_sp s (sp s + 1)).
    eapply wp_mono.
    { apply (IH _ s1); cbn; [lia | lia | done |]. apply (mem_upd_backed _ _ _ _ _ U1).
      apply (backed_sub _ _ _ _ _ B); lia. }
    intros [m' s'] (Hst & Hsp & Hsz & U & Hpop). cbn in Hst, Hsp, Hsz, U.
    split; [done|]. split; [lia|]. split; [done|]. split.
    { etrans; (eapply mem_upd_mono; [eassumption|]); unfold region; cbn; lia. }
    replace (S (length l)) with (length l + 1)%nat by lia. rewrite (pop_all_app _ _ _ _ _ _ Hpop).
    cbn [pop_all]. unfold stack64_pop. cbn [s1 set_sp sp stack]. rewrite Z.add_simpl_r, u64_small by lia.
    assert (B' : backed m' (stack s + 8 * sp s) 8)
      by (apply (mem_upd_backed _ _ _ _ _ U), (mem_upd_backed _ _ _ _ _ U1); exact B1).
    rewrite loadn_ok by exact B'. cbn [mbind res_bind]. rewrite (mem_upd_peekn _ _ _ 8 _ U) by (unfold region; lia).
    rewrite peek64_poke64_eq, u64_small by done. rewrite reverse_cons. by destruct s.
Qed.
