(* ===== verification/Start.v ===== *)
(** The start-up code of the C library: lib/crt0.s, lib/c.c and lib/stdlib/exit.c.  It is a
    stub: no program's main is called, and exit returns to its caller. *)
From stdpp Require Import base list relations.
From Stdlib Require Import ZArith Lia.
From S2P Require Import Prelude Memory.
Local Open Scope Z_scope.

(** The global of c.c; a global without initialiser starts at 0. *)
Definition errno : Z := 0.

Definition __libc_main : Z := -1.

(** exit has no effect and goes on where it was called. *)
Definition exit (m : mem) (ret : Z) : res mem := Ok m.

(** ** _start, instruction by instruction *)
Inductive start_pc := at_call | at_hlt | at_jmp.

(** The processor: where it is, its stack pointer, eax, and memory.  [ret_addr] is the
    address of the label wait, which the call pushes and the return pops.  A hlt goes on
    when an interrupt comes; that the processor may execute it (that it runs at privilege
    level 0) is assumed. *)
Record start_state := { pc : start_pc; rsp : Z; eax : Z; ram : mem }.

Inductive start_step (ret_addr : Z) : start_state -> start_state -> Prop :=
  | step_call sp a m m' :
      store64 m (u64 (sp - 8)) ret_addr = Ok m' ->
      start_step ret_addr {| pc := at_call; rsp := sp; eax := a; ram := m |}
        {| pc := at_hlt; rsp := sp; eax := u32 __libc_main; ram := m' |}
  | step_hlt sp a m :
      start_step ret_addr {| pc := at_hlt; rsp := sp; eax := a; ram := m |}
        {| pc := at_jmp; rsp := sp; eax := a; ram := m |}
  | step_jmp sp a m :
      start_step ret_addr {| pc := at_jmp; rsp := sp; eax := a; ram := m |}
        {| pc := at_hlt; rsp := sp; eax := a; ram := m |}.

(** Once the stub has returned, the processor halts, and halts again after every
    interrupt. *)
Definition waits (s : start_state) : Prop := pc s <> at_call /\ eax s = 2 ^ 32 - 1.

Lemma start_waits ret_addr s s' :
  start_step ret_addr s s' -> pc s = at_call \/ waits s -> waits s'.
Proof. intros [] [Hp|[Hp Ha]]; by split. Qed.

Lemma start_goes_on ret_addr s : waits s -> exists s', start_step ret_addr s s'.
Proof. destruct s as [[] sp a m]; intros [Hp _]; [done | |]; eexists; constructor. Qed.

Lemma start_calls ret_addr s :
  pc s = at_call -> backed (ram s) (u64 (rsp s - 8)) 8 -> exists s', start_step ret_addr s s'.
Proof.
  destruct s as [p sp a m]. cbn. intros -> B. eexists. constructor. by apply (storen_ok 8).
Qed.

(** From a stack with room for the return address, _start never ends: it stands at its
    first instruction or waits, and there is always a next step. *)
Lemma start_never_ends ret_addr s s' :
  pc s = at_call -> backed (ram s) (u64 (rsp s - 8)) 8 -> rtc (start_step ret_addr) s s' ->
  (s' = s \/ waits s') /\ exists s'', start_step ret_addr s' s''.
Proof.
  intros Hpc B Hr. assert (Hs : s' = s \/ waits s').
  { revert s' Hr. apply rtc_ind_r; [by left|]. intros y z _ Hyz IH.
    right. apply (start_waits _ _ _ Hyz). destruct IH as [->|Hw]; [by left | by right]. }
  split; [done|]. destruct Hs as [->|Hw]; [by apply start_calls | by apply start_goes_on].
Qed.
