(* ===== verification/EfiPmm.v ===== *)
(** Building the physical memory manager from the UEFI memory map:
    efi-stage/efi_pmm.h, efi_pmm.c and the record of efi_mmap.h.

    Memory descriptors are read through [desc_at], the layout of the firmware's
    EFI_MEMORY_DESCRIPTOR, which the repository does not define. *)
From stdpp Require Import gmap list.
From Stdlib Require Import ZArith Lia.
From S2P Require Import Prelude Memory Physical.
Local Open Scope Z_scope.

(** The memory types the loader distinguishes. *)
Inductive efi_memory_type :=
  | EfiLoaderCode
  | EfiLoaderData
  | EfiBootServicesCode
  | EfiBootServicesData
  | EfiRuntimeServicesCode
  | EfiRuntimeServicesData
  | EfiConventionalMemory
  | EfiACPIReclaimMemory
  | EfiACPIMemoryNVS
  | EfiMemoryMappedIO
  | EfiMemoryMappedIOPortSpace
  | EfiOtherMemory (type : Z).

#[export] Instance efi_memory_type_eq_dec : EqDecision efi_memory_type.
Proof. solve_decision. Defined.

(** The fields of a descriptor that the loader reads. *)
Record efi_descriptor := {
  Type_ : efi_memory_type;
  PhysicalStart : Z;
  NumberOfPages : Z;
  Attribute : Z
}.

Record efi_mmap_t := {
  start : Z;
  end_ : Z;
  size : Z;
  key : Z;
  descriptorSize : Z
}.

Record pmm_storage := {
  physical_memory : pmm;
  block_capacity : Z;
  bitmap : Z;
  bitmap_words : Z
}.

Definition is_ram_type (type : efi_memory_type) : bool :=
  match type with
  | EfiLoaderCode | EfiLoaderData | EfiBootServicesCode | EfiBootServicesData
  | EfiConventionalMemory => true
  | _ => false
  end.

(** The switch of build_pmm. *)
Definition pm_type_of (type : efi_memory_type) : pm_type :=
  match type with
  | EfiConventionalMemory => PM_USABLE
  | EfiLoaderCode | EfiLoaderData | EfiBootServicesCode | EfiBootServicesData => PM_RECLAIMABLE
  | EfiACPIReclaimMemory => PM_ACPI_RECLAIM
  | EfiACPIMemoryNVS => PM_ACPI_NVS
  | EfiRuntimeServicesCode | EfiRuntimeServicesData => PM_FIRMWARE
  | EfiMemoryMappedIO | EfiMemoryMappedIOPortSpace => PM_MMIO
  | EfiOtherMemory _ => PM_RESERVED
  end.

(** The block before a bitmap is given to it. *)
Definition init_block (desc : efi_descriptor) : pm_block :=
  {| pb_address := PhysicalStart desc;
     pb_frames_total := NumberOfPages desc;
     pb_frames_free := 0;
     pb_map := NULL;
     pb_type := pm_type_of (Type_ desc);
     pb_attributes := Attribute desc |}.

Definition set_map (b : pm_block) (map : Z) : pm_block :=
  {| pb_address := pb_address b;
     pb_frames_total := pb_frames_total b;
     pb_frames_free := pb_frames_free b;
     pb_map := map;
     pb_type := pb_type b;
     pb_attributes := pb_attributes b |}.

(** for(j = 0; j < words; j++) block->map[j] = v *)
Definition fill_words (m : mem) (block : pm_block) (words v : Z) : res mem :=
  after
    (for_range 0 words (fun j m => m ← store64 m (map_word block j) v; Ok (inl m)) m)
    (fun m => Ok m).

Section build.
(** *(EFI_MEMORY_DESCRIPTOR * )offset *)
Context (desc_at : mem -> Z -> efi_descriptor).

(** The end of the loop body: the bitmap of a block of RAM.  The result is the
    memory, the block, and what is left of the storage.  The descriptor is read
    again after the bitmap has been written. *)
Definition map_block (m : mem) (offset : Z) (block : pm_block) (next_map words_left : Z)
  : res (mem * pm_block * Z * Z) :=
  if negb (bool_decide (pb_type block = PM_USABLE)) && negb (bool_decide (pb_type block = PM_RECLAIMABLE))
  then Ok (m, block, next_map, words_left) else
  let words := frame_map_size (NumberOfPages (desc_at m offset)) in
  if words_left <? words then Ok (m, block, next_map, words_left) else
  let block := set_map block next_map in
  let next_map := next_map + 8 * words in
  let words_left := words_left - words in
  if bool_decide (pb_type block = PM_RECLAIMABLE) then
    m ← fill_words m block words ALL_ONES;
    Ok (m, block, next_map, words_left)
  else
  m ← fill_words m block words 0;
  let pages := NumberOfPages (desc_at m offset) in
  let block := set_frames_free block pages in
  m ← (if negb (pages mod 64 =? 0)
       then store64 m (map_word block (words - 1)) (u64 (Z.shiftl ALL_ONES (pages mod 64)))
       else Ok m);
  if pb_address block =? 0 then
    w ← load64 m (map_word block 0);
    m ← store64 m (map_word block 0) (Z.lor w 1);
    Ok (m, set_frames_free block (u64 (pb_frames_free block - 1)), next_map, words_left)
  else Ok (m, block, next_map, words_left).

(** The loop state: memory, blocks, free storage, and the next descriptor. *)
Definition build_state : Type := mem * pmm * Z * Z * Z.

Definition build_step (block_capacity descriptorSize : Z) (st : build_state)
  : res (build_state + mem * pmm) :=
  let '(m, pm, next_map, words_left, offset0) := st in
  let desc := desc_at m offset0 in
  let offset := u64 (offset0 + descriptorSize) in
  if NumberOfPages desc =? 0 then Ok (inl (m, pm, next_map, words_left, offset))
  else if block_count pm =? block_capacity then Ok (inr (m, pm))
  else
    let i := block_count pm in
    _ ← get_block pm i;
    '(m, block, next_map, words_left) ← map_block m offset0 (init_block desc) next_map words_left;
    let pm := put_block {| blocks := blocks pm; block_count := i + 1 |} i block in
    Ok (inl (m, pm, next_map, words_left, offset)).

Definition build_pmm (fuel : nat) (m : mem) (storage : pmm_storage) (mmap : efi_mmap_t)
  : res (mem * pmm) :=
  let pm := {| blocks := blocks (physical_memory storage); block_count := 0 |} in
  after
    (while_fuel fuel (fun '(_, _, _, _, offset) => Ok (offset <? end_ mmap))
       (build_step (block_capacity storage) (descriptorSize mmap))
       (m, pm, bitmap storage, bitmap_words storage, start mmap))
    (fun '(m, pm, _, _, _) => Ok (m, pm)).
End build.

(** The sizes reserve_pmm computes from the descriptors of the provisional map. *)
Definition PMM_BLOCK_SLACK : Z := 16.

Definition count_step (c : Z * Z) (desc : efi_descriptor) : Z * Z :=
  let '(block_count, ram_frames) := c in
  (if negb (NumberOfPages desc =? 0) then u64 (block_count + 1) else block_count,
   if is_ram_type (Type_ desc) then u64 (ram_frames + NumberOfPages desc) else ram_frames).

Definition reserve_sizes (block_count ram_frames : Z) : Z * Z :=
  let block_capacity := u64 (block_count + PMM_BLOCK_SLACK) in
  (block_capacity, u64 (ram_frames / 64 + block_capacity)).
