(* ===== verification/EfiPmmSpec.v ===== *)
(** What build_pmm makes of a memory map: the blocks, their bitmaps, and the
    invariant of the frame allocator. *)
From stdpp Require Import gmap list list_numbers.
From Stdlib Require Import ZArith Lia.
From S2P Require Import Prelude Memory Physical FrameAllocator PhysicalSpec EfiPmm.
Local Open Scope Z_scope.

(** ** Bitmaps *)
Lemma wp_fill_words m b words v :
  0 <= words -> 0 <= v < 2 ^ 64 -> backed m (pb_map b) (8 * words) ->
  wp (fill_words m b words v) (fun m' =>
    mem_upd (region (pb_map b) (8 * words)) m m' /\
    forall j, 0 <= j < words -> peek64 m' (map_word b j) = v).
Proof.
  intros Hw Hv Hb. unfold fill_words. wp_step. eapply wp_mono.
  - apply (wp_for_range (fun i m' => mem_upd (region (pb_map b) (8 * words)) m m' /\
      forall j, 0 <= j < i -> peek64 m' (map_word b j) = v) (fun _ => False)); [done | | ].
    + split; [done | lia].
    + intros i m1 Hi [U Hj]. wp_step. unfold map_word in *.
      assert (B : backed m1 (pb_map b + 8 * i) 8).
      { apply (backed_sub m1 (pb_map b) (8 * words)); [by apply (mem_upd_backed _ _ _ _ _ U) | lia..]. }
      apply (wp_storen 8); [exact B|]. wp_ret. split.
      * etrans; [exact U|]. eapply mem_upd_mono; [by apply mem_upd_poke64|]. unfold region. lia.
      * intros j Hr. destruct (decide (j = i)) as [->|Hne].
        -- by rewrite peek64_poke64_eq, u64_small.
        -- rewrite peek64_poke64_ne by lia. apply Hj. lia.
  - intros [m'|r]; [|done]. done.
Qed.

(** The word that marks the bits from [r] on. *)
Lemma pad_word r j :
  0 <= r < 64 -> 0 <= j < 64 -> Z.testbit (u64 (Z.shiftl ALL_ONES r)) j = (r <=? j).
Proof.
  intros Hr Hj. unfold u64. rewrite Z.mod_pow2_bits_low, Z.shiftl_spec by lia.
  destruct (Z.leb_spec r j).
  - rewrite testbit_ALL_ONES by lia. apply Z.ltb_lt. lia.
  - by rewrite Z.testbit_neg_r by lia.
Qed.

Lemma pad_word_range r : 0 <= u64 (Z.shiftl ALL_ONES r) < 2 ^ 64.
Proof. apply u64_range. Qed.

Section bitmap.
Context (b : pm_block) (G : block_geom b) (Hpos : 0 < pb_frames_total b).
Let n := pb_frames_total b.
Let words := map_words b.

(** A bitmap of ones: every frame is used. *)
Lemma managed_full m :
  pb_map b <> NULL -> backed m (pb_map b) (8 * words) ->
  (forall j, 0 <= j < words -> peek64 m (map_word b j) = ALL_ONES) -> pb_frames_free b = 0 ->
  block_managed m b /\ forall f, 0 <= f < n -> used m b f = true.
Proof using G.
  clear Hpos. intros Hmap Hb Hw Hfree.
  assert (Hu : forall f, 0 <= f < 64 * words -> used m b f = true).
  { intros f Hf. unfold used. rewrite Hw by zlia. rewrite testbit_ALL_ONES by zlia.
    apply Z.ltb_lt. zlia. }
  pose proof (map_words_bounds b G) as Hwb. fold words n in Hwb. split.
  - split; [done..| |].
    + rewrite Hfree. unfold free_count. rewrite length_filter_none; [done|].
      intros f Hf%elem_of_seqZ. rewrite Hu; [done|]. fold n in Hf. lia.
    + intros f Hf. apply Hu. fold n words in Hf. pose proof (geom_total _ G) as Hn. fold n in Hn. lia.
  - intros f Hf. apply Hu. lia.
Qed.

(** A bitmap of zeros up to [n]: every frame is free. *)
Lemma managed_empty m :
  pb_map b <> NULL -> backed m (pb_map b) (8 * words) ->
  (forall f, 0 <= f < 64 * words -> used m b f = (n <=? f)) -> pb_frames_free b = n ->
  block_managed m b /\ forall f, 0 <= f < n -> used m b f = false.
Proof using G.
  clear Hpos. intros Hmap Hb Hu Hfree.
  pose proof (map_words_bounds b G) as Hwb. fold words n in Hwb.
  pose proof (geom_total _ G) as Hn. fold n in Hn.
  assert (Hlow : forall f, 0 <= f < n -> used m b f = false).
  { intros f Hf. rewrite Hu by lia. apply Z.leb_gt. lia. }
  split; [|done]. split; [done..| |].
  - rewrite Hfree. unfold free_count. rewrite length_filter_all; [fold n; rewrite length_seqZ; lia|].
    intros f Hf%elem_of_seqZ. apply Hlow. fold n in Hf. lia.
  - intros f Hf. fold n words in Hf.
    rewrite Hu by lia. apply Z.leb_le. lia.
Qed.

(** Zeros, and the padding of the last word. *)
Lemma padded_bits m f :
  (forall j, 0 <= j < words -> peek64 m (map_word b j) = 0) -> 0 <= f < 64 * words ->
  used (if negb (n mod 64 =? 0) then poke64 m (map_word b (words - 1)) (u64 (Z.shiftl ALL_ONES (n mod 64)))
        else m) b f = (n <=? f).
Proof using G Hpos.
  intros Hz Hf. pose proof (map_words_bounds b G) as Hwb. fold words n in Hwb, Hpos.
  assert (Hwd : words = (n + 63) / 64) by done.
  unfold used. destruct (Z.eqb_spec (n mod 64) 0) as [H0|H0]; cbn [negb].
  - rewrite Hz, Z.bits_0 by zlia. symmetry. apply Z.leb_gt. zlia.
  - destruct (decide (f / 64 = words - 1)) as [He|He].
    + rewrite He, peek64_poke64_eq, u64_small by apply pad_word_range.
      rewrite pad_word by zlia. apply eq_true_iff_eq. rewrite !Z.leb_le. zlia.
    + rewrite peek64_poke64_ne by (unfold map_word; lia).
      rewrite Hz, Z.bits_0 by zlia. symmetry. apply Z.leb_gt. zlia.
Qed.
End bitmap.

(** ** One block *)

(** Frame [f] of a region starts out free. *)
Definition starts_free (d : efi_descriptor) (f : Z) : bool :=
  bool_decide (Type_ d = EfiConventionalMemory) && negb ((PhysicalStart d =? 0) && (f =? 0)).

(** The number of bitmap words a region takes. *)
Definition desc_words (d : efi_descriptor) : Z := (NumberOfPages d + 63) / 64.

(** Block [b] stands for region [d]. *)
Record block_for (d : efi_descriptor) (b : pm_block) : Prop := {
  bf_address : pb_address b = PhysicalStart d;
  bf_total : pb_frames_total b = NumberOfPages d;
  bf_type : pb_type b = pm_type_of (Type_ d);
  bf_attributes : pb_attributes b = Attribute d
}.

(** Its bitmap is set up as the type of the region asks. *)
Record bitmap_for (m : mem) (d : efi_descriptor) (b : pm_block) : Prop := {
  bm_ram : is_ram_type (Type_ d) = true;
  bm_managed : block_managed m b;
  bm_used f : 0 <= f < NumberOfPages d -> used m b f = negb (starts_free d f)
}.

Definition map_block_post (m : mem) (d : efi_descriptor) (next_map words_left : Z)
    (c : mem * pm_block * Z * Z) : Prop :=
  let '(m', b, next_map', words_left') := c in
  block_for d b /\
  ((pb_map b = NULL /\ pb_frames_free b = 0 /\ m' = m /\ next_map' = next_map /\
    words_left' = words_left /\ (is_ram_type (Type_ d) = true -> words_left < desc_words d)) \/
   (pb_map b = next_map /\ bitmap_for m' d b /\ mem_upd (region next_map (8 * desc_words d)) m m' /\
    next_map' = next_map + 8 * desc_words d /\ words_left' = words_left - desc_words d /\
    desc_words d <= words_left)).

Section one_block.
Context (desc_at : mem -> Z -> efi_descriptor) (d : efi_descriptor) (offset : Z).
Context (m : mem) (next_map words_left : Z).
Context (Hpos : 0 < NumberOfPages d) (G : block_geom (init_block d)).
Context (Hnext : 0 < next_map) (Hback : backed m next_map (8 * words_left)).
(** the bitmap storage does not overlap the descriptor *)
Context (Hdesc : forall m', mem_upd (region next_map (8 * words_left)) m m' -> desc_at m' offset = d).

Let b1 := set_map (init_block d) next_map.

Lemma desc_words_eq : frame_map_size (NumberOfPages d) = desc_words d.
Proof using G. exact (map_words_eq _ G). Qed.

Lemma desc_words_nonneg : 0 <= desc_words d.
Proof using G. apply (map_words_bounds _ G). Qed.

Lemma next_not_null : next_map <> NULL.
Proof using Hnext. unfold NULL. lia. Qed.

Lemma block1_geom : block_geom b1.
Proof using G. by destruct G. Qed.

(** The branch of a reclaimable region. *)
Lemma map_reclaimable :
  is_ram_type (Type_ d) = true -> pm_type_of (Type_ d) = PM_RECLAIMABLE -> desc_words d <= words_left ->
  wp (m' ← fill_words m b1 (desc_words d) ALL_ONES;
      Ok (m', b1, next_map + 8 * desc_words d, words_left - desc_words d))
    (map_block_post m d next_map words_left).
Proof using G Hnext Hback.
  clear Hdesc. intros Hram Ht Hle. wp_step. pose proof desc_words_nonneg as Hw.
  assert (B : backed m next_map (8 * desc_words d)) by (apply (backed_sub _ _ _ _ _ Hback); lia).
  eapply wp_mono; [apply wp_fill_words; [done | done | exact B]|].
  intros m' [U Hf]. wp_ret.
  destruct (managed_full b1 block1_geom m') as [M Hu]; [by apply next_not_null | | done | done |].
  { by apply (mem_upd_backed _ _ _ _ _ U). }
  split; [by split|]. right. split; [done|]. split; [|by split_and!]. split; [done | done |].
  intros f Hfr. rewrite (Hu f Hfr). unfold starts_free.
  rewrite bool_decide_eq_false_2; [done|]. intros He. by rewrite He in Ht.
Qed.

(** The branch of a usable region, up to the padding. *)
Lemma map_usable {R} (k : mem -> pm_block -> res R) Q :
  desc_words d <= words_left ->
  (forall m', mem_upd (region next_map (8 * desc_words d)) m m' ->
     block_managed m' (set_frames_free b1 (NumberOfPages d)) ->
     (forall f, 0 <= f < NumberOfPages d ->
        used m' (set_frames_free b1 (NumberOfPages d)) f = false) ->
     wp (k m' (set_frames_free b1 (NumberOfPages d))) Q) ->
  wp (m ← fill_words m b1 (desc_words d) 0;
      let pages := NumberOfPages (desc_at m offset) in
      let block := set_frames_free b1 pages in
      m ← (if negb (pages mod 64 =? 0)
           then store64 m (map_word block (desc_words d - 1)) (u64 (Z.shiftl ALL_ONES (pages mod 64)))
           else Ok m);
      k m block) Q.
Proof using G Hnext Hback Hdesc Hpos.
  intros Hle Hk. wp_step. pose proof desc_words_nonneg as Hw.
  assert (B : backed m next_map (8 * desc_words d)) by (apply (backed_sub _ _ _ _ _ Hback); lia).
  eapply wp_mono; [apply wp_fill_words; [done | done | exact B]|].
  intros m1 [U Hz]. cbn [b1 set_map pb_map] in U. rewrite Hdesc.
  2:{ eapply mem_upd_mono; [exact U|]. unfold region. lia. }
  cbv zeta. wp_step. set (b2 := set_frames_free b1 (NumberOfPages d)).
  assert (G2 : block_geom b2) by (by destruct G).
  assert (B1 : backed m1 next_map (8 * desc_words d)) by (by apply (mem_upd_backed _ _ _ _ _ U)).
  set (m2 := if negb (NumberOfPages d mod 64 =? 0)
    then poke64 m1 (map_word b2 (desc_words d - 1)) (u64 (Z.shiftl ALL_ONES (NumberOfPages d mod 64)))
    else m1).
  assert (Hlast : desc_words d - 1 >= 0) by (unfold desc_words; zlia).
  assert (U2 : mem_upd (region next_map (8 * desc_words d)) m1 m2).
  { unfold m2. destruct (negb _); [|done]. eapply mem_upd_mono.
    - apply mem_upd_poke64. apply (backed_sub _ _ _ _ _ B1); unfold map_word; cbn; lia.
    - unfold region, map_word. cbn. lia. }
  assert (Hq : wp (if negb (NumberOfPages d mod 64 =? 0)
    then store64 m1 (map_word b1 (desc_words d - 1)) (u64 (Z.shiftl ALL_ONES (NumberOfPages d mod 64)))
    else Ok m1) (fun m' => m' = m2)).
  { unfold m2. destruct (negb _); [|done]. apply (wp_storen 8); [|done].
    apply (backed_sub _ _ _ _ _ B1); unfold map_word; cbn; lia. }
  eapply wp_mono; [exact Hq|]. intros ? ->. apply Hk; [by etrans|..].
  all: apply (managed_empty b2 G2 m2); [by apply next_not_null | | | done].
  all: try by apply (mem_upd_backed _ _ _ _ _ U2).
  all: intros f Hf; by apply (padded_bits b2 G2 Hpos m1).
Qed.

(** The first frame of a region at address 0 is taken out. *)
Lemma bitmap_first m' :
  Type_ d = EfiConventionalMemory -> PhysicalStart d = 0 ->
  let b := set_frames_free b1 (NumberOfPages d) in
  block_managed m' b -> (forall f, 0 <= f < NumberOfPages d -> used m' b f = false) ->
  mem_upd (region next_map (8 * desc_words d)) m' (set_used m' b 0 true) /\
  bitmap_for (set_used m' b 0 true) d (set_frames_free b (u64 (NumberOfPages d - 1))).
Proof using G Hpos.
  clear Hnext Hback Hdesc. intros Ht H0 b M Hu. pose proof (map_words_bounds _ G) as Hw.
  cbn [init_block pb_frames_total] in Hw.
  assert (Hn : pb_frames_free b = free_count m' b) by apply M.
  assert (Hpos' : 0 <= 0 < pb_frames_total b) by (cbn; lia).
  rewrite (free_count_set m' b 0 Hpos' (Hu 0 Hpos')) in Hn. cbn [b set_frames_free pb_frames_free] in Hn.
  split; [apply (set_used_upd m' b 0 true M); unfold map_words in *; cbn in *; lia|].
  split; [by rewrite Ht | |].
  - apply (managed_set_used m' b 0 true); [done | done |]. rewrite u64_small; lia.
  - intros f Hf. rewrite used_set_frames, used_set_used. unfold starts_free.
    rewrite Ht, H0, bool_decide_eq_true_2 by done.
    case_decide as Hf0; [by subst f|]. rewrite (proj2 (Z.eqb_neq f 0)) by done.
    rewrite Hu by done. done.
Qed.

Lemma wp_map_block :
  wp (map_block desc_at m offset (init_block d) next_map words_left)
    (map_block_post m d next_map words_left).
Proof using G Hnext Hback Hdesc Hpos.
  unfold map_block. rewrite (Hdesc m) by done. rewrite desc_words_eq. fold b1.
  change (pb_type (init_block d)) with (pm_type_of (Type_ d)).
  change (pb_type b1) with (pm_type_of (Type_ d)).
  assert (Hskip : (is_ram_type (Type_ d) = true -> words_left < desc_words d) ->
    map_block_post m d next_map words_left (m, init_block d, next_map, words_left)).
  { intros Hr. split; [by split|]. left. by split_and!. }
  destruct (is_ram_type (Type_ d)) eqn:Hram.
  2:{ destruct (Type_ d) eqn:Ht; try done; wp_ret; by apply Hskip. }
  destruct (Z.ltb_spec words_left (desc_words d)) as [Hlt|Hle].
  { destruct (negb _ && negb _); wp_ret; by apply Hskip. }
  destruct (decide (pm_type_of (Type_ d) = PM_RECLAIMABLE)) as [Hrec|Hrec].
  { rewrite (bool_decide_eq_false_2 (_ = PM_USABLE)) by congruence.
    rewrite (bool_decide_eq_true_2 _ Hrec). by apply map_reclaimable. }
  assert (Ht : Type_ d = EfiConventionalMemory) by (destruct (Type_ d); done).
  rewrite (bool_decide_eq_true_2 (_ = PM_USABLE)) by (by rewrite Ht).
  rewrite (bool_decide_eq_false_2 _ Hrec). cbn [negb andb].
  apply (map_usable (fun m block =>
    if pb_address block =? 0 then
      w ← load64 m (map_word block 0);
      m ← store64 m (map_word block 0) (Z.lor w 1);
      Ok (m, set_frames_free block (u64 (pb_frames_free block - 1)),
          next_map + 8 * desc_words d, words_left - desc_words d)
    else Ok (m, block, next_map + 8 * desc_words d, words_left - desc_words d))); [done|].
  intros m' U M Hu.
  change (pb_address (set_frames_free b1 (NumberOfPages d))) with (PhysicalStart d).
  destruct (Z.eqb_spec (PhysicalStart d) 0) as [H0|H0].
  - assert (Hw : 0 <= 0 < map_words (set_frames_free b1 (NumberOfPages d)))
      by (unfold map_words; cbn; zlia).
    wp_step. apply (wp_load_map_word m' _ 0); [done..|].
    wp_step. apply (wp_store_map_word m' _ 0); [done..|]. wp_ret.
    change 1 with (Z.shiftl 1 0). rewrite (set_used_word m' _ 0 0) by lia.
    destruct (bitmap_first m' Ht H0 M Hu) as [U' B].
    split; [by split|]. right. split; [done|]. split; [exact B|].
    split; [by etrans | by split_and!].
  - wp_ret. split; [by split|]. right. split; [done|]. split; [|by split_and!].
    split; [by rewrite Ht | done |]. intros f Hf. rewrite Hu by done. unfold starts_free.
    rewrite Ht, bool_decide_eq_true_2 by done. by rewrite (proj2 (Z.eqb_neq _ _) H0).
Qed.
End one_block.

(** ** The blocks built so far *)

(** The part of the bitmap storage a block took. *)
Definition took (b : pm_block) (lo hi : Z) : Prop :=
  lo <= pb_map b /\ pb_map b + 8 * map_words b <= hi.

(** The bitmap words a list of regions needs. *)
Fixpoint total_words (l : list efi_descriptor) : Z :=
  match l with
  | [] => 0
  | d :: l => (if is_ram_type (Type_ d) then desc_words d else 0) + total_words l
  end.

Lemma total_words_app l1 l2 : total_words (l1 ++ l2) = total_words l1 + total_words l2.
Proof. induction l1 as [|d l1 IH]; simpl; lia. Qed.

(** Block [b] of region [d] is complete: it has no bitmap and no free frame, or
    the bitmap its region asks for, within the storage from [lo] to [hi]. *)
Definition complete (m : mem) (lo hi : Z) (d : efi_descriptor) (b : pm_block) : Prop :=
  block_for d b /\
  ((pb_map b = NULL /\ pb_frames_free b = 0) \/ (bitmap_for m d b /\ took b lo hi)).

Record built (st : pmm_storage) (m0 m : mem) (pm : pmm) (ds : list efi_descriptor)
    (next_map words_left : Z) : Prop := {
  bt_count : block_count pm = Z.of_nat (length ds);
  bt_slots : Z.of_nat (length (blocks pm)) = block_capacity st;
  bt_fits : Z.of_nat (length ds) <= block_capacity st;
  bt_next : next_map = bitmap st + 8 * (bitmap_words st - words_left);
  bt_left : 0 <= words_left <= bitmap_words st;
  bt_upd : mem_upd (region (bitmap st) (8 * bitmap_words st)) m0 m;
  bt_block i d : ds !! i = Some d ->
    exists b, blocks pm !! i = Some b /\ complete m (bitmap st) next_map d b;
  bt_apart i j b c : (i < j < length ds)%nat -> blocks pm !! i = Some b -> blocks pm !! j = Some c ->
    pb_map b <> NULL -> pb_map c <> NULL -> pb_map b + 8 * map_words b <= pb_map c;
  bt_all : total_words ds <= bitmap_words st ->
    words_left = bitmap_words st - total_words ds /\
    forall i d b, ds !! i = Some d -> blocks pm !! i = Some b ->
      is_ram_type (Type_ d) = true -> pb_map b <> NULL
}.

(** A complete block stays complete while later bitmaps are written. *)
Lemma complete_upd m m' lo hi hi' d b n :
  complete m lo hi d b -> mem_upd (region hi n) m m' -> hi <= hi' -> complete m' lo hi' d b.
Proof.
  intros [F [Hn|[[R M Hu] [T1 T2]]]] U Hh; (split; [done|]); [by left | right].
  assert (HP : forall x, map_region b x -> ~ region hi n x) by (unfold map_region, region; lia).
  split; [|split; lia]. split; [done | by apply (managed_upd _ _ _ b U) |].
  intros f Hf. rewrite (used_upd _ _ _ b U HP); [by apply Hu|].
  pose proof (map_words_bounds b (mng_geom _ _ M)). rewrite (bf_total _ _ F) in *. lia.
Qed.

Lemma desc_words_map d b : block_for d b -> map_words b = desc_words d.
Proof. intros F. unfold map_words, desc_words. by rewrite (bf_total _ _ F). Qed.

Section step.
Context (st : pmm_storage) (m0 m : mem) (pm : pmm) (ds : list efi_descriptor).
Context (next_map words_left : Z) (B : built st m0 m pm ds next_map words_left).
Context (d : efi_descriptor) (m' : mem) (b : pm_block) (next_map' words_left' : Z).
Context (Hpos : 0 < NumberOfPages d) (Hbm : 0 < bitmap st).
Context (Hlt : Z.of_nat (length ds) < block_capacity st).
Context (Hpost : map_block_post m d next_map words_left (m', b, next_map', words_left')).
Let pm' := put_block {| blocks := blocks pm; block_count := block_count pm + 1 |}
             (block_count pm) b.

Lemma step_words : 0 < desc_words d.
Proof using Hpos. clear -Hpos. unfold desc_words. zlia. Qed.

Lemma step_upd :
  exists n, mem_upd (region next_map n) m m' /\ next_map' = next_map + n /\ 0 <= n <= 8 * words_left.
Proof using Hpost B Hpos.
  pose proof step_words as Hw.
  destruct Hpost as (_ & [(_ & _ & -> & -> & _)|(_ & _ & U & -> & -> & Hle)]).
  - exists 0. split; [done|]. destruct (bt_left _ _ _ _ _ _ _ B). lia.
  - exists (8 * desc_words d). split; [done|]. lia.
Qed.

Lemma step_new : complete m' (bitmap st) next_map' d b.
Proof using Hpost B.
  destruct Hpost as (F & [(Hm & Hf & _)|(Hm & Bm & _ & -> & _)]); (split; [done|]); [by left | right].
  split; [done|]. unfold took. rewrite Hm, (desc_words_map d b F).
  destruct B as [_ _ _ Hn Hl _ _ _ _]. lia.
Qed.

Lemma step_lookup i c :
  blocks pm' !! i = Some c -> (i < S (length ds))%nat ->
  (i = length ds /\ c = b) \/ ((i < length ds)%nat /\ blocks pm !! i = Some c).
Proof using B.
  destruct B as [Hc _ _ _ _ _ _ _ _]. unfold pm', put_block. cbn [blocks block_count].
  rewrite Hc, Nat2Z.id. intros Hi Hlen. destruct (decide (i = length ds)) as [->|Hne].
  - left. rewrite list_lookup_insert_eq in Hi.
    + split; [done | congruence].
    + destruct (decide (length ds < length (blocks pm))%nat) as [|Hge]; [done|].
      rewrite list_insert_ge in Hi by lia. apply lookup_lt_Some in Hi. lia.
  - right. rewrite list_lookup_insert_ne in Hi by lia. split; [lia | done].
Qed.

Lemma step_lookup_new : blocks pm' !! length ds = Some b.
Proof using B Hlt.
  destruct B as [Hc Hs _ _ _ _ _ _ _]. unfold pm', put_block. cbn [blocks block_count].
  rewrite Hc, Nat2Z.id. apply list_lookup_insert_eq. lia.
Qed.

Lemma step_lookup_old i : (i < length ds)%nat -> blocks pm' !! i = blocks pm !! i.
Proof using B.
  destruct B as [Hc _ _ _ _ _ _ _ _]. unfold pm', put_block. cbn [blocks block_count].
  rewrite Hc, Nat2Z.id. intros Hi. apply list_lookup_insert_ne. lia.
Qed.

Lemma built_step : built st m0 m' pm' (ds ++ [d]) next_map' words_left'.
Proof using B Hpost Hlt Hpos Hbm.
  destruct step_upd as (n & U & Hnext' & Hn). pose proof step_words as Hw.
  pose proof B as [Hc Hs Hfit Hnx Hl Hup Hbl Hap Hall].
  assert (Hlen : length (ds ++ [d]) = S (length ds)) by (rewrite length_app; simpl; lia).
  split.
  - rewrite Hlen. cbn [pm' put_block block_count]. lia.
  - unfold pm', put_block. cbn [blocks]. by rewrite length_insert.
  - rewrite Hlen. lia.
  - destruct Hpost as (_ & [(_ & _ & _ & -> & -> & _)|(_ & _ & _ & -> & -> & _)]); lia.
  - destruct Hpost as (_ & [(_ & _ & _ & -> & -> & _)|(_ & _ & _ & -> & -> & ?)]); lia.
  - etrans; [exact Hup|]. eapply mem_upd_mono; [exact U|]. unfold region. lia.
  - intros i e Hi. apply lookup_app_Some in Hi as [Hi|[Hge Hi]].
    + pose proof (lookup_lt_Some _ _ _ Hi). rewrite step_lookup_old by done.
      destruct (Hbl i e Hi) as (c & Hcb & Hcc). exists c. split; [done|].
      apply (complete_upd m m' _ next_map _ _ _ n); [done | done | lia].
    + apply list_lookup_singleton_Some in Hi as [Hi <-].
      replace i with (length ds) by lia. exists b. split; [apply step_lookup_new | apply step_new].
  - intros i j c e Hij Hi Hj Hmc Hme. rewrite Hlen in Hij.
    destruct (step_lookup i c Hi ltac:(lia)) as [[-> ->]|[Hil Hci]]; [lia|].
    destruct (step_lookup j e Hj ltac:(lia)) as [[-> ->]|[Hjl Hej]]; [|by apply (Hap i j); [lia|..]].
    destruct (lookup_lt_is_Some_2 ds i Hil) as [f He].
    destruct (Hbl i f He) as (c' & Hc' & _ & [[Hnull _]|[_ [_ Ht]]]); [congruence|].
    assert (c' = c) as -> by congruence.
    destruct Hpost as (_ & [(Hnull & _)|(-> & _)]); [done | lia].
  - rewrite total_words_app. cbn [total_words]. intros Htot.
    assert (Hnn : 0 <= if is_ram_type (Type_ d) then desc_words d else 0) by (destruct (is_ram_type _); lia).
    destruct (Hall ltac:(lia)) as [Hwl Hram]. split.
    + destruct Hpost as (_ & [(_ & _ & _ & _ & -> & Hsm)|(_ & [-> _ _] & _ & _ & -> & _)]); [|lia].
      destruct (is_ram_type _); [|lia]. specialize (Hsm eq_refl). lia.
    + intros i e c Hi Hci Hr. apply lookup_app_Some in Hi as [Hi|[Hge Hi]].
      * pose proof (lookup_lt_Some _ _ _ Hi). rewrite step_lookup_old in Hci by done.
        by apply (Hram i e c).
      * apply list_lookup_singleton_Some in Hi as [Hi <-].
        replace i with (length ds) in Hci by lia. rewrite step_lookup_new in Hci.
        assert (c = b) as -> by congruence.
        destruct Hpost as (_ & [(_ & _ & _ & _ & _ & Hsm)|(-> & _)]); [|unfold NULL; lia].
        rewrite Hr in Htot, Hsm. specialize (Hsm eq_refl). lia.
Qed.
End step.

(** ** What build_pmm relies on *)

Definition nonempty (d : efi_descriptor) : Prop := NumberOfPages d <> 0.
#[export] Instance nonempty_dec d : Decision (nonempty d).
Proof. unfold nonempty. apply _. Defined.

Definition bitmap_region (st : pmm_storage) : Z -> Prop := region (bitmap st) (8 * bitmap_words st).

(** The storage that reserve_pmm set up. *)
Record storage_ok (m : mem) (st : pmm_storage) : Prop := {
  so_slots : Z.of_nat (length (blocks (physical_memory st))) = block_capacity st;
  so_words : 0 <= bitmap_words st;
  so_bitmap : 0 < bitmap st;
  so_backed : backed m (bitmap st) (8 * bitmap_words st)
}.

Section map_ok.
Context (desc_at : mem -> Z -> efi_descriptor) (m : mem) (st : pmm_storage) (mm : efi_mmap_t).
Context (descs : list efi_descriptor).

(** The map buffer holds [descs], and the bitmap storage is elsewhere. *)
Record map_holds : Prop := {
  mh_size : 0 < descriptorSize mm;
  mh_start : 0 <= start mm;
  mh_end : end_ mm = start mm + descriptorSize mm * Z.of_nat (length descs);
  mh_end64 : end_ mm < 2 ^ 64;
  mh_desc k d m' : descs !! k = Some d -> mem_upd (bitmap_region st) m m' ->
    desc_at m' (start mm + descriptorSize mm * Z.of_nat k) = d
}.

(** What the firmware guarantees of the regions, and where the storage lies:
    page-aligned disjoint regions in the physical address space, conventional
    memory backed and not used by the storage (it is in a loader region). *)
Record regions_ok : Prop := {
  ro_pages d : d ∈ descs -> 0 <= NumberOfPages d;
  ro_geom d : d ∈ descs -> nonempty d -> block_geom (init_block d);
  ro_disjoint i j d e : i <> j ->
    filter nonempty descs !! i = Some d -> filter nonempty descs !! j = Some e ->
    block_end (init_block d) <= PhysicalStart e \/ block_end (init_block e) <= PhysicalStart d;
  ro_backed d : d ∈ descs -> Type_ d = EfiConventionalMemory ->
    backed m (PhysicalStart d) (NumberOfPages d * frame_size);
  ro_apart d x : d ∈ descs -> Type_ d = EfiConventionalMemory ->
    region (PhysicalStart d) (NumberOfPages d * frame_size) x -> ~ bitmap_region st x
}.

(** Everything built: the blocks of all the non-empty regions, or of the first
    [block_capacity] of them. *)
Definition all_built (m' : mem) (pm' : pmm) : Prop :=
  exists ds rest next_map words_left, filter nonempty descs = ds ++ rest /\
    (rest = [] \/ Z.of_nat (length ds) = block_capacity st) /\
    built st m m' pm' ds next_map words_left.

Context (S : storage_ok m st) (M : map_holds) (R : regions_ok).

Definition build_inv (s : build_state) : Prop :=
  let '(m', pm', next_map, words_left, offset) := s in
  exists k, (k <= length descs)%nat /\ offset = start mm + descriptorSize mm * Z.of_nat k /\
    built st m m' pm' (filter nonempty (take k descs)) next_map words_left.

Definition build_left (s : build_state) : Z :=
  let '(_, _, _, _, offset) := s in (end_ mm - offset) / descriptorSize mm.

Lemma build_left_at m' pm' next_map words_left k :
  build_left (m', pm', next_map, words_left, start mm + descriptorSize mm * Z.of_nat k) =
  Z.of_nat (length descs) - Z.of_nat k.
Proof using M.
  destruct M as [Hs _ He _ _]. unfold build_left. rewrite He.
  replace (_ - _) with ((Z.of_nat (length descs) - Z.of_nat k) * descriptorSize mm) by lia.
  apply Z.div_mul. lia.
Qed.

Lemma built_init :
  built st m m {| blocks := blocks (physical_memory st); block_count := 0 |} [] (bitmap st) (bitmap_words st).
Proof using S.
  destruct S as [H1 H2 H3 H4]. split; cbn [block_count blocks length total_words]; try done; try lia.
  - intros _. split; [lia | done].
Qed.

Lemma wp_build_step s :
  build_inv s -> (let '(_, _, _, _, offset) := s in offset < end_ mm) ->
  wp (build_step desc_at (block_capacity st) (descriptorSize mm) s)
    (loop_post (fun s' => build_inv s' /\ build_left s' <= build_left s - 1)
       (fun '(m', pm') => all_built m' pm')).
Proof using S M R.
  destruct s as [[[[m1 pm1] next_map] words_left] offset]. intros (k & Hk & -> & B) Hlt.
  pose proof M as [Hs Hst He He64 Hd]. rewrite He in Hlt, He64.
  assert (Hk' : (k < length descs)%nat) by nia.
  destruct (lookup_lt_is_Some_2 descs k Hk') as [d Hdk].
  pose proof (list_elem_of_lookup_2 _ _ _ Hdk) as Hin.
  pose proof (bt_upd _ _ _ _ _ _ _ B) as U. unfold build_step. rewrite (Hd k d m1 Hdk U).
  rewrite build_left_at.
  assert (Hnext : u64 (start mm + descriptorSize mm * Z.of_nat k + descriptorSize mm) =
    start mm + descriptorSize mm * Z.of_nat (Datatypes.S k)) by (rewrite u64_small; nia).
  rewrite Hnext. pose proof (take_S_r descs k d Hdk) as Htake.
  destruct (Z.eqb_spec (NumberOfPages d) 0) as [H0|H0].
  { wp_ret. rewrite build_left_at. split; [|lia]. exists (Datatypes.S k). split; [lia|].
    split; [done|]. rewrite Htake, filter_app, filter_cons_False by (unfold nonempty; lia).
    by rewrite filter_nil, app_nil_r. }
  destruct (Z.eqb_spec (block_count pm1) (block_capacity st)) as [Hfull|Hroom].
  { wp_ret. exists (filter nonempty (take k descs)), (filter nonempty (drop k descs)), next_map, words_left.
    rewrite <- filter_app, take_drop. split; [done|]. split; [|done]. right.
    by rewrite <- (bt_count _ _ _ _ _ _ _ B). }
  pose proof (bt_fits _ _ _ _ _ _ _ B) as Hfit. pose proof (bt_count _ _ _ _ _ _ _ B) as Hc.
  pose proof (ro_pages R d Hin) as Hp. pose proof (ro_geom R d Hin H0) as G.
  destruct (lookup_lt_is_Some_2 (blocks pm1) (Z.to_nat (block_count pm1))) as [slot Hslot].
  { pose proof (bt_slots _ _ _ _ _ _ _ B). lia. }
  wp_step. unfold get_block. rewrite Hslot. wp_ret. wp_step.
  pose proof (bt_next _ _ _ _ _ _ _ B) as Hnx. pose proof (bt_left _ _ _ _ _ _ _ B) as Hl.
  eapply wp_mono.
  { apply (wp_map_block desc_at d); [lia | done | destruct S; lia | |].
    - apply (backed_sub _ (bitmap st) (8 * bitmap_words st)); [|lia..].
      apply (mem_upd_backed _ _ _ _ _ U), S.
    - intros m' U'. apply (Hd k d m' Hdk). etrans; [exact U|].
      eapply mem_upd_mono; [exact U'|]. unfold bitmap_region, region. lia. }
  intros [[[m2 b] next2] left2] Hpost. wp_ret. rewrite build_left_at. split; [|lia].
  exists (Datatypes.S k). split; [lia|]. split; [done|].
  rewrite Htake, filter_app, filter_cons_True, filter_nil by done.
  apply (built_step st m m1 pm1 _ next_map words_left B d); [lia | apply S | lia | exact Hpost].
Qed.

Lemma wp_build_pmm fuel :
  Z.of_nat (length descs) <= Z.of_nat fuel ->
  wp (build_pmm desc_at fuel m st mm) (fun '(m', pm') => all_built m' pm').
Proof using S M R.
  intros Hfuel. unfold build_pmm. wp_step. eapply wp_mono.
  - apply (wp_while build_inv (fun '(m', pm') => all_built m' pm') build_left).
    + pose proof (build_left_at m (physical_memory st) 0 0 0) as Hb. simpl in Hb.
      rewrite Z.mul_0_r, Z.add_0_r in Hb. unfold build_left in *. lia.
    + exists 0%nat. split; [lia|]. split; [lia|]. simpl. apply built_init.
    + intros [[[[m1 pm1] next_map] words_left] offset] Hs. wp_ret.
      destruct (Z.ltb_spec offset (end_ mm)) as [Hlt|]; [|done]. split.
      * destruct Hs as (k & Hk & -> & _). rewrite build_left_at.
        destruct M as [? ? He _ _]. rewrite He in Hlt. nia.
      * by apply wp_build_step.
  - intros [[[[[m1 pm1] next_map] words_left] offset]|[m1 pm1]]; [|done].
    intros [(k & Hk & -> & B) [= Hge%Z.ltb_ge]]. wp_ret.
    exists (filter nonempty (take k descs)), [], next_map, words_left.
    rewrite app_nil_r. destruct M as [? ? He _ _]. rewrite He in Hge.
    assert (k = length descs) as -> by nia. rewrite firstn_all in *. split; [done|].
    split; [by left | done].
Qed.

(** ** The frame allocator over the built blocks *)

(** A frame of conventional memory other than frame 0. *)
Definition free_frame (d : efi_descriptor) (a : Z) : Prop :=
  Type_ d = EfiConventionalMemory /\ a <> 0 /\
  exists f, 0 <= f < NumberOfPages d /\ a = PhysicalStart d + f * frame_size.

Section built_inv.
Context (m' : mem) (pm' : pmm) (ds rest : list efi_descriptor) (next_map words_left : Z).
Context (Hds : filter nonempty descs = ds ++ rest).
Context (B : built st m m' pm' ds next_map words_left).

Lemma ds_in i d : ds !! i = Some d -> d ∈ descs /\ nonempty d.
Proof using Hds.
  intros Hi. apply list_elem_of_lookup_2 in Hi.
  assert (Hf : d ∈ filter nonempty descs) by (rewrite Hds; apply elem_of_app; by left).
  apply list_elem_of_filter in Hf as [? ?]. done.
Qed.

Lemma ds_filter i d : ds !! i = Some d -> filter nonempty descs !! i = Some d.
Proof using Hds. intros Hi. rewrite Hds. by apply lookup_app_l_Some. Qed.

Lemma active_built i b :
  active pm' i b -> exists d, ds !! Z.to_nat i = Some d /\ complete m' (bitmap st) next_map d b.
Proof using B.
  intros [Hi Hb]. rewrite (bt_count _ _ _ _ _ _ _ B) in Hi.
  destruct (lookup_lt_is_Some_2 ds (Z.to_nat i)) as [d Hd]; [lia|].
  destruct (bt_block _ _ _ _ _ _ _ B _ _ Hd) as (c & Hc & HC). exists d.
  split; [done|]. by assert (c = b) as -> by congruence.
Qed.

Lemma complete_geom i d b :
  ds !! i = Some d -> complete m' (bitmap st) next_map d b -> block_geom b.
Proof using Hds R.
  intros Hi [F _]. destruct (ds_in i d Hi) as [Hin Hne].
  destruct (ro_geom R d Hin Hne) as [G1 G2 G3 G4]. destruct F as [F1 F2 _ _].
  by split; rewrite ?F1, ?F2.
Qed.

Lemma complete_managed d b :
  complete m' (bitmap st) next_map d b -> pb_map b <> NULL ->
  bitmap_for m' d b /\ took b (bitmap st) next_map.
Proof using Type. by intros [_ [[? _]|?]]. Qed.

Lemma built_priv x : pmm_priv pm' x -> bitmap_region st x.
Proof using B.
  intros (i & b & A & Hm & Hx). destruct (active_built i b A) as (d & _ & HC).
  destruct (complete_managed d b HC Hm) as [_ [T1 T2]].
  pose proof (bt_next _ _ _ _ _ _ _ B). pose proof (bt_left _ _ _ _ _ _ _ B).
  unfold bitmap_region, map_region, region in *. lia.
Qed.

(** The free frames are those that start out free. *)
Lemma built_avail a :
  pmm_avail m' pm' a -> exists i d, ds !! i = Some d /\ free_frame d a.
Proof using B R Hds.
  intros (i & b & f & (A & Hm & Hf) & Hu & ->). destruct (active_built i b A) as (d & Hd & HC).
  destruct (complete_managed d b HC Hm) as [[Hr _ Hused] _]. destruct HC as [[F1 F2 _ _] _].
  rewrite F2 in Hf. rewrite Hused in Hu by done. apply negb_false_iff in Hu.
  unfold starts_free in Hu. apply andb_true_iff in Hu as [Ht%bool_decide_eq_true Hz].
  exists (Z.to_nat i), d. split; [done|]. split; [done|]. unfold frame_addr. rewrite F1.
  split; [|by exists f]. destruct (ds_in _ _ Hd) as [Hin Hne].
  pose proof (geom_address _ (ro_geom R d Hin Hne)) as Ha. cbn in Ha.
  apply negb_true_iff, andb_false_iff in Hz. unfold frame_size.
  destruct Hz as [Hz%Z.eqb_neq|Hz%Z.eqb_neq]; lia.
Qed.

Lemma free_frame_ok d a : d ∈ descs -> free_frame d a -> frame_ok m' (pmm_priv pm') a.
Proof using B R.
  intros Hin (Ht & Hne & f & Hf & ->).
  destruct (ro_geom R d Hin) as [G1 G2 G3 G4]; [unfold nonempty; lia|]. cbn in G1, G2, G3, G4.
  split; unfold frame_size in *; [lia | zlia | lia | |].
  - apply (mem_upd_backed _ _ _ _ _ (bt_upd _ _ _ _ _ _ _ B)).
    apply (backed_sub _ _ _ _ _ (ro_backed R d Hin Ht)); unfold frame_size; lia.
  - intros x Hx Hp. apply built_priv in Hp. apply (ro_apart R d x Hin Ht); [|done].
    unfold region, frame_size in *. lia.
Qed.

Lemma built_pmm_inv : pmm_inv m' pm'.
Proof using B R Hds.
  pose proof B as [Hc Hs Hfit Hnx Hl Hup Hbl Hap Hall]. split.
  - rewrite Hc. split; lia.
  - intros i b A. destruct (active_built i b A) as (d & Hd & HC). by apply (complete_geom _ d b Hd).
  - intros i b A Hm. destruct (active_built i b A) as (d & _ & _ & [[_ ?]|[[_ Hmg _] _]]); [done|].
    by destruct (mng_map _ _ Hmg).
  - intros i b A Hm. destruct (active_built i b A) as (d & _ & HC).
    by destruct (complete_managed d b HC Hm) as [[_ ? _] _].
  - intros i j b c Hij A1 A2. destruct (active_built i b A1) as (d & Hd & F & _).
    destruct (active_built j c A2) as (e & He & F' & _).
    apply ds_filter in Hd, He. destruct A1 as [Hi1 _], A2 as [Hj1 _].
    pose proof (ro_disjoint R (Z.to_nat i) (Z.to_nat j) d e ltac:(lia) Hd He) as Hdis. unfold block_end in *.
    destruct F as [-> -> _ _], F' as [-> -> _ _]. done.
  - intros i j b c x Hij A1 A2 Hb Hc'. pose proof A1 as [Hi1 Hi2]. pose proof A2 as [Hj1 Hj2].
    unfold map_region, region. destruct (decide (i < j)).
    + pose proof (Hap (Z.to_nat i) (Z.to_nat j) b c ltac:(lia) Hi2 Hj2 Hb Hc'). lia.
    + pose proof (Hap (Z.to_nat j) (Z.to_nat i) c b ltac:(lia) Hj2 Hi2 Hc' Hb). lia.
  - intros a Ha. destruct (built_avail a Ha) as (i & d & Hd & Hfr).
    apply (free_frame_ok d); [|done]. by apply (ds_in i).
Qed.

(** With enough storage every such frame is free. *)
Lemma built_free i d a :
  total_words ds <= bitmap_words st -> ds !! i = Some d -> free_frame d a -> pmm_avail m' pm' a.
Proof using B.
  intros Htot Hi (Ht & Hne & f & Hf & ->). pose proof B as [Hc _ _ _ _ _ Hbl _ Hall].
  destruct (Hbl i d Hi) as (b & Hb & HC). destruct (Hall Htot) as [_ Hram].
  assert (Hm : pb_map b <> NULL) by (apply (Hram i d b); [done | done | by rewrite Ht]).
  destruct (complete_managed d b HC Hm) as [[_ _ Hu] _]. destruct HC as [[F1 F2 _ _] _].
  exists (Z.of_nat i), b, f. pose proof (lookup_lt_Some _ _ _ Hi).
  unfold frame_addr, frame_of, active. rewrite Hc, Nat2Z.id, F1, F2.
  split; [split; [split; [lia | done] | done]|]. split; [|done].
  rewrite Hu by done. unfold starts_free. rewrite Ht, bool_decide_eq_true_2 by done.
  unfold frame_size in *. destruct (Z.eqb_spec (PhysicalStart d) 0), (Z.eqb_spec f 0); done || lia.
Qed.
End built_inv.
End map_ok.
