(* ===== verification/EfiDump.v ===== *)
(** The dumps of efi-stage/efi_pmm.c: the calls of Print they make, each a format and its
    arguments. *)
From stdpp Require Import base list strings.
From Stdlib Require Import ZArith Lia Ascii.
From S2P Require Import Prelude Memory Physical PhysicalSpec.
Local Open Scope Z_scope.

Definition line : Type := string * list Z.

(** The format ends with a newline. *)
Definition ln (s : string) : string := (s ++ String (ascii_of_nat 10) EmptyString)%string.

(** [at_pm] is the address of the manager, [block_at] that of each block. *)
Definition dump_pmm (at_pm : Z) (block_at : Z -> Z) (pm : pmm) : res (list line) :=
  after
    (for_range 0 (block_count pm)
       (fun i '(lines, total_frames) =>
          b ← get_block pm i;
          let total_frames := u64 (total_frames + pb_frames_total b) in
          Ok (inl (lines ++ [(ln "Block %d: Address - 0x%llx, Phys. address - 0x%llx, total frames - %d, free frames - %d",
            [i; block_at i; pb_address b; pb_frames_total b; pb_frames_free b])], total_frames)))
       ([(ln "Memory map at 0x%llx has %d blocks.", [at_pm; block_count pm])], 0))
    (fun '(lines, total_frames) => Ok (lines ++ [(ln "Total frames: %d", [total_frames])])).

(** The line about the block counts is printed without its two values. *)
Definition compare_step (a b : pmm) (i : Z) (lines : list line) : res (list line + list line) :=
  a_block ← get_block a i;
  b_block ← get_block b i;
  let lines := if negb (pb_frames_total a_block =? pb_frames_total b_block)
    then lines ++ [(ln "Block %d frames_total - a: %d, b: %d", [i; pb_frames_total a_block; pb_frames_total b_block])] else lines in
  let lines := if negb (pb_frames_free a_block =? pb_frames_free b_block)
    then lines ++ [(ln "Block %d frames_free - a: %d, b: %d", [i; pb_frames_free a_block; pb_frames_free b_block])] else lines in
  Ok (inl lines).

Definition compare_pmm (at_a at_b : Z) (a b : pmm) : res (list line) :=
  let lines := [(ln "Comparing physical memory maps at a:0x%llx and b:0x%llx", [at_a; at_b])] in
  let lines := if negb (block_count a =? block_count b) then lines ++ [(ln "Block count - a: %d, b: %d", [])] else lines in
  let block_count := if block_count b <? block_count a then block_count b else block_count a in
  after (for_range 0 block_count (compare_step a b) lines) (fun lines => Ok lines).

(** ** compare_pmm *)

(** Block [i] has the same counts in both. *)
Definition same_counts (a b : pmm) (i : Z) : Prop :=
  forall x y, get_block a i = Ok x -> get_block b i = Ok y ->
    pb_frames_total x = pb_frames_total y /\ pb_frames_free x = pb_frames_free y.

Lemma compare_step_spec a b i lines :
  0 <= i < Z.of_nat (length (blocks a)) -> i < Z.of_nat (length (blocks b)) ->
  exists new, compare_step a b i lines = Ok (inl (lines ++ new)) /\ (new = [] <-> same_counts a b i).
Proof.
  intros Hi Hj. unfold compare_step, same_counts, get_block.
  destruct (lookup_lt_is_Some_2 (blocks a) (Z.to_nat i)) as [x ->]; [lia|].
  destruct (lookup_lt_is_Some_2 (blocks b) (Z.to_nat i)) as [y ->]; [lia|]. cbn [of_option mbind res_bind].
  destruct (Z.eqb_spec (pb_frames_total x) (pb_frames_total y)) as [Et|Et];
    destruct (Z.eqb_spec (pb_frames_free x) (pb_frames_free y)) as [Ef|Ef]; cbn [negb];
    rewrite <- ?app_assoc; (eexists; split; [first [reflexivity | by rewrite app_nil_r]|]); split; try done.
  - by intros _ ? ? [= <-] [= <-].
  - intros H. by destruct (H x y eq_refl eq_refl).
  - intros H. by destruct (H x y eq_refl eq_refl).
  - intros H. by destruct (H x y eq_refl eq_refl).
Qed.

Lemma wp_compare_pmm at_a at_b a b :
  0 <= block_count a <= Z.of_nat (length (blocks a)) -> 0 <= block_count b <= Z.of_nat (length (blocks b)) ->
  wp (compare_pmm at_a at_b a b) (fun lines =>
    (lines = [(ln "Comparing physical memory maps at a:0x%llx and b:0x%llx", [at_a; at_b])] <->
     block_count a = block_count b /\ forall i, 0 <= i < block_count a -> same_counts a b i)).
Proof.
  intros Ha Hb. unfold compare_pmm. set (first := (ln "Comparing physical memory maps at a:0x%llx and b:0x%llx", [at_a; at_b])).
  set (n := if _ <? _ then _ else _).
  assert (Hn : n = Z.min (block_count a) (block_count b))
    by (unfold n; destruct (Z.ltb_spec (block_count b) (block_count a)); lia).
  set (l0 := if negb _ then _ else _).
  assert (Hl0 : exists new, l0 = [first] ++ new /\ (new = [] <-> block_count a = block_count b)).
  { unfold l0. destruct (Z.eqb_spec (block_count a) (block_count b)); cbn [negb]; eexists; (split; [reflexivity|]); done. }
  destruct Hl0 as (new0 & -> & H0). wp_step. eapply wp_mono.
  - apply (wp_for_range (fun i lines => exists new, lines = [first] ++ new0 ++ new /\
      (new = [] <-> forall j, 0 <= j < i -> same_counts a b j)) (fun _ => False)); [lia | |].
    + exists []. rewrite app_nil_r. split; [done|]. split; [lia | done].
    + intros i lines Hi (new & -> & Hnew).
      destruct (compare_step_spec a b i ([first] ++ new0 ++ new)) as (new' & -> & Hnew'); [lia | lia |].
      wp_ret. exists (new ++ new'). split; [by rewrite !app_assoc|]. rewrite app_nil, Hnew, Hnew'. split.
      * intros [H1 H2] j Hj. destruct (decide (j = i)) as [->|]; [done | apply H1; lia].
      * intros H. split; [intros j Hj; apply H; lia | apply H; lia].
  - intros [lines|]; [|done]. intros (new & -> & Hnew). wp_ret. rewrite Hn in Hnew. split.
    + intros Heq. assert (Hnil : new0 ++ new = []) by (by injection Heq).
      apply app_nil in Hnil as [E0 E1]. apply H0 in E0. split; [done|].
      intros i Hi. apply Hnew; [done | lia].
    + intros [E H]. apply H0 in E as E0. rewrite E0. rewrite (proj2 Hnew); [done|].
      intros j Hj. apply H. lia.
Qed.
