(* ===== verification/Ssfn.v ===== *)
(** The console renderer of include/ssfn.h, as drivers/ssfn_fb.c compiles it: ssfn_putc
    for 32-bit pixels, and the part of the font format it reads. *)
From stdpp Require Import base list.
From Stdlib Require Import ZArith Lia.
From S2P Require Import Prelude Memory.
Local Open Scope Z_scope.

(** Two's complement reading of the low 16 bits. *)
Definition s16 (x : Z) : Z := (x + 2 ^ 15) mod 2 ^ 16 - 2 ^ 15.

Definition SSFN_OK : Z := 0.
Definition SSFN_ERR_INVINP : Z := -4.
Definition SSFN_ERR_NOGLYPH : Z := -7.

(** The destination: w, h, x and y are signed 16-bit fields, p is an unsigned one. *)
Record ssfn_buf_t := {
  dst_ptr : Z;
  dst_w : Z;
  dst_h : Z;
  dst_p : Z;
  dst_x : Z;
  dst_y : Z;
  dst_fg : Z;
  dst_bg : Z
}.

(** The globals ssfn_src and ssfn_dst. *)
Record ssfn_t := { ssfn_src : Z; ssfn_dst : ssfn_buf_t }.

(** Moving the cursor. *)
Definition move_to (d : ssfn_buf_t) (x y : Z) : ssfn_buf_t :=
  {| dst_ptr := dst_ptr d; dst_w := dst_w d; dst_h := dst_h d; dst_p := dst_p d;
     dst_x := x; dst_y := y; dst_fg := dst_fg d; dst_bg := dst_bg d |}.

(** Fields of the packed font header. *)
Definition font_height_at (src : Z) : Z := src + 11.
Definition font_characters_offs_at (src : Z) : Z := src + 16.

(** The magic bytes, compared up to the first that differs. *)
Fixpoint has_magic (m : mem) (a : Z) (magic : list Z) : res bool :=
  match magic with
  | [] => Ok true
  | c :: magic => b ← load8 m a; if b =? c then has_magic m (a + 1) magic else Ok false
  end.

Definition SSFN_MAGIC : list Z := [83; 70; 78; 50].

(** A flag of the first byte of a character or table entry. *)
Definition flag (c mask : Z) : bool := negb (Z.land c mask =? 0).

Section putc.
Context (fuel : nat).

(** The walk over the character table, from code point [i] on: an entry skips code
    points, or is the glyph of [i]. *)
Definition glyph_step (m : mem) (unicode : Z) (st : Z * Z) : res (Z * Z + option Z) :=
  let '(ptr, i) := st in
  c ← load8 m ptr;
  if c =? 0xFF then Ok (inl (ptr + 1, i + 65535 + 1))
  else if Z.land c 0xC0 =? 0xC0 then
    c1 ← load8 m (ptr + 1);
    Ok (inl (ptr + 2, i + Z.lor (Z.shiftl (Z.land c 0x3F) 8) c1 + 1))
  else if Z.land c 0xC0 =? 0x80 then Ok (inl (ptr + 1, i + Z.land c 0x3F + 1))
  else if i =? unicode then Ok (inr (Some ptr))
  else
    c1 ← load8 m (ptr + 1);
    Ok (inl (ptr + (6 + c1 * (if flag c 0x40 then 6 else 5)), i + 1)).

Definition find_glyph (m : mem) (ptr unicode : Z) : res (option Z) :=
  after (while_fuel fuel (fun '(_, i) => Ok (i <? 0x110000)) (glyph_step m unicode) (ptr, 0))
    (fun _ => Ok None).

Section draw.
Context (src : Z) (d : ssfn_buf_t) (chr : Z).

(** Pixels per line, and the width for clipping. *)
Definition stride : Z := dst_p d / 4.
Definition clip_w : Z := Z.abs (dst_w d).

Definition row_in (y : Z) : bool := (dst_h d =? 0) || (dst_y d + y <? dst_h d).
Definition col_in (j : Z) : bool := (clip_w =? 0) || (dst_x d + j <? clip_w).

(** for(p = o, j = 0; j < chr[2] && ...; j++, p++) *p = ssfn_dst.bg *)
Definition fill_row (m : mem) (o : Z) : res mem :=
  after
    (while_fuel fuel
       (fun '(m, j) => c ← load8 m (chr + 2); Ok ((j <? c) && col_in j))
       (fun '(m, j) => m ← store32 m (o + 4 * j) (dst_bg d); Ok (inl (m, j + 1))) (m, 0))
    (fun '(m, _) => Ok m).

(** for(; y < *[last] && ...; y++, o += s) fill_row *)
Definition fill_rows (last : Z) (m : mem) (y o : Z) : res (mem * Z * Z) :=
  after
    (while_fuel fuel
       (fun '(m, y, _) => c ← load8 m last; Ok ((y <? c) && row_in y))
       (fun '(m, y, o) => m ← fill_row m o; Ok (inl (m, y + 1, o + 4 * stride))) (m, y, o))
    (fun s => Ok s).

(** One pixel of a bitmap row; [bit] is the mask of the next bit at [frg]. *)
Definition draw_pixel (o l : Z) (st : mem * Z * Z) : res (mem * Z * Z) :=
  let '(m, frg, bit) := st in
  let '(frg, bit) := if 0x80 <? bit then (frg + 1, 1) else (frg, bit) in
  m ← (if (0 <=? dst_x d + l) && col_in l then
         c ← load8 m frg;
         if negb (Z.land c bit =? 0) then store32 m (o + 4 * l) (dst_fg d)
         else if negb (dst_bg d =? 0) then store32 m (o + 4 * l) (dst_bg d)
         else Ok m
       else Ok m);
  Ok (m, frg, Z.shiftl bit 1).

Definition draw_row (k o : Z) (st : mem * Z * Z) : res (mem * Z * Z) :=
  after (for_range 0 k (fun l st => st ← draw_pixel o l st; Ok (inl st)) st) (fun st => Ok st).

(** for(m = 1; j && ...; j--, y++, o += s) draw_row *)
Definition draw_bitmap (k j : Z) (m : mem) (frg y o : Z) : res (mem * Z * Z) :=
  after
    (while_fuel fuel
       (fun '(_, j, y, _) => Ok (negb (j =? 0) && row_in y))
       (fun '(st, j, y, o) => st ← draw_row k o st; Ok (inl (st, j - 1, y + 1, o + 4 * stride)))
       (m, frg, 1, j, y, o))
    (fun '(m, _, _, _, y, o) => Ok (m, y, o)).

(** Where the fragment described at [ptr] is. *)
Definition fragment_at (m : mem) (ptr : Z) : res Z :=
  c0 ← load8 m chr;
  p2 ← load8 m (ptr + 2);
  p3 ← load8 m (ptr + 3);
  p4 ← load8 m (ptr + 4);
  let low := Z.lor (Z.shiftl p4 16) (Z.lor (Z.shiftl p3 8) p2) in
  if flag c0 0x40 then
    p5 ← load8 m (ptr + 5);
    Ok (src + s32 (Z.lor (Z.shiftl p5 24) low))
  else Ok (src + low).

(** The body of the loop over the fragments. *)
Definition draw_fragment (ptr : Z) (st : mem * Z * Z) : res (mem * Z * Z) :=
  let '(m, y, o) := st in
  p0 ← load8 m ptr;
  p1 ← load8 m (ptr + 1);
  if (p0 =? 255) && (p1 =? 255) then Ok st else
  frg ← fragment_at m ptr;
  f0 ← load8 m frg;
  if negb (Z.land f0 0xE0 =? 0x80) then Ok st else
  '(m, y, o) ← (if negb (dst_bg d =? 0) then fill_rows (ptr + 1) m y o
                else Ok (m, p1, o + 4 * ((p1 - y) * stride)));
  f0 ← load8 m frg;
  f1 ← load8 m (frg + 1);
  draw_bitmap (Z.shiftl (Z.land f0 0x1F + 1) 3) (f1 + 1) m (frg + 2) y o.

Definition draw_fragments (st : mem * Z * Z) : res (mem * Z * Z) :=
  after
    (while_fuel fuel
       (fun '(m, _, _, i, _) => n ← load8 m (chr + 1); Ok (i <? n))
       (fun '(st, i, ptr) =>
          '(m, y, o) ← draw_fragment ptr st;
          c0 ← load8 m chr;
          Ok (inl (m, y, o, i + 1, ptr + (if flag c0 0x40 then 6 else 5))))
       (st, 0, chr + 6))
    (fun '(st, _, _) => Ok st).

(** The glyph, drawn at the cursor, and how far the cursor moves. *)
Definition draw_glyph (m : mem) : res (mem * ssfn_buf_t) :=
  let o := dst_ptr d + dst_y d * dst_p d + 4 * dst_x d in
  '(m, y, o) ← draw_fragments (m, 0, o);
  '(m, _, _) ← (if negb (dst_bg d =? 0) then fill_rows (chr + 3) m y o else Ok (m, y, o));
  c4 ← load8 m (chr + 4);
  c5 ← load8 m (chr + 5);
  Ok (m, move_to d (s16 (dst_x d + c4)) (s16 (dst_y d + c5))).
End draw.

(** The globals are valid: a font, a destination and a pitch. *)
Definition ssfn_valid (m : mem) (g : ssfn_t) : res bool :=
  if ssfn_src g =? NULL then Ok false else
  b ← has_magic m (ssfn_src g) SSFN_MAGIC;
  Ok (b && negb (dst_ptr (ssfn_dst g) =? NULL) && negb (dst_p (ssfn_dst g) =? 0)).

Definition ssfn_putc (s : mem * ssfn_t) (unicode : Z) : res (Z * (mem * ssfn_t)) :=
  let '(m, g) := s in
  let d := ssfn_dst g in
  valid ← ssfn_valid m g;
  if negb valid then Ok (SSFN_ERR_INVINP, s)
  else if (unicode =? 13) || (unicode =? 10) then
    y ← (if unicode =? 10 then h ← load8 m (font_height_at (ssfn_src g)); Ok (s16 (dst_y d + h))
         else Ok (dst_y d));
    Ok (SSFN_OK, (m, {| ssfn_src := ssfn_src g; ssfn_dst := move_to d 0 y |}))
  else
    offs ← load32 m (font_characters_offs_at (ssfn_src g));
    chr ← find_glyph m (ssfn_src g + offs) unicode;
    match chr with
    | None => Ok (SSFN_ERR_NOGLYPH, s)
    | Some chr =>
        '(m, d) ← draw_glyph (ssfn_src g) d chr m;
        Ok (SSFN_OK, (m, {| ssfn_src := ssfn_src g; ssfn_dst := d |}))
    end.
End putc.
