(* ===== verification/Utf8.v ===== *)
(** The part of include/ssfn.h that both its renderers share: the UTF-8 decoder ssfn_utf8
    and the texts of the error codes; and the encoding that the decoder reads. *)
From stdpp Require Import gmap list strings.
From Stdlib Require Import ZArith Lia.
From S2P Require Import Prelude Memory LibString.
Local Open Scope Z_scope.

(** ** Error texts *)
Definition ssfn_errstr : list string :=
  [""; "Memory allocation error"; "Bad file format"; "No font face found"; "Invalid input value";
   "Invalid style"; "Invalid size"; "Glyph not found"]%string.

Definition ssfn_error (err : Z) : option string :=
  if (err <? 0) && (-7 <=? err) then ssfn_errstr !! Z.to_nat (- err) else Some "Unknown error"%string.

(** ** The decoder
    [s] is the address of the string pointer; a char is signed. *)
Definition char_at (m : mem) (a : Z) : res Z := c ← load8 m a; Ok (s8 c).

(** *s += n *)
Definition advance_ptr (m : mem) (s n : Z) : res mem := p ← load64 m s; store64 m s (u64 (p + n)).

Definition ssfn_utf8 (m : mem) (s : Z) : res (Z * mem) :=
  p ← load64 m s;
  b ← char_at m p;
  let c := u32 b in
  '(c, m) ←
    (if negb (Z.land b 128 =? 0) then
       if Z.land b 32 =? 0 then
         b1 ← char_at m (p + 1);
         m ← advance_ptr m s 1;
         Ok (Z.lor (Z.shiftl (Z.land b 0x1F) 6) (Z.land b1 0x3F), m)
       else if Z.land b 16 =? 0 then
         b1 ← char_at m (p + 1);
         b2 ← char_at m (p + 2);
         m ← advance_ptr m s 2;
         Ok (Z.lor (Z.lor (Z.shiftl (Z.land b 0xF) 12) (Z.shiftl (Z.land b1 0x3F) 6)) (Z.land b2 0x3F), m)
       else if Z.land b 8 =? 0 then
         b1 ← char_at m (p + 1);
         b2 ← char_at m (p + 2);
         b3 ← char_at m (p + 3);
         m ← advance_ptr m s 3;
         Ok (Z.lor (Z.lor (Z.lor (Z.shiftl (Z.land b 0x7) 18) (Z.shiftl (Z.land b1 0x3F) 12))
               (Z.shiftl (Z.land b2 0x3F) 6)) (Z.land b3 0x3F), m)
       else Ok (0, m)
     else Ok (c, m));
  m ← advance_ptr m s 1;
  Ok (c, m).

(** ** The encoding *)
Definition trail (u k : Z) : Z := 0x80 + u / 2 ^ k mod 64.

Definition encode (u : Z) : list Z :=
  if u <? 2 ^ 7 then [u]
  else if u <? 2 ^ 11 then [0xC0 + u / 2 ^ 6; trail u 0]
  else if u <? 2 ^ 16 then [0xE0 + u / 2 ^ 12; trail u 6; trail u 0]
  else [0xF0 + u / 2 ^ 18; trail u 12; trail u 6; trail u 0].

(** A code point: the encoding has room for 21 bits. *)
Definition code_point (u : Z) : Prop := 0 < u < 2 ^ 21.

Lemma encode_bytes u : code_point u -> Forall (fun c => 0 < c < 2 ^ 8) (encode u).
Proof.
  unfold code_point, encode, trail. intros Hu.
  destruct (Z.ltb_spec u (2 ^ 7)); [|destruct (Z.ltb_spec u (2 ^ 11)); [|destruct (Z.ltb_spec u (2 ^ 16))]];
    repeat constructor; zlia.
Qed.

(** The bytes of a list at an address, and the characters the decoder sees of them. *)
Definition bytes_lie (m : mem) (a : Z) (l : list Z) : Prop :=
  backed m a (Z.of_nat (length l)) /\ forall (i : nat) c, l !! i = Some c -> peek8 m (a + Z.of_nat i) = c.

Lemma bytes_lie_upd P m m' a l :
  mem_upd P m m' -> (forall x, region a (Z.of_nat (length l)) x -> ~ P x) -> bytes_lie m a l -> bytes_lie m' a l.
Proof.
  intros U HP [B H]. split; [by apply (mem_upd_backed _ _ _ _ _ U)|]. intros i c Hi. rewrite <- (H i c Hi).
  apply (mem_upd_peekn _ _ _ _ _ U). intros x Hx. apply HP. pose proof (lookup_lt_Some _ _ _ Hi).
  unfold region in *. simpl in Hx. lia.
Qed.

Lemma wp_char_at m a l (i : nat) c Q :
  bytes_lie m a l -> l !! i = Some c -> Q (s8 c) -> wp (char_at m (a + Z.of_nat i)) Q.
Proof.
  intros [B P] Hc HQ. unfold char_at. wp_step. apply (wp_loadn 1).
  - apply (backed_sub _ _ _ _ _ B); [lia|]. pose proof (lookup_lt_Some _ _ _ Hc). simpl. lia.
  - wp_ret. by rewrite (P i c Hc).
Qed.

(** The bits of a signed character are those of its byte. *)
Lemma s8_land c k : 0 <= k < 2 ^ 8 -> Z.land (s8 c) k = Z.land c k.
Proof.
  intros Hk. apply Z.bits_inj'. intros j Hj. rewrite !Z.land_spec.
  destruct (Z.lt_ge_cases j 8).
  - f_equal. rewrite <- (Z.mod_pow2_bits_low (s8 c) 8), <- (Z.mod_pow2_bits_low c 8) by lia. f_equal.
    unfold s8. zlia.
  - rewrite (testbit_high k 8) by lia. by rewrite !andb_false_r.
Qed.

(** A single bit, and the lowest bits. *)
Lemma char_bit c k mask :
  mask = 2 ^ k -> 0 <= k < 8 -> (Z.land (s8 c) mask =? 0) = negb (c / 2 ^ k mod 2 =? 1).
Proof.
  intros -> Hk. rewrite s8_land; [by rewrite <- Z.testbit_eqb, <- land_bit, Z.shiftl_1_l by lia|].
  pose proof (Z.pow_lt_mono_r 2 k 8). lia.
Qed.

Lemma char_low c n mask : mask = Z.ones n -> 0 <= n <= 8 -> Z.land (s8 c) mask = c mod 2 ^ n.
Proof.
  intros -> Hn. rewrite s8_land, Z.land_ones by lia || (rewrite Z.ones_equiv; pose proof (Z.pow_le_mono_r 2 n 8); pose proof (Z.pow_pos_nonneg 2 n); lia).
  done.
Qed.

Lemma lor_shift a b j : 0 <= j -> 0 <= b < 2 ^ j -> Z.lor (Z.shiftl a j) b = a * 2 ^ j + b.
Proof.
  intros Hj Hb. rewrite Z.shiftl_mul_pow2 by done. pose proof (lor_fields a j b 0) as E.
  rewrite !Z.mul_1_r, Z.sub_0_r in E. apply E; lia.
Qed.

(** The tests on the first byte of an encoding of two, three and four bytes. *)
Lemma lead_bits c :
  (Z.land (s8 c) 128 =? 0) = negb (c / 2 ^ 7 mod 2 =? 1) /\ (Z.land (s8 c) 32 =? 0) = negb (c / 2 ^ 5 mod 2 =? 1) /\
  (Z.land (s8 c) 16 =? 0) = negb (c / 2 ^ 4 mod 2 =? 1) /\ (Z.land (s8 c) 8 =? 0) = negb (c / 2 ^ 3 mod 2 =? 1).
Proof.
  split; [by apply char_bit|]. split; [by apply char_bit|]. split; by apply char_bit.
Qed.

Lemma lead2 c : 0xC0 <= c < 0xE0 -> (Z.land (s8 c) 128 =? 0) = false /\ (Z.land (s8 c) 32 =? 0) = true.
Proof.
  intros Hc. destruct (lead_bits c) as (-> & -> & _). replace (c / 2 ^ 7 mod 2) with 1 by zlia.
  by replace (c / 2 ^ 5 mod 2) with 0 by zlia.
Qed.

Lemma lead3 c : 0xE0 <= c < 0xF0 ->
  (Z.land (s8 c) 128 =? 0) = false /\ (Z.land (s8 c) 32 =? 0) = false /\ (Z.land (s8 c) 16 =? 0) = true.
Proof.
  intros Hc. destruct (lead_bits c) as (-> & -> & -> & _). replace (c / 2 ^ 7 mod 2) with 1 by zlia.
  replace (c / 2 ^ 5 mod 2) with 1 by zlia. by replace (c / 2 ^ 4 mod 2) with 0 by zlia.
Qed.

Lemma lead4 c : 0xF0 <= c < 0xF8 ->
  (Z.land (s8 c) 128 =? 0) = false /\ (Z.land (s8 c) 32 =? 0) = false /\ (Z.land (s8 c) 16 =? 0) = false /\
  (Z.land (s8 c) 8 =? 0) = true.
Proof.
  intros Hc. destruct (lead_bits c) as (-> & -> & -> & ->). replace (c / 2 ^ 7 mod 2) with 1 by zlia.
  replace (c / 2 ^ 5 mod 2) with 1 by zlia. replace (c / 2 ^ 4 mod 2) with 1 by zlia.
  by replace (c / 2 ^ 3 mod 2) with 0 by zlia.
Qed.

(** The payloads put together. *)
Lemma joined2 u : 0 <= u < 2 ^ 11 ->
  Z.lor (Z.shiftl (Z.land (s8 (0xC0 + u / 2 ^ 6)) 0x1F) 6) (Z.land (s8 (trail u 0)) 0x3F) = u.
Proof.
  intros Hu. rewrite (char_low _ 5 0x1F eq_refl), (char_low _ 6 0x3F eq_refl), lor_shift by (lia || zlia).
  unfold trail. zlia.
Qed.

Lemma joined3 u : 0 <= u < 2 ^ 16 ->
  Z.lor (Z.lor (Z.shiftl (Z.land (s8 (0xE0 + u / 2 ^ 12)) 0xF) 12) (Z.shiftl (Z.land (s8 (trail u 6)) 0x3F) 6))
    (Z.land (s8 (trail u 0)) 0x3F) = u.
Proof.
  intros Hu. rewrite (char_low _ 4 0xF eq_refl), !(char_low _ 6 0x3F eq_refl), <- Z.lor_assoc by lia.
  rewrite (lor_shift _ _ 6), (lor_shift _ _ 12) by (lia || zlia). unfold trail. zlia.
Qed.

Lemma joined4 u : 0 <= u < 2 ^ 21 ->
  Z.lor (Z.lor (Z.lor (Z.shiftl (Z.land (s8 (0xF0 + u / 2 ^ 18)) 0x7) 18) (Z.shiftl (Z.land (s8 (trail u 12)) 0x3F) 12))
    (Z.shiftl (Z.land (s8 (trail u 6)) 0x3F) 6)) (Z.land (s8 (trail u 0)) 0x3F) = u.
Proof.
  intros Hu. rewrite (char_low _ 3 0x7 eq_refl), !(char_low _ 6 0x3F eq_refl), <- !Z.lor_assoc by lia.
  rewrite (lor_shift _ _ 6), (lor_shift _ _ 12), (lor_shift _ _ 18) by (lia || zlia). unfold trail. zlia.
Qed.

(** Moving the pointer on, twice at most. *)
Lemma wp_advance_ptr m s n Q :
  backed m s 8 -> Q (poke64 m s (peek64 m s + n)) -> wp (advance_ptr m s n) Q.
Proof.
  intros B HQ. unfold advance_ptr. wp_step. apply (wp_loadn 8); [done|]. apply (wp_storen 8); [done|].
  by replace (poke64 m s (u64 (peek64 m s + n))) with (poke64 m s (peek64 m s + n)) by (symmetry; apply (poken_mod 8)).
Qed.

(** One call reads one encoding and moves the pointer past it. *)
Definition utf8_reads (m : mem) (s p u len : Z) (r : Z * mem) : Prop :=
  r.1 = u /\ r.2 = poke64 m s (p + len).

Section call.
Context (m : mem) (s p : Z) (Bs : backed m s 8) (Hp : peek64 m s = p).

(** The end of the call, after [n] bytes. *)
Lemma wp_utf8_end c u n m' :
  c = u -> m' = poke64 m s (p + n) \/ (n = 0 /\ m' = m) -> 0 <= p + n < 2 ^ 64 ->
  wp (m ← advance_ptr m' s 1; Ok (c, m)) (utf8_reads m s p u (n + 1)).
Proof using Bs Hp.
  intros -> Hm Hn. wp_step. destruct Hm as [->|[-> ->]]; apply wp_advance_ptr.
  - by apply backed_poken.
  - wp_ret. split; [done|]. cbn [snd]. rewrite peek64_poke64_eq, u64_small, poken_poken by done. f_equal. lia.
  - done.
  - wp_ret. split; [done|]. cbn [snd]. by rewrite Hp, Z.add_0_l.
Qed.
End call.

Lemma wp_ssfn_utf8 m s u :
  backed m s 8 -> code_point u -> bytes_lie m (peek64 m s) (encode u) ->
  peek64 m s + Z.of_nat (length (encode u)) <= 2 ^ 64 ->
  wp (ssfn_utf8 m s) (utf8_reads m s (peek64 m s) u (Z.of_nat (length (encode u)))).
Proof.
  intros Bs Hu HL Hend. set (p := peek64 m s) in *. assert (Hp : peek64 m s = p) by done.
  pose proof (peek64_range m s) as Hpr. rewrite Hp in Hpr. clearbody p.
  unfold ssfn_utf8. wp_step. apply (wp_loadn 8); [done|]. rewrite Hp.
  assert (HC : forall (i : nat) c Q, encode u !! i = Some c -> Q (s8 c) -> wp (char_at m (p + Z.of_nat i)) Q)
    by (intros i c Q; by apply (wp_char_at m p (encode u))).
  clear HL. unfold code_point in Hu. wp_step. pose proof (HC 0%nat) as HC0. rewrite Z.add_0_r in HC0.
  pose proof (HC 1%nat) as HC1. pose proof (HC 2%nat) as HC2. pose proof (HC 3%nat) as HC3. clear HC.
  revert HC0 HC1 HC2 HC3 Hend. unfold encode. destruct (Z.ltb_spec u (2 ^ 7)) as [H7|H7].
  { intros HC0 _ _ _ Hend. apply (HC0 u); [done|]. rewrite (char_bit u 7 128 eq_refl) by lia.
    replace (u / 2 ^ 7 mod 2) with 0 by zlia. cbn [Z.eqb negb mbind res_bind].
    apply (wp_utf8_end m s p Bs Hp _ _ 0 m); [|by right | cbn in Hend; lia]. unfold u32, s8. zlia. }
  destruct (Z.ltb_spec u (2 ^ 11)) as [H11|H11]; [|destruct (Z.ltb_spec u (2 ^ 16)) as [H16|H16]];
    intros HC0 HC1 HC2 HC3 Hend; (eapply HC0; [done|]).
  - destruct (lead2 (0xC0 + u / 2 ^ 6)) as (-> & ->); [zlia|]. cbn [negb]. wp_step. wp_step.
    eapply HC1; [done|]. wp_step. apply wp_advance_ptr; [done|]. wp_ret. rewrite Hp.
    apply (wp_utf8_end m s p Bs Hp _ _ 1); [apply joined2; lia | by left | cbn in Hend; lia].
  - destruct (lead3 (0xE0 + u / 2 ^ 12)) as (-> & -> & ->); [zlia|]. cbn [negb]. wp_step. wp_step.
    eapply HC1; [done|]. wp_step. eapply HC2; [done|]. wp_step. apply wp_advance_ptr; [done|]. wp_ret. rewrite Hp.
    apply (wp_utf8_end m s p Bs Hp _ _ 2); [apply joined3; lia | by left | cbn in Hend; lia].
  - destruct (lead4 (0xF0 + u / 2 ^ 18)) as (-> & -> & -> & ->); [zlia|]. cbn [negb]. wp_step. wp_step.
    eapply HC1; [done|]. wp_step. eapply HC2; [done|]. wp_step. eapply HC3; [done|]. wp_step.
    apply wp_advance_ptr; [done|]. wp_ret. rewrite Hp.
    apply (wp_utf8_end m s p Bs Hp _ _ 3); [apply joined4; lia | by left | cbn in Hend; lia].
Qed.

(** ** A string, one call after the other *)
Fixpoint read_utf8 (n : nat) (m : mem) (s : Z) : res (list Z * mem) :=
  match n with
  | O => Ok ([], m)
  | S n =>
      '(c, m) ← ssfn_utf8 m s;
      '(l, m) ← read_utf8 n m s;
      Ok (c :: l, m)
  end.

(** The text of code points, with its terminator. *)
Definition utf8_text (us : list Z) : list Z := concat (encode <$> us).

Lemma wp_read_utf8 s us : forall m,
  backed m s 8 -> Forall code_point us -> bytes_lie m (peek64 m s) (utf8_text us) ->
  peek64 m s + Z.of_nat (length (utf8_text us)) < 2 ^ 64 ->
  (forall x, region (peek64 m s) (Z.of_nat (length (utf8_text us))) x -> ~ region s 8 x) ->
  wp (read_utf8 (length us) m s) (fun '(l, m') =>
    l = us /\ m' = poke64 m s (peek64 m s + Z.of_nat (length (utf8_text us)))).
Proof.
  induction us as [|u us IH]; intros m Bs Hus HL Hend Hap.
  { wp_ret. split; [done|]. rewrite Z.add_0_r. symmetry. by apply (poken_peekn 8). }
  apply Forall_cons in Hus as [Hu Hus]. change (utf8_text (u :: us)) with (encode u ++ utf8_text us) in *.
  rewrite length_app, Nat2Z.inj_add in *. cbn [length read_utf8]. destruct HL as [B P]. rewrite length_app, Nat2Z.inj_add in B.
  pose proof (peek64_range m s) as Hr. set (n := Z.of_nat (length (encode u))) in *.
  wp_step. eapply wp_mono.
  { apply (wp_ssfn_utf8 m s u Bs Hu); [|lia]. split; [apply (backed_sub _ _ _ _ _ B); lia|].
    intros i c Hi. apply P. by apply lookup_app_l_Some. }
  intros [c m'] [Hc Hm]. cbn [fst snd] in Hc, Hm. subst c m'. fold n. set (p := peek64 m s) in *. set (m1 := poke64 m s (p + n)).
  assert (Hp1 : peek64 m1 s = p + n) by (unfold m1; rewrite peek64_poke64_eq; apply u64_small; lia).
  wp_step. eapply wp_mono.
  { apply (IH m1); [by apply backed_poken | done | | lia |].
    - rewrite Hp1. split; [apply backed_poken, (backed_sub _ _ _ _ _ B); lia|]. intros i c Hi.
      assert (Hi' : (encode u ++ utf8_text us) !! (length (encode u) + i)%nat = Some c) by (by rewrite lookup_app_r, Nat.add_comm, Nat.add_sub by lia).
      rewrite <- (P _ _ Hi'), Nat2Z.inj_add, Z.add_assoc. fold n.
      apply (mem_upd_peekn (region s 8)); [by apply mem_upd_poke64|].
      intros x Hx. apply Hap. pose proof (lookup_lt_Some _ _ _ Hi). unfold region in *. simpl in Hx. lia.
    - intros x. rewrite Hp1. intros Hx. apply Hap. unfold region in *. lia. }
  intros [l m'] [-> ->]. wp_ret. split; [done|]. rewrite Hp1. unfold m1. rewrite poken_poken. f_equal. lia.
Qed.

(** The terminator reads as 0. *)
Lemma wp_utf8_nul m s :
  backed m s 8 -> bytes_lie m (peek64 m s) [0] -> peek64 m s + 1 < 2 ^ 64 ->
  wp (ssfn_utf8 m s) (utf8_reads m s (peek64 m s) 0 1).
Proof.
  intros Bs HL Hend. pose proof (peek64_range m s) as Hr. unfold ssfn_utf8. wp_step. apply (wp_loadn 8); [done|].
  wp_step. rewrite <- (Z.add_0_r (peek64 m s)) at 1. apply (wp_char_at m _ [0] 0 0 _ HL); [done|].
  change (Z.land (s8 0) 128) with 0. cbn [Z.eqb negb mbind res_bind].
  apply (wp_utf8_end m s (peek64 m s) Bs eq_refl _ _ 0 m); [done | by right | lia].
Qed.

(** A string of code points as C has it. *)
Lemma utf8_bytes m a l : cstring m a l -> bytes_lie m a l /\ bytes_lie m (a + Z.of_nat (length l)) [0].
Proof.
  intros [B C E]. split; split.
  - apply (backed_sub _ _ _ _ _ B); lia.
  - intros i c Hi. by apply C.
  - apply (backed_sub _ _ _ _ _ B); cbn; lia.
  - intros [|i] c [= <-]. by rewrite Z.add_0_r.
Qed.
