(* ===== verification/Console.v ===== *)
(** The kernel console: kernel/framebuffer.h and kernel/drivers/ssfn_fb.c, over the
    renderer of Ssfn.v. *)
From stdpp Require Import base.
From Stdlib Require Import ZArith Lia.
From S2P Require Import Prelude Memory LibString Stdio Ssfn.
Local Open Scope Z_scope.

Record framebuffer_t := {
  width : Z;
  height : Z;
  pixels_per_scanline : Z;
  margin : Z;
  buffer : Z;
  font : Z;
  font_size : Z
}.

(** The globals of the renderer start out zero. *)
Definition ssfn_zero : ssfn_t :=
  {| ssfn_src := 0;
     ssfn_dst := {| dst_ptr := 0; dst_w := 0; dst_h := 0; dst_p := 0; dst_x := 0; dst_y := 0; dst_fg := 0; dst_bg := 0 |} |}.

Definition ssfn_set_color (g : ssfn_t) (foreground background : Z) : ssfn_t :=
  let d := ssfn_dst g in
  {| ssfn_src := ssfn_src g;
     ssfn_dst := {| dst_ptr := dst_ptr d; dst_w := dst_w d; dst_h := dst_h d; dst_p := dst_p d;
       dst_x := dst_x d; dst_y := dst_y d; dst_fg := foreground; dst_bg := background |} |}.

(** The width and height of the destination are left as they are: 0 in a new global. *)
Definition ssfn_setup (g : ssfn_t) (fb : framebuffer_t) : ssfn_t :=
  let d := ssfn_dst g in
  ssfn_set_color
    {| ssfn_src := font fb;
       ssfn_dst := {| dst_ptr := buffer fb; dst_w := dst_w d; dst_h := dst_h d;
         dst_p := u16 (4 * pixels_per_scanline fb); dst_x := s16 (margin fb); dst_y := s16 (margin fb);
         dst_fg := dst_fg d; dst_bg := dst_bg d |} |}
    0xFFFFFFFF 0x0.

(** Cursor positions become size_t in comparisons. *)
Definition past_right (fb : framebuffer_t) (d : ssfn_buf_t) : bool :=
  u64 (u64 (width fb - margin fb) - 5) <? u64 (dst_x d).

(** The cursor is brought back into the margins. *)
Definition into_margins (fb : framebuffer_t) (d : ssfn_buf_t) : ssfn_buf_t :=
  let d := if u64 (dst_x d) <? margin fb then move_to d (s16 (margin fb)) (dst_y d) else d in
  if u64 (dst_y d) <? margin fb then move_to d (dst_x d) (s16 (margin fb)) else d.

Definition ssfn_put (fuel : nat) (s : mem * ssfn_t) (fb : framebuffer_t) (c : Z) : res (mem * ssfn_t) :=
  '(_, s) ← ssfn_putc fuel s (u32 (s8 c));
  '(_, s) ← (if past_right fb (ssfn_dst s.2) then ssfn_putc fuel s 10 else Ok (SSFN_OK, s));
  let '(m, g) := s in
  Ok (m, {| ssfn_src := ssfn_src g; ssfn_dst := into_margins fb (ssfn_dst g) |}).

(** [output] is the address of the local array of 1024 characters. *)
Definition ssfn_printf (fuel : nat) (zero rev temp output : Z) (s : mem * ssfn_t) (fb : framebuffer_t)
    (format : Z) (values : list Z) : res (Z * (mem * ssfn_t)) :=
  let '(m, g) := s in
  '(_, m) ← memset m output 0 1024;
  '(written, m) ← vsprintf fuel zero rev temp output format m values;
  after
    (for_range 0 written
       (fun i s => c ← load8 (fst s) (output + i); s ← ssfn_put fuel s fb c; Ok (inl s)) (m, g))
    (fun s => Ok (s32 (written + 1), s)).
