(* ===== verification/ItoaSpec.v ===== *)
(** What reverse_string and itoa of lib/string/itoa.c do. *)
From stdpp Require Import gmap list list_numbers.
From Stdlib Require Import ZArith Lia.
From S2P Require Import Prelude Memory LibString.
Local Open Scope Z_scope.

(** ** reverse_string *)
Section reverse.
Context (fuel : nat) (m : mem) (s temp : Z) (l : list Z).
Let n := Z.of_nat (length l).
Context (C : cstring m s l) (Hne : 0 < n < 2 ^ 31) (Hfuel : n <= Z.of_nat fuel).
Context (Bt : backed m temp (n + 1)) (Hdis : s + n < temp \/ temp + n < s).

(** The characters of the string, and of the local array. *)
Definition reverse_writes (x : Z) : Prop := region s n x \/ region temp (n + 1) x.

Definition reverse_inv (st : mem * Z * Z) : Prop :=
  let '(m', c1, c2) := st in
  0 <= c1 <= n /\ c2 = u64 (n - 1 - c1) /\ mem_upd reverse_writes m m' /\ cstring m' temp l /\
  (forall j, 0 <= j < c1 -> peek8 m' (s + j) = default 0 (l !! Z.to_nat (n - 1 - j))) /\
  peek8 m' (s + n) = 0.

Lemma wp_reverse_string :
  wp (reverse_string fuel m s temp) (fun m' =>
    mem_upd reverse_writes m m' /\ cstring m' temp l /\ cstring m' s (reverse l)).
Proof using C Hne Hfuel Bt Hdis.
  unfold reverse_string. wp_step. eapply wp_mono; [apply (wp_strlen fuel m s l C); lia|].
  intros ? ->. fold n. rewrite (u64_small (n - 1)) by lia.
  wp_step. eapply wp_mono; [apply (wp_strcpy fuel m temp s l C); [done | lia..]|].
  intros [p m1] (-> & U1 & C1). fold n in U1. wp_step. eapply wp_mono.
  - apply (wp_while reverse_inv (fun _ => False) (fun '(_, c1, _) => n - c1)); [lia | |].
    + split; [lia|]. split; [rewrite u64_small; lia|]. split; [|split; [done|]].
      * eapply mem_upd_mono; [exact U1|]. by right.
      * split; [lia|]. rewrite (mem_upd_peekn _ _ _ _ _ U1).
        -- apply (cs_end _ _ _ C).
        -- unfold region. simpl. lia.
    + intros [[m' c1] c2] (Hc1 & -> & U & C' & Hj & He). wp_ret.
      destruct (Z.leb_spec c1 (n - 1)) as [Hle|]; [|done]. split; [lia|].
      rewrite (u64_small (n - 1 - c1)) by lia.
      wp_step. apply (wp_loadn 1); [apply (cs_backed1 m' temp l _ C'); fold n; lia|].
      assert (Bs : backed m' (s + c1) 1).
      { apply (mem_upd_backed _ _ _ _ _ U). apply (cs_backed1 m s l _ C). fold n. lia. }
      wp_step. apply (wp_storen 1); [exact Bs|]. wp_ret.
      pose proof (mem_upd_poken 1 m' (s + c1) (peek8 m' (temp + (n - 1 - c1))) Bs) as U2.
      assert (Htemp : forall i, 0 <= i <= n -> forall x, region (temp + i) 1 x -> ~ region (s + c1) 1 x)
        by (unfold region; intros; lia).
      split; [|rewrite u64_small by lia; lia]. split; [rewrite u64_small by lia; lia|].
      split; [rewrite (u64_small (c1 + 1)) by lia; f_equal; lia|]. split; [|split; [|split]].
      * etrans; [exact U|]. eapply mem_upd_mono; [exact U2|]. intros x Hx. left. unfold region in *. simpl in Hx. lia.
      * split.
        -- by apply (mem_upd_backed _ _ _ _ _ U2), (cs_backed _ _ _ C').
        -- intros i c Hi. pose proof (lookup_lt_Some _ _ _ Hi).
           rewrite (mem_upd_peekn _ _ _ _ _ U2) by (apply Htemp; fold n; lia).
           by apply (cs_char _ _ _ C').
        -- rewrite (mem_upd_peekn _ _ _ _ _ U2) by (apply Htemp; fold n; lia).
           apply (cs_end _ _ _ C').
      * rewrite u64_small by lia. intros j Hj'. destruct (decide (j = c1)) as [->|Hji].
        -- rewrite (peekn_poken_eq 1), Z.mod_small by apply peek8_range.
           by apply (cs_peek m' temp l _ C'); fold n; lia.
        -- rewrite (peekn_poken_ne 1 1) by (simpl; lia). apply Hj. lia.
      * rewrite (peekn_poken_ne 1 1) by (simpl; lia). exact He.
  - intros [[[m' c1] c2]|r]; [|done]. intros [(Hc1 & _ & U & C' & Hj & He) [= Hge%Z.leb_gt]].
    wp_ret. split; [done|]. split; [done|]. assert (c1 = n) as -> by lia.
    assert (Hlen : length (reverse l) = length l) by apply length_reverse. split.
    + rewrite Hlen. apply (mem_upd_backed _ _ _ _ _ U), (cs_backed _ _ _ C).
    + intros i c Hi. pose proof (lookup_lt_Some _ _ _ Hi) as Hlt. rewrite Hlen in Hlt.
      rewrite reverse_lookup in Hi by done. rewrite Hj by lia.
      replace (Z.to_nat (n - 1 - Z.of_nat i)) with (length l - S i)%nat by lia. rewrite Hi.
      split; [done|]. by apply (cs_char _ _ _ C (length l - S i)%nat c).
    + rewrite Hlen. exact He.
Qed.
End reverse.

(** ** Digits *)

(** The lowest [k] digits of [num], lowest first, as characters. *)
Definition digits (base num : Z) (k : nat) : list Z :=
  (fun j => num / base ^ j mod base + 48) <$> seqZ 0 (Z.of_nat k).

(** The number a string of digits denotes, highest first. *)
Definition value (base : Z) (l : list Z) : Z := foldl (fun acc c => acc * base + (c - 48)) 0 l.

Lemma value_from base l acc :
  foldl (fun acc c => acc * base + (c - 48)) acc l = acc * base ^ Z.of_nat (length l) + value base l.
Proof.
  revert acc. induction l as [|c l IH]; intros acc; cbn [foldl length value].
  - rewrite Z.pow_0_r. unfold value. simpl. lia.
  - unfold value. cbn [foldl]. rewrite IH, (IH (0 * base + (c - 48))).
    rewrite Nat2Z.inj_succ, Z.pow_succ_r by lia. lia.
Qed.

Lemma length_digits base num k : length (digits base num k) = k.
Proof. unfold digits. rewrite length_fmap, length_seqZ. lia. Qed.

Lemma digits_S base num k : digits base num (S k) = digits base num k ++ [num / base ^ Z.of_nat k mod base + 48].
Proof.
  unfold digits. replace (Z.of_nat (S k)) with (Z.of_nat k + 1) by lia.
  rewrite seqZ_app, fmap_app by lia. cbn. done.
Qed.

Lemma digits_lookup base num k i :
  (i < k)%nat -> digits base num k !! i = Some (num / base ^ Z.of_nat i mod base + 48).
Proof. intros Hi. unfold digits. rewrite list_lookup_fmap, lookup_seqZ_lt by lia. done. Qed.

(** Reading the digits back. *)
Lemma value_digits base num k :
  2 <= base -> 0 <= num -> value base (reverse (digits base num k)) = num mod base ^ Z.of_nat k.
Proof.
  intros Hb Hn. induction k as [|k IH]; [by rewrite Z.mod_1_r|].
  rewrite digits_S, reverse_app. unfold value. cbn [reverse rev_append app foldl].
  rewrite value_from, IH, length_reverse, length_digits.
  rewrite Nat2Z.inj_succ, Z.pow_succ_r by lia.
  rewrite (Z.mul_comm base), Z.rem_mul_r by (try apply Z.pow_nonzero; lia). lia.
Qed.

Section itoa.
Context (base num : Z) (Hbase : 2 <= base <= 10) (Hnum : 0 < num < 2 ^ 31).
(** No number has more than [cap] digits. *)
Context (cap : Z) (Hcap : 1 <= cap <= 31) (Hpow : 2 ^ 31 <= base ^ cap).

(** [k] digits have been taken off [num], and it was not zero before the last. *)
Lemma digit_step k :
  0 <= k -> 0 < num / base ^ k -> k < cap /\ num / base ^ k / base = num / base ^ (k + 1) /\
  Z.log2 (num / base ^ (k + 1)) + 1 <= Z.log2 (num / base ^ k) + (if num / base ^ (k + 1) =? 0 then 1 else 0).
Proof using Hbase Hnum Hcap Hpow.
  intros Hk Hq. assert (Hp : 0 < base ^ k) by (apply Z.pow_pos_nonneg; lia). split; [|split].
  - assert (Hle : base ^ k <= num) by (destruct (Z.lt_ge_cases num (base ^ k)); [rewrite Z.div_small in Hq by lia|]; lia).
    apply (Z.pow_lt_mono_r_iff base); lia.
  - rewrite Z.pow_add_r, Z.pow_1_r, Z.div_div by lia. done.
  - rewrite Z.pow_add_r, Z.pow_1_r, <- Z.div_div by lia.
    set (q := num / base ^ k) in *. destruct (Z.eqb_spec (q / base) 0) as [->|Hne].
    + pose proof (Z.log2_nonneg q). simpl. lia.
    + assert (Hq1 : 1 <= q / base <= q / 2).
      { split; [pose proof (Z.div_pos q base); lia | apply Z.div_le_compat_l; lia]. }
      pose proof (Z.log2_le_mono (q / base) (q / 2) ltac:(lia)) as Hl.
      assert (Hd : Z.log2 (q / 2) + 1 = Z.log2 q).
      { rewrite <- Z.div2_div. destruct (Z.Even_or_Odd q) as [[h ->]|[h ->]].
        - rewrite Z.div2_div, Z.mul_comm, Z.div_mul by lia. rewrite Z.mul_comm, Z.log2_double by lia. lia.
        - rewrite Z.div2_div. replace ((2 * h + 1) / 2) with h by zlia.
          rewrite Z.log2_succ_double by zlia. lia. }
      lia.
Qed.

Definition digits_state (m : mem) (str : Z) (k : nat) (m' : mem) : Prop :=
  mem_upd (region str (Z.of_nat k)) m m' /\
  forall j, 0 <= j < Z.of_nat k -> peek8 m' (str + j) = num / base ^ j mod base + 48.

Lemma wp_itoa_digits fuel m str :
  (31 <= fuel)%nat -> backed m str cap ->
  wp (itoa_digits fuel m str num base) (fun '(m', pos) => exists k : nat,
    pos = Z.of_nat k /\ 1 <= Z.of_nat k <= cap /\ num / base ^ Z.of_nat k = 0 /\
    0 < num / base ^ (Z.of_nat k - 1) /\ digits_state m str k m').
Proof using Hbase Hnum Hcap Hpow.
  intros Hfuel Hb. unfold itoa_digits. wp_step.
  set (inv := fun st : mem * Z * Z => let '(m', n, pos) := st in exists k : nat,
    pos = Z.of_nat k /\ Z.of_nat k <= cap /\ n = num / base ^ Z.of_nat k /\
    ((1 <= k)%nat -> 0 < num / base ^ (Z.of_nat k - 1)) /\ digits_state m str k m').
  eapply wp_mono.
  - apply (wp_while inv (fun _ => False)
      (fun '(_, n, _) => if n =? 0 then 0 else Z.log2 n + 1)).
    + rewrite (proj2 (Z.eqb_neq num 0)) by lia.
      assert (Z.log2 num < 31) by (apply Z.log2_lt_pow2; lia). lia.
    + exists 0%nat. rewrite Z.pow_0_r, Z.div_1_r. split; [done|]. split; [lia|]. split; [done|].
      split; [lia|]. split; [done | lia].
    + intros [[m' n] pos] (k & -> & Hk & -> & Hlast & U & Hd). wp_ret.
      set (q := num / base ^ Z.of_nat k) in *.
      assert (Hq : 0 <= q < 2 ^ 31).
      { assert (Hp : 0 < base ^ Z.of_nat k) by (apply Z.pow_pos_nonneg; lia). unfold q.
        split; [by apply Z.div_pos; lia|].
        pose proof (Z.div_le_upper_bound num (base ^ Z.of_nat k) num ltac:(lia)). nia. }
      destruct (Z.eqb_spec q 0) as [|Hq0]; [done|]. cbn [negb].
      split; [pose proof (Z.log2_nonneg q); lia|].
      destruct (digit_step (Z.of_nat k) ltac:(lia)) as (Hk30 & Hdiv & Hlog); [fold q; lia|].
      fold q in Hdiv, Hlog. rewrite (proj2 (Z.eqb_neq base 0)) by lia.
      rewrite Z.rem_mod_nonneg, Z.quot_div_nonneg by lia. rewrite Hdiv.
      pose proof (Z.mod_pos_bound q base ltac:(lia)) as Hm.
      assert (B1 : backed m' (str + Z.of_nat k) 1).
      { apply (mem_upd_backed _ _ _ _ _ U). apply (backed_sub _ _ _ _ _ Hb); lia. }
      wp_step. apply (wp_storen 1); [exact B1|]. wp_ret.
      assert (Hs1 : s32 (num / base ^ (Z.of_nat k + 1)) = num / base ^ (Z.of_nat k + 1)).
      { rewrite <- Hdiv. assert (0 <= q / base < 2 ^ 31) by (split; [apply Z.div_pos; lia|]; apply Z.div_lt_upper_bound; nia).
        unfold s32. rewrite Z.mod_small; lia. }
      assert (Hs2 : s32 (Z.of_nat k + 1) = Z.of_nat k + 1) by (unfold s32; rewrite Z.mod_small; lia).
      rewrite Hs1, Hs2. split.
      * exists (S k). replace (Z.of_nat (S k)) with (Z.of_nat k + 1) by lia.
        split; [done|]. split; [lia|]. split; [done|]. split.
        { intros _. replace (Z.of_nat k + 1 - 1) with (Z.of_nat k) by lia. fold q. lia. }
        split.
        -- etrans; [eapply mem_upd_mono; [exact U|]; unfold region; lia|].
           eapply mem_upd_mono; [by apply (mem_upd_poken 1)|]. unfold region. simpl. lia.
        -- intros j Hj. destruct (decide (j = Z.of_nat k)) as [->|Hne].
           ++ rewrite (peekn_poken_eq 1). fold q. apply Z.mod_small. simpl. lia.
           ++ rewrite (peekn_poken_ne 1 1) by (simpl; lia). apply Hd. lia.
      * destruct (Z.eqb_spec (num / base ^ (Z.of_nat k + 1)) 0); [|lia].
        pose proof (Z.log2_nonneg q). lia.
  - intros [[[m' n] pos]|r]; [|done].
    intros [(k & -> & Hk & -> & Hlast & S) [= Hz%negb_false_iff%Z.eqb_eq]]. wp_ret.
    assert (Hk1 : (1 <= k)%nat).
    { destruct k as [|k]; [|lia]. rewrite Z.pow_0_r, Z.div_1_r in Hz. lia. }
    exists k. split_and!; [done | lia | lia | done | by apply Hlast | done].
Qed.
End itoa.

(** ** itoa *)

(** The text of a number: a sign for negative decimals, then the digits, the
    first of which is not zero. *)
Definition text_of (num base : Z) (s : list Z) : Prop :=
  exists neg ds, s = (if neg : bool then [45] else []) ++ ds /\ neg = (num <? 0) /\
    value base ds = Z.abs num /\ Forall (fun c => 48 <= c < 48 + base) ds /\
    (num <> 0 -> exists c ds', ds = c :: ds' /\ c <> 48).

Section itoa_spec.
Context (fuel : nat) (zero temp str base : Z) (m : mem).
Context (Hfuel : (34 <= fuel)%nat) (Hbase : 2 <= base <= 10).
Context (cap : Z) (Hcap : 1 <= cap <= 31) (Hpow : 2 ^ 31 <= base ^ cap).
Context (Bs : backed m str (cap + 2)) (Bt : backed m temp (cap + 2)).
Context (Hdis : str + (cap + 2) <= temp \/ temp + (cap + 2) <= str).

(** What is written when the text has [n] characters. *)
Definition itoa_writes (n : Z) (x : Z) : Prop := region str (n + 1) x \/ region temp (n + 1) x.

(** A number whose digits are in memory, lowest first, reversed. *)
Lemma digits_reversed num k sign :
  0 < num -> num / base ^ Z.of_nat k = 0 -> 0 < num / base ^ (Z.of_nat k - 1) -> (1 <= k)%nat ->
  let ds := reverse (digits base num k) in
  reverse (digits base num k ++ sign) = reverse sign ++ ds /\
  value base ds = num /\ Forall (fun c => 48 <= c < 48 + base) ds /\
  exists c ds', ds = c :: ds' /\ c <> 48.
Proof using Hbase.
  clear Hfuel Bs Bt Hdis Hcap Hpow. intros Hn H0 H1 Hk ds.
  assert (Hp : 0 < base ^ Z.of_nat k) by (apply Z.pow_pos_nonneg; lia).
  split; [apply reverse_app|]. split; [|split].
  - unfold ds. rewrite value_digits by lia. apply Z.mod_small.
    split; [lia|]. destruct (Z.lt_ge_cases num (base ^ Z.of_nat k)) as [|Hge]; [done|].
    pose proof (Z.div_str_pos num (base ^ Z.of_nat k)). lia.
  - unfold ds. apply Forall_reverse, Forall_fmap, Forall_forall. intros j _. cbn.
    pose proof (Z.mod_pos_bound (num / base ^ j) base). lia.
  - destruct k as [|k]; [lia|]. unfold ds. rewrite digits_S, reverse_app. cbn [reverse rev_append app].
    eexists _, _. split; [done|]. replace (Z.of_nat (S k) - 1) with (Z.of_nat k) in H1 by lia.
    set (q := num / base ^ Z.of_nat k) in *.
    assert (Hq : q < base).
    { rewrite Nat2Z.inj_succ, Z.pow_succ_r, Z.mul_comm, <- Z.div_div in H0 by lia. fold q in H0.
      destruct (Z.lt_ge_cases q base) as [|Hge]; [done|]. pose proof (Z.div_str_pos q base). lia. }
    rewrite Z.mod_small by lia. lia.
Qed.

(** Closing and reversing the characters written so far. *)
Lemma wp_finish m' l :
  0 < Z.of_nat (length l) < cap + 2 -> mem_upd (region str (Z.of_nat (length l))) m m' ->
  (forall i c, l !! i = Some c -> peek8 m' (str + Z.of_nat i) = c /\ c <> 0) ->
  wp (m ← store8 m' (str + Z.of_nat (length l)) 0; m ← reverse_string fuel m str temp; Ok (str, m))
    (fun '(p, m2) => p = str /\ cstring m2 str (reverse l) /\
      mem_upd (itoa_writes (Z.of_nat (length l))) m m2).
Proof using Hfuel Bs Bt Hdis Hcap.
  clear Hbase Hpow. intros Hl U Hc. set (n := Z.of_nat (length l)) in *. wp_step.
  assert (B' : backed m' str (cap + 2)) by (by apply (mem_upd_backed _ _ _ _ _ U)).
  assert (B1 : backed m' (str + n) 1) by (apply (backed_sub _ _ _ _ _ B'); lia).
  apply (wp_storen 1); [exact B1|]. pose proof (mem_upd_poken 1 m' (str + n) 0 B1) as U1.
  wp_step. eapply wp_mono.
  - apply (wp_reverse_string fuel _ str temp l); fold n; [| lia | lia | | lia].
    + split; fold n.
      * apply (mem_upd_backed _ _ _ _ _ U1). apply (backed_sub _ _ _ _ _ B'); lia.
      * intros i c Hi. pose proof (lookup_lt_Some _ _ _ Hi).
        rewrite (mem_upd_peekn _ _ _ _ _ U1) by (unfold region; simpl; lia). by apply Hc.
      * by rewrite (peekn_poken_eq 1).
    + apply (mem_upd_backed _ _ _ _ _ U1), (mem_upd_backed _ _ _ _ _ U).
      apply (backed_sub _ _ _ _ _ Bt); lia.
  - intros m2 (U2 & _ & C). wp_ret. split; [done|]. split; [done|].
    etrans; [eapply mem_upd_mono; [exact U|]; unfold itoa_writes, region; lia|].
    etrans; [eapply mem_upd_mono; [exact U1|]; unfold itoa_writes, region; simpl; lia|].
    eapply mem_upd_mono; [exact U2|]. unfold reverse_writes, itoa_writes, region. fold n. lia.
Qed.

(** The number of digits of [num]. *)
Definition has_digits (num : Z) (k : nat) : Prop :=
  1 <= Z.of_nat k <= cap /\ num / base ^ Z.of_nat k = 0 /\ 0 < num / base ^ (Z.of_nat k - 1).

Lemma wp_itoa_digit_text num :
  0 < Z.abs num < 2 ^ 31 -> (num < 0 -> base = 10) ->
  wp (itoa fuel zero temp m num str base) (fun '(p, m') =>
    p = str /\ exists k, has_digits (Z.abs num) k /\
      let s := (if num <? 0 then [45] else []) ++ reverse (digits base (Z.abs num) k) in
      cstring m' str s /\ mem_upd (itoa_writes (Z.of_nat (length s))) m m').
Proof using Hfuel Bs Bt Hdis Hbase Hcap Hpow.
  intros Hn Hneg. unfold itoa. rewrite (proj2 (Z.eqb_neq num 0)) by lia.
  assert (Hsign : (num <? 0) && (base =? 10) = (num <? 0)).
  { destruct (Z.ltb_spec num 0); [|done]. by rewrite Hneg, Z.eqb_refl. }
  rewrite Hsign.
  assert (Habs : (if num <? 0 then s32 (- num) else num) = Z.abs num).
  { destruct (Z.ltb_spec num 0); [|lia]. unfold s32. rewrite Z.mod_small; lia. }
  rewrite Habs. wp_step. eapply wp_mono.
  { apply (wp_itoa_digits base (Z.abs num) Hbase ltac:(lia) cap Hcap Hpow); [lia|]. apply (backed_sub _ _ _ _ _ Bs); lia. }
  intros [m1 pos] (k & -> & Hk & H0 & H1 & U & Hd).
  set (sign := if num <? 0 then [45] else []).
  destruct (digits_reversed (Z.abs num) k sign) as (Hrev & Hval & Hall & Hfirst); [lia | done | done | lia |].
  assert (Hdig : forall i c, digits base (Z.abs num) k !! i = Some c ->
    peek8 m1 (str + Z.of_nat i) = c /\ c <> 0).
  { intros i c Hi. pose proof (lookup_lt_Some _ _ _ Hi) as Hlt. rewrite length_digits in Hlt.
    rewrite digits_lookup in Hi by done. injection Hi as <-.
    pose proof (Z.mod_pos_bound (Z.abs num / base ^ Z.of_nat i) base). rewrite Hd by lia. lia. }
  assert (Hlen : length (digits base (Z.abs num) k ++ sign) = (k + length sign)%nat)
    by (by rewrite length_app, length_digits).
  set (l := digits base (Z.abs num) k ++ sign) in *.
  assert (Hgoal : wp ('(m', pos) ← (if num <? 0 then m' ← store8 m1 (str + Z.of_nat k) 45; Ok (m', s32 (Z.of_nat k + 1))
      else Ok (m1, Z.of_nat k)); m' ← store8 m' (str + pos) 0; m' ← reverse_string fuel m' str temp; Ok (str, m'))
    (fun '(p, m2) => p = str /\ cstring m2 str (reverse l) /\
      mem_upd (itoa_writes (Z.of_nat (length l))) m m2)).
  { subst sign. destruct (num <? 0); simpl in Hlen.
    - assert (B1 : backed m1 (str + Z.of_nat k) 1).
      { apply (mem_upd_backed _ _ _ _ _ U). apply (backed_sub _ _ _ _ _ Bs); lia. }
      wp_step. wp_step. apply (wp_storen 1); [exact B1|]. wp_ret.
      pose proof (mem_upd_poken 1 m1 (str + Z.of_nat k) 45 B1) as U1.
      replace (s32 (Z.of_nat k + 1)) with (Z.of_nat (length l))
        by (rewrite Hlen; unfold s32; rewrite Z.mod_small; lia).
      apply wp_finish; [lia | |].
      + rewrite Hlen. etrans; (eapply mem_upd_mono; [eassumption|]); unfold region; simpl; lia.
      + intros i c Hi. apply lookup_app_Some in Hi as [Hi|[Hge Hi]].
        * pose proof (lookup_lt_Some _ _ _ Hi) as Hlt. rewrite length_digits in Hlt.
          rewrite (mem_upd_peekn _ _ _ _ _ U1) by (unfold region; simpl; lia). by apply Hdig.
        * rewrite length_digits in *. apply list_lookup_singleton_Some in Hi as [Hi <-].
          replace i with k by lia. by rewrite (peekn_poken_eq 1).
    - rewrite Nat.add_0_r in Hlen. wp_step. wp_ret. rewrite <- Hlen. apply wp_finish; [lia | by rewrite Hlen |].
      unfold l. rewrite app_nil_r. exact Hdig. }
  eapply wp_mono; [exact Hgoal|]. intros [p m2] (-> & Cs & W). split; [done|].
  exists k. split; [done|]. cbv zeta. fold sign.
  assert (Hs : sign ++ reverse (digits base (Z.abs num) k) = reverse l)
    by (rewrite Hrev; f_equal; subst sign; by destruct (num <? 0)).
  by rewrite Hs, length_reverse.
Qed.

Lemma wp_itoa num :
  0 < Z.abs num < 2 ^ 31 -> (num < 0 -> base = 10) ->
  wp (itoa fuel zero temp m num str base) (fun '(p, m') =>
    p = str /\ exists s, cstring m' str s /\ text_of num base s).
Proof using Hfuel Bs Bt Hdis Hbase Hcap Hpow.
  intros Hn Hneg. eapply wp_mono; [by apply wp_itoa_digit_text|].
  intros [p m'] (-> & k & (Hk & H0 & H1) & Cs & _). split; [done|].
  destruct (digits_reversed (Z.abs num) k []) as (_ & Hval & Hall & Hfirst); [lia | done | done | lia |].
  eexists. split; [exact Cs|]. by exists (num <? 0), (reverse (digits base (Z.abs num) k)).
Qed.
End itoa_spec.
