(* ===== verification/StdioSpec.v ===== *)
(** A reference for formatted output, on lists of characters, and that vsprintf of
    lib/stdio/vsprintf.c computes it. *)
From stdpp Require Import gmap list list_numbers.
From Stdlib Require Import ZArith Lia.
From S2P Require Import Prelude Memory LibString Stdio ItoaSpec.
Local Open Scope Z_scope.

(** ** Characters in memory *)

(** The characters at [a]. *)
Definition bytes_at (m : mem) (a n : Z) : list Z := (fun i => peek8 m (a + i)) <$> seqZ 0 n.

Lemma length_bytes_at m a n : Z.of_nat (length (bytes_at m a n)) = Z.max 0 n.
Proof. unfold bytes_at. rewrite length_fmap, length_seqZ. lia. Qed.

Lemma bytes_at_lookup m a n (i : nat) :
  Z.of_nat i < n -> bytes_at m a n !! i = Some (peek8 m (a + Z.of_nat i)).
Proof. intros Hi. unfold bytes_at. by rewrite list_lookup_fmap, lookup_seqZ_lt by lia. Qed.

(** The characters at [a] are those of a list. *)
Lemma bytes_at_eq m a l :
  (forall (i : nat) c, l !! i = Some c -> peek8 m (a + Z.of_nat i) = c) ->
  bytes_at m a (Z.of_nat (length l)) = l.
Proof.
  intros H. apply list_eq. intros i. destruct (l !! i) as [c|] eqn:Hi.
  - pose proof (lookup_lt_Some _ _ _ Hi). rewrite bytes_at_lookup by lia. f_equal. by apply H.
  - apply lookup_ge_None in Hi. apply lookup_ge_None.
    pose proof (length_bytes_at m a (Z.of_nat (length l))). lia.
Qed.

Lemma bytes_at_app m a n k :
  0 <= n -> 0 <= k -> bytes_at m a (n + k) = bytes_at m a n ++ bytes_at m (a + n) k.
Proof.
  intros Hn Hk. unfold bytes_at. rewrite seqZ_app by done. rewrite fmap_app. f_equal.
  apply list_eq. intros i. rewrite !list_lookup_fmap.
  destruct (decide (Z.of_nat i < k)).
  - rewrite !lookup_seqZ_lt by lia. cbn. do 2 f_equal. lia.
  - by rewrite !lookup_seqZ_ge by lia.
Qed.

Lemma bytes_at_upd P m m' a n :
  mem_upd P m m' -> (forall x, region a n x -> ~ P x) -> bytes_at m' a n = bytes_at m a n.
Proof.
  intros U HP. unfold bytes_at. apply list_fmap_ext. intros i x Hx.
  apply lookup_seqZ in Hx as [-> Hi]. apply (mem_upd_peekn _ _ _ _ _ U).
  intros y Hy. apply HP. unfold region in *. lia.
Qed.

Lemma bytes_at_store m a v : backed m a 1 -> 0 <= v < 2 ^ 8 -> bytes_at (poke8 m a v) a 1 = [v].
Proof.
  intros B Hv. change (seqZ 0 1) with [0]. unfold bytes_at. change (seqZ 0 1) with [0]. cbn [fmap list_fmap].
  by rewrite Z.add_0_r, (peekn_poken_eq 1), Z.mod_small.
Qed.

(** A string is not touched by writes elsewhere. *)
Lemma cstring_upd P m m' a s :
  mem_upd P m m' -> (forall x, region a (Z.of_nat (length s) + 1) x -> ~ P x) ->
  cstring m a s -> cstring m' a s.
Proof.
  intros U HP [B C E].
  assert (Hp : forall i, 0 <= i <= Z.of_nat (length s) -> peek8 m' (a + i) = peek8 m (a + i)).
  { intros i Hi. apply (mem_upd_peekn _ _ _ _ _ U). intros x Hx. apply HP. unfold region in *. lia. }
  split; [by apply (mem_upd_backed _ _ _ _ _ U) | | by rewrite Hp by lia].
  intros i c Hi. pose proof (lookup_lt_Some _ _ _ Hi). rewrite Hp by lia. by apply C.
Qed.

(** Reading a string off memory. *)
Lemma cstring_intro m a s :
  backed m a (Z.of_nat (length s) + 1) -> Forall (fun c => c <> 0) s ->
  bytes_at m a (Z.of_nat (length s) + 1) = s ++ [0] -> cstring m a s.
Proof.
  intros B Hs Hb.
  assert (Hp : forall (i : nat) c, (s ++ [0]) !! i = Some c -> peek8 m (a + Z.of_nat i) = c).
  { intros i c Hi. pose proof (lookup_lt_Some _ _ _ Hi) as Hl. rewrite length_app in Hl. cbn in Hl.
    rewrite <- Hb, bytes_at_lookup in Hi by lia. by injection Hi. }
  split; [done | |].
  - intros i c Hi. split; [apply Hp; by apply lookup_app_l_Some|].
    by apply (proj1 (Forall_lookup _ s) Hs i).
  - apply Hp. rewrite lookup_app_r by lia. by rewrite Nat.sub_diag.
Qed.

(** The characters before the first NUL. *)
Fixpoint text (l : list Z) : list Z :=
  match l with
  | [] => []
  | c :: l => if c =? 0 then [] else c :: text l
  end.

Lemma text_prefix l : exists r, l = text l ++ r /\ (forall c, hd_error r = Some c -> c = 0).
Proof.
  induction l as [|c l (r & Hr & H0)]; [by exists []|]. cbn. destruct (Z.eqb_spec c 0) as [->|].
  - exists (0 :: l). split; [done|]. by intros c [= <-].
  - exists r. split; [|done]. cbn. by f_equal.
Qed.

Lemma text_nonzero l c : c ∈ text l -> c <> 0.
Proof.
  induction l as [|d l IH]; cbn; [by intros ?%elem_of_nil|].
  destruct (Z.eqb_spec d 0); [by intros ?%elem_of_nil|]. intros [->|]%elem_of_cons; [done | by apply IH].
Qed.

Lemma text_app l r : Forall (fun c => c <> 0) l -> text (l ++ r) = l ++ text r.
Proof. induction 1 as [|c l Hc _ IH]; [done|]. cbn. by rewrite (proj2 (Z.eqb_neq c 0)), IH. Qed.

(** A buffer with a NUL in it holds its text as a string. *)
Lemma cstring_text m a n l :
  backed m a n -> bytes_at m a n = l -> 0 ∈ l -> cstring m a (text l) /\ Z.of_nat (length (text l)) < n.
Proof.
  intros B Hl H0. destruct (text_prefix l) as (r & Hr & Hhd).
  pose proof (length_bytes_at m a n) as Hn. rewrite Hl in Hn.
  assert (Hne : exists r', r = 0 :: r').
  { destruct r as [|c r]; [|exists r; f_equal; by apply Hhd]. rewrite app_nil_r in Hr. rewrite Hr in H0.
    by apply text_nonzero in H0. }
  destruct Hne as [r' ->]. set (t := text l) in *. rewrite Hr, length_app in Hn. cbn [length] in Hn.
  assert (Hlt : Z.of_nat (length t) < n) by lia. split; [|done].
  assert (Hp : forall (i : nat) c, (t ++ [0]) !! i = Some c -> peek8 m (a + Z.of_nat i) = c).
  { intros i c Hi. pose proof (lookup_lt_Some _ _ _ Hi) as Hi'. rewrite length_app in Hi'. cbn in Hi'.
    assert (Hli : l !! i = Some c).
    { rewrite Hr. change (0 :: r') with ([0] ++ r'). rewrite app_assoc. by apply lookup_app_l_Some. }
    rewrite <- Hl, bytes_at_lookup in Hli by lia. by injection Hli. }
  split.
  - apply (backed_sub _ _ _ _ _ B); lia.
  - intros i c Hi. split; [apply Hp; by apply lookup_app_l_Some|].
    apply (text_nonzero l). by apply list_elem_of_lookup_2 in Hi.
  - apply Hp. rewrite lookup_app_r by lia. by rewrite Nat.sub_diag.
Qed.

(** ** Hexadecimal digits *)
Definition hex_digit (c : Z) : Z := if c <=? 57 then c - 48 else c - 55.
Definition hex_value (l : list Z) : Z := foldl (fun acc c => acc * 16 + hex_digit c) 0 l.

Lemma land_15 v : Z.land v 0xF = v mod 16.
Proof. change 0xF with (Z.ones 4). by rewrite Z.land_ones. Qed.

Lemma hex_char_digit v : hex_digit (hex_char v) = v mod 16 /\ hex_char v ∈ hex_chars /\ 0 <= hex_char v < 2 ^ 8.
Proof.
  unfold hex_char. rewrite land_15. pose proof (Z.mod_pos_bound v 16 ltac:(lia)) as Hr.
  remember (v mod 16) as r eqn:E. clear E.
  assert (Hn : (Z.to_nat r < 16)%nat) by lia.
  assert (Hz : r = Z.of_nat (Z.to_nat r)) by lia. rewrite Hz at 2. clear Hz Hr. revert Hn.
  generalize (Z.to_nat r). clear r. intros n Hn.
  do 16 (destruct n as [|n]; [split; [done|]; split; [by apply (bool_decide_unpack _); vm_compute | done]|]).
  lia.
Qed.

Lemma wp_hex_toa k m num str :
  0 <= k -> backed m str (k + 1) ->
  wp (hex_toa k m num str) (fun m' => mem_upd (region str (k + 1)) m m' /\
    forall j, 0 <= j <= k -> peek8 m' (str + j) = hex_char (Z.shiftr num (4 * (k - j)))).
Proof.
  intros Hk B. unfold hex_toa. wp_step.
  assert (Hput : forall m1 i v, 0 <= i <= k -> 0 <= v < 2 ^ 8 -> mem_upd (region str (k + 1)) m m1 ->
    backed m1 (str + i) 1 /\ mem_upd (region str (k + 1)) m (poke8 m1 (str + i) v) /\
    forall j, peek8 (poke8 m1 (str + i) v) (str + j) = if decide (j = i) then v else peek8 m1 (str + j)).
  { intros m1 i v Hi Hv U.
    assert (B1 : backed m1 (str + i) 1).
    { apply (mem_upd_backed _ _ _ _ _ U). apply (backed_sub _ _ _ _ _ B); lia. }
    split; [done|]. split.
    - etrans; [exact U|]. eapply mem_upd_mono; [by apply (mem_upd_poken 1)|]. unfold region. simpl. lia.
    - intros j. case_decide as Hj; [subst j|].
      + by rewrite (peekn_poken_eq 1), Z.mod_small.
      + by rewrite (peekn_poken_ne 1 1) by (simpl; lia). }
  eapply wp_mono.
  - apply (wp_for_range (fun i m' => mem_upd (region str (k + 1)) m m' /\
      forall j, 0 <= j < i -> peek8 m' (str + j) = hex_char (Z.shiftr num (4 * (k - j)))) (fun _ => False));
      [done | split; [done | lia] |].
    intros i m1 Hi [U Hj]. destruct (hex_char_digit (Z.shiftr num (4 * (k - i)))) as (_ & _ & Hr).
    destruct (Hput m1 i _ ltac:(lia) Hr U) as (B1 & U1 & P1). wp_step. apply (wp_storen 1); [exact B1|]. wp_ret.
    split; [done|]. intros j Hj'. rewrite P1. case_decide as He; [by subst j|]. apply Hj. lia.
  - intros [m1|r]; [|done]. intros [U Hj]. destruct (hex_char_digit num) as (_ & _ & Hr).
    destruct (Hput m1 k _ ltac:(lia) Hr U) as (B1 & U1 & P1). apply (wp_storen 1); [exact B1|].
    split; [done|]. intros j Hj'. rewrite P1. case_decide as He; [|apply Hj; lia].
    subst j. by rewrite Z.sub_diag.
Qed.

(** The digits of the leading places. *)
Lemma hex_value_digits k m num str i :
  0 <= i <= k + 1 -> 0 <= num < 16 ^ (k + 1) ->
  (forall j, 0 <= j <= k -> peek8 m (str + j) = hex_char (Z.shiftr num (4 * (k - j)))) ->
  hex_value (bytes_at m str i) = Z.shiftr num (4 * (k + 1 - i)).
Proof.
  intros [H0 Hi] Hn Hd. revert i H0 Hi. apply (natlike_ind (fun i => i <= k + 1 ->
    hex_value (bytes_at m str i) = Z.shiftr num (4 * (k + 1 - i)))).
  - intros Hk. cbn. rewrite Z.shiftr_div_pow2 by lia. symmetry. apply Z.div_small.
    rewrite Z.sub_0_r, Z.pow_mul_r by lia. done.
  - intros i H0 IH Hi. unfold bytes_at, hex_value in *. change (Z.succ i) with (i + 1) in *.
    rewrite seqZ_app by lia. rewrite fmap_app, foldl_app. rewrite IH by lia.
    change (seqZ (0 + i) 1) with [0 + i]. cbn [fmap list_fmap foldl]. rewrite Z.add_0_l, Hd by lia.
    rewrite (proj1 (hex_char_digit _)). rewrite !Z.shiftr_div_pow2 by lia.
    replace (4 * (k + 1 - i)) with (4 * (k - i) + 4) by lia. replace (k + 1 - (i + 1)) with (k - i) by lia.
    rewrite Z.pow_add_r, <- Z.div_div by lia. change (2 ^ 4) with 16.
    pose proof (Z.div_mod (num / 2 ^ (4 * (k - i))) 16). lia.
Qed.


(** ** The reference *)

(** A decimal number: the sign, then its digits, the first of them not zero. *)
Definition decimal (v : Z) : list Z :=
  (if v <? 0 then [45] else []) ++
  (if v =? 0 then [48] else
    (fun j => Z.abs v / 10 ^ j mod 10 + 48) <$> reverse (filter (fun j => 10 ^ j <= Z.abs v) (seqZ 0 10))).

(** The lowest [n] hexadecimal digits. *)
Definition hex (n v : Z) : list Z := (fun j => hex_char (Z.shiftr v (4 * (n - 1 - j)))) <$> seqZ 0 n.

(** A buffer after [l] has been written at its start. *)
Definition overwrite (l tmp : list Z) : list Z := l ++ drop (length l) tmp.

(** The conversions. *)
Inductive directive := Char | Decimal | Hex32 | Hex64 | Str | Nothing.

(** The conversion that a percent sign before [fmt] asks for, and the format after it. *)
Definition directive_of (fmt : list Z) : directive * list Z :=
  let c := hd 0 fmt in
  if c =? 99 then (Char, tl fmt)
  else if c =? 100 then (Decimal, tl fmt)
  else if c =? 120 then (Hex32, tl fmt)
  else if c =? 115 then (Str, tl fmt)
  else if negb (c =? 108) then (Nothing, fmt)
  else if negb (hd 0 (tl fmt) =? 108) then (Nothing, tl fmt)
  else if hd 0 (tl (tl fmt)) =? 120 then (Hex64, tl (tl (tl fmt)))
  else (Nothing, tl (tl fmt)).

Section reference.
Context (texts : Z -> option (list Z)).

(** What a conversion prints, and the arguments and the buffer it leaves. *)
Definition convert (d : directive) (args tmp : list Z) : option (list Z * list Z * list Z) :=
  match d, args with
  | Nothing, args => Some ([], args, tmp)
  | _, [] => None
  | Char, v :: args => Some ([u8 v], args, tmp)
  | Decimal, v :: args =>
      if s32 v =? - 2 ^ 31 then None else
      let tmp := overwrite (decimal (s32 v) ++ [0]) tmp in Some (text tmp, args, tmp)
  | Hex32, v :: args => let tmp := overwrite (hex 8 (u32 v)) tmp in Some (text tmp, args, tmp)
  | Hex64, v :: args => let tmp := overwrite (hex 16 v) tmp in Some (text tmp, args, tmp)
  | Str, v :: args => s ← texts v; Some (s, args, tmp)
  end.

(** What is printed: after a conversion the next character, or the final NUL, is copied
    without looking at it. *)
Fixpoint print (n : nat) (fmt args tmp : list Z) : option (list Z) :=
  match fmt, n with
  | [], _ => Some []
  | _, O => None
  | c :: fmt', S n =>
      if c =? 37 then
        let '(d, rest) := directive_of fmt' in
        '(out, args, tmp) ← convert d args tmp;
        tail ← print n (tl rest) args tmp;
        Some (out ++ hd 0 rest :: tail)
      else
        tail ← print n fmt' args tmp;
        Some (c :: tail)
  end.

Definition printed (fmt args : list Z) : option (list Z) :=
  print (length fmt) fmt args (replicate 32 0).
End reference.

(** ** The conversions into the buffer *)
Lemma decimal_digits v k :
  v <> 0 -> has_digits 10 10 (Z.abs v) k ->
  decimal v = (if v <? 0 then [45] else []) ++ reverse (digits 10 (Z.abs v) k).
Proof.
  intros Hv (Hk & H0 & H1). unfold decimal. rewrite (proj2 (Z.eqb_neq v 0)) by done. f_equal.
  unfold digits. rewrite <- fmap_reverse. f_equal. f_equal. set (n := Z.abs v) in *.
  assert (Hlt : n < 10 ^ Z.of_nat k).
  { destruct (Z.lt_ge_cases n (10 ^ Z.of_nat k)) as [|Hge]; [done|].
    assert (Hp : 0 < 10 ^ Z.of_nat k) by (apply Z.pow_pos_nonneg; lia).
    pose proof (Z.div_str_pos n _ (conj Hp Hge)). lia. }
  assert (Hle : 10 ^ (Z.of_nat k - 1) <= n).
  { destruct (Z.lt_ge_cases n (10 ^ (Z.of_nat k - 1))); [|done]. rewrite Z.div_small in H1 by lia. lia. }
  assert (Hseq : seqZ 0 10 = seqZ 0 (Z.of_nat k) ++ seqZ (0 + Z.of_nat k) (10 - Z.of_nat k))
    by (rewrite <- seqZ_app by lia; f_equal; lia).
  rewrite Hseq, filter_app.
  rewrite (list_filter_all _ (seqZ 0 (Z.of_nat k))); [rewrite (list_filter_none _ (seqZ _ _)); [by rewrite app_nil_r|]|].
  - apply Forall_forall. intros j Hj%elem_of_seqZ.
    pose proof (Z.pow_le_mono_r 10 (Z.of_nat k) j ltac:(lia) ltac:(lia)). lia.
  - apply Forall_forall. intros j Hj%elem_of_seqZ.
    pose proof (Z.pow_le_mono_r 10 j (Z.of_nat k - 1) ltac:(lia) ltac:(lia)). lia.
Qed.

Lemma length_decimal v : Z.of_nat (length (decimal v)) <= 11.
Proof.
  unfold decimal. rewrite length_app. destruct (v <? 0), (v =? 0); cbn [length]; try lia;
    rewrite length_fmap, length_reverse;
    pose proof (length_filter (fun j => 10 ^ j <= Z.abs v) (seqZ 0 10)) as H;
    change (length (seqZ 0 10)) with 10%nat in H; lia.
Qed.

Lemma length_hex n v : 0 <= n -> Z.of_nat (length (hex n v)) = n.
Proof. intros Hn. unfold hex. rewrite length_fmap, length_seqZ. lia. Qed.

Lemma hex_chars_in n v : Forall (fun c => c ∈ hex_chars) (hex n v).
Proof. unfold hex. apply Forall_fmap, Forall_forall. intros j _. apply hex_char_digit. Qed.

(** The digits are the text if no character is left after them. *)
Lemma text_hex n v tmp :
  0 <= n -> text (drop (Z.to_nat n) tmp) = [] -> text (overwrite (hex n v) tmp) = hex n v.
Proof.
  intros Hn Ht. pose proof (length_hex n v Hn). unfold overwrite. rewrite text_app.
  - replace (length (hex n v)) with (Z.to_nat n) by lia. by rewrite Ht, app_nil_r.
  - eapply Forall_impl; [apply hex_chars_in|]. intros c Hc ->. apply list_elem_of_In in Hc. cbn in Hc. lia.
Qed.

(** A buffer of 32 characters: its second half is never used. *)
Definition tmp_ok (tmp : list Z) : Prop := length tmp = 32%nat /\ drop 16 tmp = replicate 16 0.

Lemma tmp_ok_nul tmp : tmp_ok tmp -> 0 ∈ tmp.
Proof.
  intros [_ Hd]. apply list_elem_of_lookup. exists 16%nat.
  by rewrite <- (Nat.add_0_r 16), <- lookup_drop, Hd.
Qed.

Lemma tmp_ok_overwrite l tmp : (length l <= 16)%nat -> tmp_ok tmp -> tmp_ok (overwrite l tmp).
Proof.
  intros Hl [H32 Hd]. unfold overwrite. split.
  - rewrite length_app, length_drop. lia.
  - rewrite drop_app_ge by done. rewrite drop_drop. by replace (length l + (16 - length l))%nat with 16%nat by lia.
Qed.

(** The start of a buffer has been written. *)
Lemma bytes_overwrite P m m' a n l :
  Z.of_nat (length l) <= n -> mem_upd P m m' -> (forall x, region a n x -> P x -> region a (Z.of_nat (length l)) x) ->
  bytes_at m' a (Z.of_nat (length l)) = l -> bytes_at m' a n = overwrite l (bytes_at m a n).
Proof.
  intros Hn U HP Hl. unfold overwrite.
  replace n with (Z.of_nat (length l) + (n - Z.of_nat (length l))) by lia.
  rewrite !bytes_at_app, Hl by lia. f_equal.
  rewrite drop_app_ge; pose proof (length_bytes_at m a (Z.of_nat (length l))); [|lia].
  replace (length l - _)%nat with 0%nat by lia. rewrite drop_0.
  apply (bytes_at_upd P m m' _ _ U). intros x Hx Hpx.
  specialize (HP x ltac:(unfold region in *; lia) Hpx). unfold region in *. lia.
Qed.

(** A string, its NUL included. *)
Lemma cstring_bytes m a s : cstring m a s -> bytes_at m a (Z.of_nat (length (s ++ [0]))) = s ++ [0].
Proof.
  intros C. apply bytes_at_eq. intros i c Hi. apply lookup_app_Some in Hi as [Hi|[Hge Hi]].
  - by apply (cs_char _ _ _ C).
  - apply list_lookup_singleton_Some in Hi as [Hi <-].
    replace i with (length s) by lia. apply (cs_end _ _ _ C).
Qed.

(** copy_out appends a string to the output. *)
Lemma wp_copy_out fuel m src str written s :
  cstring m src s -> Z.of_nat (length s) <= Z.of_nat fuel -> 0 <= written ->
  written + Z.of_nat (length s) < 2 ^ 31 -> backed m (str + written) (Z.of_nat (length s)) ->
  (forall x, region src (Z.of_nat (length s) + 1) x -> ~ region (str + written) (Z.of_nat (length s)) x) ->
  wp (copy_out fuel m src str written) (fun '(m', w) =>
    w = written + Z.of_nat (length s) /\ mem_upd (region (str + written) (Z.of_nat (length s))) m m' /\
    bytes_at m' (str + written) (Z.of_nat (length s)) = s).
Proof.
  intros C Hf Hw Hlen B Hd. unfold copy_out. set (n := Z.of_nat (length s)) in *. wp_step.
  set (I := fun '(m', c, w) => 0 <= c <= n /\ w = written + c /\
    mem_upd (region (str + written) n) m m' /\ bytes_at m' (str + written) c = take (Z.to_nat c) s).
  assert (C' : forall m', mem_upd (region (str + written) n) m m' -> cstring m' src s)
    by (intros m' U; by apply (cstring_upd _ m m' src s U)).
  eapply wp_mono.
  - apply (wp_while I (fun _ => False) (fun '(_, c, _) => n - c)); [lia | |].
    + split; [lia|]. split; [lia|]. done.
    + intros [[m' c] w] (Hc & -> & U & Hb). wp_step.
      eapply wp_mono; [apply (wp_strlen fuel m' src s (C' m' U)); lia|]. intros ? ->. fold n. wp_ret.
      destruct (Z.ltb_spec c n) as [Hlt|]; [|done]. split; [lia|].
      destruct (lookup_lt_is_Some_2 s (Z.to_nat c)) as [ch Hch]; [lia|].
      destruct (cs_char _ _ _ (C' m' U) _ _ Hch) as [Hp _]. rewrite Z2Nat.id in Hp by lia.
      assert (B1 : backed m' (str + (written + c)) 1).
      { apply (mem_upd_backed _ _ _ _ _ U). apply (backed_sub _ _ _ _ _ B); lia. }
      wp_step. apply (wp_loadn 1); [apply (cs_backed1 m' src s); [by apply C' | lia]|].
      wp_step. apply (wp_storen 1); [exact B1|]. wp_ret. rewrite Hp.
      pose proof (mem_upd_poken 1 m' (str + (written + c)) ch B1) as U1.
      assert (Hr : 0 <= ch < 2 ^ 8) by (rewrite <- Hp; apply peek8_range).
      rewrite u64_small by lia. split; [|lia]. split; [lia|]. split; [unfold s32; rewrite Z.mod_small; lia|]. split.
      * etrans; [exact U|]. eapply mem_upd_mono; [exact U1|]. unfold region. simpl. lia.
      * rewrite bytes_at_app by lia. rewrite (bytes_at_upd _ _ _ _ _ U1) by (unfold region; simpl; lia).
        rewrite Hb, <- Z.add_assoc, bytes_at_store by done.
        replace (Z.to_nat (c + 1)) with (S (Z.to_nat c)) by lia. by rewrite (take_S_r _ _ _ Hch).
  - intros [[[m' c] w]|r]; [|done]. intros [(Hc & -> & U & Hb) Hend].
    pose proof (wp_strlen fuel m' src s (C' m' U) ltac:(lia) Hf) as Hs.
    apply wp_inv in Hs as (n' & Hs & ->). rewrite Hs in Hend. cbn in Hend.
    injection Hend as Hend%Z.ltb_ge. wp_ret. fold n in Hend. assert (c = n) as -> by lia.
    split; [done|]. split; [done|]. rewrite Hb. apply take_ge. lia.
Qed.

(** ** vsprintf *)
Section vsprintf.
Context (texts : Z -> option (list Z)) (fmt : list Z) (m0 : mem) (len : Z).
Context (fuel : nat) (zero rev temp str format : Z).

(** The addresses vsprintf writes to, an output of [len] characters. *)
Definition writes (x : Z) : Prop := region str len x \/ region temp 32 x \/ region rev 12 x.

(** Memory laid out for a call: the three buffers are apart, and apart from the format,
    the literal of itoa and the strings passed. *)
Record laid_out : Prop := {
  lo_str : backed m0 str len;
  lo_temp : backed m0 temp 32;
  lo_rev : backed m0 rev 12;
  lo_apart : (str + len <= temp \/ temp + 32 <= str) /\ (str + len <= rev \/ rev + 12 <= str) /\
    (temp + 32 <= rev \/ rev + 12 <= temp);
  lo_format : cstring m0 format fmt /\ (forall x, region format (Z.of_nat (length fmt) + 1) x -> ~ writes x);
  lo_zero : cstring m0 zero [48] /\ (forall x, region zero 2 x -> ~ writes x);
  lo_texts v s : texts v = Some s -> cstring m0 v s /\ Z.of_nat (length s) <= Z.of_nat fuel /\
    (forall x, region v (Z.of_nat (length s) + 1) x -> ~ writes x);
  lo_len : 0 <= len < 2 ^ 31;
  lo_fuel : Z.of_nat (length fmt) + 1 <= Z.of_nat fuel /\ Z.of_nat (length fmt) + 2 < 2 ^ 64 /\ (34 <= fuel)%nat
}.
Context (L : laid_out).

(** Memory in the middle of the call: what is in the buffer. *)
Definition buffered (m : mem) (tmp : list Z) : Prop :=
  mem_upd writes m0 m /\ bytes_at m temp 32 = tmp /\ tmp_ok tmp.

(** [out] has been appended to the output. *)
Definition appended (m : mem) (written : Z) (out : list Z) (m' : mem) (tmp' : list Z) : Prop :=
  buffered m' tmp' /\
  bytes_at m' str (written + Z.of_nat (length out)) = bytes_at m str written ++ out.

Lemma fmt_char m i :
  mem_upd writes m0 m -> 0 <= i <= Z.of_nat (length fmt) ->
  load8 m (format + i) = Ok (hd 0 (drop (Z.to_nat i) fmt)) /\
  (hd 0 (drop (Z.to_nat i) fmt) <> 0 -> i < Z.of_nat (length fmt)).
Proof using L.
  intros U Hi. destruct (lo_format L) as [C0 D]. pose proof (cstring_upd _ _ _ _ _ U D C0) as C.
  rewrite loadn_ok by (by apply (cs_backed1 m format fmt)).
  destruct (cs_peek m format fmt i C Hi) as [-> _].
  assert (Hhd : hd 0 (drop (Z.to_nat i) fmt) = default 0 (fmt !! Z.to_nat i)).
  { rewrite <- (Nat.add_0_r (Z.to_nat i)), <- lookup_drop, Nat.add_0_r. by destruct (drop _ fmt). }
  rewrite Hhd. split; [done|]. intros Hne. destruct (decide (i = Z.of_nat (length fmt))); [|lia].
  rewrite lookup_ge_None_2 in Hne by lia. done.
Qed.

(** One character is appended. *)
Lemma wp_put_char m written c tmp :
  buffered m tmp -> 0 <= written < len ->
  wp (store8 m (str + written) c) (fun m' => appended m written [u8 c] m' tmp).
Proof using L.
  intros (U & Ht & Hok) Hw. destruct L as [Bs _ _ (A1 & A2 & _) _ _ _ _ _].
  assert (B1 : backed m (str + written) 1).
  { apply (mem_upd_backed _ _ _ _ _ U). apply (backed_sub _ _ _ _ _ Bs); lia. }
  apply (wp_storen 1); [exact B1|]. pose proof (mem_upd_poken 1 m (str + written) c B1) as U1.
  split; [split; [|split; [|done]]|].
  - etrans; [exact U|]. eapply mem_upd_mono; [exact U1|]. unfold writes, region. simpl. lia.
  - rewrite <- Ht. apply (bytes_at_upd _ _ _ _ _ U1). unfold region. simpl. lia.
  - cbn [length]. rewrite bytes_at_app by lia.
    rewrite (bytes_at_upd _ _ _ _ _ U1) by (unfold region; simpl; lia). f_equal.
    unfold bytes_at. change (seqZ 0 (Z.of_nat 1)) with [0]. cbn [fmap list_fmap].
    by rewrite Z.add_0_r, (peekn_poken_eq 1).
Qed.

(** A string is appended. *)
Lemma wp_put_string m written src s tmp :
  buffered m tmp -> cstring m src s -> Z.of_nat (length s) <= Z.of_nat fuel ->
  0 <= written -> written + Z.of_nat (length s) <= len ->
  (forall x, region src (Z.of_nat (length s) + 1) x -> ~ region str len x) ->
  wp (copy_out fuel m src str written) (fun '(m', w) =>
    w = written + Z.of_nat (length s) /\ appended m written s m' tmp).
Proof using L.
  intros (U & Ht & Hok) C Hf Hw Hlen D. destruct L as [Bs _ _ (A1 & A2 & _) _ _ _ Hl _].
  eapply wp_mono.
  { apply (wp_copy_out fuel m src str written s C); [done | done | lia | |].
    - apply (mem_upd_backed _ _ _ _ _ U). apply (backed_sub _ _ _ _ _ Bs); lia.
    - intros x Hx Hr. apply (D x Hx). unfold region in *. lia. }
  intros [m' w] (-> & U1 & Hb). split; [done|]. split; [split; [|split; [|done]]|].
  - etrans; [exact U|]. eapply mem_upd_mono; [exact U1|]. unfold writes, region. lia.
  - rewrite <- Ht. apply (bytes_at_upd _ _ _ _ _ U1). unfold region. lia.
  - rewrite bytes_at_app, Hb by lia. f_equal. apply (bytes_at_upd _ _ _ _ _ U1). unfold region. lia.
Qed.

(** A conversion into the buffer, and its text. *)
Definition fills (toa : mem -> res mem) (m : mem) (tmp' : list Z) : Prop :=
  wp (toa m) (fun m1 => mem_upd (fun x => region temp 32 x \/ region rev 12 x) m m1 /\
    bytes_at m1 temp 32 = tmp').

Lemma wp_put_temp toa m i0 i written v arg tmp tmp' :
  buffered m tmp -> tmp_ok tmp' -> fills (fun m => toa m v) m tmp' ->
  0 <= written -> written + Z.of_nat (length (text tmp')) <= len ->
  wp (put_temp fuel temp str toa (m, i0, written, v :: arg) i) (fun '(m', i', w, arg') =>
    i' = i /\ arg' = arg /\ w = written + Z.of_nat (length (text tmp')) /\
    appended m written (text tmp') m' tmp').
Proof using L.
  intros (U & Ht & Hok) Hok' Htoa Hw Hlen. pose proof (lo_apart L) as (A1 & A2 & A3). unfold put_temp, va_arg.
  cbn [mbind res_bind]. wp_step. eapply wp_mono; [exact Htoa|]. intros m1 (U1 & Ht1). wp_step.
  assert (U' : mem_upd writes m0 m1).
  { etrans; [exact U|]. eapply mem_upd_mono; [exact U1|]. unfold writes. tauto. }
  destruct (cstring_text m1 temp 32 tmp') as [C Hl32]; [|done|by apply tmp_ok_nul|].
  { apply (mem_upd_backed _ _ _ _ _ U'), (lo_temp L). }
  eapply wp_mono.
  { apply (wp_put_string m1 written temp (text tmp') tmp'); [done | done | | done | done |].
    - pose proof (lo_fuel L). lia.
    - unfold region. lia. }
  intros [m' w] (-> & Hb & Happ). wp_ret. split; [done|]. split; [done|]. split; [done|]. split; [done|].
  rewrite Happ. f_equal. apply (bytes_at_upd _ _ _ _ _ U1). unfold region. lia.
Qed.

Lemma fills_start toa m tmp l n :
  buffered m tmp -> Z.of_nat (length l) = n -> n <= 16 ->
  wp (toa m) (fun m1 => mem_upd (fun x => region temp n x \/ region rev 12 x) m m1 /\ bytes_at m1 temp n = l) ->
  fills toa m (overwrite l tmp).
Proof using L.
  intros (U & Ht & Hok) <- Hn H. eapply wp_mono; [exact H|]. intros m1 [U1 Hb].
  pose proof (lo_apart L) as (_ & _ & A3). split.
  - eapply mem_upd_mono; [exact U1|]. unfold region. lia.
  - rewrite <- Ht. eapply (bytes_overwrite _ m m1 temp 32 l); [lia | exact U1 | | exact Hb].
    cbv beta. unfold region. lia.
Qed.

Lemma fills_hex m tmp k v :
  buffered m tmp -> 0 <= k <= 15 -> fills (fun m => hex_toa k m v temp) m (overwrite (hex (k + 1) v) tmp).
Proof using L.
  intros HB Hk. pose proof HB as (U & _ & _).
  apply (fills_start _ m tmp _ (k + 1)); [done | by apply length_hex; lia | lia |].
  eapply wp_mono.
  { apply wp_hex_toa; [lia|]. apply (mem_upd_backed _ _ _ _ _ U). apply (backed_sub _ _ _ _ _ (lo_temp L)); lia. }
  intros m1 [U1 Hd]. split; [eapply mem_upd_mono; [exact U1|]; tauto|].
  unfold bytes_at, hex. apply list_fmap_ext. intros i j Hj. apply lookup_seqZ in Hj as [-> Hi].
  rewrite Hd by lia. do 3 f_equal. lia.
Qed.

Lemma fills_decimal m tmp v :
  buffered m tmp -> s32 v <> - 2 ^ 31 ->
  fills (fun m => '(_, m) ← itoa fuel zero rev m (s32 v) temp 10; Ok m) m (overwrite (decimal (s32 v) ++ [0]) tmp).
Proof using L.
  intros HB Hv. pose proof HB as (U & _ & _). pose proof (lo_apart L) as (_ & _ & A3).
  assert (Hr : Z.abs (s32 v) < 2 ^ 31) by (unfold s32 in *; zlia).
  set (n := s32 v) in *. pose proof (length_decimal n) as Hl11.
  apply (fills_start _ m tmp _ (Z.of_nat (length (decimal n ++ [0])))); [done | done | rewrite length_app; cbn [length]; lia |].
  assert (Bt : backed m temp 12).
  { apply (mem_upd_backed _ _ _ _ _ U). apply (backed_sub _ _ _ _ _ (lo_temp L)); lia. }
  wp_step. destruct (decide (n = 0)) as [Hn|Hn].
  - rewrite Hn. unfold itoa. cbn [Z.eqb]. destruct (lo_zero L) as [Cz Dz].
    pose proof (cstring_upd _ _ _ zero [48] U Dz Cz) as C. wp_step.
    assert (Dz' : forall x, region zero 2 x -> ~ region temp 32 x) by (intros x Hx Hr'; apply (Dz x Hx); unfold writes; tauto).
    eapply wp_mono.
    { apply (wp_strcpy fuel m temp zero [48] C); cbn [length];
        [apply (backed_sub _ _ _ _ _ Bt); lia | | lia |].
      - pose proof (Dz' zero) as D1. pose proof (Dz' (zero + 1)) as D2. unfold region in *. lia.
      - pose proof (lo_fuel L). lia. }
    intros [p m1] (_ & U1 & C1). wp_ret. split.
    + eapply mem_upd_mono; [exact U1|]. change (decimal 0 ++ [0]) with [48; 0]. cbn [length]. unfold region. lia.
    + exact (cstring_bytes _ _ _ C1).
  - eapply wp_mono.
    { destruct (lo_fuel L) as (_ & _ & Hf).
      apply (wp_itoa_digit_text fuel zero rev temp 10 m Hf ltac:(lia) 10 ltac:(lia) ltac:(done)); [done | | lia..].
      apply (mem_upd_backed _ _ _ _ _ U), (lo_rev L). }
    intros [p m1] (_ & k & Hk & C & U1). wp_ret. rewrite <- (decimal_digits n k Hn Hk) in C, U1. split.
    + eapply mem_upd_mono; [exact U1|]. rewrite length_app. cbn [length]. unfold itoa_writes, region. lia.
    + exact (cstring_bytes _ _ _ C).
Qed.

(** Matching on characters. *)
Lemma match_directive {A} (c : Z) (a99 a100 a120 a108 a115 d : A) :
  match c with 99 => a99 | 100 => a100 | 120 => a120 | 108 => a108 | 115 => a115 | _ => d end =
  if c =? 99 then a99 else if c =? 100 then a100 else if c =? 120 then a120
  else if c =? 115 then a115 else if negb (c =? 108) then d else a108.
Proof. destruct c as [|p|p]; try done. do 7 (destruct p as [p|p|]; try done). Qed.

Lemma match_l {A} (c : Z) (a d : A) : match c with 108 => a | _ => d end = if negb (c =? 108) then d else a.
Proof. destruct c as [|p|p]; try done. do 7 (destruct p as [p|p|]; try done). Qed.

Lemma match_x {A} (c : Z) (a d : A) : match c with 120 => a | _ => d end = if c =? 120 then a else d.
Proof. destruct c as [|p|p]; try done. do 7 (destruct p as [p|p|]; try done). Qed.

Lemma drop_tl {A} (l : list A) i : 0 <= i -> tl (drop (Z.to_nat i) l) = drop (Z.to_nat (i + 1)) l.
Proof.
  intros Hi. replace (Z.to_nat (i + 1)) with (Z.to_nat i + 1)%nat by lia. rewrite <- drop_drop.
  by destruct (drop (Z.to_nat i) l).
Qed.

(** What a conversion does. *)
Definition converted (m : mem) (written : Z) (d : directive) (arg tmp : list Z) (i' : Z) (c : res vs_state) : Prop :=
  forall out arg' tmp', convert texts d arg tmp = Some (out, arg', tmp') ->
  written + Z.of_nat (length out) <= len ->
  wp c (fun '(m', j, w, arg'') => j = i' /\ arg'' = arg' /\ w = written + Z.of_nat (length out) /\
    appended m written out m' tmp').

Section conversions.
Context (m : mem) (written : Z) (tmp : list Z) (HB : buffered m tmp) (Hw : 0 <= written).

Lemma converted_nothing arg i : converted m written Nothing arg tmp i (Ok (m, i, written, arg)).
Proof using HB.
  intros out arg' tmp' [= <- <- <-] _. do 2 (split; [done|]). split; [cbn; lia|].
  split; [done|]. by rewrite app_nil_r, Z.add_0_r.
Qed.

Lemma converted_char arg i :
  converted m written Char arg tmp i
    ('(v, arg) ← va_arg arg; m ← store8 m (str + written) (u8 v); Ok (m, i, s32 (written + 1), arg)).
Proof using L HB Hw.
  intros out arg' tmp' Hcv Hl. destruct arg as [|v arg]; [done|]. injection Hcv as <- <- <-. cbn [length] in *.
  cbn [va_arg mbind res_bind]. wp_step. eapply wp_mono; [apply (wp_put_char m written (u8 v) tmp HB); lia|].
  intros m' Ha. wp_ret. do 2 (split; [done|]). pose proof (lo_len L). split.
  - unfold s32. rewrite Z.mod_small; lia.
  - revert Ha. unfold u8. by rewrite Z.mod_mod by lia.
Qed.

Lemma converted_string arg i :
  converted m written Str arg tmp i
    ('(s, arg) ← va_arg arg; '(m, written) ← copy_out fuel m s str written; Ok (m, i, written, arg)).
Proof using L HB Hw.
  intros out arg' tmp' Hcv Hl. destruct arg as [|v arg]; [done|]. cbn [convert] in Hcv.
  destruct (texts v) as [s|] eqn:Hs; [|done]. injection Hcv as <- <- <-. cbn [va_arg mbind res_bind]. wp_step.
  destruct (lo_texts L v s Hs) as (C & Hf & D). pose proof HB as (U & _ & _).
  eapply wp_mono.
  { apply (wp_put_string m written v s tmp HB); [by apply (cstring_upd _ _ _ _ _ U D) | done | done | done |].
    intros x Hx Hr. apply (D x Hx). by left. }
  intros [m' w] (-> & Ha). wp_ret. done.
Qed.

(** The conversions by way of the buffer. *)
Lemma converted_temp d toa arg i0 i :
  d <> Nothing ->
  (forall v arg' out arg'' tmp', arg = v :: arg' -> convert texts d arg tmp = Some (out, arg'', tmp') ->
     out = text tmp' /\ arg'' = arg' /\ tmp_ok tmp' /\ fills (fun m => toa m v) m tmp') ->
  converted m written d arg tmp i (put_temp fuel temp str toa (m, i0, written, arg) i).
Proof using L HB Hw.
  intros Hd Htoa out arg' tmp' Hcv Hl. destruct arg as [|v arg]; [by destruct d|].
  destruct (Htoa v arg out arg' tmp' eq_refl Hcv) as (-> & -> & Hok' & Hf).
  by apply (wp_put_temp toa m i0 i written v arg tmp tmp').
Qed.

Lemma converted_decimal arg i0 i :
  converted m written Decimal arg tmp i
    (put_temp fuel temp str (fun m v => '(_, m) ← itoa fuel zero rev m (s32 v) temp 10; Ok m) (m, i0, written, arg) i).
Proof using L HB Hw.
  apply converted_temp; [done|]. intros v arg' out arg'' tmp' -> Hcv. cbn [convert] in Hcv.
  destruct (Z.eqb_spec (s32 v) (- 2 ^ 31)) as [|Hv]; [done|]. injection Hcv as <- <- <-.
  do 2 (split; [done|]). split; [|by apply fills_decimal].
  apply tmp_ok_overwrite; [|apply HB]. pose proof (length_decimal (s32 v)). rewrite length_app. cbn [length]. lia.
Qed.

Lemma converted_hex32 arg i0 i :
  converted m written Hex32 arg tmp i
    (put_temp fuel temp str (fun m v => x32toa m (u32 v) temp) (m, i0, written, arg) i).
Proof using L HB Hw.
  apply converted_temp; [done|]. intros v arg' out arg'' tmp' -> Hcv.
  apply (inj Some), pair_eq in Hcv as [[<- <-]%pair_eq <-].
  do 2 (split; [done|]). split; [|by apply (fills_hex m tmp 7 (u32 v))].
  apply tmp_ok_overwrite; [|apply HB]. pose proof (length_hex 8 (u32 v) ltac:(done)). lia.
Qed.

Lemma converted_hex64 arg i0 i :
  converted m written Hex64 arg tmp i
    (put_temp fuel temp str (fun m v => x64toa m v temp) (m, i0, written, arg) i).
Proof using L HB Hw.
  apply converted_temp; [done|]. intros v arg' out arg'' tmp' -> Hcv.
  apply (inj Some), pair_eq in Hcv as [[<- <-]%pair_eq <-].
  do 2 (split; [done|]). split; [|by apply (fills_hex m tmp 15 v)].
  apply tmp_ok_overwrite; [|apply HB]. pose proof (length_hex 16 v ltac:(done)). lia.
Qed.

(** The next character of the format. *)
Lemma next_char i :
  0 <= i <= Z.of_nat (length fmt) -> let c := hd 0 (drop (Z.to_nat i) fmt) in
  load8 m (format + i) = Ok c /\
  (forall k, c = k -> k <> 0 -> u64 (i + 1) = i + 1 /\ 0 <= i + 1 <= Z.of_nat (length fmt)).
Proof using L HB.
  intros Hi c. destruct (fmt_char m i (proj1 HB) Hi) as [Hc Hlt]. split; [done|].
  intros k Hk H0. destruct (lo_fuel L) as (_ & Hl & _). fold c in Hlt.
  specialize (Hlt ltac:(congruence)). rewrite u64_small; lia.
Qed.

Lemma wp_conversion i arg :
  0 <= i <= Z.of_nat (length fmt) ->
  let d := directive_of (drop (Z.to_nat i) fmt) in
  exists i', i <= i' <= Z.of_nat (length fmt) /\ d.2 = drop (Z.to_nat i') fmt /\
    converted m written d.1 arg tmp i' (conversion fuel zero rev temp str format (m, i, written, arg)).
Proof using L HB Hw.
  intros Hi. cbv zeta. unfold conversion, directive_of.
  destruct (next_char i Hi) as [-> Hn]. cbn [mbind res_bind]. rewrite match_directive, drop_tl by lia.
  set (c := hd 0 _) in *.
  destruct (Z.eqb_spec c 99) as [E|_].
  { destruct (Hn _ E ltac:(done)) as [-> Hi1]. exists (i + 1). split; [lia|]. split; [done|]. apply converted_char. }
  destruct (Z.eqb_spec c 100) as [E|_].
  { destruct (Hn _ E ltac:(done)) as [-> Hi1]. exists (i + 1). split; [lia|]. split; [done|]. apply converted_decimal. }
  destruct (Z.eqb_spec c 120) as [E|_].
  { destruct (Hn _ E ltac:(done)) as [-> Hi1]. exists (i + 1). split; [lia|]. split; [done|]. apply converted_hex32. }
  destruct (Z.eqb_spec c 115) as [E|_].
  { destruct (Hn _ E ltac:(done)) as [-> Hi1]. exists (i + 1). split; [lia|]. split; [done|]. apply converted_string. }
  destruct (Z.eqb_spec c 108) as [E|_]; cbn [negb].
  2: { exists i. split; [lia|]. split; [done|]. apply converted_nothing. }
  destruct (Hn _ E ltac:(done)) as [-> Hi1]. clear E Hn c.
  destruct (next_char (i + 1) Hi1) as [-> Hn]. cbn [mbind res_bind]. rewrite match_l, drop_tl by lia.
  set (c := hd 0 _) in *. destruct (Z.eqb_spec c 108) as [E|_]; cbn [negb].
  2: { exists (i + 1). split; [lia|]. split; [done|]. apply converted_nothing. }
  destruct (Hn _ E ltac:(done)) as [-> Hi2]. clear E Hn c.
  destruct (next_char (i + 1 + 1) Hi2) as [-> Hn]. cbn [mbind res_bind]. rewrite match_x, drop_tl by lia.
  set (c := hd 0 _) in *. destruct (Z.eqb_spec c 120) as [E|_].
  - destruct (Hn _ E ltac:(done)) as [-> Hi3]. exists (i + 1 + 1 + 1). split; [lia|]. split; [done|]. apply converted_hex64.
  - exists (i + 1 + 1). split; [lia|]. split; [done|]. apply converted_nothing.
Qed.
End conversions.

(** ** The loop *)
Lemma appended_trans m w o1 m1 t1 o2 m2 t2 :
  appended m w o1 m1 t1 -> appended m1 (w + Z.of_nat (length o1)) o2 m2 t2 -> appended m w (o1 ++ o2) m2 t2.
Proof using Type.
  intros [_ H1] [HB H2]. split; [done|]. rewrite length_app, Nat2Z.inj_add, Z.add_assoc, H2, H1.
  by rewrite app_assoc.
Qed.

(** In the middle of the loop: what is still to be printed. *)
Definition to_print (out : list Z) (st : vs_state) (rest : list Z) : Prop :=
  let '(m, i, written, arg) := st in
  0 <= i <= Z.of_nat (length fmt) + 1 /\ 0 <= written /\ written + Z.of_nat (length rest) = len /\
  bytes_at m str written ++ rest = out /\
  exists tmp n, buffered m tmp /\ print texts n (drop (Z.to_nat i) fmt) arg tmp = Some rest.

Lemma hd_char m i : mem_upd writes m0 m -> 0 <= i <= Z.of_nat (length fmt) ->
  u8 (hd 0 (drop (Z.to_nat i) fmt)) = hd 0 (drop (Z.to_nat i) fmt).
Proof using L.
  intros U Hi. destruct (fmt_char m i U Hi) as [Hc _].
  rewrite loadn_ok in Hc; [injection Hc as <-; apply Z.mod_small, peek8_range|].
  destruct (lo_format L) as [C D]. by apply (cs_backed1 m format fmt _ (cstring_upd _ _ _ _ _ U D C)).
Qed.

(** Copying the character at [i]. *)
Lemma wp_copy_char out m i written arg tmp n tail :
  buffered m tmp -> 0 <= i <= Z.of_nat (length fmt) -> 0 <= written ->
  print texts n (tl (drop (Z.to_nat i) fmt)) arg tmp = Some tail ->
  written + Z.of_nat (length (hd 0 (drop (Z.to_nat i) fmt) :: tail)) = len ->
  bytes_at m str written ++ hd 0 (drop (Z.to_nat i) fmt) :: tail = out ->
  wp (c ← load8 m (format + i); m ← store8 m (str + written) c;
      Ok (inl (m, u64 (i + 1), s32 (written + 1), arg)))
    (loop_post (fun st' => to_print out st' tail /\ st'.1.1.2 = i + 1) (fun _ : Z * mem => False)).
Proof using L.
  intros HB Hi Hw Hp Hlen Hout. pose proof HB as (U & _ & _). destruct (fmt_char m i U Hi) as [-> _].
  pose proof (lo_fuel L) as (_ & Hlf & _). pose proof (lo_len L). cbn [length mbind res_bind] in *. wp_step.
  eapply wp_mono; [apply (wp_put_char m written _ tmp HB); lia|]. intros m' [HB' Ha]. wp_ret.
  rewrite (hd_char m i U Hi) in Ha. rewrite u64_small by lia.
  assert (Hs : s32 (written + 1) = written + 1) by (unfold s32; rewrite Z.mod_small; lia). rewrite Hs.
  split; [|done]. split; [lia|]. split; [lia|]. split; [lia|]. split.
  - cbn [length] in Ha. change (Z.of_nat 1) with 1 in Ha. rewrite Ha, <- app_assoc. exact Hout.
  - exists tmp, n. split; [done|]. by rewrite <- drop_tl by lia.
Qed.

Lemma wp_vsprintf_step out m i written arg rest :
  to_print out (m, i, written, arg) rest -> i < Z.of_nat (length fmt) ->
  wp (vsprintf_step fuel zero rev temp str format (m, i, written, arg))
    (loop_post (fun st' => (exists rest', to_print out st' rest') /\ i + 1 <= st'.1.1.2) (fun _ : Z * mem => False)).
Proof using L.
  intros (Hi & Hw & Hlen & Hout & tmp & n & HB & Hp) Hlt. pose proof HB as (U & _ & _). unfold vsprintf_step.
  destruct (fmt_char m i U ltac:(lia)) as [Hc _]. rewrite Hc. cbn [mbind res_bind].
  destruct (lookup_lt_is_Some_2 fmt (Z.to_nat i)) as [c Hch]; [lia|].
  pose proof (drop_S _ _ _ Hch) as Hd. rewrite Hd in Hp |- *. cbn [hd].
  replace (S (Z.to_nat i)) with (Z.to_nat (i + 1)) in * by lia.
  destruct n as [|n]; [done|]. cbn [print] in Hp.
  destruct (Z.eqb_spec c 37) as [_|_].
  - rewrite u64_small by (pose proof (lo_fuel L); lia).
    destruct (wp_conversion m written tmp HB Hw (i + 1) arg ltac:(lia)) as (i' & Hi' & Hrest & Hcv).
    destruct (directive_of (drop (Z.to_nat (i + 1)) fmt)) as [d rest0]. cbn [fst snd] in *. subst rest0.
    destruct (convert texts d arg tmp) as [[[o arg'] tmp']|] eqn:Ecv; [|done]. cbn in Hp.
    destruct (print texts n _ arg' tmp') as [tail|] eqn:Et; [|done]. cbn in Hp. injection Hp as <-.
    rewrite length_app in Hlen. wp_step. eapply wp_mono; [apply (Hcv o arg' tmp' Ecv); lia|].
    intros [[[m' j] w] arg''] (-> & -> & -> & HB' & Ha). eapply wp_mono.
    { apply (wp_copy_char out m' i' _ arg' tmp' n tail HB'); [lia | lia | done | lia |].
      rewrite Ha, <- app_assoc. exact Hout. }
    intros [st'|]; [|done]. intros [Hst' He]. split; [by exists tail | lia].
  - destruct (print texts n _ arg tmp) as [tail|] eqn:Et; [|done]. cbn in Hp. injection Hp as <-.
    cbn [mbind res_bind]. eapply wp_mono.
    { apply (wp_copy_char out m i written arg tmp n tail HB ltac:(lia) Hw); rewrite Hd; done. }
    intros [st'|]; [|done]. intros [Hst' He]. split; [by exists tail | lia].
Qed.

Lemma wp_vsprintf arg out :
  printed texts fmt arg = Some out -> Z.of_nat (length out) = len ->
  wp (vsprintf fuel zero rev temp str format m0 arg) (fun '(written, m') =>
    written = len /\ mem_upd writes m0 m' /\ bytes_at m' str written = out).
Proof using L.
  intros Hp Hlen. unfold vsprintf. wp_step. eapply wp_mono.
  { apply wp_memset; [done | apply (lo_temp L)]. }
  intros [p m1] (_ & U1 & Hz). wp_step.
  assert (HB : buffered m1 (replicate 32 0)).
  { split; [eapply mem_upd_mono; [exact U1|]; unfold writes; tauto|]. split; [|by split].
    apply list_eq. intros i. destruct (decide (i < 32)%nat) as [Hi|Hi].
    - rewrite bytes_at_lookup, lookup_replicate_2 by lia. f_equal. unfold peekn.
      change (seqZ (temp + Z.of_nat i) (Z.of_nat 1)) with [temp + Z.of_nat i]. cbn [fmap list_fmap].
      unfold byte_at. rewrite Hz by (unfold region; lia). done.
    - rewrite !lookup_ge_None_2; [done | rewrite length_replicate; lia |].
      pose proof (length_bytes_at m1 temp 32). lia. }
  eapply wp_mono.
  - apply (wp_while (fun st => exists rest, to_print out st rest) (fun _ => False)
      (fun '(_, i, _, _) => Z.of_nat (length fmt) + 1 - i)); [pose proof (lo_fuel L); lia | |].
    + exists out. split; [lia|]. split; [lia|]. split; [lia|]. split; [done|].
      exists (replicate 32 0), (length fmt). by split.
    + intros [[[m i] w] a] (rest & Ht). pose proof Ht as (Hi & _ & _ & _ & tmp & n & (U & _ & _) & _).
      destruct (lo_format L) as [C D]. pose proof (lo_fuel L). wp_step.
      eapply wp_mono; [apply (wp_strlen fuel m format fmt (cstring_upd _ _ _ _ _ U D C)); lia|].
      intros ? ->. wp_ret. destruct (Z.ltb_spec i (Z.of_nat (length fmt))) as [Hlt|]; [|done]. split; [lia|].
      eapply wp_mono; [by apply (wp_vsprintf_step out m i w a rest)|].
      intros [[[[m' i'] w'] a']|]; [|done]. intros [Hst Hi']. split; [done|]. cbn in Hi'. lia.
  - intros [[[[m i] w] a]|r]; [|done]. intros [(rest & Hi & Hw & Hl & Hout & tmp & n & (U & _ & _) & Hpr) Hend].
    wp_ret. destruct (lo_format L) as [C D]. pose proof (lo_fuel L) as (Hf & Hlf & _).
    pose proof (wp_strlen fuel m format fmt (cstring_upd _ _ _ _ _ U D C) ltac:(lia) ltac:(lia)) as Hs.
    apply wp_inv in Hs as (k & Hs & ->). rewrite Hs in Hend. cbn in Hend. injection Hend as Hge%Z.ltb_ge.
    rewrite drop_ge in Hpr by lia. destruct n; injection Hpr as <-; rewrite app_nil_r in Hout; cbn in Hl;
      (split; [lia | done]).
Qed.
End vsprintf.

(** The memory a call reads: the format, the literal of itoa and the strings passed. *)
Definition reads (texts : Z -> option (list Z)) (fmt : list Z) (zero format x : Z) : Prop :=
  region format (Z.of_nat (length fmt) + 1) x \/ region zero 2 x \/
  exists v s, texts v = Some s /\ region v (Z.of_nat (length s) + 1) x.

(** Writes elsewhere leave it laid out, *)
Lemma laid_out_keep P texts fmt m m' len fuel zero rev temp str format :
  laid_out texts fmt m len fuel zero rev temp str format -> mem_upd P m m' ->
  (forall x, reads texts fmt zero format x -> ~ P x) ->
  laid_out texts fmt m' len fuel zero rev temp str format.
Proof.
  intros [Bs Bt Br HA [Cf Df] [Cz Dz] Ht Hl Hf] U HP.
  split; try done; try (by apply (mem_upd_backed _ _ _ _ _ U)).
  - split; [|done]. apply (cstring_upd _ _ _ _ _ U); [|done]. intros x Hx. apply HP. by left.
  - split; [|done]. apply (cstring_upd _ _ _ zero [48] U); [|done]. intros x Hx. apply HP. right. by left.
  - intros v s Hs. destruct (Ht v s Hs) as (C & Hfs & D). split; [|done].
    apply (cstring_upd _ _ _ _ _ U); [|done]. intros x Hx. apply HP. right. right. by exists v, s.
Qed.

Lemma laid_out_reads texts fmt m len fuel zero rev temp str format x :
  laid_out texts fmt m len fuel zero rev temp str format ->
  reads texts fmt zero format x -> ~ writes len rev temp str x.
Proof.
  intros L [Hx|[Hx|(v & s & Hs & Hx)]].
  - by apply (proj2 (lo_format _ _ _ _ _ _ _ _ _ _ L)).
  - by apply (proj2 (lo_zero _ _ _ _ _ _ _ _ _ _ L)).
  - by apply (lo_texts _ _ _ _ _ _ _ _ _ _ L v s Hs).
Qed.

(** and so do writes to the buffers, of which a call may get less. *)
Lemma laid_out_upd texts fmt m m' len len' fuel zero rev temp str format :
  laid_out texts fmt m len fuel zero rev temp str format -> mem_upd (writes len rev temp str) m m' ->
  0 <= len' <= len -> laid_out texts fmt m' len' fuel zero rev temp str format.
Proof.
  intros L U Hlen. apply (laid_out_keep _ _ _ _ _ _ _ _ _ _ _ _ L) in U as [Bs Bt Br (A1 & A2 & A3) [Cf Df] [Cz Dz] Ht Hl Hf];
    [|intros x; by apply (laid_out_reads _ _ _ _ _ _ _ _ _ _ _ L)].
  assert (Hw : forall x, writes len' rev temp str x -> writes len rev temp str x)
    by (unfold writes, region; lia).
  split; try done; try lia.
  - apply (backed_sub _ _ _ _ _ Bs); lia.
  - split; [done|]. intros x Hx Hx'. by apply (Df x Hx), Hw.
  - split; [done|]. intros x Hx Hx'. by apply (Dz x Hx), Hw.
  - intros v s Hs. destruct (Ht v s Hs) as (C & Hfs & D). split; [done|].
    split; [done|]. intros x Hx Hx'. by apply (D x Hx), Hw.
Qed.
