(* ===== verification/FormatSpec.v ===== *)
(** What the reference of StdioSpec.v prints for formats with few conversions, as those of
    kernel_start and of the dumps. *)
From stdpp Require Import base list.
From Stdlib Require Import ZArith Lia.
From S2P Require Import Prelude Memory LibString Stdio StdioSpec.
Local Open Scope Z_scope.

Definition literal (l : list Z) : bool := forallb (fun c => negb (c =? 37)) l.

Section formats.
Context (texts : Z -> option (list Z)).

Lemma print_literal l : literal l = true -> forall n fmt args tmp,
  print texts (length l + n) (l ++ fmt) args tmp =
    (tail ← print texts n fmt args tmp; Some (l ++ tail)).
Proof.
  induction l as [|c l IH]; intros Hl n fmt args tmp.
  { cbn [length app Nat.add]. by destruct (print texts n fmt args tmp). }
  cbn in Hl. apply andb_prop in Hl as [Hc Hl]. apply negb_true_iff in Hc.
  cbn [length app Nat.add print]. rewrite Hc, IH by done. by destruct (print texts n fmt args tmp).
Qed.

Lemma print_end l n args tmp :
  literal l = true -> print texts (length l + n) l args tmp = Some l.
Proof.
  intros Hl. rewrite <- (app_nil_r l) at 2. rewrite print_literal by done.
  assert (E : print texts n [] args tmp = Some []) by (by destruct n). rewrite E. cbn. by rewrite app_nil_r.
Qed.

Lemma print_hex32 n c fmt v args tmp :
  text (drop 8 tmp) = [] ->
  print texts (S n) (37 :: 120 :: c :: fmt) (v :: args) tmp =
    (tail ← print texts n fmt args (overwrite (hex 8 (u32 v)) tmp); Some (hex 8 (u32 v) ++ c :: tail)).
Proof.
  intros Ht. transitivity (tail ← print texts n fmt args (overwrite (hex 8 (u32 v)) tmp);
    Some (text (overwrite (hex 8 (u32 v)) tmp) ++ c :: tail)); [reflexivity | by rewrite text_hex].
Qed.

Lemma print_hex64 n c fmt v args tmp :
  text (drop 16 tmp) = [] ->
  print texts (S n) (37 :: 108 :: 108 :: 120 :: c :: fmt) (v :: args) tmp =
    (tail ← print texts n fmt args (overwrite (hex 16 v) tmp); Some (hex 16 v ++ c :: tail)).
Proof.
  intros Ht. transitivity (tail ← print texts n fmt args (overwrite (hex 16 v) tmp);
    Some (text (overwrite (hex 16 v) tmp) ++ c :: tail)); [reflexivity | by rewrite text_hex].
Qed.

(** Decimal digits are no NULs, and the NUL behind them ends the text. *)
Lemma decimal_nonzero v : Forall (fun c => c <> 0) (decimal v).
Proof using Type.
  unfold decimal. apply Forall_app. split; [destruct (v <? 0); repeat constructor; done|].
  destruct (v =? 0); [repeat constructor; done|]. apply Forall_fmap, Forall_forall. intros j _. cbn.
  pose proof (Z.mod_pos_bound (Z.abs v / 10 ^ j) 10). lia.
Qed.

Lemma text_decimal v tmp : text (overwrite (decimal v ++ [0]) tmp) = decimal v.
Proof using Type.
  unfold overwrite. rewrite <- app_assoc, text_app by apply decimal_nonzero. cbn. by rewrite app_nil_r.
Qed.

Lemma print_decimal n c fmt v args tmp :
  s32 v <> - 2 ^ 31 ->
  print texts (S n) (37 :: 100 :: c :: fmt) (v :: args) tmp =
    (tail ← print texts n fmt args (overwrite (decimal (s32 v) ++ [0]) tmp); Some (decimal (s32 v) ++ c :: tail)).
Proof using Type.
  intros Hv.
  transitivity ('(out, args, tmp) ← convert texts Decimal (v :: args) tmp;
    tail ← print texts n fmt args tmp; Some (out ++ c :: tail)); [reflexivity|].
  cbn [convert]. rewrite (proj2 (Z.eqb_neq _ _) Hv). cbn [mbind option_bind]. by rewrite text_decimal.
Qed.

(** A conversion at the end of the format: the final NUL is copied. *)
Lemma print_decimal_end n v args tmp :
  s32 v <> - 2 ^ 31 -> print texts (S n) [37; 100] (v :: args) tmp = Some (decimal (s32 v) ++ [0]).
Proof using Type.
  intros Hv.
  transitivity ('(out, args, tmp) ← convert texts Decimal (v :: args) tmp;
    tail ← print texts n [] args tmp; Some (out ++ 0 :: tail)); [reflexivity|].
  cbn [convert]. rewrite (proj2 (Z.eqb_neq _ _) Hv). cbn [mbind option_bind]. rewrite text_decimal. by destruct n.
Qed.

(** Over the digits of a longer number the shorter one leaves the last eight. *)
Lemma hex_nonzero n v : Forall (fun c => c <> 0) (hex n v).
Proof using Type.
  eapply Forall_impl; [apply hex_chars_in|]. intros c Hc ->. apply list_elem_of_In in Hc. cbn in Hc. lia.
Qed.

Lemma text_stale v w k :
  text (overwrite (hex 8 w) (overwrite (hex 16 v) (replicate (16 + S k) 0))) = hex 8 w ++ drop 8 (hex 16 v).
Proof using Type.
  unfold overwrite. pose proof (length_hex 8 w ltac:(lia)). pose proof (length_hex 16 v ltac:(lia)).
  rewrite text_app by apply hex_nonzero. f_equal. replace (length (hex 8 w)) with 8%nat by lia.
  replace (length (hex 16 v)) with 16%nat by lia. rewrite drop_app_le by lia.
  rewrite text_app by (apply Forall_drop, hex_nonzero). by rewrite drop_replicate, app_nil_r.
Qed.

Lemma print_hex32_stale n c fmt v w args k :
  print texts (S n) (37 :: 120 :: c :: fmt) (w :: args) (overwrite (hex 16 v) (replicate (16 + S k) 0)) =
    (tail ← print texts n fmt args (overwrite (hex 8 (u32 w)) (overwrite (hex 16 v) (replicate (16 + S k) 0)));
     Some (hex 8 (u32 w) ++ drop 8 (hex 16 v) ++ c :: tail)).
Proof using Type.
  transitivity (tail ← print texts n fmt args (overwrite (hex 8 (u32 w)) (overwrite (hex 16 v) (replicate (16 + S k) 0)));
    Some (text (overwrite (hex 8 (u32 w)) (overwrite (hex 16 v) (replicate (16 + S k) 0))) ++ c :: tail)); [reflexivity|].
  rewrite text_stale. destruct (print texts n fmt args _) as [tail|]; cbn; [by rewrite <- app_assoc|done].
Qed.

Lemma printed_literal l : literal l = true -> printed texts l [] = Some l.
Proof. intros Hl. unfold printed. rewrite <- (Nat.add_0_r (length l)). by apply print_end. Qed.

(** Literals with an [%x] and a character behind each, and a literal at the end. *)
Fixpoint hex_format (fields : list (list Z * Z)) (last : list Z) : list Z :=
  match fields with
  | [] => last
  | (l, c) :: fields => l ++ 37 :: 120 :: c :: hex_format fields last
  end.

Fixpoint hex_text (fields : list (list Z * Z)) (values last : list Z) : list Z :=
  match fields, values with
  | (l, c) :: fields, v :: values => l ++ hex 8 (u32 v) ++ c :: hex_text fields values last
  | _, _ => last
  end.

Lemma print_hex_fields fields last : forallb (fun f => literal f.1) fields = true -> literal last = true ->
  forall n values tmp, length values = length fields -> text (drop 8 tmp) = [] ->
  print texts (length (hex_format fields last) + n) (hex_format fields last) values tmp =
    Some (hex_text fields values last).
Proof.
  intros Hf Hl. induction fields as [|[l c] fields IH]; intros n values tmp Hn Ht.
  { destruct values; [by apply print_end | done]. }
  destruct values as [|v values]; [done|]. cbn in Hf. apply andb_prop in Hf as [Hl1 Hf].
  cbn [hex_format hex_text]. rewrite length_app, <- Nat.add_assoc, print_literal by done. cbn [length Nat.add].
  rewrite print_hex32 by done. set (k := length (hex_format fields last)).
  replace (S (S (k + n))) with (k + S (S n))%nat by lia. subst k. rewrite IH; [done | done | by injection Hn|].
  unfold overwrite. pose proof (length_hex 8 (u32 v) ltac:(lia)). rewrite drop_app_length' by lia.
  replace (length (hex 8 (u32 v))) with 8%nat by lia. done.
Qed.

Lemma printed_hex_fields fields last values :
  forallb (fun f => literal f.1) fields = true -> literal last = true -> length values = length fields ->
  printed texts (hex_format fields last) values = Some (hex_text fields values last).
Proof.
  intros Hf Hl Hn. unfold printed. rewrite <- (Nat.add_0_r (length (hex_format fields last))).
  by apply print_hex_fields.
Qed.

Lemma printed_hex64 l c l' v :
  literal l = true -> literal l' = true ->
  printed texts (l ++ 37 :: 108 :: 108 :: 120 :: c :: l') [v] = Some (l ++ hex 16 v ++ c :: l').
Proof.
  intros Hl Hl'. unfold printed. rewrite length_app, print_literal by done. cbn [length].
  rewrite print_hex64 by reflexivity. replace (S (S (S (S (length l'))))) with (length l' + 4)%nat by lia.
  by rewrite print_end.
Qed.

Lemma print_string n c fmt v s args tmp :
  texts v = Some s ->
  print texts (S n) (37 :: 115 :: c :: fmt) (v :: args) tmp =
    (tail ← print texts n fmt args tmp; Some (s ++ c :: tail)).
Proof.
  intros Hs. transitivity ('(out, args, tmp) ← (s ← texts v; Some (s, args, tmp));
    tail ← print texts n fmt args tmp; Some (out ++ c :: tail)); [reflexivity | by rewrite Hs].
Qed.

Lemma printed_string l c l' v s :
  literal l = true -> literal l' = true -> texts v = Some s ->
  printed texts (l ++ 37 :: 115 :: c :: l') [v] = Some (l ++ s ++ c :: l').
Proof.
  intros Hl Hl' Hs. unfold printed. rewrite length_app, print_literal by done. cbn [length].
  rewrite (print_string _ c l' v s) by done. replace (S (S (length l'))) with (length l' + 2)%nat by lia.
  by rewrite print_end.
Qed.

(** What calls of ssfn_printf print, one after the other. *)
Fixpoint all_printed (calls : list print_call) : option (list Z) :=
  match calls with
  | [] => Some []
  | (format, args) :: calls =>
      out ← printed texts format args;
      rest ← all_printed calls;
      Some (out ++ rest)
  end.

Lemma all_printed_app l l' out out' :
  all_printed l = Some out -> all_printed l' = Some out' -> all_printed (l ++ l') = Some (out ++ out').
Proof.
  intros Hl Hl'. revert out Hl. induction l as [|[f a] l IH]; intros out; cbn [all_printed app].
  - by intros [= <-].
  - destruct (printed texts f a) as [o|]; [|done]. cbn [mbind option_bind].
    destruct (all_printed l) as [r|]; [|done]. cbn. intros [= <-]. rewrite (IH r eq_refl). cbn. by rewrite app_assoc.
Qed.

End formats.
