(* ===== verification/Idt.v ===== *)
(** The interrupt descriptor table: kernel/idt.h and idt.c. *)
From stdpp Require Import base list strings.
From Stdlib Require Import ZArith Lia.
From S2P Require Import Prelude Memory LibString Stdio.
Local Open Scope Z_scope.

Record idt_entry_t := {
  isr1 : Z;
  segment : Z;
  ist : Z;
  flags : Z;
  isr2 : Z;
  isr3 : Z;
  reserved : Z
}.

Record idt_desc_t := { limit : Z; base : Z }.

#[export] Instance idt_entry_eq_dec : EqDecision idt_entry_t.
Proof. solve_decision. Defined.

#[export] Instance idt_desc_eq_dec : EqDecision idt_desc_t.
Proof. solve_decision. Defined.

(** In memory idt_desc_t is packed: limit (2 bytes), base (8 bytes); an entry takes 16. *)
Definition idt_limit_at (desc : Z) : Z := desc.
Definition idt_base_at (desc : Z) : Z := desc + 2.
Definition sizeof_idt_desc : Z := 10.
Definition sizeof_idt_entry : Z := 16.

(** sidt and lidt: from and to the register of the processor. *)
Definition idt_get (idtr : idt_desc_t) : idt_desc_t := idtr.
Definition idt_set (idtr idt : idt_desc_t) : idt_desc_t := idt.

(** [malloc] is the allocator the caller passes. *)
Definition idt_init (malloc : mem -> Z -> Z * mem) (m : mem) : res (Z * mem) :=
  let length := sizeof_idt_entry * 256 in
  let '(idt, m) := malloc m sizeof_idt_desc in
  m ← store16 m (idt_limit_at idt) (u16 (length - 1));
  let '(table, m) := malloc m length in
  m ← store64 m (idt_base_at idt) table;
  b ← load64 m (idt_base_at idt);
  '(_, m) ← memset m b 0 length;
  Ok (idt, m).

(** The reserved field is left uninitialised: it is [junk]. *)
Definition idt_entry_create (junk isr segment ist flags : Z) : idt_entry_t :=
  {| isr1 := u16 (Z.land isr 0xFFFF);
     segment := segment;
     ist := ist;
     flags := flags;
     isr2 := u16 (Z.land (Z.shiftr isr 16) 0xFFFF);
     isr3 := u32 (Z.shiftr isr 32);
     reserved := junk |}.

(** *a = entry *)
Definition store_entry (m : mem) (a : Z) (e : idt_entry_t) : res mem :=
  m ← store16 m a (isr1 e);
  m ← store16 m (a + 2) (segment e);
  m ← store8 m (a + 4) (ist e);
  m ← store8 m (a + 5) (flags e);
  m ← store16 m (a + 6) (isr2 e);
  m ← store32 m (a + 8) (isr3 e);
  store32 m (a + 12) (reserved e).

Definition load_entry (m : mem) (a : Z) : res idt_entry_t :=
  i1 ← load16 m a;
  s ← load16 m (a + 2);
  t ← load8 m (a + 4);
  f ← load8 m (a + 5);
  i2 ← load16 m (a + 6);
  i3 ← load32 m (a + 8);
  r ← load32 m (a + 12);
  Ok {| isr1 := i1; segment := s; ist := t; flags := f; isr2 := i2; isr3 := i3; reserved := r |}.

Definition idt_entry_add (m : mem) (desc index : Z) (entry : idt_entry_t) : res mem :=
  ptr ← load64 m (idt_base_at desc);
  store_entry m (ptr + sizeof_idt_entry * index) entry.

(** *desc, as it is passed to idt_set and dump_idt *)
Definition load_idt_desc (m : mem) (desc : Z) : res idt_desc_t :=
  l ← load16 m (idt_limit_at desc);
  b ← load64 m (idt_base_at desc);
  Ok {| limit := l; base := b |}.

(** ** The dumps: the calls of ssfn_printf they make *)
Definition idtr_format : list Z := chars "IDTR Base: 0x%x, Limit: 0x%x" ++ [10].
Definition number_format : list Z := chars "IDT %d: ".
Definition entry_format : list Z := chars "isr = 0x%x, segment = 0x%x, ist = 0x%x, flags = 0x%x" ++ [10].

(** isr2 is promoted to a (signed) int before it is shifted. *)
Definition dump_idt_entry (entry : idt_entry_t) : print_call :=
  let isr := isr3 entry in
  let isr := u64 (Z.shiftl isr 32) in
  let isr := Z.lor isr (u64 (s32 (Z.shiftl (isr2 entry) 16))) in
  let isr := Z.lor isr (isr1 entry) in
  (entry_format, [isr; segment entry; ist entry; flags entry]).

Definition dump_idt (m : mem) (idt : idt_desc_t) : res (list print_call) :=
  let count := (limit idt + 1) / sizeof_idt_entry in
  after
    (for_range 0 count
       (fun counter calls =>
          e ← load_entry m (base idt + counter * sizeof_idt_entry);
          Ok (inl (calls ++ [(number_format, [counter]); dump_idt_entry e])))
       [(idtr_format, [base idt; limit idt])])
    (fun calls => Ok calls).
