(* ===== verification/IdtSpec.v ===== *)
(** The interrupt descriptor table as the processor sees it, the map from vectors to
    handlers that it stands for, and what its dump prints. *)
From coqutil Require Import Byte.
From stdpp Require Import gmap list strings.
From Stdlib Require Import ZArith Lia.
From S2P Require Import Prelude Memory LibString Stdio StdioSpec FormatSpec Idt.
Local Open Scope Z_scope.

(** ** Handlers *)
Record handler := { h_isr : Z; h_segment : Z; h_ist : Z; h_flags : Z }.

#[export] Instance handler_eq_dec : EqDecision handler.
Proof. solve_decision. Defined.

Definition no_handler : handler := {| h_isr := 0; h_segment := 0; h_ist := 0; h_flags := 0 |}.

Definition handler_ok (h : handler) : Prop :=
  0 <= h_isr h < 2 ^ 64 /\ 0 <= h_segment h < 2 ^ 16 /\ 0 <= h_ist h < 2 ^ 8 /\ 0 <= h_flags h < 2 ^ 8.

(** Bit 7 of the flags: the gate is present. *)
Definition is_present (h : handler) : bool := Z.testbit (h_flags h) 7.

Definition entry_of (junk : Z) (h : handler) : idt_entry_t :=
  idt_entry_create junk (h_isr h) (h_segment h) (h_ist h) (h_flags h).

(** What the processor reads from an entry. *)
Definition gate (e : idt_entry_t) : handler :=
  {| h_isr := isr1 e + isr2 e * 2 ^ 16 + isr3 e * 2 ^ 32; h_segment := segment e; h_ist := ist e; h_flags := flags e |}.

(** The handler of interrupt [v]: outside the table, or where no gate is present, the
    processor raises another exception. *)
Definition deliver (m : mem) (idtr : idt_desc_t) (v : Z) : res (option handler) :=
  if limit idtr <? v * 16 + 15 then Ok None else
  e ← load_entry m (base idtr + v * 16);
  Ok (if is_present (gate e) then Some (gate e) else None).

(** The pieces of a handler's address. *)
Lemma isr_pieces junk h :
  handler_ok h ->
  let e := entry_of junk h in
  isr1 e = h_isr h mod 2 ^ 16 /\ isr2 e = h_isr h / 2 ^ 16 mod 2 ^ 16 /\ isr3 e = h_isr h / 2 ^ 32.
Proof.
  intros [Hi _]. cbn [entry_of idt_entry_create isr1 isr2 isr3]. change 0xFFFF with (Z.ones 16).
  rewrite !Z.land_ones, !Z.shiftr_div_pow2 by lia. unfold u16, u32.
  rewrite !Z.mod_mod by lia. split; [done|]. split; [done|]. apply Z.mod_small. zlia.
Qed.

(** ** Entries in memory *)
Definition peek_entry (m : mem) (a : Z) : idt_entry_t :=
  {| isr1 := peek16 m a; segment := peek16 m (a + 2); ist := peek8 m (a + 4); flags := peek8 m (a + 5);
     isr2 := peek16 m (a + 6); isr3 := peek32 m (a + 8); reserved := peek32 m (a + 12) |}.

Definition poke_entry (m : mem) (a : Z) (e : idt_entry_t) : mem :=
  poken 4 (poken 4 (poken 2 (poken 1 (poken 1 (poken 2 (poken 2 m a (isr1 e)) (a + 2) (segment e))
    (a + 4) (ist e)) (a + 5) (flags e)) (a + 6) (isr2 e)) (a + 8) (isr3 e)) (a + 12) (reserved e).

Lemma wp_load_gate m a Q : backed m a 16 -> Q (peek_entry m a) -> wp (load_entry m a) Q.
Proof.
  intros B HQ. unfold load_entry.
  repeat (wp_step; apply wp_loadn; [apply (backed_sub _ _ _ _ _ B); simpl; lia|]). exact HQ.
Qed.

Lemma load_entry_ok m a : backed m a 16 -> load_entry m a = Ok (peek_entry m a).
Proof.
  intros B. pose proof (wp_load_gate m a (eq (peek_entry m a)) B eq_refl) as W.
  destruct (load_entry m a); [by rewrite W | done..].
Qed.

Lemma wp_store_gate m a e Q : backed m a 16 -> Q (poke_entry m a e) -> wp (store_entry m a e) Q.
Proof.
  intros B HQ. unfold store_entry.
  assert (Hsub : forall m' k n, backed m' a 16 -> 0 <= k -> k + n <= 16 -> backed m' (a + k) n)
    by (intros m' k n B' H1 H2; apply (backed_sub _ _ _ _ _ B'); lia).
  wp_step. apply (wp_storen 2); [apply (backed_sub _ _ _ _ _ B); lia|].
  repeat (wp_step; apply wp_storen; [apply Hsub; [repeat apply backed_poken; done | lia | simpl; lia]|]).
  apply wp_storen; [apply Hsub; [repeat apply backed_poken; done | lia | simpl; lia]|]. exact HQ.
Qed.

Lemma poke_entry_upd m a e : backed m a 16 -> mem_upd (region a 16) m (poke_entry m a e).
Proof.
  intros B. unfold poke_entry.
  assert (H : forall n m' v k, mem_upd (region a 16) m m' -> 0 <= k -> k + Z.of_nat n <= 16 ->
    mem_upd (region a 16) m (poken n m' (a + k) v)).
  { intros n m' v k U H0 Hk. etrans; [exact U|]. eapply mem_upd_mono; [apply mem_upd_poken|unfold region; lia].
    apply (mem_upd_backed _ _ _ _ _ U), (backed_sub _ _ _ _ _ B); lia. }
  repeat (apply H; [|lia | simpl; lia]). rewrite <- (Z.add_0_r a) at 2. apply H; [done | lia | simpl; lia].
Qed.

Lemma peek_poke_entry m a e :
  peek_entry (poke_entry m a e) a =
    {| isr1 := u16 (isr1 e); segment := u16 (segment e); ist := u8 (ist e); flags := u8 (flags e);
       isr2 := u16 (isr2 e); isr3 := u32 (isr3 e); reserved := u32 (reserved e) |}.
Proof.
  unfold peek_entry, poke_entry.
  repeat (rewrite peekn_poken_eq || rewrite peekn_poken_ne by (simpl; lia)). done.
Qed.

Lemma gate_poke_entry m a junk h : handler_ok h -> gate (peek_entry (poke_entry m a (entry_of junk h)) a) = h.
Proof.
  intros Hh. rewrite peek_poke_entry. destruct (isr_pieces junk h Hh) as (E1 & E2 & E3). destruct Hh as (Hi & Hs & Ht & Hf).
  unfold gate, u8, u16, u32. cbn [isr1 isr2 isr3 segment ist flags]. rewrite E1, E2, E3.
  destruct h as [isr s i f]. cbn in *. f_equal; zlia.
Qed.

Lemma peek_entry_upd P m m' a :
  mem_upd P m m' -> (forall x, region a 16 x -> ~ P x) -> peek_entry m' a = peek_entry m a.
Proof.
  intros U HP. unfold peek_entry.
  assert (H : forall n k, 0 <= k -> k + Z.of_nat n <= 16 -> peekn n m' (a + k) = peekn n m (a + k)).
  { intros n k H0 Hk. apply (mem_upd_peekn P); [done|]. intros x Hx. apply HP. unfold region in *. lia. }
  pose proof (H 2%nat 0 ltac:(lia) ltac:(simpl; lia)) as H0. rewrite Z.add_0_r in H0.
  f_equal; [exact H0 | apply H; simpl; lia..].
Qed.

(** ** The allocator that idt_init is given
    [busy m] are the bytes it has handed out; [room m n]: it has [n] more bytes. *)
Class Malloc := {
  malloc : mem -> Z -> Z * mem;
  busy : mem -> Z -> Prop;
  room : mem -> Z -> Prop;
  malloc_spec m n k p m' :
    0 <= n -> 0 <= k -> room m (n + k) -> malloc m n = (p, m') ->
    0 <= p /\ p + n <= 2 ^ 64 /\ backed m' p n /\ room m' k /\
    (forall x, region p n x -> ~ busy m x) /\
    (forall x, busy m' x <-> busy m x \/ region p n x) /\
    (forall x, busy m x -> m' !! x = m !! x);
  malloc_stable m m' n :
    mem_upd (busy m) m m' -> room m n -> room m' n /\ forall x, busy m' x <-> busy m x
}.

(** ** The table
    At [desc] it is described; vector [v] has the handler [T !! v], or none. *)
Record table_is (m : mem) (desc : Z) (T : gmap Z handler) : Prop := {
  ti_desc : backed m desc sizeof_idt_desc;
  ti_limit : peek16 m (idt_limit_at desc) = 4095;
  ti_table : backed m (peek64 m (idt_base_at desc)) 4096;
  ti_apart x : region desc sizeof_idt_desc x -> ~ region (peek64 m (idt_base_at desc)) 4096 x;
  ti_gate v : 0 <= v < 256 ->
    gate (peek_entry m (peek64 m (idt_base_at desc) + 16 * v)) = default no_handler (T !! v)
}.

Lemma backed_agree m m' a n : (forall x, region a n x -> m' !! x = m !! x) -> backed m a n -> backed m' a n.
Proof. intros H B x Hx. rewrite H by done. by apply B. Qed.

Lemma peek_entry_zero m a : (forall x, region a 16 x -> m !! x = Some (byte.of_Z 0)) -> gate (peek_entry m a) = no_handler.
Proof.
  intros H. unfold peek_entry, gate. cbn. rewrite !peekn_zero; [done|..]; intros x Hx; unfold byte_at;
    rewrite H by (unfold region in *; simpl in *; lia); reflexivity.
Qed.

(** The bytes of the table and of its descriptor. *)
Definition table_area (m : mem) (desc x : Z) : Prop :=
  region desc sizeof_idt_desc x \/ region (peek64 m (idt_base_at desc)) 4096 x.

(** The rest of idt_init, from the two allocations on. *)
Lemma wp_clear_table m d t :
  backed m d 10 -> backed m t 4096 -> 0 <= t -> t + 4096 <= 2 ^ 64 ->
  (forall x, region d 10 x -> ~ region t 4096 x) -> peek16 m d = 4095 ->
  wp (m ← store64 m (idt_base_at d) t; b ← load64 m (idt_base_at d); '(_, m) ← memset m b 0 4096; Ok (d, m))
    (fun '(desc, m') => desc = d /\ peek64 m' (idt_base_at d) = t /\ table_is m' d ∅ /\
      mem_upd (table_area m' d) m m').
Proof.
  intros BD BT T0 T1 DT L. unfold idt_base_at.
  wp_step. apply (wp_storen 8); [apply (backed_sub _ _ _ _ _ BD); simpl; lia|]. set (m4 := poken 8 _ _ _).
  assert (U4 : mem_upd (region (d + 2) 8) m m4) by (apply mem_upd_poke64, (backed_sub _ _ _ _ _ BD); lia).
  assert (P4 : peek64 m4 (d + 2) = t) by (unfold m4; rewrite peek64_poke64_eq; apply u64_small; lia).
  assert (L4 : peek16 m4 d = 4095) by (rewrite <- L; apply (mem_upd_peekn _ _ _ _ _ U4); unfold region; simpl; lia).
  rewrite <- (mem_upd_backed _ _ _ _ _ U4) in BD. rewrite <- (mem_upd_backed _ _ _ _ _ U4) in BT. clearbody m4.
  wp_step. apply (wp_loadn 8); [apply (backed_sub _ _ _ _ _ BD); simpl; lia|]. rewrite P4.
  wp_step. eapply wp_mono; [by apply wp_memset; [lia|]|].
  intros [r m5] (_ & U5 & Z5). cbn [wp].
  assert (P5 : peek64 m5 (d + 2) = t).
  { rewrite (mem_upd_peek64 _ _ _ _ U5); [done|]. intros x Hx. apply DT. unfold region. lia. }
  split; [done|]. split; [done|]. split; [split|]; unfold table_area, idt_limit_at, idt_base_at, sizeof_idt_desc; rewrite ?P5.
  - by apply (mem_upd_backed _ _ _ _ _ U5).
  - rewrite (mem_upd_peekn _ _ _ _ _ U5); [done|]. intros x Hx. apply DT. unfold region in *. simpl in *. lia.
  - by apply (mem_upd_backed _ _ _ _ _ U5).
  - done.
  - intros v Hv. rewrite lookup_empty. apply peek_entry_zero. intros x Hx. apply Z5. unfold region in *. lia.
  - etrans; (eapply mem_upd_mono; [eassumption|]); unfold region; lia.
Qed.

Section init.
Context `{Malloc}.

(** idt_init makes a table without handlers, in bytes that were not in use. *)
Lemma wp_idt_init m :
  room m (sizeof_idt_desc + 4096) ->
  wp (idt_init malloc m) (fun '(desc, m') =>
    table_is m' desc ∅ /\ forall x, busy m x -> ~ table_area m' desc x /\ m' !! x = m !! x).
Proof.
  intros R. unfold idt_init. destruct (malloc m sizeof_idt_desc) as [d m1] eqn:E1.
  destruct (malloc_spec m sizeof_idt_desc 4096 d m1) as (D0 & D1 & DB & R1 & DN & HB1 & K1); [done..|].
  unfold sizeof_idt_desc, idt_limit_at in *. wp_step. apply (wp_storen 2); [apply (backed_sub _ _ _ _ _ DB); simpl; lia|].
  set (m2 := poken 2 _ _ _).
  assert (U2 : mem_upd (region d 2) m1 m2) by (apply (mem_upd_poken 2), (backed_sub _ _ _ _ _ DB); simpl; lia).
  destruct (malloc_stable m1 m2 4096) as [R2 HB2]; [|done|].
  { eapply mem_upd_mono; [exact U2|]. intros x Hx. apply HB1. right. unfold region in *. lia. }
  change (sizeof_idt_entry * 256) with 4096. destruct (malloc m2 4096) as [t m3] eqn:E2.
  destruct (malloc_spec m2 4096 0 t m3) as (T0 & T1 & TB & _ & TN & _ & K3); [done..|].
  assert (Hd : forall x, region d 10 x -> busy m2 x) by (intros x Hx; apply HB2, HB1; by right).
  eapply wp_mono; [apply (wp_clear_table m3 d t); try done|].
  - apply (backed_agree m2); [intros x Hx; by apply K3, Hd|]. by apply (mem_upd_backed _ _ _ _ _ U2).
  - intros x Hx Hx'. by apply (TN x), Hd.
  - rewrite (peekn_ext 2 m3 m2). { unfold m2. by rewrite peekn_poken_eq. }
    intros x Hx. apply K3, Hd. unfold region in *. simpl in *. lia.
  - intros [desc m4] (-> & Ht & HT & U). split; [done|]. intros x Hx.
    assert (Hd' : ~ region d 10 x) by (intros Hx'; by apply (DN x)).
    assert (Hx2 : busy m2 x) by (apply HB2, HB1; by left).
    assert (HA : ~ table_area m4 d x).
    { unfold table_area, sizeof_idt_desc. rewrite Ht. intros [Hx'|Hx']; [done | by apply (TN x)]. }
    split; [done|]. rewrite (upd_outside _ _ _ U), K3, (upd_outside _ _ _ U2), K1 by (done || unfold region in *; lia). done.
Qed.
End init.

(** ** Handlers are installed *)

(** Calls of idt_entry_add: the vector, the reserved field and the handler. *)
Definition request : Type := Z * Z * handler.

Definition request_ok (q : request) : Prop := 0 <= q.1.1 < 256 /\ handler_ok q.2.

Fixpoint install (m : mem) (desc : Z) (l : list request) : res mem :=
  match l with
  | [] => Ok m
  | (v, junk, h) :: l => m ← idt_entry_add m desc v (entry_of junk h); install m desc l
  end.

(** The handlers that result: of two for the same vector the later one. *)
Definition handlers (T : gmap Z handler) (l : list request) : gmap Z handler :=
  foldl (fun T q => <[q.1.1 := q.2]> T) T l.

(** The table's description, which installing a handler leaves alone. *)
Lemma table_area_upd m m' desc T P :
  table_is m desc T -> mem_upd P m m' -> (forall x, P x -> region (peek64 m (idt_base_at desc)) 4096 x) ->
  peek64 m' (idt_base_at desc) = peek64 m (idt_base_at desc) /\
  peek16 m' (idt_limit_at desc) = peek16 m (idt_limit_at desc).
Proof.
  intros TI U HP. unfold idt_base_at, idt_limit_at in *.
  split; apply (mem_upd_peekn _ _ _ _ _ U); intros x Hx Hx'; apply (ti_apart _ _ _ TI x);
    [unfold region, sizeof_idt_desc in *; simpl in *; lia | by apply HP |
     unfold region, sizeof_idt_desc in *; simpl in *; lia | by apply HP].
Qed.

Lemma wp_idt_entry_add m desc T v junk h :
  table_is m desc T -> 0 <= v < 256 -> handler_ok h ->
  wp (idt_entry_add m desc v (entry_of junk h)) (fun m' =>
    table_is m' desc (<[v := h]> T) /\ peek64 m' (idt_base_at desc) = peek64 m (idt_base_at desc) /\
    mem_upd (table_area m desc) m m').
Proof.
  intros TI Hv Hh. set (t := peek64 m (idt_base_at desc)). unfold idt_entry_add.
  wp_step. apply (wp_loadn 8).
  { apply (backed_sub _ _ _ _ _ (ti_desc _ _ _ TI)); unfold idt_base_at, sizeof_idt_desc; simpl; lia. }
  change sizeof_idt_entry with 16. fold t.
  assert (BT : backed m t 4096) by apply TI.
  assert (B : backed m (t + 16 * v) 16) by (apply (backed_sub _ _ _ _ _ BT); lia).
  apply wp_store_gate; [exact B|]. pose proof (poke_entry_upd m _ (entry_of junk h) B) as U.
  pose proof (gate_poke_entry m (t + 16 * v) junk h Hh) as E.
  set (m' := poke_entry _ _ _) in *. clearbody m'.
  assert (HP : forall x, region (t + 16 * v) 16 x -> region t 4096 x) by (unfold region; lia).
  destruct (table_area_upd m m' desc T _ TI U HP) as [E64 E16]. fold t in E64. rewrite E64.
  split; [|split; [done|]].
  2: { eapply mem_upd_mono; [exact U|]. intros x Hx. right. by apply HP. }
  split; rewrite ?E64, ?E16.
  - apply (mem_upd_backed _ _ _ _ _ U), TI.
  - apply TI.
  - apply (mem_upd_backed _ _ _ _ _ U), TI.
  - apply TI.
  - intros w Hw. destruct (decide (w = v)) as [->|Hne].
    + by rewrite lookup_insert_eq, E.
    + rewrite lookup_insert_ne by done. rewrite (peek_entry_upd _ _ _ _ U); [by apply TI|]. unfold region. lia.
Qed.

Lemma wp_install desc l : forall m T,
  table_is m desc T -> Forall request_ok l ->
  wp (install m desc l) (fun m' => table_is m' desc (handlers T l) /\ mem_upd (table_area m desc) m m').
Proof.
  induction l as [|[[v junk] h] l IH]; intros m T TI Hl; cbn [install handlers foldl fst snd].
  { split; [done | reflexivity]. }
  apply Forall_cons in Hl as [[Hv Hh] Hl]. wp_step. eapply wp_mono; [by apply (wp_idt_entry_add m desc T)|].
  intros m1 (TI1 & E & U1). eapply wp_mono; [by apply IH|]. intros m2 [TI2 U2]. split; [exact TI2|].
  etrans; [exact U1|]. eapply mem_upd_mono; [exact U2|]. unfold table_area. by rewrite E.
Qed.

Lemma handlers_none l v : Forall request_ok l -> ~ 0 <= v < 256 -> handlers ∅ l !! v = None.
Proof.
  intros Hl Hv. assert (HT : (∅ : gmap Z handler) !! v = None) by done. revert HT. generalize (∅ : gmap Z handler).
  induction Hl as [|q l [Hq _] _ IH]; intros T HT; cbn [handlers foldl]; [exact HT|].
  apply IH. by rewrite lookup_insert_ne by (intros <-; lia).
Qed.

Lemma wp_load_idt_desc m desc T :
  table_is m desc T ->
  wp (load_idt_desc m desc) (eq {| limit := peek16 m (idt_limit_at desc); base := peek64 m (idt_base_at desc) |}).
Proof.
  intros TI. unfold load_idt_desc, idt_limit_at, idt_base_at.
  repeat (wp_step; apply wp_loadn; [apply (backed_sub _ _ _ _ _ (ti_desc _ _ _ TI)); unfold sizeof_idt_desc; simpl; lia|]).
  done.
Qed.

(** What the processor finds. *)
Lemma deliver_table m desc T v :
  table_is m desc T -> 0 <= v ->
  deliver m {| limit := peek16 m (idt_limit_at desc); base := peek64 m (idt_base_at desc) |} v =
    Ok (if decide (v < 256) then h ← T !! v; if is_present h then Some h else None else None).
Proof.
  intros TI Hv. unfold deliver. cbn [limit base]. rewrite (ti_limit _ _ _ TI).
  destruct (Z.ltb_spec 4095 (v * 16 + 15)); destruct (decide (v < 256)); [lia | done | | lia].
  assert (Hg := ti_gate _ _ _ TI v ltac:(lia)). rewrite (Z.mul_comm v 16).
  rewrite load_entry_ok by (apply (backed_sub _ _ _ _ _ (ti_table _ _ _ TI)); lia).
  cbn [mbind res_bind]. rewrite Hg. by destruct (T !! v).
Qed.

(** ** The dump *)

(** The text of a handler, with the lowest eight digits of its address. *)
Definition handler_text (h : handler) : list Z :=
  chars "isr = 0x" ++ hex 8 (u32 (h_isr h)) ++ chars ", segment = 0x" ++ hex 8 (u32 (h_segment h)) ++
  chars ", ist = 0x" ++ hex 8 (u32 (h_ist h)) ++ chars ", flags = 0x" ++ hex 8 (u32 (h_flags h)) ++ [10].

Definition vector_text (T : gmap Z handler) (v : Z) : list Z :=
  chars "IDT " ++ decimal v ++ chars ": " ++ handler_text (default no_handler (T !! v)).

Definition dump_text (idt : idt_desc_t) (T : gmap Z handler) (n : Z) : list Z :=
  chars "IDTR Base: 0x" ++ hex 8 (u32 (base idt)) ++ chars ", Limit: 0x" ++ hex 8 (u32 (limit idt)) ++ [10] ++
  concat (vector_text T <$> seqZ 0 n).

Lemma printed_idtr b l :
  printed (fun _ => None) idtr_format [b; l] =
    Some (chars "IDTR Base: 0x" ++ hex 8 (u32 b) ++ chars ", Limit: 0x" ++ hex 8 (u32 l) ++ [10]).
Proof. by apply (printed_hex_fields _ [(chars "IDTR Base: 0x", 44); (chars " Limit: 0x", 10)] [] [b; l]). Qed.

Lemma printed_number v :
  0 <= v < 256 -> printed (fun _ => None) number_format [v] = Some (chars "IDT " ++ decimal v ++ chars ": ").
Proof.
  intros Hv. assert (H : Forall (fun v => printed (fun _ => None) number_format [v] =
    Some (chars "IDT " ++ decimal v ++ chars ": ")) (seqZ 0 256)) by (by apply (bool_decide_unpack _); vm_compute).
  rewrite Forall_forall in H. apply H, elem_of_seqZ. lia.
Qed.

Lemma printed_entry a b c d :
  printed (fun _ => None) entry_format [a; b; c; d] =
    Some (handler_text {| h_isr := a; h_segment := b; h_ist := c; h_flags := d |}).
Proof.
  by apply (printed_hex_fields _
    [(chars "isr = 0x", 44); (chars " segment = 0x", 44); (chars " ist = 0x", 44); (chars " flags = 0x", 10)] []
    [a; b; c; d]).
Qed.

(** The shift of isr2 that goes wrong is above the digits that %x prints. *)
Lemma dump_isr i1 i2 i3 :
  0 <= i1 < 2 ^ 16 -> 0 <= i2 < 2 ^ 16 ->
  u32 (Z.lor (Z.lor (u64 (Z.shiftl i3 32)) (u64 (s32 (Z.shiftl i2 16)))) i1) = u32 (i1 + i2 * 2 ^ 16 + i3 * 2 ^ 32).
Proof.
  intros H1 H2. unfold u32. rewrite <- !Z.land_ones, !Z.land_lor_distr_l, !Z.land_ones by lia.
  rewrite !Z.shiftl_mul_pow2 by lia.
  replace (u64 (i3 * 2 ^ 32) mod 2 ^ 32) with 0 by (unfold u64; zlia).
  replace (u64 (s32 (i2 * 2 ^ 16)) mod 2 ^ 32) with (i2 * 2 ^ 16) by (unfold u64, s32; zlia).
  rewrite Z.lor_0_l, (Z.mod_small i1) by lia.
  pose proof (lor_fields i2 16 i1 0 ltac:(lia) ltac:(lia)) as E. rewrite !Z.mul_1_r, Z.sub_0_r in E. rewrite E. zlia.
Qed.

Lemma printed_dump_entry m a :
  (let '(f, args) := dump_idt_entry (peek_entry m a) in printed (fun _ => None) f args) =
    Some (handler_text (gate (peek_entry m a))).
Proof.
  unfold dump_idt_entry. rewrite printed_entry. unfold handler_text, gate.
  cbn [h_isr h_segment h_ist h_flags]. rewrite dump_isr; [done|..]; apply (peekn_range 2).
Qed.

(** dump_idt lists the table. *)
Lemma wp_dump_idt m desc T :
  table_is m desc T ->
  let idt := {| limit := peek16 m (idt_limit_at desc); base := peek64 m (idt_base_at desc) |} in
  wp (dump_idt m idt) (fun calls => all_printed (fun _ => None) calls = Some (dump_text idt T 256)).
Proof.
  intros TI idt. unfold dump_idt. replace ((limit idt + 1) / sizeof_idt_entry) with 256
    by (cbn [idt limit]; by rewrite (ti_limit _ _ _ TI)).
  wp_step. eapply wp_mono.
  - apply (wp_for_range (fun i calls => all_printed (fun _ => None) calls = Some (dump_text idt T i)) (fun _ => False)).
    + done.
    + cbn [all_printed]. rewrite printed_idtr. cbn [mbind option_bind]. unfold dump_text. cbn [fmap list_fmap concat].
      by rewrite !app_nil_r.
    + intros v calls Hv Hc. wp_step. cbn [idt base].
      apply wp_load_gate; [apply (backed_sub _ _ _ _ _ (ti_table _ _ _ TI)); unfold sizeof_idt_entry; lia|].
      wp_ret. replace (dump_text idt T (v + 1)) with (dump_text idt T v ++ vector_text T v).
      2: { unfold dump_text. rewrite (seqZ_app 0 v 1) by lia. change (seqZ (0 + v) 1) with [v].
           rewrite fmap_app, concat_app. cbn [fmap list_fmap concat]. by rewrite <- !app_assoc, app_nil_r. }
      apply all_printed_app; [exact Hc|]. cbn [all_printed]. rewrite printed_number by lia.
      pose proof (printed_dump_entry m (peek64 m (idt_base_at desc) + v * sizeof_idt_entry)) as E.
      destruct (dump_idt_entry _) as [f args]. rewrite E. cbn [mbind option_bind].
      unfold vector_text. unfold sizeof_idt_entry. rewrite (Z.mul_comm v 16), (ti_gate _ _ _ TI v) by lia.
      by rewrite app_nil_r, <- !app_assoc.
  - by intros [calls|r] Hc; [exact Hc|].
Qed.
