(* ===== verification/SsfnSpec.v ===== *)
(** What the renderer does: the characters a font table gives glyphs to, the pixels a
    glyph lights, and that ssfn_putc finds the one and lights just the other.  The
    background colour is 0, as ssfn_setup sets it: pixels that are not lit stay. *)
From stdpp Require Import gmap list.
From Stdlib Require Import ZArith Lia.
From S2P Require Import Prelude Memory LibString Ssfn.
Local Open Scope Z_scope.

Lemma s16_small x : 0 <= x < 2 ^ 15 -> s16 x = x.
Proof. intros Hx. unfold s16. rewrite Z.mod_small; lia. Qed.

(** ** The character table *)
Section table.
Context (m : mem) (src size : Z).

(** A byte of the font. *)
Definition byte_is (a c : Z) : Prop := region src size a /\ load8 m a = Ok c.

(** An entry of [z] bytes that skips [n] code points. *)
Inductive skip_entry (ptr : Z) : Z -> Z -> Prop :=
  | skip_64k : byte_is ptr 0xFF -> skip_entry ptr 1 65536
  | skip_long c c1 : byte_is ptr c -> c <> 0xFF -> Z.land c 0xC0 = 0xC0 -> byte_is (ptr + 1) c1 ->
      skip_entry ptr 2 (Z.lor (Z.shiftl (Z.land c 0x3F) 8) c1 + 1)
  | skip_short c : byte_is ptr c -> Z.land c 0xC0 = 0x80 -> skip_entry ptr 1 (Z.land c 0x3F + 1).

(** An entry of [z] bytes that is a glyph. *)
Definition glyph_entry (ptr z : Z) : Prop :=
  exists c c1, byte_is ptr c /\ Z.land c 0x80 = 0 /\ byte_is (ptr + 1) c1 /\
    z = 6 + c1 * (if flag c 0x40 then 6 else 5).

(** The table from [ptr] on, the next entry being for code point [i]: the code points
    with their glyphs. *)
Inductive char_table : Z -> Z -> list (Z * Z) -> Prop :=
  | table_end ptr i : 0x110000 <= i -> char_table ptr i []
  | table_skip ptr i z n t : i < 0x110000 -> skip_entry ptr z n -> 0 < n ->
      char_table (ptr + z) (i + n) t -> char_table ptr i t
  | table_glyph ptr i z t : i < 0x110000 -> glyph_entry ptr z ->
      char_table (ptr + z) (i + 1) t -> char_table ptr i ((i, ptr) :: t).

(** The glyph of a character. *)
Fixpoint glyph_of (t : list (Z * Z)) (unicode : Z) : option Z :=
  match t with
  | [] => None
  | (i, chr) :: t => if i =? unicode then Some chr else glyph_of t unicode
  end.

Lemma glyph_step_skip unicode ptr i z n :
  skip_entry ptr z n -> glyph_step m unicode (ptr, i) = Ok (inl (ptr + z, i + n)).
Proof.
  unfold glyph_step. destruct 1 as [Hb|c c1 Hb Hne Hc Hb1|c Hb Hc]; unfold byte_is in *; rewrite (proj2 Hb); cbn [mbind res_bind].
  - cbn. do 3 f_equal. lia.
  - rewrite (proj2 (Z.eqb_neq c 0xFF) Hne), Hc, Z.eqb_refl, (proj2 Hb1). cbn [mbind res_bind]. do 3 f_equal. lia.
  - destruct (Z.eqb_spec c 0xFF) as [->|_]; [done|]. rewrite Hc. cbn [Z.eqb Pos.eqb]. do 3 f_equal. lia.
Qed.

Lemma glyph_step_entry unicode ptr i z :
  glyph_entry ptr z ->
  glyph_step m unicode (ptr, i) = Ok (if i =? unicode then inr (Some ptr) else inl (ptr + z, i + 1)).
Proof.
  intros (c & c1 & [_ Hb] & Hc & [_ Hb1] & ->). unfold glyph_step. rewrite Hb. cbn [mbind res_bind].
  assert (Hbit : Z.testbit c 7 = false).
  { rewrite <- (Z.add_0_l 7), <- Z.shiftr_spec by lia. apply (f_equal (fun x => Z.testbit x 7)) in Hc.
    rewrite Z.land_spec, Z.bits_0 in Hc. rewrite Z.shiftr_spec, Z.add_0_l by lia.
    by rewrite andb_true_r in Hc. }
  assert (Hm : forall x, Z.testbit x 7 = true -> (Z.land c 0xC0 =? x) = false).
  { intros x Hx. apply Z.eqb_neq. intros He. apply (f_equal (fun y => Z.testbit y 7)) in He.
    rewrite Z.land_spec, Hbit, Hx in He. done. }
  destruct (Z.eqb_spec c 0xFF) as [->|_]; [done|]. rewrite !Hm by done.
  destruct (i =? unicode); [done|]. rewrite Hb1. done.
Qed.

Lemma find_glyph_spec fuel ptr i t unicode :
  char_table ptr i t -> 0x110000 - i <= Z.of_nat fuel ->
  after (while_fuel fuel (fun '(_, i) => Ok (i <? 0x110000)) (glyph_step m unicode) (ptr, i)) (fun _ => Ok None) =
  Ok (glyph_of t unicode).
Proof.
  intros T. revert fuel. induction T as [ptr i Hi|ptr i z n t Hi Hs Hn T IH|ptr i z t Hi Hg T IH]; intros fuel Hf.
  - destruct fuel; cbn [while_fuel mbind res_bind]; by rewrite (proj2 (Z.ltb_ge i 0x110000)).
  - destruct fuel as [|fuel]; [lia|]. cbn [while_fuel]. rewrite (proj2 (Z.ltb_lt i 0x110000)) by done.
    cbn [mbind res_bind]. rewrite (glyph_step_skip unicode ptr i z n Hs). apply IH. lia.
  - destruct fuel as [|fuel]; [lia|]. cbn [while_fuel]. rewrite (proj2 (Z.ltb_lt i 0x110000)) by done.
    cbn [mbind res_bind]. rewrite (glyph_step_entry unicode ptr i z Hg). cbn [glyph_of].
    destruct (i =? unicode); [done|]. apply IH. lia.
Qed.
End table.

(** The font is the same in two memories. *)
Definition same_font (src size : Z) (m m' : mem) : Prop := forall a, region src size a -> m' !! a = m !! a.

Lemma same_font_upd P src size m m' :
  mem_upd P m m' -> (forall a, region src size a -> ~ P a) -> same_font src size m m'.
Proof. intros U HP a Ha. by apply (upd_outside _ _ _ U), HP. Qed.

Lemma same_font_trans src size m1 m2 m3 :
  same_font src size m1 m2 -> same_font src size m2 m3 -> same_font src size m1 m3.
Proof. intros H1 H2 a Ha. by rewrite H2, H1. Qed.

Lemma same_font_peekn src size m m' n a :
  same_font src size m m' -> src <= a -> a + Z.of_nat n <= src + size -> peekn n m' a = peekn n m a.
Proof. intros H H1 H2. apply peekn_ext. intros x Hx. apply H. unfold region in *. lia. Qed.

Lemma same_font_backed src size m m' : same_font src size m m' -> backed m src size -> backed m' src size.
Proof. intros H B a Ha. rewrite H by done. by apply B. Qed.

Lemma byte_is_same src size m m' a c :
  same_font src size m m' -> backed m src size -> byte_is m src size a c -> byte_is m' src size a c.
Proof.
  intros H B [Ha Hc]. split; [done|]. pose proof (same_font_backed _ _ _ _ H B) as B'. unfold region in Ha.
  rewrite loadn_ok in Hc |- * by (eapply backed_sub; [eassumption | lia..]).
  by rewrite (same_font_peekn _ _ _ _ _ _ H) by lia.
Qed.

Lemma char_table_same src size m m' ptr i t :
  same_font src size m m' -> backed m src size -> char_table m src size ptr i t -> char_table m' src size ptr i t.
Proof.
  intros H B. assert (Hb := byte_is_same src size m m').
  induction 1 as [ptr i Hi|ptr i z n t Hi Hs Hn T IH|ptr i z t Hi Hg T IH].
  - by apply table_end.
  - apply (table_skip _ _ _ _ _ z n); [done | | done | done]. destruct Hs;
      [apply skip_64k | eapply skip_long | eapply skip_short]; eauto.
  - apply (table_glyph _ _ _ _ _ z); [done | | done]. destruct Hg as (c & c1 & H1 & H2 & H3 & H4).
    exists c, c1. split; [by apply Hb|]. split; [done|]. split; [by apply Hb | done].
Qed.

(** ** The pixels of a glyph *)
Section glyph.
(** [m0] is a memory with the font in it, [mc] the one at the call. *)
Context (m0 mc : mem) (src size : Z) (d : ssfn_buf_t) (chr : Z).

Definition wide : bool := flag (peek8 m0 chr) 0x40.
Definition desc_size : Z := if wide then 6 else 5.
Definition fragment_count : Z := peek8 m0 (chr + 1).

(** The description of fragment [i], and the fragment. *)
Definition desc (i : Z) : Z := chr + 6 + i * desc_size.
Definition frag (i : Z) : Z :=
  let p k := peek8 m0 (desc i + k) in
  let low := Z.lor (Z.shiftl (p 4) 16) (Z.lor (Z.shiftl (p 3) 8) (p 2)) in
  src + (if wide then s32 (Z.lor (Z.shiftl (p 5) 24) low) else low).

(** Its first row, its columns and rows, and its bits, row by row. *)
Definition frag_y (i : Z) : Z := peek8 m0 (desc i + 1).
Definition frag_cols (i : Z) : Z := Z.shiftl (Z.land (peek8 m0 (frag i)) 0x1F + 1) 3.
Definition frag_rows (i : Z) : Z := peek8 m0 (frag i + 1) + 1.
Definition frag_bit (i t : Z) : bool := Z.testbit (peek8 m0 (frag i + 2 + t / 8)) (t mod 8).

Definition hidden (i : Z) : bool := (peek8 m0 (desc i) =? 255) && (peek8 m0 (desc i + 1) =? 255).
Definition is_bitmap (i : Z) : bool := Z.land (peek8 m0 (frag i)) 0xE0 =? 0x80.

(** Fragment [i] lights the pixel in row [r] and column [c] of the glyph. *)
Definition lit_by (i r c : Z) : Prop :=
  0 <= i < fragment_count /\ hidden i = false /\ is_bitmap i = true /\
  0 <= r - frag_y i < frag_rows i /\ 0 <= c < frag_cols i /\
  frag_bit i ((r - frag_y i) * frag_cols i + c) = true /\
  row_in d r = true /\ 0 <= dst_x d + c /\ col_in d c = true.

Definition lit (r c : Z) : Prop := exists i, lit_by i r c.

(** The address of a pixel, and all that is lit. *)
Definition pixel (r c : Z) : Z := dst_ptr d + dst_y d * dst_p d + 4 * dst_x d + r * (4 * stride d) + 4 * c.
Definition pixels (a : Z) : Prop := exists r c, lit r c /\ region (pixel r c) 4 a.

Definition in_font (a n : Z) : Prop := src <= a /\ a + n <= src + size.

(** The glyph lies in the font, and the pixels in memory outside it. *)
Record glyph_ok : Prop := {
  go_same : same_font src size m0 mc;
  go_font : backed m0 src size;
  go_chr : in_font chr 6;
  go_desc i : 0 <= i < fragment_count -> in_font (desc i) desc_size;
  go_frag i : 0 <= i < fragment_count -> hidden i = false -> in_font (frag i) 1;
  go_bits i : 0 <= i < fragment_count -> hidden i = false -> is_bitmap i = true ->
    in_font (frag i) (2 + frag_rows i * frag_cols i / 8);
  go_apart a : region src size a -> ~ pixels a;
  go_backed r c : lit r c -> backed mc (pixel r c) 4;
  go_bg : dst_bg d = 0
}.
Context (G : glyph_ok).

(** In the middle of the drawing: only lit pixels have been written, and those in
    [S] are. *)
Definition drawn (S : Z -> Z -> Z -> Prop) (m : mem) : Prop :=
  mem_upd pixels mc m /\ forall i r c, S i r c -> lit_by i r c -> peek32 m (pixel r c) = u32 (dst_fg d).

Lemma drawn_mono (S S' : Z -> Z -> Z -> Prop) m :
  drawn S m -> (forall i r c, S' i r c -> lit_by i r c -> S i r c) -> drawn S' m.
Proof using Type. intros [U H] HS. split; [done|]. intros i r c HS' Hl. apply (H i r c); auto. Qed.

Lemma font_byte S m a : drawn S m -> in_font a 1 -> load8 m a = Ok (peek8 m0 a).
Proof using G.
  intros [U _] [H1 H2]. pose proof (same_font_backed _ _ _ _ (go_same G) (go_font G)) as B.
  assert (B1 : backed mc a 1) by (apply (backed_sub _ _ _ _ _ B); lia).
  rewrite loadn_ok by (by apply (mem_upd_backed _ _ _ _ _ U)). f_equal.
  rewrite (mem_upd_peekn _ _ _ _ _ U).
  - by apply (same_font_peekn src size m0 mc 1 a (go_same G)).
  - intros x Hx. apply (go_apart G). unfold region in *. cbn in Hx. lia.
Qed.

Lemma wp_light S m i r c :
  drawn S m -> lit_by i r c ->
  wp (store32 m (pixel r c) (dst_fg d))
    (drawn (fun i' r' c' => S i' r' c' \/ (r' = r /\ c' = c))).
Proof using G.
  intros [U Hd] Hl. assert (Hlit : lit r c) by (by exists i).
  assert (B : backed m (pixel r c) 4) by (by apply (mem_upd_backed _ _ _ _ _ U), (go_backed G)).
  apply (wp_storen 4); [exact B|]. split.
  - etrans; [exact U|]. eapply mem_upd_mono; [by apply (mem_upd_poken 4)|]. intros a Ha. by exists r, c.
  - intros i' r' c' HS Hl'. destruct (decide (pixel r' c' = pixel r c)) as [->|Hne].
    + by rewrite (peekn_poken_eq 4).
    + destruct HS as [HS|[-> ->]]; [|done]. rewrite (peekn_poken_ne 4 4); [by apply (Hd i')|].
      unfold pixel in *. cbn. lia.
Qed.

(** ** The loops *)
(** The byte and the mask of bit [t] of a bitmap at [f0], before they are moved on. *)
Definition at_bit (f0 t : Z) (frg bit : Z) : Prop :=
  (t = 0 /\ frg = f0 /\ bit = 1) \/
  (0 < t /\ frg = f0 + (t - 1) / 8 /\ bit = 2 ^ ((t - 1) mod 8 + 1)).

Lemma at_bit_next f0 t frg bit :
  0 <= t -> at_bit f0 t frg bit ->
  (if 0x80 <? bit then (frg + 1, 1) else (frg, bit)) = (f0 + t / 8, 2 ^ (t mod 8)) /\
  at_bit f0 (t + 1) (f0 + t / 8) (Z.shiftl (2 ^ (t mod 8)) 1).
Proof using Type.
  intros Ht H. split.
  - destruct H as [(-> & -> & ->)|(Hp & -> & ->)]; [by rewrite Z.add_0_r|].
    pose proof (Z.mod_pos_bound (t - 1) 8 ltac:(lia)) as Hm.
    destruct (decide ((t - 1) mod 8 = 7)) as [E|E].
    + rewrite E. cbn. assert (t / 8 = (t - 1) / 8 + 1) as -> by (clear -Hp E; zlia).
      assert (t mod 8 = 0) as -> by (clear -Hp E; zlia). f_equal. lia.
    + assert (t / 8 = (t - 1) / 8) as -> by (clear -Hp E; zlia).
      assert (t mod 8 = (t - 1) mod 8 + 1) as -> by (clear -Hp E; zlia).
      rewrite (proj2 (Z.ltb_ge 0x80 _)); [done|]. change 0x80 with (2 ^ 7). apply Z.pow_le_mono_r; lia.
  - right. pose proof (Z.mod_pos_bound t 8 ltac:(lia)). split; [lia|]. rewrite Z.add_simpl_r. split; [done|].
    rewrite Z.shiftl_mul_pow2, Z.pow_add_r by lia. done.
Qed.

Section bitmap.
Context (i : Z) (Hi : 0 <= i < fragment_count) (Hv : hidden i = false) (Hb : is_bitmap i = true).
Context (S0 : Z -> Z -> Z -> Prop).

(** The pixels set when the first [t] bits have been looked at. *)
Definition upto (t : Z) (i' r c : Z) : Prop :=
  S0 i' r c \/ (i' = i /\ (r - frag_y i) * frag_cols i + c < t).

Lemma frag_cols_pos : 8 <= frag_cols i <= 256 /\ frag_cols i mod 8 = 0.
Proof using Type.
  unfold frag_cols. rewrite Z.shiftl_mul_pow2 by done. change 0x1F with (Z.ones 5). rewrite Z.land_ones by done.
  pose proof (Z.mod_pos_bound (peek8 m0 (frag i)) (2 ^ 5) ltac:(done)). change (2 ^ 3) with 8 in *. change (2 ^ 5) with 32 in *.
  split; [lia|]. by rewrite Z.mod_mul.
Qed.

Lemma frag_rows_range : 1 <= frag_rows i <= 256.
Proof using Type. unfold frag_rows. pose proof (peek8_range m0 (frag i + 1)). lia. Qed.

Lemma wp_draw_pixel r l m frg bit :
  0 <= r - frag_y i < frag_rows i -> row_in d r = true -> 0 <= l < frag_cols i ->
  let t := (r - frag_y i) * frag_cols i + l in
  drawn (upto t) m -> at_bit (frag i + 2) t frg bit ->
  wp (draw_pixel d (pixel r 0) l (m, frg, bit)) (fun '(m', frg', bit') =>
    drawn (upto (t + 1)) m' /\ at_bit (frag i + 2) (t + 1) frg' bit').
Proof using G Hi Hv Hb.
  intros Hr Hin Hl t D A. destruct frag_cols_pos as [Hk Hk8].
  assert (Ht : 0 <= t < frag_rows i * frag_cols i) by (unfold t; nia).
  destruct (at_bit_next _ t frg bit ltac:(lia) A) as [E A']. unfold draw_pixel. rewrite E.
  assert (Hbyte : load8 m (frag i + 2 + t / 8) = Ok (peek8 m0 (frag i + 2 + t / 8))).
  { apply (font_byte _ _ _ D). destruct (go_bits G i Hi Hv Hb) as [H1 H2].
    assert (HN : (frag_rows i * frag_cols i) mod 8 = 0) by (by rewrite Z.mul_mod, Hk8, Z.mul_0_r by lia).
    clear -H1 H2 HN Ht. unfold in_font. revert HN Ht H1 H2. generalize (frag_rows i * frag_cols i) (frag i).
    intros N f HN Ht H1 H2. zlia. }
  assert (Hcell : forall c, 0 <= c < frag_cols i -> forall r', (r' - frag_y i) * frag_cols i + c < t + 1 ->
    (r' - frag_y i) * frag_cols i + c < t \/ (r' = r /\ c = l)).
  { intros c Hc r' Hlt. destruct (decide ((r' - frag_y i) * frag_cols i + c < t)) as [|Hge]; [by left|]. right.
    assert (He : (r' - r) * frag_cols i = l - c) by (unfold t in *; lia).
    assert (Hrr : r' = r); [|split; [done | nia]]. clear -He Hc Hl. nia. }
  assert (Hskip : ~ lit_by i r l -> drawn (upto (t + 1)) m).
  { intros Hn. apply (drawn_mono _ _ _ D). intros i' r' c' [HS|[-> Hlt]] Hl'; [by left|].
    pose proof Hl' as (_ & _ & _ & _ & Hc' & _). destruct (Hcell c' Hc' r' Hlt) as [|[-> ->]]; [by right | done]. }
  wp_step. destruct (Z.leb_spec 0 (dst_x d + l)) as [Hx|Hx]; cbn [andb].
  2: { wp_ret. split; [|done]. apply Hskip. unfold lit_by. lia. }
  destruct (col_in d l) eqn:Hcol.
  2: { wp_ret. split; [|done]. apply Hskip. intros (_ & _ & _ & _ & _ & _ & _ & _ & Hc). congruence. }
  rewrite Hbyte. cbn [mbind res_bind]. pose proof (Z.mod_pos_bound t 8 ltac:(lia)) as Ht8.
  rewrite <- Z.shiftl_1_l, land_bit by lia. rewrite negb_involutive.
  change (Z.testbit _ _) with (frag_bit i t). destruct (frag_bit i t) eqn:Hbit.
  - assert (HL : lit_by i r l).
    { split; [exact Hi|]. split; [exact Hv|]. split; [exact Hb|]. split; [exact Hr|]. split; [exact Hl|].
      split; [exact Hbit|]. split; [exact Hin|]. by split. }
    replace (pixel r 0 + 4 * l) with (pixel r l) by (unfold pixel; lia).
    eapply wp_mono; [by apply (wp_light _ m i r l D)|]. intros m' D'. wp_ret.
    rewrite Z.shiftl_1_l. split; [|done]. apply (drawn_mono _ _ _ D').
    intros i' r' c' [HS|[-> Hlt]] Hl'; [by left; left|].
    pose proof Hl' as (_ & _ & _ & _ & Hc' & _). destruct (Hcell c' Hc' r' Hlt) as [|[-> ->]]; [left; by right | by right].
  - rewrite (go_bg G). cbn [Z.eqb negb]. wp_ret. rewrite Z.shiftl_1_l. split; [|done]. apply Hskip.
    intros (_ & _ & _ & _ & _ & Hbit' & _). unfold t in *. congruence.
Qed.

Lemma wp_draw_row r m frg bit :
  0 <= r - frag_y i < frag_rows i -> row_in d r = true ->
  drawn (upto ((r - frag_y i) * frag_cols i)) m ->
  at_bit (frag i + 2) ((r - frag_y i) * frag_cols i) frg bit ->
  wp (draw_row d (frag_cols i) (pixel r 0) (m, frg, bit)) (fun '(m', frg', bit') =>
    drawn (upto ((r + 1 - frag_y i) * frag_cols i)) m' /\
    at_bit (frag i + 2) ((r + 1 - frag_y i) * frag_cols i) frg' bit').
Proof using G Hi Hv Hb.
  intros Hr Hin D A. destruct frag_cols_pos as [Hk _]. unfold draw_row. wp_step. eapply wp_mono.
  - apply (wp_for_range (fun l '(m, frg, bit) => drawn (upto ((r - frag_y i) * frag_cols i + l)) m /\
      at_bit (frag i + 2) ((r - frag_y i) * frag_cols i + l) frg bit) (fun _ => False)); [lia | |].
    + by rewrite Z.add_0_r.
    + intros l [[m1 frg1] bit1] Hl [D1 A1]. wp_step.
      eapply wp_mono; [by apply (wp_draw_pixel r l m1 frg1 bit1)|].
      intros [[m2 frg2] bit2] [D2 A2]. wp_ret. by rewrite Z.add_assoc.
  - intros [[[m1 frg1] bit1]|]; [|done]. intros [D1 A1]. wp_ret.
    replace ((r + 1 - frag_y i) * frag_cols i) with ((r - frag_y i) * frag_cols i + frag_cols i) by lia. done.
Qed.

(** A row outside the destination is not lit, and neither are those below it. *)
Lemma row_in_below r r' : row_in d r = false -> r <= r' -> row_in d r' = false.
Proof using Type.
  unfold row_in. destruct (dst_h d =? 0); [done|]. cbn [orb]. rewrite !Z.ltb_ge. lia.
Qed.

Context (fuel : nat) (Hfuel : 256 <= Z.of_nat fuel).

(** The pixels of the first [i] fragments. *)
Lemma wp_draw_bitmap m :
  drawn S0 m ->
  wp (draw_bitmap fuel d (frag_cols i) (frag_rows i) m (frag i + 2) (frag_y i) (pixel (frag_y i) 0))
    (fun '(m', y, o) => drawn (fun i' r c => S0 i' r c \/ i' = i) m' /\ o = pixel y 0).
Proof using G Hi Hv Hb Hfuel.
  intros D. pose proof frag_rows_range as Hrows. destruct frag_cols_pos as [Hk _]. unfold draw_bitmap. wp_step.
  set (I := fun '(m, frg, bit, j, y, o) => 0 <= j <= frag_rows i /\ y = frag_y i + (frag_rows i - j) /\
    o = pixel y 0 /\ drawn (upto ((y - frag_y i) * frag_cols i)) m /\
    at_bit (frag i + 2) ((y - frag_y i) * frag_cols i) frg bit).
  eapply wp_mono.
  - apply (wp_while I (fun _ => False) (fun '(_, _, _, j, _, _) => j)); [lia | |].
    + split; [lia|]. split; [lia|]. split; [done|]. rewrite Z.sub_diag, Z.mul_0_l. split; [|by left].
      apply (drawn_mono _ _ _ D). intros i' r c [HS|[-> Hlt]] Hl; [done|].
      destruct Hl as (_ & _ & _ & Hr & Hc & _). nia.
    + intros [[[[[m1 frg1] bit1] j] y] o] (Hj & -> & -> & D1 & A1). wp_ret.
      destruct (Z.eqb_spec j 0) as [|Hne]; [done|]. cbn [negb andb].
      destruct (row_in d _) eqn:Hin; [|done]. split; [lia|]. wp_step. eapply wp_mono.
      { apply wp_draw_row; [lia | done | exact D1 | exact A1]. }
      intros [[m2 frg2] bit2] [D2 A2]. wp_ret. split; [|lia]. split; [lia|]. split; [lia|].
      split; [unfold pixel; lia|]. done.
  - intros [[[[[[m1 frg1] bit1] j] y] o]|]; [|done]. intros [(Hj & -> & -> & D1 & _) [= Hend]]. wp_ret.
    split; [|done]. apply (drawn_mono _ _ _ D1). intros i' r c [HS | ->] Hl; [by left|]. right. split; [done|].
    pose proof Hl as (_ & _ & _ & Hr & Hc & _ & Hin & _).
    destruct (decide (r < frag_y i + (frag_rows i - j))) as [Hlt|Hge]; [nia|].
    destruct (Z.eqb_spec j 0) as [->|_]; [nia|]. cbn [negb andb] in Hend.
    rewrite (row_in_below _ r Hend) in Hin by lia. done.
Qed.
End bitmap.

Lemma desc_byte S m i k :
  drawn S m -> 0 <= i < fragment_count -> 0 <= k < desc_size -> load8 m (desc i + k) = Ok (peek8 m0 (desc i + k)).
Proof using G.
  intros D Hi Hk. apply (font_byte _ _ _ D). destruct (go_desc G i Hi) as [H1 H2]. unfold in_font in *. lia.
Qed.

Lemma chr_byte S m k : drawn S m -> 0 <= k < 6 -> load8 m (chr + k) = Ok (peek8 m0 (chr + k)).
Proof using G.
  intros D Hk. apply (font_byte _ _ _ D). destruct (go_chr G) as [H1 H2]. unfold in_font in *. lia.
Qed.

Lemma fragment_at_frag S m i :
  drawn S m -> 0 <= i < fragment_count -> fragment_at src chr m (desc i) = Ok (frag i).
Proof using G.
  intros D Hi. unfold fragment_at. pose proof (chr_byte _ _ 0 D ltac:(lia)) as Hc. rewrite Z.add_0_r in Hc. rewrite Hc.
  assert (Hs : 5 <= desc_size) by (unfold desc_size; by destruct wide).
  rewrite (desc_byte _ _ i 2 D Hi), (desc_byte _ _ i 3 D Hi), (desc_byte _ _ i 4 D Hi) by lia.
  cbn [mbind res_bind]. unfold frag. change (flag (peek8 m0 chr) 0x40) with wide.
  destruct wide eqn:Hw; [|done]. rewrite (desc_byte _ _ i 5 D Hi); [done|]. unfold desc_size. rewrite Hw. lia.
Qed.

Context (fuel : nat) (Hfuel : 256 <= Z.of_nat fuel).

Lemma wp_draw_fragment S m i y :
  drawn S m -> 0 <= i < fragment_count ->
  wp (draw_fragment fuel src d chr (desc i) (m, y, pixel y 0)) (fun '(m', y', o') =>
    drawn (fun i' r c => S i' r c \/ i' = i) m' /\ o' = pixel y' 0).
Proof using G Hfuel.
  intros D Hi. unfold draw_fragment. assert (Hs : 5 <= desc_size) by (unfold desc_size; by destruct wide).
  pose proof (desc_byte _ _ i 0 D Hi ltac:(lia)) as H0. rewrite Z.add_0_r in H0. rewrite H0.
  rewrite (desc_byte _ _ i 1 D Hi) by lia. cbn [mbind res_bind].
  assert (Hnone : hidden i = true \/ is_bitmap i = false -> drawn (fun i' r c => S i' r c \/ i' = i) m).
  { intros Hn. apply (drawn_mono _ _ _ D). intros i' r c [HS | ->] (_ & Hv & Hb & _); [done|].
    destruct Hn; congruence. }
  change ((_ =? 255) && _) with (hidden i). destruct (hidden i) eqn:Hv.
  { wp_ret. split; [apply Hnone; by left | done]. }
  rewrite (fragment_at_frag _ _ i D Hi). cbn [mbind res_bind].
  pose proof (go_frag G i Hi Hv) as Hf. rewrite (font_byte _ _ _ D Hf). cbn [mbind res_bind].
  change (Z.land _ 0xE0 =? 0x80) with (is_bitmap i). destruct (is_bitmap i) eqn:Hb; cbn [negb].
  2: { wp_ret. split; [apply Hnone; by right | done]. }
  rewrite (go_bg G). cbn [Z.eqb negb mbind res_bind]. rewrite (font_byte _ _ _ D Hf). cbn [mbind res_bind].
  destruct (go_bits G i Hi Hv Hb) as [B1 B2]. pose proof frag_rows_range i as Hr. destruct (frag_cols_pos i) as [Hk _].
  rewrite (font_byte _ _ (frag i + 1) D); [|unfold in_font; zlia]. cbn [mbind res_bind].
  replace (pixel y 0 + 4 * ((peek8 m0 (desc i + 1) - y) * stride d)) with (pixel (frag_y i) 0)
    by (unfold pixel, frag_y; lia).
  by apply wp_draw_bitmap.
Qed.

(** All fragments have been drawn. *)
Definition all_drawn (m : mem) : Prop :=
  mem_upd pixels mc m /\ forall r c, lit r c -> peek32 m (pixel r c) = u32 (dst_fg d).

Lemma wp_draw_glyph :
  wp (draw_glyph fuel src d chr mc) (fun '(m', d') => all_drawn m' /\
    d' = move_to d (s16 (dst_x d + peek8 m0 (chr + 4))) (s16 (dst_y d + peek8 m0 (chr + 5)))).
Proof using G Hfuel.
  unfold draw_glyph, draw_fragments. wp_step.
  replace (dst_ptr d + dst_y d * dst_p d + 4 * dst_x d) with (pixel 0 0) by (unfold pixel; lia).
  assert (D0 : drawn (fun i' _ _ => i' < 0) mc) by (split; [done | unfold lit_by; lia]).
  assert (Hn : 0 <= fragment_count < 256) by apply peek8_range.
  set (I := fun '(m, y, o, i, ptr) => 0 <= i <= fragment_count /\ ptr = desc i /\ o = pixel y 0 /\
    drawn (fun i' _ _ => i' < i) m).
  wp_step. eapply wp_mono.
  - apply (wp_while I (fun _ => False) (fun '(_, _, _, i, _) => fragment_count - i)); [lia | |].
    + split; [lia|]. split; [unfold desc; lia|]. done.
    + intros [[[[m y] o] i] ptr] (Hi & -> & -> & D). wp_step. rewrite (chr_byte _ _ 1 D ltac:(lia)). wp_ret.
      change (peek8 m0 (chr + 1)) with fragment_count.
      destruct (Z.ltb_spec i fragment_count) as [Hlt|]; [|done]. split; [lia|]. wp_step.
      eapply wp_mono; [apply (wp_draw_fragment _ m i y D); lia|]. intros [[m' y'] o'] [D' ->].
      pose proof (chr_byte _ _ 0 D' ltac:(lia)) as Hc. rewrite Z.add_0_r in Hc. rewrite Hc. wp_ret.
      split; [|lia]. split; [lia|]. split; [unfold desc, desc_size, wide; destruct (flag _ _); lia|]. split; [done|].
      apply (drawn_mono _ _ _ D'). intros. lia.
  - intros [[[[[m y] o] i] ptr]|]; [|done]. intros [(Hi & -> & -> & D) Hend].
    rewrite (chr_byte _ _ 1 D ltac:(lia)) in Hend. injection Hend as Hend%Z.ltb_ge.
    change (peek8 m0 (chr + 1)) with fragment_count in Hend. wp_ret. rewrite (go_bg G). cbn [Z.eqb negb mbind res_bind].
    rewrite (chr_byte _ _ 4 D), (chr_byte _ _ 5 D) by lia. wp_ret. split; [|done].
    destruct D as [U Hd]. split; [done|]. intros r c [j Hl]. apply (Hd j); [|done]. destruct Hl as [Hj _]. lia.
Qed.
End glyph.

(** ** ssfn_putc *)

(** A valid font: the magic and a character table. *)
Record font_ok (m : mem) (src size : Z) (t : list (Z * Z)) : Prop := {
  fo_src : src <> NULL;
  fo_backed : backed m src size;
  fo_size : 32 <= size;
  fo_magic k c : SSFN_MAGIC !! k = Some c -> peek8 m (src + Z.of_nat k) = c;
  fo_table : char_table m src size (src + peek32 m (font_characters_offs_at src)) 0 t
}.

Lemma font_ok_same m m' src size t :
  same_font src size m m' -> font_ok m src size t -> font_ok m' src size t.
Proof.
  intros H [H1 H2 H3 H4 H5]. split; [done | by apply (same_font_backed _ _ m) | done | |].
  - intros k c Hk. rewrite (same_font_peekn _ _ _ _ _ _ H); [by apply H4 | lia |].
    pose proof (lookup_lt_Some _ _ _ Hk) as Hl. cbn in *. lia.
  - rewrite (same_font_peekn _ _ _ _ _ _ H) by (unfold font_characters_offs_at; lia).
    by apply (char_table_same _ _ m).
Qed.

Lemma has_magic_ok m a magic :
  backed m a (Z.of_nat (length magic)) -> (forall k c, magic !! k = Some c -> peek8 m (a + Z.of_nat k) = c) ->
  has_magic m a magic = Ok true.
Proof.
  revert a. induction magic as [|c magic IH]; intros a B Hm; [done|]. cbn [has_magic length] in *.
  rewrite loadn_ok by (apply (backed_sub _ _ _ _ _ B); lia). cbn [mbind res_bind].
  pose proof (Hm 0%nat c eq_refl) as Hc. cbn in Hc. rewrite Z.add_0_r in Hc. rewrite Hc, Z.eqb_refl. apply IH.
  - apply (backed_sub _ _ _ _ _ B); lia.
  - intros k c' Hk. rewrite <- (Hm (S k) c' Hk). f_equal. lia.
Qed.

Lemma ssfn_valid_ok m g size t :
  font_ok m (ssfn_src g) size t -> dst_ptr (ssfn_dst g) <> NULL -> dst_p (ssfn_dst g) <> 0 ->
  ssfn_valid m g = Ok true.
Proof.
  intros [H1 H2 H3 H4 _] Hp Hq. unfold ssfn_valid. rewrite (proj2 (Z.eqb_neq _ _) H1), has_magic_ok.
  - cbn [mbind res_bind]. by rewrite (proj2 (Z.eqb_neq _ _) Hp), (proj2 (Z.eqb_neq _ _) Hq).
  - apply (backed_sub _ _ _ _ _ H2); [lia|]. cbn. lia.
  - exact H4.
Qed.

(** What a call does: the cursor moves to the start of the line, a line down, past the
    glyph drawn, or nothing happens for want of one.  [m0] has the font in it. *)
Definition putc_post (m0 m : mem) (g : ssfn_t) (t : list (Z * Z)) (unicode : Z)
    (o : Z * (mem * ssfn_t)) : Prop :=
  let '(r, (m', g')) := o in
  let d := ssfn_dst g in
  ssfn_src g' = ssfn_src g /\
  if (unicode =? 13) || (unicode =? 10) then
    r = SSFN_OK /\ m' = m /\ ssfn_dst g' =
      move_to d 0 (if unicode =? 10 then s16 (dst_y d + peek8 m0 (font_height_at (ssfn_src g))) else dst_y d)
  else
    match glyph_of t unicode with
    | None => r = SSFN_ERR_NOGLYPH /\ m' = m /\ g' = g
    | Some chr => r = SSFN_OK /\ all_drawn m0 m (ssfn_src g) d chr m' /\
        ssfn_dst g' = move_to d (s16 (dst_x d + peek8 m0 (chr + 4))) (s16 (dst_y d + peek8 m0 (chr + 5)))
    end.

Lemma wp_ssfn_putc fuel m0 m g size t unicode :
  0x110000 <= Z.of_nat fuel -> font_ok m0 (ssfn_src g) size t -> same_font (ssfn_src g) size m0 m ->
  dst_ptr (ssfn_dst g) <> NULL -> dst_p (ssfn_dst g) <> 0 ->
  ((unicode =? 13) || (unicode =? 10) = false ->
    forall chr, glyph_of t unicode = Some chr -> glyph_ok m0 m (ssfn_src g) size (ssfn_dst g) chr) ->
  wp (ssfn_putc fuel (m, g) unicode) (putc_post m0 m g t unicode).
Proof.
  intros Hf F0 Hsame Hp Hq HG. pose proof (font_ok_same _ _ _ _ _ Hsame F0) as F. pose proof (fo_size _ _ _ _ F) as Hs.
  unfold ssfn_putc. rewrite (ssfn_valid_ok _ _ _ _ F Hp Hq). cbn [mbind res_bind negb].
  assert (Hb : forall a n, ssfn_src g <= a -> a + n <= ssfn_src g + 32 -> backed m a n)
    by (intros a n H1 H2; apply (backed_sub _ _ _ _ _ (fo_backed _ _ _ _ F)); lia).
  unfold putc_post. destruct ((unicode =? 13) || (unicode =? 10)) eqn:Hnl.
  { destruct (unicode =? 10); [|done]. rewrite loadn_ok by (apply Hb; unfold font_height_at; lia). cbn [mbind res_bind].
    rewrite (same_font_peekn _ _ _ _ _ _ Hsame) by (unfold font_height_at; lia). done. }
  rewrite loadn_ok by (apply Hb; unfold font_characters_offs_at; lia). cbn [mbind res_bind].
  unfold find_glyph. rewrite (find_glyph_spec m _ _ fuel _ 0 t unicode (fo_table _ _ _ _ F)) by lia. cbn [mbind res_bind].
  destruct (glyph_of t unicode) as [chr|]; [|done]. wp_step.
  eapply wp_mono; [apply (wp_draw_glyph m0 m (ssfn_src g) size (ssfn_dst g) chr (HG eq_refl chr eq_refl) fuel); lia|].
  intros [m' d'] [Ha ->]. by wp_ret.
Qed.
