(* ===== verification/ConsoleSpec.v ===== *)
(** Where the cursor of the console goes, and that while it is on the screen ssfn_put and
    ssfn_printf write to the screen only. *)
From stdpp Require Import gmap list.
From Stdlib Require Import ZArith Lia.
From S2P Require Import Prelude Memory LibString Stdio ItoaSpec StdioSpec Ssfn SsfnSpec Console.
Local Open Scope Z_scope.

Section console.
Context (m0 : mem) (src size : Z) (t : list (Z * Z)) (fb : framebuffer_t).

(** The size of the biggest glyph, the pitch and the lines of the screen. *)
Context (height_max width_max pitch lines : Z).

Definition line_height : Z := peek8 m0 (font_height_at src).
Definition on_screen (a : Z) : Prop := region (buffer fb) (lines * pitch) a.

(** The rightmost position of the cursor. *)
Definition right_end : Z := width fb - margin fb - 5.

(** A glyph that lies in the font and is not too big. *)
Record glyph_fits (chr : Z) : Prop := {
  gf_chr : in_font src size chr 6;
  gf_desc i : 0 <= i < fragment_count m0 chr -> in_font src size (desc m0 chr i) (desc_size m0 chr);
  gf_frag i : 0 <= i < fragment_count m0 chr -> hidden m0 chr i = false -> in_font src size (frag m0 src chr i) 1;
  gf_bits i : 0 <= i < fragment_count m0 chr -> hidden m0 chr i = false -> is_bitmap m0 src chr i = true ->
    in_font src size (frag m0 src chr i) (2 + frag_rows m0 src chr i * frag_cols m0 src chr i / 8) /\
    frag_y m0 chr i + frag_rows m0 src chr i <= height_max /\ frag_cols m0 src chr i <= width_max;
  gf_down : peek8 m0 (chr + 5) = 0
}.

(** A font, and a screen for it. *)
Record screen_ok : Prop := {
  sk_font : font_ok m0 src size t;
  sk_glyphs unicode chr : glyph_of t unicode = Some chr -> glyph_fits chr;
  sk_buffer : buffer fb <> NULL;
  sk_pitch : 0 < pitch /\ pitch mod 4 = 0;
  sk_margin : 0 <= margin fb /\ margin fb <= right_end;
  sk_right : 4 * (right_end + width_max) <= pitch /\ right_end + 255 < 2 ^ 15;
  sk_lines : 0 <= height_max /\ lines + 255 < 2 ^ 15;
  sk_apart a : region src size a -> ~ on_screen a
}.
Context (K : screen_ok).

(** ** The cursor *)

(** How far a character moves the cursor. *)
Definition advance (unicode : Z) : Z :=
  match glyph_of t unicode with
  | Some chr => peek8 m0 (chr + 4)
  | None => 0
  end.

(** The character that ssfn_putc gets. *)
Definition char_code (c : Z) : Z := u32 (s8 c).

(** The cursor after a character: past the right margin it goes on to the next line. *)
Definition next_cursor (p : Z * Z) (c : Z) : Z * Z :=
  let '(x, y) := p in
  let '(x, y) :=
    if char_code c =? 13 then (0, y)
    else if char_code c =? 10 then (0, y + line_height)
    else (x + advance (char_code c), y) in
  let '(x, y) := if right_end <? x then (0, y + line_height) else (x, y) in
  (Z.max (margin fb) x, y).

(** The characters all start on the screen. *)
Fixpoint fits (p : Z * Z) (l : list Z) : Prop :=
  match l with
  | [] => True
  | c :: l => p.2 + height_max <= lines /\ fits (next_cursor p c) l
  end.

Definition final_cursor : Z * Z -> list Z -> Z * Z := foldl next_cursor.

Lemma fits_last out c p : fits p (out ++ [c]) -> (final_cursor p out).2 + height_max <= lines.
Proof using Type. revert p. induction out as [|c' out IH]; intros p [H F]; [done|]. by apply (IH (next_cursor p c')). Qed.

(** The console with the cursor at [p]. *)
Record console (m : mem) (g : ssfn_t) (p : Z * Z) : Prop := {
  co_same : same_font src size m0 m;
  co_backed : backed m (buffer fb) (lines * pitch);
  co_src : ssfn_src g = src;
  co_dst : dst_ptr (ssfn_dst g) = buffer fb /\ dst_p (ssfn_dst g) = pitch /\ dst_bg (ssfn_dst g) = 0;
  co_cursor : (dst_x (ssfn_dst g), dst_y (ssfn_dst g)) = p;
  co_x : margin fb <= p.1 <= right_end;
  co_y : margin fb <= p.2
}.

Lemma line_height_range : 0 <= line_height < 2 ^ 8.
Proof using Type. apply peek8_range. Qed.

Lemma advance_range unicode : 0 <= advance unicode < 2 ^ 8.
Proof using Type. unfold advance. destruct (glyph_of t unicode); [apply peek8_range | done]. Qed.

(** A glyph at the cursor stays on the screen. *)
Lemma pixels_on_screen m g p chr a :
  console m g p -> p.2 + height_max <= lines -> glyph_fits chr ->
  pixels m0 src (ssfn_dst g) chr a -> on_screen a.
Proof using K.
  intros [_ _ _ (Hptr & Hp & _) <- Hx Hy] Hroom GF (r & c & (i & Hl) & Ha). cbn [fst snd] in *.
  destruct Hl as (Hi & Hv & Hb & Hr & Hc & _). destruct (gf_bits _ GF i Hi Hv Hb) as (_ & HH & HW).
  destruct K as [_ _ _ [Hp0 Hp4] [Hm0 Hm] [Hw _] [Hh _] _]. pose proof line_height_range as HL.
  assert (Hy0 : 0 <= frag_y m0 chr i) by (unfold frag_y; pose proof (peek8_range m0 (desc m0 chr i + 1)); lia).
  unfold pixel, stride in Ha. rewrite Hptr, Hp in Ha. unfold on_screen, region in *.
  assert (H4 : 4 * (pitch / 4) = pitch) by (pose proof (Z.div_mod pitch 4); lia).
  replace (r * (4 * (pitch / 4))) with (r * pitch) in Ha by (by rewrite H4).
  set (y := dst_y (ssfn_dst g)) in *. set (x := dst_x (ssfn_dst g)) in *.
  assert (Hrow : 0 <= y + r <= lines - 1) by lia.
  assert (Hcol : 0 <= 4 * (x + c) <= pitch - 4) by lia.
  assert (Hmul : 0 <= (y + r) * pitch /\ (y + r) * pitch + pitch <= lines * pitch) by nia. lia.
Qed.

Lemma glyph_ok_fits m g p chr :
  console m g p -> p.2 + height_max <= lines -> glyph_fits chr -> glyph_ok m0 m src size (ssfn_dst g) chr.
Proof using K.
  intros C Hroom GF. pose proof C as [Hs Hb _ (_ & _ & Hbg) _ _ _]. split; try done.
  - apply (sk_font K).
  - apply (gf_chr _ GF).
  - apply (gf_desc _ GF).
  - apply (gf_frag _ GF).
  - intros i Hi Hv Hbm. by apply (gf_bits _ GF).
  - intros a Ha Hp. apply (sk_apart K a Ha). by apply (pixels_on_screen m g p chr a).
  - intros r c Hl a Ha. apply Hb. apply (pixels_on_screen m g p chr a C Hroom GF). by exists r, c.
Qed.

(** Drawing touches the screen only. *)
Lemma all_drawn_upd m g p chr m' :
  console m g p -> p.2 + height_max <= lines -> glyph_fits chr -> all_drawn m0 m src (ssfn_dst g) chr m' -> mem_upd on_screen m m'.
Proof using K.
  intros C Hroom GF [U _]. eapply mem_upd_mono; [exact U|]. intros a. by apply (pixels_on_screen m g p chr a).
Qed.

Lemma same_font_screen m m' : same_font src size m0 m -> mem_upd on_screen m m' -> same_font src size m0 m'.
Proof using K. intros H U. eapply same_font_trans; [exact H|]. by apply (same_font_upd _ _ _ _ _ U), (sk_apart K). Qed.

(** The comparisons of ssfn_put, on cursor positions that are not negative. *)
Lemma past_right_spec d : 0 <= dst_x d < 2 ^ 15 -> past_right fb d = (right_end <? dst_x d).
Proof using K.
  intros Hx. destruct (sk_margin K) as [Hm0 Hm]. destruct (sk_right K) as [_ Hr]. unfold past_right, right_end in *.
  rewrite (u64_small (width fb - margin fb)) by lia. by rewrite !u64_small by lia.
Qed.

Lemma into_margins_spec d :
  0 <= dst_x d < 2 ^ 15 -> 0 <= dst_y d < 2 ^ 15 ->
  into_margins fb d = move_to d (Z.max (margin fb) (dst_x d)) (Z.max (margin fb) (dst_y d)).
Proof using K.
  intros Hx Hy. destruct (sk_margin K) as [Hm0 Hm]. destruct (sk_right K) as [_ Hr].
  assert (Hs : s16 (margin fb) = margin fb) by (apply s16_small; lia).
  unfold into_margins. rewrite Hs, (u64_small (dst_x d)) by lia. destruct d as [p w h q x y f b]. cbn in *.
  destruct (Z.ltb_spec x (margin fb)); cbn; rewrite u64_small by lia; destruct (Z.ltb_spec y (margin fb));
    unfold move_to; cbn; f_equal; lia.
Qed.

(** ** Room for a text

    A line takes the pixels between the margins before the cursor goes on to the next;
    [advance_max] bounds the width of the characters. *)
Section room.
Context (advance_max : Z) (Hadv : forall unicode, advance unicode <= advance_max).

Definition line_span : Z := right_end - margin fb + 1.

(** The newlines in a text. *)
Fixpoint newlines (l : list Z) : Z :=
  match l with
  | [] => 0
  | c :: l => (if char_code c =? 10 then 1 else 0) + newlines l
  end.

(** From [p] there is room for [n] characters with [k] newlines. *)
Definition room (p : Z * Z) (n k : Z) : Prop :=
  p.2 + height_max + (k + (p.1 - margin fb + advance_max * n) / line_span) * line_height <= lines.

Lemma room_mono p n k n' k' :
  0 <= n' <= n -> 0 <= k' <= k -> margin fb <= p.1 -> room p n k -> room p n' k'.
Proof using K Hadv.
  intros Hn Hk Hx. unfold room. pose proof line_height_range as HL. pose proof (sk_margin K).
  pose proof (Hadv 0). pose proof (advance_range 0).
  assert ((p.1 - margin fb + advance_max * n') / line_span <= (p.1 - margin fb + advance_max * n) / line_span)
    by (apply Z.div_le_mono; unfold line_span; nia). nia.
Qed.

Lemma room_next p c n k :
  margin fb <= p.1 <= right_end -> 0 <= n -> 0 <= k -> room p (1 + n) ((if char_code c =? 10 then 1 else 0) + k) ->
  p.2 + height_max <= lines /\ room (next_cursor p c) n k /\ margin fb <= (next_cursor p c).1 <= right_end.
Proof using K Hadv.
  destruct p as [x y]. unfold room, next_cursor. cbn [fst snd]. intros Hx Hn Hk HR.
  pose proof line_height_range as HL. pose proof (sk_margin K) as [Hm0 Hm].
  pose proof (Hadv (char_code c)) as HA. pose proof (advance_range (char_code c)) as HA0.
  assert (Hs : 0 < line_span) by (unfold line_span; lia).
  assert (Hd : 0 <= (x - margin fb + advance_max * (1 + n)) / line_span) by (apply Z.div_pos; nia).
  assert (Hle : forall a, 0 <= a <= x - margin fb + advance_max * (1 + n) -> 0 <= a / line_span <= (x - margin fb + advance_max * (1 + n)) / line_span).
  { intros a Ha. split; [apply Z.div_pos; lia|]. apply Z.div_le_mono; lia. }
  split; [destruct (char_code c =? 10); nia|].
  destruct (Z.eqb_spec (char_code c) 13) as [E|_].
  { rewrite E in HR. cbn in HR. destruct (Z.ltb_spec right_end 0); [lia|]. cbn [fst snd].
    rewrite Z.max_l by lia. split; [|lia]. specialize (Hle (advance_max * n) ltac:(nia)).
    replace (margin fb - margin fb + advance_max * n) with (advance_max * n) by lia. nia. }
  destruct (char_code c =? 10).
  { destruct (Z.ltb_spec right_end 0); [lia|]. cbn [fst snd]. rewrite Z.max_l by lia. split; [|lia].
    specialize (Hle (advance_max * n) ltac:(nia)).
    replace (margin fb - margin fb + advance_max * n) with (advance_max * n) by lia. nia. }
  destruct (Z.ltb_spec right_end (x + advance (char_code c))); cbn [fst snd].
  - rewrite Z.max_l by lia. split; [|lia]. specialize (Hle (advance_max * n + 1 * line_span) ltac:(unfold line_span in *; nia)).
    rewrite Z.div_add in Hle by lia.
    replace (margin fb - margin fb + advance_max * n) with (advance_max * n) by lia. nia.
  - rewrite Z.max_r by lia. split; [|lia].
    specialize (Hle (x + advance (char_code c) - margin fb + advance_max * n) ltac:(nia)). nia.
Qed.

(** With room for a text and more, the text fits and the rest of the room is left. *)
Lemma room_text out : forall p n k,
  margin fb <= p.1 <= right_end -> 0 <= n -> 0 <= k ->
  room p (Z.of_nat (length out) + n) (newlines out + k) ->
  fits p out /\ room (final_cursor p out) n k.
Proof using K Hadv.
  induction out as [|c out IH]; intros p n k Hx Hn Hk HR; [done|]. cbn [length newlines fits] in *.
  assert (Hnl : 0 <= newlines out).
  { clear. induction out as [|c out IH]; cbn; [done|]. destruct (char_code c =? 10); lia. }
  destruct (room_next p c (Z.of_nat (length out) + n) (newlines out + k)) as (H1 & H2 & H3); [done | lia | lia | |].
  { replace (1 + (Z.of_nat (length out) + n)) with (Z.of_nat (S (length out)) + n) by lia. by rewrite Z.add_assoc. }
  destruct (IH _ n k H3 Hn Hk H2) as [F R]. by repeat split.
Qed.
End room.

(** ** ssfn_put *)
Context (fuel : nat) (Hfuel : 0x110000 <= Z.of_nat fuel).

(** The glyph of a character has been drawn. *)
Definition drawn_char (m : mem) (g : ssfn_t) (unicode : Z) (m' : mem) : Prop :=
  (unicode =? 13) || (unicode =? 10) = false ->
  forall chr, glyph_of t unicode = Some chr -> all_drawn m0 m src (ssfn_dst g) chr m'.

(** Nothing but the cursor differs. *)
Definition same_dst (g g' : ssfn_t) : Prop := exists x y, ssfn_dst g' = move_to (ssfn_dst g) x y.

Lemma same_dst_refl g : same_dst g g.
Proof using Type. exists (dst_x (ssfn_dst g)), (dst_y (ssfn_dst g)). by destruct (ssfn_dst g). Qed.

Lemma same_dst_trans g1 g2 g3 : same_dst g1 g2 -> same_dst g2 g3 -> same_dst g1 g3.
Proof using Type. intros (x & y & H1) (x' & y' & H2). exists x', y'. by rewrite H2, H1. Qed.

(** What the first ssfn_putc leaves: the cursor may be past the right margin or at the
    start of a line. *)
Definition put_mid (m : mem) (g : ssfn_t) (p : Z * Z) (unicode : Z) (o : Z * (mem * ssfn_t)) : Prop :=
  let '(_, (m', g')) := o in
  mem_upd on_screen m m' /\ ssfn_src g' = src /\
  let '(x, y) := if unicode =? 13 then (0, p.2) else if unicode =? 10 then (0, p.2 + line_height)
    else (p.1 + advance unicode, p.2) in
  ssfn_dst g' = move_to (ssfn_dst g) x y /\ drawn_char m g unicode m'.

Lemma wp_first_putc m g p unicode :
  console m g p -> p.2 + height_max <= lines -> wp (ssfn_putc fuel (m, g) unicode) (put_mid m g p unicode).
Proof using K Hfuel.
  intros C Hroom. pose proof C as [Hs Hb Hsrc (Hptr & Hp & Hbg) <- Hx Hy]. cbn [fst snd] in *.
  pose proof (sk_margin K) as [Hm0 Hm]. destruct (sk_right K) as [_ Hr]. destruct (sk_lines K) as [Hh Hl].
  pose proof line_height_range as HL. pose proof (sk_pitch K) as [Hp0 _].
  eapply wp_mono.
  { apply (wp_ssfn_putc fuel m0 m g size t unicode); rewrite ?Hsrc; [done | apply (sk_font K) | done | | lia |].
    - rewrite Hptr. apply (sk_buffer K).
    - intros _ chr Hg. by apply (glyph_ok_fits m g _ chr C), (sk_glyphs K unicode). }
  intros [r [m' g']]. unfold putc_post, put_mid, advance, drawn_char. rewrite Hsrc. cbn [fst snd]. intros [Hsrc' HP].
  destruct (Z.eqb_spec unicode 13) as [->|_]; cbn [orb] in HP |- *; [by destruct HP as (_ & -> & ->)|].
  destruct (Z.eqb_spec unicode 10) as [->|_].
  { destruct HP as (_ & -> & ->). split; [done|]. split; [done|]. change (peek8 m0 _) with line_height.
    by rewrite s16_small by lia. }
  destruct (glyph_of t unicode) as [chr|] eqn:Hg.
  - destruct HP as (_ & HA & ->). pose proof (sk_glyphs K unicode chr Hg) as GF.
    split; [by apply (all_drawn_upd m g _ chr m' C)|]. split; [done|].
    rewrite (gf_down _ GF), Z.add_0_r. pose proof (peek8_range m0 (chr + 4)). rewrite !s16_small by lia.
    split; [done|]. by intros _ chr' [= <-].
  - destruct HP as (_ & -> & ->). rewrite Z.add_0_r. split; [done|]. split; [done|]. split; [|done]. by destruct (ssfn_dst g).
Qed.

Lemma wp_ssfn_put m g p c :
  console m g p -> p.2 + height_max <= lines ->
  wp (ssfn_put fuel (m, g) fb c) (fun '(m', g') => console m' g' (next_cursor p c) /\ mem_upd on_screen m m' /\
    drawn_char m g (char_code c) m' /\ same_dst g g').
Proof using K Hfuel.
  intros C Hroom. pose proof C as [Hs Hb Hsrc (Hptr & Hp & Hbg) Hat Hx Hy].
  pose proof (sk_margin K) as [Hm0 Hm]. destruct (sk_right K) as [_ Hr]. destruct (sk_lines K) as [Hh Hl].
  pose proof line_height_range as HL. pose proof (advance_range (char_code c)) as HA. pose proof (sk_pitch K) as [Hp0 _].
  unfold ssfn_put. fold (char_code c). wp_step. eapply wp_mono; [by apply (wp_first_putc m g p)|].
  intros [r [m1 g1]] (U1 & Hsrc1 & Hd1). cbn [snd]. pose proof (same_font_screen _ _ Hs U1) as Hs1.
  destruct p as [px py]. unfold next_cursor. cbn [fst snd] in *.
  set (q := if char_code c =? 13 then _ else _) in *.
  assert (Hq : 0 <= q.1 <= right_end + 255 /\ (q.2 = py \/ q.2 = py + line_height /\ q.1 = 0)).
  { unfold q. destruct (char_code c =? 13); [cbn; lia|]. destruct (char_code c =? 10); cbn; lia. }
  clearbody q. destruct q as [x y]. destruct Hd1 as [Hd1 Hdr]. cbn [fst snd] in Hq. destruct Hq as [Hx1 Hy1].
  rewrite past_right_spec by (rewrite Hd1; cbn; lia). rewrite Hd1. cbn [dst_x move_to].
  assert (Hend : forall m' g' x' y', mem_upd on_screen m m' -> same_font src size m0 m' -> ssfn_src g' = src ->
    ssfn_dst g' = move_to (ssfn_dst g) x' y' -> 0 <= x' <= right_end -> py <= y' <= py + line_height ->
    console m' {| ssfn_src := ssfn_src g'; ssfn_dst := into_margins fb (ssfn_dst g') |} (Z.max (margin fb) x', y') /\
    same_dst g {| ssfn_src := ssfn_src g'; ssfn_dst := into_margins fb (ssfn_dst g') |}).
  { intros m' g' x' y' U' Hs' Hsrc' Hd' Hx' Hy'. rewrite Hd', into_margins_spec by (cbn; lia).
    split; [|by eexists _, _]. split; cbn; try done; first [by apply (mem_upd_backed _ _ _ _ _ U') | lia | f_equal; lia]. }
  wp_step. destruct (Z.ltb_spec right_end x) as [Hpast|Hin].
  - destruct Hy1 as [-> | [-> ->]]; [|lia]. eapply wp_mono.
    { apply (wp_ssfn_putc fuel m0 m1 g1 size t 10); rewrite ?Hsrc1, ?Hd1; cbn; try done; [apply (sk_font K) | | lia].
      rewrite Hptr. apply (sk_buffer K). }
    intros [r2 [m2 g2]]. unfold putc_post. rewrite Hsrc1, Hd1. cbn. intros (Hsrc2 & -> & -> & Hd2). wp_ret.
    destruct (Hend m1 g2 0 (py + line_height)) as [HC HD]; try done; [|lia..].
    rewrite Hd2. change (peek8 m0 _) with line_height. by rewrite s16_small by lia.
  - wp_ret. by destruct (Hend m1 g1 x y) as [HC HD]; try done; lia.
Qed.

(** The last character of a text has been drawn, where the ones before it have moved the
    cursor. *)
Definition last_drawn (g : ssfn_t) (p : Z * Z) (out : list Z) (m' : mem) : Prop :=
  forall out' c, out = out' ++ [c] -> exists m1 g1,
    console m1 g1 (final_cursor p out') /\ same_dst g g1 /\ drawn_char m1 g1 (char_code c) m'.

(** ** ssfn_printf *)

(** Putting the characters of a text. *)
Lemma wp_put_all m g p output out :
  console m g p -> fits p out -> backed m output (Z.of_nat (length out)) ->
  (forall a, region output (Z.of_nat (length out)) a -> ~ on_screen a) ->
  bytes_at m output (Z.of_nat (length out)) = out ->
  wp (for_range 0 (Z.of_nat (length out))
       (fun i s => c ← load8 (fst s) (output + i); s ← ssfn_put fuel s fb c; Ok (inl s)) (m, g))
    (loop_post (fun '(m', g') => console m' g' (final_cursor p out) /\ mem_upd on_screen m m' /\ last_drawn g p out m')
      (fun _ : Z * (mem * ssfn_t) => False)).
Proof using K Hfuel.
  intros C F B Hout Htext.
  assert (HF : forall l i, drop i out = l -> fits (final_cursor p (take i out)) l).
  { clear - F. intros l i. revert p out F l. induction i as [|i IH]; intros p out F l Hl; [by subst|].
    destruct out as [|c out]; [by subst|]. apply (IH (next_cursor p c) out); [apply F | done]. }
  eapply wp_mono.
  { apply (wp_for_range (fun i '(m', g') => console m' g' (final_cursor p (take (Z.to_nat i) out)) /\ mem_upd on_screen m m' /\
      last_drawn g p (take (Z.to_nat i) out) m' /\ same_dst g g')
      (fun _ => False)); [lia | |].
    { split; [done|]. split; [done|]. split; [by intros [|? ?] ? | apply same_dst_refl]. }
    intros i [m1 g1] Hi (C1 & U1 & _ & S1). cbn [fst]. wp_step. apply (wp_loadn 1).
    { apply (mem_upd_backed _ _ _ _ _ U1). apply (backed_sub _ _ _ _ _ B); lia. }
    destruct (lookup_lt_is_Some_2 out (Z.to_nat i)) as [c Hc]; [lia|].
    assert (Hv : peek8 m1 (output + i) = c).
    { rewrite (mem_upd_peekn _ _ _ _ _ U1) by (intros a Ha; apply Hout; unfold region in *; lia).
      rewrite <- Htext in Hc. rewrite bytes_at_lookup in Hc by lia. injection Hc as <-. do 2 f_equal. lia. }
    rewrite Hv. wp_step. eapply wp_mono; [apply (wp_ssfn_put m1 g1 _ c C1)|].
    - specialize (HF _ (Z.to_nat i) eq_refl). rewrite (drop_S _ _ _ Hc) in HF. apply HF.
    - intros [m2 g2] (C2 & U2 & D2 & S2). wp_ret. replace (Z.to_nat (i + 1)) with (S (Z.to_nat i)) by lia.
      rewrite (take_S_r _ _ _ Hc). split; [by unfold final_cursor; rewrite foldl_snoc|]. split; [by etrans|].
      split; [|by eapply same_dst_trans]. intros out' c' [<- <-]%app_inj_tail. by exists m1, g1. }
  intros [[m' g']|]; [|done]. rewrite Nat2Z.id, firstn_all. by intros (? & ? & ? & _).
Qed.

(** [out] is what vsprintf prints. *)
Lemma wp_ssfn_printf texts fmt zero rev temp output format m g p values out :
  console m g p -> printed texts fmt values = Some out -> Z.of_nat (length out) <= 1024 -> fits p out ->
  laid_out texts fmt m 1024 fuel zero rev temp output format ->
  (forall a, region src size a \/ on_screen a -> ~ writes 1024 rev temp output a) ->
  wp (ssfn_printf fuel zero rev temp output (m, g) fb format values) (fun '(r, (m', g')) =>
    r = Z.of_nat (length out) + 1 /\ console m' g' (final_cursor p out) /\
    mem_upd (fun a => on_screen a \/ writes 1024 rev temp output a) m m' /\ last_drawn g p out m').
Proof using K Hfuel.
  intros C Hp Hl F L D. set (k := Z.of_nat (length out)) in *. unfold ssfn_printf. wp_step. eapply wp_mono.
  { apply wp_memset; [done | apply (lo_str _ _ _ _ _ _ _ _ _ _ L)]. }
  intros [q m1] (_ & U1 & _). wp_step.
  assert (U1' : mem_upd (writes 1024 rev temp output) m m1) by (eapply mem_upd_mono; [exact U1|]; unfold writes; tauto).
  pose proof (laid_out_upd _ _ _ _ _ k _ _ _ _ _ _ L U1' ltac:(lia)) as L1.
  eapply wp_mono; [by apply (wp_vsprintf texts fmt m1 k fuel zero rev temp output format L1 values out)|].
  intros [written m2] (-> & U2 & Htext). wp_step.
  assert (U2' : mem_upd (writes 1024 rev temp output) m m2).
  { etrans; [exact U1'|]. eapply mem_upd_mono; [exact U2|]. unfold writes, region. lia. }
  assert (C2 : console m2 g p).
  { destruct C as [Hs Hb ? ? ? ? ?]. split; try done; [|by apply (mem_upd_backed _ _ _ _ _ U2')].
    eapply same_font_trans; [exact Hs|]. apply (same_font_upd _ _ _ _ _ U2'). auto. }
  eapply wp_mono.
  { apply (wp_put_all m2 g p output out C2 F); fold k; [| |done].
    - apply (mem_upd_backed _ _ _ _ _ U2').
      apply (backed_sub _ _ _ _ _ (lo_str _ _ _ _ _ _ _ _ _ _ L)); lia.
    - intros a Ha Hs. apply (D a); [by right|]. left. unfold region in *. lia. }
  intros [[m3 g3]|]; [|done]. intros (C3 & U3 & L3). wp_ret. split; [unfold s32; rewrite Z.mod_small; lia|].
  split; [done|]. split; [|done]. etrans; (eapply mem_upd_mono; [eassumption|]); tauto.
Qed.

(** ** Below the screen *)

(** The glyph has a pixel in row [r] and column [c]. *)
Definition glyph_bit (chr r c : Z) : Prop :=
  exists i, 0 <= i < fragment_count m0 chr /\ hidden m0 chr i = false /\ is_bitmap m0 src chr i = true /\
    0 <= r - frag_y m0 chr i < frag_rows m0 src chr i /\ 0 <= c < frag_cols m0 src chr i /\
    frag_bit m0 src chr i ((r - frag_y m0 chr i) * frag_cols m0 src chr i + c) = true.

(** It is drawn wherever the cursor is if the destination has no width and no height. *)
Lemma glyph_bit_drawn m g p unicode chr r c m' :
  console m g p -> dst_w (ssfn_dst g) = 0 -> dst_h (ssfn_dst g) = 0 -> p.2 + height_max <= lines ->
  (unicode =? 13) || (unicode =? 10) = false -> glyph_of t unicode = Some chr -> glyph_bit chr r c ->
  drawn_char m g unicode m' ->
  let a := buffer fb + (p.2 + r) * pitch + 4 * (p.1 + c) in
  peek32 m' a = u32 (dst_fg (ssfn_dst g)) /\ 0 <= r /\ 0 <= p.1 + c /\ on_screen a /\ on_screen (a + 3).
Proof using K.
  clear Hfuel fuel. intros C Hw Hh Hroom Hnl Hg (i & Hi & Hv & Hb & Hr & Hc & Hbit) D a.
  pose proof C as [_ _ _ (Hptr & Hp & _) Hat Hx _]. destruct (sk_margin K) as [Hm0 _].
  assert (Hx0 : dst_x (ssfn_dst g) = p.1 /\ dst_y (ssfn_dst g) = p.2) by (by rewrite <- Hat). destruct Hx0 as [Hx0 Hy0].
  assert (Hrow : 0 <= r) by (unfold frag_y in Hr; pose proof (peek8_range m0 (desc m0 chr i + 1)); lia).
  assert (HL : lit m0 src (ssfn_dst g) chr r c).
  { exists i. split; [exact Hi|]. split; [exact Hv|]. split; [exact Hb|]. split; [exact Hr|]. split; [exact Hc|].
    split; [exact Hbit|]. unfold row_in, col_in, clip_w. rewrite Hw, Hh. split; [done|]. split; [lia | done]. }
  assert (Ea : pixel (ssfn_dst g) r c = a).
  { unfold pixel, stride, a. rewrite Hptr, Hp, Hx0, Hy0. destruct (sk_pitch K) as [_ H4].
    assert (4 * (pitch / 4) = pitch) as -> by (pose proof (Z.div_mod pitch 4); lia). lia. }
  destruct (D Hnl chr Hg) as [_ Hlit]. specialize (Hlit r c HL). rewrite Ea in Hlit.
  assert (Hon : forall b, region a 4 b -> on_screen b).
  { intros b Hb'. apply (pixels_on_screen m g p chr b C Hroom (sk_glyphs K unicode chr Hg)). exists r, c.
    split; [exact HL|]. by rewrite Ea. }
  split; [exact Hlit|]. split; [exact Hrow|]. split; [lia|]. split; apply Hon; unfold region; lia.
Qed.
End console.
