(* ===== verification/Kernel.v ===== *)
(** The kernel entry: kernel/kernel.h and kernel.c.  init_paging is a client of the page
    tables and of the physical memory manager, kernel_start of the descriptor table and
    of the console too. *)
From stdpp Require Import gmap list strings.
From Stdlib Require Import ZArith Lia.
From S2P Require Import Prelude Memory Physical FrameAllocator PhysicalSpec LibString Stdio Paging Gdt Ssfn Console.
Local Open Scope Z_scope.

Record cpu_info_t := { count : Z; apic_data : Z }.

Record colonel_t := {
  physical_memory : pmm;
  pml4 : Z;
  heap : Z;
  heap_size : Z;
  gdt : Z;
  rsdp2 : Z;
  cpus : cpu_info_t;
  fb : framebuffer_t;
  mmap_key : Z
}.

Definition set_physical_memory (s : colonel_t) (pm : pmm) : colonel_t :=
  {| physical_memory := pm; pml4 := pml4 s; heap := heap s; heap_size := heap_size s; gdt := gdt s;
     rsdp2 := rsdp2 s; cpus := cpus s; fb := fb s; mmap_key := mmap_key s |}.

Definition set_pml4 (s : colonel_t) (table : Z) : colonel_t :=
  {| physical_memory := physical_memory s; pml4 := table; heap := heap s; heap_size := heap_size s;
     gdt := gdt s; rsdp2 := rsdp2 s; cpus := cpus s; fb := fb s; mmap_key := mmap_key s |}.

Definition set_gdt (s : colonel_t) (desc : Z) : colonel_t :=
  {| physical_memory := physical_memory s; pml4 := pml4 s; heap := heap s; heap_size := heap_size s;
     gdt := desc; rsdp2 := rsdp2 s; cpus := cpus s; fb := fb s; mmap_key := mmap_key s |}.

(** What the kernel works on: memory, the processor's control registers and
    segments, the global [system] and the globals of the console. *)
Record machine := {
  memory : mem;
  cr : control_registers;
  seg : segments;
  system : colonel_t;
  screen : ssfn_t
}.

(** The state after an operation on memory and the allocator. *)
Definition with_pm (k : machine) (ms : mem * pmm) : machine :=
  {| memory := ms.1; cr := cr k; seg := seg k; system := set_physical_memory (system k) ms.2; screen := screen k |}.

Definition with_system (k : machine) (s : colonel_t) : machine :=
  {| memory := memory k; cr := cr k; seg := seg k; system := s; screen := screen k |}.

Definition with_cr (k : machine) (c : control_registers) : machine :=
  {| memory := memory k; cr := c; seg := seg k; system := system k; screen := screen k |}.

Definition with_seg (k : machine) (s : segments) : machine :=
  {| memory := memory k; cr := cr k; seg := s; system := system k; screen := screen k |}.

(** The state after output on the console. *)
Definition with_screen (k : machine) (s : mem * ssfn_t) : machine :=
  {| memory := s.1; cr := cr k; seg := seg k; system := system k; screen := s.2 |}.

(** map_range on the kernel's tables, from [start] to the same address. *)
Definition identity_map (fuel : nat) (k : machine) (start length : Z) : res (Z * machine) :=
  '(r, ms) ← map_range fuel (memory k) (physical_memory (system k)) (pml4 (system k))
               start start length READ_WRITE_BIT;
  Ok (r, with_pm k ms).

(** The body of the loop of init_paging over the blocks. *)
Definition map_block (fuel : nat) (i : Z) (k : machine) : res (machine + Z * machine) :=
  block ← get_block (physical_memory (system k)) i;
  if bool_decide (pb_type block = PM_MMIO) || bool_decide (pb_type block = PM_RESERVED)
  then Ok (inl k) else
  let start := pb_address block in
  let end_ := u64 (start + u64 (pb_frames_total block * frame_size)) in
  let start := if start <? frame_size then frame_size else start in
  if end_ <=? start then Ok (inl k) else
  '(r, k) ← identity_map fuel k start (end_ - start);
  if negb (r =? 0) then Ok (inr (-1, k)) else Ok (inl k).

Definition init_paging (fuel : nat) (k : machine) : res (Z * machine) :=
  '(table, ms) ← init_pml4 (memory k) (physical_memory (system k));
  let k := with_pm k ms in
  let k := with_system k (set_pml4 (system k) table) in
  if table =? NULL then Ok (-1, k) else
  after
    (for_range 0 (block_count (physical_memory (system k))) (map_block fuel) k)
    (fun k =>
       let fb_start := buffer (fb (system k)) in
       let fb_length :=
         u64 (u64 (pixels_per_scanline (fb (system k)) * height (fb (system k))) * 4) in
       '(r, k) ← identity_map fuel k fb_start fb_length;
       if negb (r =? 0) then Ok (-1, k) else
       Ok (0, with_cr k (set_cr3 (cr k) (pml4 (system k))))).

(** How kernel_start ends: it halts in every case. *)
Inductive boot :=
  | GdtFailed
  | PagingFailed
  | Running.

#[export] Instance boot_eq_dec : EqDecision boot.
Proof. solve_decision. Defined.

(** ** kernel_start *)

(** The formats it prints with; the last one of the code is never reached. *)
Inductive message :=
  | Title
  | MapCopied
  | EntryPoint
  | Starting
  | NoDescriptor
  | DescriptorAt
  | NoBase
  | TableAt
  | NoTables
  | Pml4At.

Definition message_text (msg : message) : list Z :=
  match msg with
  | Title => chars "%s" ++ [10; 10]
  | MapCopied => chars "Copied physical memory map to 0x%x." ++ [10]
  | EntryPoint => chars "kernel_start() is at 0x%llx." ++ [10]
  | Starting => chars "Starting kernel..." ++ [10]
  | NoDescriptor => chars "Failed to allocate GDT descriptor." ++ [10]
  | DescriptorAt => chars "Created GDT descriptor at 0x%x." ++ [10]
  | NoBase => chars "Failed to allocate GDT base." ++ [10]
  | TableAt => chars "Setup GDT at 0x%x, limit: 0x%x." ++ [10]
  | NoTables => chars "Failed to build kernel page tables." ++ [10]
  | Pml4At => chars "Loaded kernel PML4 at 0x%llx." ++ [10]
  end.

(** Where the kernel's image has the strings, kernel_start and the memory manager's
    structure, and its stack the local arrays of ssfn_printf, vsprintf and
    reverse_string. *)
Class Image := {
  format_at : message -> Z;
  PACKAGE_STRING : Z;
  itoa_zero : Z;
  kernel_start_at : Z;
  pmm_at : Z;
  output_at : Z;
  temp_at : Z;
  rev_at : Z
}.

Section kernel_start.
Context `{Image} (fuel : nat).

Definition kprintf (k : machine) (msg : message) (values : list Z) : res machine :=
  '(_, s) ← ssfn_printf fuel itoa_zero rev_at temp_at output_at (memory k, screen k) (fb (system k))
              (format_at msg) values;
  Ok (with_screen k s).

Definition setup_screen (k : machine) : machine :=
  with_screen k (memory k, ssfn_set_color (ssfn_setup (screen k) (fb (system k))) 0xFFFFFFFF 0).

(** Up to the descriptor of the GDT. *)
Definition start_messages (k : machine) : res machine :=
  k ← kprintf k Title [PACKAGE_STRING];
  k ← kprintf k MapCopied [pmm_at];
  k ← kprintf k EntryPoint [kernel_start_at];
  kprintf k Starting [].

(** From the frame for the descriptor to the message about the table: [false] where the
    kernel halts. *)
Definition start_gdt (k : machine) : res (bool * machine) :=
  '(desc, ms) ← frame_allocate (memory k) (physical_memory (system k));
  let k := with_pm k ms in
  if desc =? ALL_ONES then
    k ← kprintf k NoDescriptor []; Ok (false, k)
  else
  let k := with_system k (set_gdt (system k) desc) in
  k ← kprintf k DescriptorAt [gdt (system k)];
  '(ok, ms) ← setup_gdt (memory k) (physical_memory (system k)) (gdt (system k));
  let k := with_pm k ms in
  if negb ok then
    k ← kprintf k NoBase []; Ok (false, k)
  else
  s ← gdt_flush (memory k) (gdt (system k));
  let k := with_seg k s in
  base ← load64 (memory k) (gdt_base_at (gdt (system k)));
  limit ← load16 (memory k) (gdt_limit_at (gdt (system k)));
  k ← kprintf k TableAt [base; limit];
  Ok (true, k).

Definition start_paging (k : machine) : res (bool * machine) :=
  '(r, k) ← init_paging fuel k;
  if negb (r =? 0) then
    k ← kprintf k NoTables []; Ok (false, k)
  else
  k ← kprintf k Pml4At [pml4 (system k)];
  Ok (true, k).

Definition kernel_start (k : machine) (sys : colonel_t) : res (boot * machine) :=
  let k := with_system k sys in
  k ← start_messages (setup_screen k);
  '(ok, k) ← start_gdt k;
  if negb ok then Ok (GdtFailed, k) else
  '(ok, k) ← start_paging k;
  Ok (if ok : bool then Running else PagingFailed, k).
End kernel_start.
