(* ===== verification/KernelText.v ===== *)
(** What kernel_start prints: the text of each message, and how long it is. *)
From stdpp Require Import gmap list strings.
From Stdlib Require Import ZArith Lia.
From S2P Require Import Prelude Memory Physical LibString Stdio StdioSpec FormatSpec Ssfn SsfnSpec Console ConsoleSpec Paging Gdt Kernel.
Local Open Scope Z_scope.

(** ** The messages *)
Section messages.
Context `{Image} (package : list Z).

(** The one string that is passed. *)
Definition texts (v : Z) : option (list Z) := if v =? PACKAGE_STRING then Some package else None.

(** The text on the screen. *)
Definition wording (msg : message) (values : list Z) : option (list Z) :=
  match msg, values with
  | Title, [v] => s ← texts v; Some (s ++ [10; 10])
  | MapCopied, [v] => Some (chars "Copied physical memory map to 0x" ++ hex 8 (u32 v) ++ 46 :: [10])
  | EntryPoint, [v] => Some (chars "kernel_start() is at 0x" ++ hex 16 v ++ 46 :: [10])
  | DescriptorAt, [v] => Some (chars "Created GDT descriptor at 0x" ++ hex 8 (u32 v) ++ 46 :: [10])
  | TableAt, [v; v'] =>
      Some (chars "Setup GDT at 0x" ++ hex 8 (u32 v) ++ 44 :: chars " limit: 0x" ++ hex 8 (u32 v') ++ 46 :: [10])
  | Pml4At, [v] => Some (chars "Loaded kernel PML4 at 0x" ++ hex 16 v ++ 46 :: [10])
  | Starting, [] | NoDescriptor, [] | NoBase, [] | NoTables, [] => Some (message_text msg)
  | _, _ => None
  end.

Lemma printed_wording msg values out :
  wording msg values = Some out -> printed texts (message_text msg) values = Some out.
Proof.
  destruct msg, values as [|v [|v' [|]]]; try discriminate; cbn [wording];
    try (destruct (texts v) as [s|] eqn:Hs; [|discriminate]); intros [= <-].
  - exact (printed_string texts [] 10 [10] v s eq_refl eq_refl Hs).
  - by apply (printed_hex_fields texts [(chars "Copied physical memory map to 0x", 46)] [10] [v]).
  - by apply (printed_hex64 texts (chars "kernel_start() is at 0x") 46 [10]).
  - by apply printed_literal.
  - by apply printed_literal.
  - by apply (printed_hex_fields texts [(chars "Created GDT descriptor at 0x", 46)] [10] [v]).
  - by apply printed_literal.
  - by apply (printed_hex_fields texts [(chars "Setup GDT at 0x", 44); (chars " limit: 0x", 46)] [10] [v; v']).
  - by apply printed_literal.
  - by apply (printed_hex64 texts (chars "Loaded kernel PML4 at 0x") 46 [10]).
Qed.

Lemma newlines_app l l' : newlines (l ++ l') = newlines l + newlines l'.
Proof. induction l as [|c l IH]; cbn [newlines app]; [done | rewrite IH; lia]. Qed.

Lemma newlines_nonneg l : 0 <= newlines l.
Proof. induction l as [|c l IH]; cbn [newlines]; [done|]. destruct (char_code c =? 10); lia. Qed.

Lemma newlines_hex n v : newlines (hex n v) = 0.
Proof.
  pose proof (hex_chars_in n v) as Hf. revert Hf. generalize (hex n v).
  induction 1 as [|c l Hc _ IH]; [done|]. cbn [newlines]. rewrite IH.
  apply list_elem_of_In in Hc. cbn in Hc.
  repeat (destruct Hc as [<-|Hc]; [reflexivity|]). done.
Qed.

(** A text of [n] characters with [k] newlines. *)
Definition measures (l : list Z) (n k : Z) : Prop := Z.of_nat (length l) = n /\ newlines l = k.

Lemma measures_app l l' n k n' k' :
  measures l n k -> measures l' n' k' -> measures (l ++ l') (n + n') (k + k').
Proof. unfold measures. rewrite length_app, newlines_app. lia. Qed.

Lemma measures_hex n v : 0 <= n -> measures (hex n v) n 0.
Proof. intros Hn. split; [by apply length_hex | apply newlines_hex]. Qed.

Lemma measures_number l z v l' n k n' k' :
  0 <= z -> measures l n k -> measures l' n' k' -> measures (l ++ hex z v ++ l') (n + (z + n')) (k + k').
Proof. intros Hz Hl Hl'. apply measures_app; [done|]. by apply (measures_app _ _ z 0); [apply measures_hex|]. Qed.

(** Every message but the title is one line of at most 44 characters. *)
Lemma wording_short msg values out :
  msg <> Title -> wording msg values = Some out -> exists n, measures out n 1 /\ 0 <= n <= 44.
Proof.
  assert (Hend : measures [46; 10] 2 1) by done.
  intros Hne. destruct msg, values as [|v [|v' [|]]]; try discriminate; try done; intros [= <-].
  - exists 42. split; [|done]. by apply (measures_number (chars "Copied physical memory map to 0x") 8 _ _ 32 0 2 1).
  - exists 41. split; [|done]. by apply (measures_number (chars "kernel_start() is at 0x") 16 _ _ 23 0 2 1).
  - by exists 19.
  - by exists 35.
  - exists 38. split; [|done]. by apply (measures_number (chars "Created GDT descriptor at 0x") 8 _ _ 28 0 2 1).
  - by exists 29.
  - exists 44. split; [|done]. apply (measures_number (chars "Setup GDT at 0x") 8 _ _ 15 0 21 1); [done | done |].
    by apply (measures_number (44 :: chars " limit: 0x") 8 _ _ 11 0 2 1).
  - by exists 36.
  - exists 42. split; [|done]. by apply (measures_number (chars "Loaded kernel PML4 at 0x") 16 _ _ 24 0 2 1).
Qed.

Lemma title_measures v s : texts v = Some s ->
  exists out, wording Title [v] = Some out /\ measures out (Z.of_nat (length s) + 2) (newlines s + 2).
Proof.
  intros Hs. exists (s ++ [10; 10]). split; [cbn [wording]; by rewrite Hs|]. by apply (measures_app _ _ _ _ 2 2).
Qed.
End messages.
