(* ===== verification/KernelSpec.v ===== *)
(** What init_paging of kernel.c does to the kernel's address space. *)
From stdpp Require Import gmap list.
From Stdlib Require Import ZArith Lia.
From S2P Require Import Prelude Memory Physical FrameAllocator PhysicalSpec FrameCount LibString Paging PagingSpec Mapping MapRange TableCount Gdt GdtSpec Ssfn Console Kernel.
Local Open Scope Z_scope.

(** ** Identity-mapped ranges *)
Lemma identity_pages m root v0 n m' va :
  v0 mod page_size = 0 -> 0 <= v0 -> 0 <= n -> v0 + page_size * n <= 2 ^ 48 -> 0 <= va < 2 ^ 48 ->
  mapped_pages m root v0 v0 n m' ->
  translate m' root va =
    if decide (v0 <= va < v0 + page_size * n) then Some va else translate m root va.
Proof.
  intros Hal H0 Hn Hend Hva M. rewrite (pages_translate m root v0 v0 n m' va) by done.
  case_decide; [f_equal; lia | done].
Qed.

(** The regions of the kernel's address space. *)
Definition mappable (b : pm_block) : Prop := pb_type b <> PM_MMIO /\ pb_type b <> PM_RESERVED.

(** Where the mapping of a block starts: page 0 is left out. *)
Definition block_start (b : pm_block) : Z := Z.max (pb_address b) frame_size.

(** [va] lies in one of the first [n] blocks. *)
Definition in_blocks (pm : pmm) (n va : Z) : Prop :=
  exists i b, i < n /\ active pm i b /\ mappable b /\ block_start b <= va < block_end b.

Definition fb_length (f : framebuffer_t) : Z := pixels_per_scanline f * height f * 4.

(** [va] lies in a page of the framebuffer. *)
Definition in_framebuffer (f : framebuffer_t) (va : Z) : Prop :=
  align_down (buffer f) <= va < align_down (buffer f) + page_size * range_pages (buffer f) (fb_length f).

(** The ranges of addresses that init_paging maps. *)
#[export] Instance mappable_dec b : Decision (mappable b).
Proof. unfold mappable. apply _. Defined.

Definition kernel_ranges (pm : pmm) (f : framebuffer_t) : list (Z * Z) :=
  ((fun b => (block_start b, block_end b)) <$> filter mappable (used_blocks pm)) ++
  [(align_down (buffer f), align_down (buffer f) + page_size * range_pages (buffer f) (fb_length f))].

Lemma kernel_ranges_in pm f va :
  in_blocks pm (block_count pm) va \/ in_framebuffer f va ->
  exists lo hi, (lo, hi) ∈ kernel_ranges pm f /\ lo <= va < hi.
Proof.
  unfold kernel_ranges. intros [(i & b & Hi & A & Hm & Hva)|Hva].
  - exists (block_start b), (block_end b). split; [|done]. apply elem_of_app. left. apply list_elem_of_fmap.
    exists b. split; [done|]. apply list_elem_of_filter. split; [done|].
    apply (list_elem_of_lookup_2 _ (Z.to_nat i)), used_blocks_active. rewrite Z2Nat.id; [done | apply A].
  - eexists _, _. split; [apply elem_of_app; right; apply list_elem_of_here | exact Hva].
Qed.

(** The frames that the tables for these ranges take, at most. *)
Definition kernel_tables_needed (pm : pmm) (f : framebuffer_t) : Z := tables_needed (kernel_ranges pm f).

(** What init_paging relies on: a consistent allocator, regions in the lower
    half of the address space, bitmaps only for RAM, a framebuffer whose size
    does not overflow, and fuel for the largest range. *)
Record paging_ok (fuel : nat) (k : machine) : Prop := {
  pk_inv : pmm_inv (memory k) (physical_memory (system k));
  pk_low i b : active (physical_memory (system k)) i b -> mappable b -> block_end b <= 2 ^ 47;
  pk_ram i b : active (physical_memory (system k)) i b -> pb_map b <> NULL -> mappable b;
  pk_buffer : 0 <= buffer (fb (system k));
  pk_height : 0 <= pixels_per_scanline (fb (system k)) /\ 0 <= height (fb (system k));
  pk_fb : buffer (fb (system k)) + fb_length (fb (system k)) <= 2 ^ 47;
  pk_fuel i b : active (physical_memory (system k)) i b -> mappable b ->
    pb_frames_total b <= Z.of_nat fuel;
  pk_fb_fuel : range_pages (buffer (fb (system k))) (fb_length (fb (system k))) <= Z.of_nat fuel
}.

Section init_paging.
Context (fuel : nat) (k0 : machine) (Hok : paging_ok fuel k0).
Let pm0 := physical_memory (system k0).

(** What work on the tables leaves: the allocator consistent, frames only given away, and
    nothing else changed but the global [pml4]. *)
Record kernel_step (k : machine) : Prop := {
  ks_inv : fa_inv (memory k) (physical_memory (system k));
  ks_avail a : pmm_avail (memory k) (physical_memory (system k)) a -> pmm_avail (memory k0) pm0 a;
  ks_upd : mem_upd (fun x => pmm_priv pm0 x \/
    exists a, pmm_avail (memory k0) pm0 a /\ region a frame_size x) (memory k0) (memory k);
  ks_priv x : pmm_priv (physical_memory (system k)) x <-> pmm_priv pm0 x;
  ks_layout : pmm_layout (physical_memory (system k)) = pmm_layout pm0;
  ks_fb : fb (system k) = fb (system k0);
  ks_cr : cr k = cr k0;
  ks_seg : seg k = seg k0;
  ks_gdt : gdt (system k) = gdt (system k0);
  ks_screen : screen k = screen k0
}.

(** The frames that are no longer free hold tables. *)
Definition spent (T : gmap Z nat) (k : machine) : Prop :=
  forall a, pmm_avail (memory k0) pm0 a ->
    pmm_avail (memory k) (physical_memory (system k)) a \/ is_Some (T !! a).

(** The kernel with the tables at [root], [mapped] addresses mapped to
    themselves and no others. *)
Record kernel_tables (root : Z) (mapped : Z -> Prop) (k : machine) : Prop := {
  kt_step : kernel_step k;
  kt_tables : exists T, tables_ok (memory k) (physical_memory (system k)) T root /\
    (forall a l, T !! a = Some l -> pmm_avail (memory k0) pm0 a) /\
    spent T k /\ reached mapped (memory k) T root;
  kt_pml4 : pml4 (system k) = root;
  kt_in va : 0 <= va < 2 ^ 48 -> mapped va -> translate (memory k) root va = Some va;
  kt_out va : 0 <= va < 2 ^ 48 -> ~ mapped va -> translate (memory k) root va = None
}.

Lemma kernel_tables_iff root (P Q : Z -> Prop) k :
  (forall va, P va <-> Q va) -> kernel_tables root P k -> kernel_tables root Q k.
Proof.
  intros HPQ [? (T & HT) ? Hin Hout]. split; try done.
  - exists T. do 3 (split; [apply HT|]). eapply reached_mono; [|apply HT]. intros va. apply HPQ.
  - intros va Hva Hq. apply Hin; [done | by apply HPQ].
  - intros va Hva Hq. apply Hout; [done|]. by rewrite HPQ.
Qed.

(** Identity mappings do not get into each other's way. *)
Lemma not_blocked root mapped k m v0 c :
  kernel_tables root mapped k -> v0 mod page_size = 0 -> 0 <= v0 -> 0 <= c -> v0 + page_size * (c + 1) <= 2 ^ 47 ->
  mapped_pages (memory k) root v0 v0 c m ->
  ~ blocked m root (v0 + page_size * c) (v0 + page_size * c).
Proof using Type.
  intros K Hal H0 Hc Hend M (q' & Hw & Hne)%blocked_translate. set (va := v0 + page_size * c) in *.
  assert (Hva : 0 <= va < 2 ^ 48) by (unfold va, page_size in *; zlia).
  assert (Ht : target va = va) by (apply target_aligned; unfold va, page_size in *; zlia).
  rewrite (identity_pages (memory k) root v0 c m va) in Hw by (done || unfold page_size in *; zlia).
  rewrite Ht in Hne. case_decide; [congruence|].
  destruct (translate (memory k) root va) as [q|] eqn:Hq; [|done].
  assert (Hm : ~ ~ mapped va) by (intros Hn; rewrite (kt_out _ _ _ K) in Hq by done; done).
  assert (Hqv : q = va).
  { destruct (decide (q = va)) as [|Hnq]; [done|]. destruct Hm. intros Hm.
    rewrite (kt_in _ _ _ K) in Hq by done. congruence. }
  congruence.
Qed.

(** No frame is free. *)
Definition out_of_frames (k : machine) : Prop :=
  forall a, ~ pmm_avail (memory k) (physical_memory (system k)) a.

(** Work on the tables of frames that were free. *)
Lemma kernel_step_tables k m' pm' T T' :
  kernel_step k -> (forall a l, T !! a = Some l -> pmm_avail (memory k0) pm0 a) ->
  spent T k -> tables_step (memory k) (physical_memory (system k)) T m' pm' T' ->
  kernel_step (with_pm k (m', pm')) /\ (forall a l, T' !! a = Some l -> pmm_avail (memory k0) pm0 a) /\
  spent T' (with_pm k (m', pm')).
Proof using Type.
  intros [Hinv Hav HU HP Hl Hf Hcr Hsg Hgd Hsc] HT Hsp S.
  assert (Hnew : forall a l, T' !! a = Some l -> pmm_avail (memory k0) pm0 a).
  { intros a l Ha. destruct (ts_new _ _ _ _ _ _ S a l Ha) as [Ht|Ht]; [by apply (HT a l) | by apply Hav]. }
  split; [|split; [exact Hnew|]].
  2: { intros a [Ha|[l Hl']]%Hsp; [|right; exists l; by apply (lookup_weaken _ _ _ _ Hl'), S].
    destruct (T' !! a) as [l|] eqn:Hl'; [by right | left]. by apply (ts_avail _ _ _ _ _ _ S). }
  split; cbn [with_pm memory cr seg system screen fst snd set_physical_memory physical_memory fb]; try done.
  - apply S.
  - intros a Ha. by apply Hav, (ts_avail _ _ _ _ _ _ S).
  - etrans; [exact HU|]. eapply mem_upd_mono; [exact (ts_upd _ _ _ _ _ _ S)|].
    intros x [Hx|(a & l & Ha & Hx)]; [left; by apply HP | right; exists a; split; [by apply (Hnew a l) | done]].
  - intros x. rewrite <- HP. apply (ts_priv _ _ _ _ _ _ S).
  - etrans; [exact (ts_layout _ _ _ _ _ _ S) | exact Hl].
Qed.

(** What a failure means: no frame is left, and there were not enough. *)
Definition failed_step (k : machine) : Prop :=
  kernel_step k /\ out_of_frames k /\ frames_free pm0 <= kernel_tables_needed pm0 (fb (system k0)).

Definition kernel_mapped (va : Z) : Prop :=
  in_blocks pm0 (block_count pm0) va \/ in_framebuffer (fb (system k0)) va.

Lemma spent_all T root k :
  tables_ok (memory k) (physical_memory (system k)) T root -> reached kernel_mapped (memory k) T root ->
  spent T k -> out_of_frames k -> frames_free pm0 <= kernel_tables_needed pm0 (fb (system k0)).
Proof using Hok.
  intros OK HR Hsp Hno. etrans.
  - apply (frames_all_tables (memory k0) pm0 T (pk_inv _ _ Hok)). intros a [Ha|Ha]%Hsp; [by destruct (Hno a) | done].
  - apply (reached_count kernel_mapped (memory k) (physical_memory (system k)) T root _ OK HR).
    intros v. apply kernel_ranges_in.
Qed.

(** One call of map_range. *)
Lemma wp_identity_map root mapped k start length :
  (forall va, mapped va \/ align_down start <= va < align_down start + page_size * range_pages start length ->
     kernel_mapped va) ->
  kernel_tables root mapped k -> 0 <= start -> 0 <= length -> start + length <= 2 ^ 47 ->
  range_pages start length <= Z.of_nat fuel ->
  wp (identity_map fuel k start length) (fun '(r, k') =>
    (r = 0 /\ kernel_tables root (fun va => mapped va \/
       align_down start <= va < align_down start + page_size * range_pages start length) k') \/
    (r = -1 /\ failed_step k')).
Proof using Hok.
  intros Hmap K. pose proof K as [KS (T & OK & HT & Hsp & HR) Hp Hin Hout]. intros Hs Hlen Hend Hfuel.
  pose proof (align_down_spec start Hs) as (Ha1 & Ha2 & Ha3).
  pose proof (range_pages_spec start length Hlen) as [HN Hends]. cbv zeta in Hends.
  unfold identity_map. rewrite Hp. wp_step. eapply wp_mono.
  { apply (wp_map_range fuel (memory k) (physical_memory (system k)) T root); [apply KS | done | | done].
    split; unfold page_size in *; try zlia. by split. }
  intros [r [m' pm']] [(m1 & s1 & [= -> -> ->] & (T' & S & OK' & G) & M)|(-> & c & Hc & ((T' & S & OK' & G) & M) & Hwhy)]; wp_ret;
    destruct (kernel_step_tables k _ _ T T' KS HT Hsp S) as (KS' & Hnew & Hsp'); [left | right];
    pose proof (reached_grown mapped _ _ _ _ _ _ HR G) as HR'.
  2: { split; [done|]. split; [done|]. destruct Hwhy as [Hno|Hbl].
    { split; [exact Hno|]. apply (spent_all T' root (with_pm k (m', pm'))); [done | | done | exact Hno].
      eapply reached_mono; [|exact HR']. intros va Hva. by apply Hmap. }
    destruct (not_blocked root mapped k m' (align_down start) c K); try done; unfold page_size in *; zlia. }
  split; [done|]. split; [done | by exists T' | done | |].
  - intros va Hva Hm. cbn [with_pm memory fst]. rewrite (identity_pages _ _ _ _ _ va Ha1 Ha3 HN) by (done || unfold page_size in *; zlia).
    case_decide; [done|]. destruct Hm; [by apply Hin | done].
  - intros va Hva Hm. cbn [with_pm memory fst]. rewrite (identity_pages _ _ _ _ _ va Ha1 Ha3 HN) by (done || unfold page_size in *; zlia).
    case_decide; [tauto|]. apply Hout; [done | tauto].
Qed.

(** The frames of a block. *)
Lemma block_range i b :
  active pm0 i b -> mappable b ->
  0 <= pb_address b /\ pb_address b mod page_size = 0 /\ block_end b <= 2 ^ 47 /\
  0 <= pb_frames_total b <= Z.of_nat fuel.
Proof using Hok.
  intros A Hm. destruct (inv_geom _ _ (pk_inv _ _ Hok) i b A) as [G1 G2 G3 G4].
  split_and!; [done | done | by apply (pk_low _ _ Hok i) | done | by apply (pk_fuel _ _ Hok i)].
Qed.

Lemma in_blocks_next i b va :
  active pm0 i b ->
  in_blocks pm0 (i + 1) va <->
  in_blocks pm0 i va \/ (mappable b /\ block_start b <= va < block_end b).
Proof using Type.
  intros A. split.
  - intros (j & c & Hj & Ac & Hm & Hva). destruct (decide (j = i)) as [->|].
    + right. by rewrite (active_inj _ _ _ _ Ac A) in *.
    + left. exists j, c. split; [lia | done].
  - intros [(j & c & Hj & H)|[Hm Hva]]; [exists j, c; split; [lia | done] | exists i, b; split; [lia | done]].
Qed.

(** The range of a block in whole pages. *)
Lemma block_pages b :
  0 <= pb_address b -> pb_address b mod page_size = 0 -> block_start b < block_end b ->
  let n := range_pages (block_start b) (block_end b - block_start b) in
  align_down (block_start b) = block_start b /\ block_start b + page_size * n = block_end b /\
  0 <= n <= pb_frames_total b.
Proof using Type.
  clear Hok. intros H0 Hal Hlt n. unfold n, range_pages, align_down, block_start, block_end in *.
  unfold page_size, frame_size in *. zlia.
Qed.

(** One block. *)
Lemma wp_map_kernel_block root i k :
  0 <= i < block_count pm0 -> kernel_tables root (in_blocks pm0 i) k ->
  wp (map_block fuel i k) (loop_post (kernel_tables root (in_blocks pm0 (i + 1)))
    (fun '(r, k') => r = -1 /\ failed_step k')).
Proof using Hok.
  intros Hi K. destruct (active_exists _ _ i (pk_inv _ _ Hok) Hi) as [b A].
  destruct (layout_active _ _ _ _ (ks_layout _ (kt_step _ _ _ K)) A) as [n Ak].
  unfold map_block. rewrite (active_lookup _ _ _ Ak). cbn [mbind res_bind set_frames_free pb_type pb_address pb_frames_total].
  assert (Hskip : ~ (mappable b /\ block_start b < block_end b) ->
    kernel_tables root (in_blocks pm0 (i + 1)) k).
  { intros Hno. eapply kernel_tables_iff; [|exact K]. intros va. rewrite (in_blocks_next i b) by done.
    split; [by left|]. intros [|[Hm Hva]]; [done|]. destruct Hno. split; [done | lia]. }
  destruct (bool_decide (pb_type b = PM_MMIO) || bool_decide (pb_type b = PM_RESERVED)) eqn:Ht.
  { wp_ret. apply Hskip. intros [[H1 H2] _]. by rewrite !bool_decide_eq_false_2 in Ht. }
  apply orb_false_iff in Ht as [Ht1%bool_decide_eq_false Ht2%bool_decide_eq_false].
  assert (Hm : mappable b) by done.
  destruct (block_range i b A Hm) as (H0 & Hal & Hlow & Hn0 & Hnf).
  assert (Hend : u64 (pb_address b + u64 (pb_frames_total b * frame_size)) = block_end b).
  { unfold block_end, frame_size in *. rewrite (u64_small (_ * _)), u64_small by zlia. done. }
  assert (Hst : (if pb_address b <? frame_size then frame_size else pb_address b) = block_start b).
  { unfold block_start. destruct (Z.ltb_spec (pb_address b) frame_size); lia. }
  rewrite Hend, Hst. destruct (Z.leb_spec (block_end b) (block_start b)) as [Hle|Hlt].
  { wp_ret. apply Hskip. intros [_ ?]. lia. }
  destruct (block_pages b H0 Hal Hlt) as (Hd & He & Hn). wp_step. eapply wp_mono.
  { apply (wp_identity_map root (in_blocks pm0 i)); [ | done | unfold block_start, frame_size; lia | lia | lia | lia].
    intros va Hva. left. rewrite Hd, He in Hva. destruct Hva as [(j & c & Hj & Hc)|Hva]; [by exists j, c; split; [lia|]|].
    exists i, b. split; [lia | done]. }
  intros [r k'] [[-> K']|[-> Hcr]]; wp_ret; [|done].
  eapply kernel_tables_iff; [|exact K']. intros va. rewrite (in_blocks_next i b) by done.
  rewrite Hd, He. tauto.
Qed.

(** init_paging *)
Lemma wp_init_paging :
  wp (init_paging fuel k0) (fun '(r, k') =>
    (r = 0 /\ exists root k1, kernel_tables root
       (fun va => in_blocks pm0 (block_count pm0) va \/ in_framebuffer (fb (system k0)) va) k1 /\
       k' = with_cr k1 (set_cr3 (cr k0) root)) \/
    (r = -1 /\ failed_step k')).
Proof using Hok.
  pose proof (pk_inv _ _ Hok) as Hinv. unfold init_paging. fold pm0. wp_step.
  eapply wp_mono; [by apply init_pml4_spec|]. intros [root [m1 pm1]] Hroot.
  cbn [with_pm with_system memory cr seg system fst snd set_physical_memory set_pml4 physical_memory pml4 fb].
  destruct Hroot as [(-> & -> & -> & Hnone)|(Hav & OK & S & Hno)].
  { rewrite Z.eqb_refl. wp_ret. right. split; [done|]. split; [done|]. split; [exact Hnone|].
    etrans; [apply (frames_free_le (memory k0) pm0 Hinv []); intros a Ha; by destruct (Hnone a)|].
    apply tables_needed_nonneg. }
  pose proof (avail_ok _ _ _ Hinv Hav) as Hframe. pose proof (frame_pos _ _ _ Hframe) as Hpos.
  rewrite (proj2 (Z.eqb_neq root NULL)) by (unfold NULL; lia).
  pose proof (ts_layout _ _ _ _ _ _ S) as Hl.
  assert (Hc : block_count pm1 = block_count pm0) by (exact (f_equal snd (Hl : pmm_layout pm1 = pmm_layout pm0))).
  rewrite Hc. set (k1 := with_system _ _).
  assert (K0 : kernel_step k0) by done.
  destruct (kernel_step_tables k0 m1 pm1 ∅ {[root := 4%nat]} K0) as (KS & Hnew & Hsp);
    [intros a l Ha; by rewrite lookup_empty in Ha | by left | exact S |].
  assert (K1 : kernel_tables root (in_blocks pm0 0) k1).
  { split; try done.
    - by destruct KS.
    - exists {[root := 4%nat]}. split; [done|]. split; [exact Hnew|]. split; [exact Hsp | apply reached_root].
    - intros va _ (i & b & Hi & [Hb _] & _). lia.
    - intros va _ _. unfold translate. cbn [k1 memory]. by rewrite Hno. }
  wp_step. eapply wp_mono.
  { apply (wp_for_range (fun i => kernel_tables root (in_blocks pm0 i))
      (fun '(r, k') => r = -1 /\ failed_step k')); [apply Hinv | exact K1 |].
    intros i k Hi K. by apply wp_map_kernel_block. }
  intros [k|[r k]] Hk; wp_ret; [|by right]. destruct (pk_height _ _ Hok) as [Hh1 Hh2].
  rewrite (ks_fb _ (kt_step _ _ _ Hk)). pose proof (pk_fb _ _ Hok) as Hfb. pose proof (pk_buffer _ _ Hok) as Hb.
  assert (Hlen : u64 (u64 (pixels_per_scanline (fb (system k0)) * height (fb (system k0))) * 4) =
    fb_length (fb (system k0))).
  { unfold fb_length in *. rewrite (u64_small (_ * height _)), u64_small by zlia. done. }
  rewrite Hlen. wp_step. eapply wp_mono.
  { apply (wp_identity_map root _ k _ _ (fun va Hva => Hva) Hk); [done | unfold fb_length; lia | done | apply Hok]. }
  intros [r k'] [[-> K']|[-> Hcr]]; wp_ret; [left | by right]. split; [done|].
  exists root, k'. split; [exact K'|]. by rewrite (kt_pml4 _ _ _ K'), (ks_cr _ (kt_step _ _ _ K')).
Qed.
End init_paging.

(** ** After the set-up of the descriptor table *)

(** A frame that was free lies in the blocks that are mapped. *)
Lemma avail_mapped fuel k a x :
  paging_ok fuel k -> pmm_avail (memory k) (physical_memory (system k)) a -> region a frame_size x ->
  in_blocks (physical_memory (system k)) (block_count (physical_memory (system k))) x /\
  0 <= x < 2 ^ 48.
Proof.
  intros Hok Hav Hx. pose proof (frame_pos _ _ _ (inv_avail _ _ (pk_inv _ _ Hok) a Hav)) as Hne.
  destruct Hav as (i & b & f & (A & Hm & Hf) & _ & ->). pose proof (pk_ram _ _ Hok i b A Hm) as Hmap.
  destruct (inv_geom _ _ (pk_inv _ _ Hok) i b A) as [G1 G2 G3 G4].
  pose proof (pk_low _ _ Hok i b A Hmap) as Hlow. pose proof A as [Hi _].
  unfold region, frame_addr, block_end in *. split.
  - exists i, b. split; [lia|]. split; [done|]. split; [done|]. unfold block_start, block_end.
    unfold frame_size in *. zlia.
  - unfold frame_size in *. zlia.
Qed.

(** What init_paging relies on survives allocations. *)
Lemma paging_ok_layout fuel k k' :
  paging_ok fuel k -> pmm_inv (memory k') (physical_memory (system k')) ->
  pmm_layout (physical_memory (system k')) = pmm_layout (physical_memory (system k)) ->
  fb (system k') = fb (system k) -> paging_ok fuel k'.
Proof.
  intros [Hinv Hlow Hram Hb Hh Hfb Hf Hff] Hinv' Hl Hfb'.
  assert (Hback : forall i b, active (physical_memory (system k')) i b ->
    exists n, active (physical_memory (system k)) i (set_frames_free b n))
    by (intros i b; by apply layout_active).
  split; rewrite ?Hfb'; try done.
  - intros i b A. destruct (Hback i b A) as [n A']. exact (Hlow i _ A').
  - intros i b A. destruct (Hback i b A) as [n A']. exact (Hram i _ A').
  - intros i b A. destruct (Hback i b A) as [n A']. exact (Hf i _ A').
Qed.

(** The regions and the bitmaps are the same before and after. *)
Lemma in_blocks_layout pm pm' n x :
  pmm_layout pm' = pmm_layout pm -> in_blocks pm n x -> in_blocks pm' n x.
Proof.
  intros Hl (i & b & Hi & A & H). destruct (layout_active _ _ _ _ Hl A) as [k A'].
  by exists i, (set_frames_free b k).
Qed.

Lemma kernel_tables_needed_layout pm pm' f :
  pmm_layout pm' = pmm_layout pm -> kernel_tables_needed pm' f = kernel_tables_needed pm f.
Proof.
  intros [Hb Hc]%pair_eq.
  set (g := fun b => (block_start b, block_end b)).
  assert (Hr : forall l : list pm_block, g <$> filter mappable l =
    g <$> filter mappable ((fun b => set_frames_free b 0) <$> l)).
  { intros l. induction l as [|b l IH]; [done|]. rewrite fmap_cons, !filter_cons.
    do 2 case_decide; try (by exfalso); [by rewrite !fmap_cons, IH | exact IH]. }
  unfold kernel_tables_needed, kernel_ranges, used_blocks. fold g. do 2 f_equal.
  by rewrite (Hr (take _ (blocks pm'))), (Hr (take _ (blocks pm))), !fmap_take, Hb, Hc.
Qed.

Lemma priv_layout pm pm' x : pmm_layout pm' = pmm_layout pm -> pmm_priv pm' x -> pmm_priv pm x.
Proof.
  intros Hl (i & b & A & H). destruct (layout_active _ _ _ _ (eq_sym Hl) A) as [k A'].
  by exists i, (set_frames_free b k).
Qed.

(** The descriptor table in frames [desc] and [base], seen through the kernel's tables. *)
Record table_live (k : machine) (desc base : Z) : Prop := {
  tl_seg : seg k = kernel_segments base;
  tl_gdt : gdt (system k) = desc;
  tl_built : gdt_built (memory k) desc base;
  tl_mapped x : region desc frame_size x \/ region base frame_size x ->
    translate (memory k) (cr3 (cr k)) x = Some x
}.

(** The table is untouched by writes that stay out of its frames. *)
Lemma gdt_built_upd P m m' desc base :
  mem_upd P m m' -> (forall x, region desc frame_size x \/ region base frame_size x -> ~ P x) ->
  gdt_built m desc base -> gdt_built m' desc base.
Proof.
  intros U HP. unfold gdt_built. unfold gdt_limit_at, gdt_base_at.
  rewrite (mem_upd_peekn _ _ _ 2 desc U) by (intros; apply HP; unfold region, frame_size in *; lia).
  rewrite (mem_upd_peek64 _ _ _ (desc + 2) U) by (intros; apply HP; unfold region, frame_size in *; lia).
  rewrite !(mem_upd_peek64 _ _ _ (base + _) U) by (intros; apply HP; unfold region, frame_size in *; lia).
  done.
Qed.

(** What the kernel maps: the regions above page 0 and the framebuffer. *)
Definition kernel_space (sys : colonel_t) (va : Z) : Prop :=
  in_blocks (physical_memory sys) (block_count (physical_memory sys)) va \/
  in_framebuffer (fb sys) va.

(** The kernel in its idle loop, started on [sys] with memory [m]: its descriptor table in
    two frames of its own that stay allocated, its address space in CR3, and a
    consistent allocator that has only given frames away. *)
Record kernel_running (m : mem) (sys : colonel_t) (k : machine) : Prop := {
  kr_table : exists desc base,
    pmm_avail m (physical_memory sys) desc /\ pmm_avail m (physical_memory sys) base /\
    desc <> base /\ table_live k desc base /\
    ~ pmm_avail (memory k) (physical_memory (system k)) desc /\
    ~ pmm_avail (memory k) (physical_memory (system k)) base;
  kr_cr3 : cr3 (cr k) = pml4 (system k);
  kr_inv : pmm_inv (memory k) (physical_memory (system k));
  kr_avail a : pmm_avail (memory k) (physical_memory (system k)) a ->
    pmm_avail m (physical_memory sys) a;
  kr_in va : 0 <= va < 2 ^ 48 -> kernel_space sys va -> translate (memory k) (cr3 (cr k)) va = Some va;
  kr_out va : 0 <= va < 2 ^ 48 -> ~ kernel_space sys va -> translate (memory k) (cr3 (cr k)) va = None
}.
