(* ===== verification/KernelBoot.v ===== *)
(** What kernel_start does: its console stays within its own memory, so the set-up of the
    descriptor table and of the page tables is that of GdtSpec.v and KernelSpec.v. *)
From stdpp Require Import gmap list.
From Stdlib Require Import ZArith Lia.
From S2P Require Import Prelude Memory Physical FrameAllocator PhysicalSpec FrameCount LibString Stdio StdioSpec Paging PagingSpec Mapping MapRange TableCount Gdt GdtSpec Ssfn SsfnSpec Console ConsoleSpec Kernel KernelSpec KernelText.
Local Open Scope Z_scope.

(** A font: a memory that holds it and its size in bytes, its glyphs, and bounds of their
    size and advance. *)
Record typeface := {
  face_memory : mem;
  face_size : Z;
  face_table : list (Z * Z);
  face_height : Z;
  face_width : Z;
  face_advance : Z
}.

(** There are no more free frames than the descriptor table and the page tables may take. *)
Definition too_few (sys : colonel_t) : Prop :=
  frames_free (physical_memory sys) <= kernel_tables_needed (physical_memory sys) (fb sys) + 2.

Section areas.
Context `{Image} (package : list Z) (ty : typeface) (m0 : mem) (pm0 : pmm) (f : framebuffer_t).

Definition screen_pitch : Z := 4 * pixels_per_scanline f.

(** The memory of the console: the screen and the local arrays. *)
Definition console_area (a : Z) : Prop :=
  on_screen f screen_pitch (height f) a \/ writes 1024 rev_at temp_at output_at a.

(** The memory of the kernel: the bitmaps and the frames that are free. *)
Definition kernel_area (a : Z) : Prop :=
  pmm_priv pm0 a \/ exists fr, pmm_avail m0 pm0 fr /\ region fr frame_size a.

(** The memory that is only read: the font and the strings. *)
Definition constant_area (a : Z) : Prop :=
  region (font f) (face_size ty) a \/
  exists msg, reads (texts package) (message_text msg) itoa_zero (format_at msg) a.

(** The lengths of the messages: the title, and six others at most. *)
Definition text_length : Z := Z.of_nat (length package) + 2 + 6 * 44.
Definition text_lines : Z := newlines package + 2 + 6.

(** A screen, a font and the kernel's image, with room for the messages; [W] is what others
    write. *)
Record console_on (W : Z -> Prop) (fuel : nat) : Prop := {
  ck_fuel : 0x110000 <= Z.of_nat fuel;
  ck_package : Z.of_nat (length package) <= 1000;
  ck_font : same_font (font f) (face_size ty) (face_memory ty) m0;
  ck_screen : screen_ok (face_memory ty) (font f) (face_size ty) (face_table ty) f (face_height ty) (face_width ty)
    screen_pitch (height f);
  ck_pitch : screen_pitch < 2 ^ 16;
  ck_backed : backed m0 (buffer f) (height f * screen_pitch);
  ck_advance unicode : advance (face_memory ty) (face_table ty) unicode <= face_advance ty;
  ck_laid msg : laid_out (texts package) (message_text msg) m0 1024 fuel itoa_zero rev_at temp_at output_at
    (format_at msg);
  ck_constant a : constant_area a -> ~ console_area a /\ ~ W a;
  ck_stack a : on_screen f screen_pitch (height f) a -> ~ writes 1024 rev_at temp_at output_at a;
  ck_apart a : console_area a -> ~ W a;
  ck_room : room (face_memory ty) (font f) f (face_height ty) (height f) (face_advance ty) (margin f, margin f)
    text_length text_lines
}.

(** On the kernel's machine. *)
Definition console_ok (fuel : nat) : Prop := console_on kernel_area fuel.

Section output.
Context (fuel : nat) (K : console_ok fuel).

(** In the middle of kernel_start: only the console's and the kernel's memory has been
    written, and there is room for [n] more characters on [l] more lines. *)
Record talking (k : machine) (n l : Z) : Prop := {
  ta_upd : mem_upd (fun a => kernel_area a \/ console_area a) m0 (memory k);
  ta_fb : fb (system k) = f;
  ta_room : exists p,
    console (face_memory ty) (font f) (face_size ty) f screen_pitch (height f) (memory k) (screen k) p /\
    room (face_memory ty) (font f) f (face_height ty) (height f) (face_advance ty) p n l
}.

(** Work that leaves the console alone. *)
Lemma talking_step k k' n l :
  talking k n l -> screen k' = screen k -> fb (system k') = fb (system k) ->
  mem_upd kernel_area (memory k) (memory k') -> talking k' n l.
Proof using K.
  intros [U Hf (p & C & R)] Hs Hfb U'. split.
  - etrans; [exact U|]. eapply mem_upd_mono; [exact U'|]. by left.
  - congruence.
  - exists p. split; [|done]. rewrite Hs. destruct C as [Hsame Hb ? ? ? ? ?]. split; try done.
    + eapply same_font_trans; [exact Hsame|]. apply (same_font_upd _ _ _ _ _ U').
      intros a Ha. apply (ck_constant _ _ K a). by left.
    + by apply (mem_upd_backed _ _ _ _ _ U').
Qed.

(** The strings stay where they are. *)
Lemma talking_laid k n l msg :
  talking k n l -> laid_out (texts package) (message_text msg) (memory k) 1024 fuel itoa_zero rev_at temp_at output_at
    (format_at msg).
Proof using K.
  intros T. apply (laid_out_keep _ _ _ _ _ _ _ _ _ _ _ _ (ck_laid _ _ K msg) (ta_upd _ _ _ T)).
  intros x Hx [Hk|Hc]; destruct (ck_constant _ _ K x) as [N1 N2]; try done; right; by exists msg.
Qed.

(** One message. *)
Lemma wp_kprintf k msg values out a b n l :
  talking k (a + n) (b + l) -> wording package msg values = Some out -> measures out a b ->
  a <= 1024 -> 0 <= n -> 0 <= l ->
  wp (kprintf fuel k msg values) (fun k' => talking k' n l /\
    exists s, k' = with_screen k s /\ mem_upd console_area (memory k) s.1).
Proof using K.
  intros T Hw [Ha Hb] H1024 Hn Hl. pose proof T as [U Hf (p & C & R)]. unfold kprintf. rewrite Hf.
  destruct (room_text _ _ _ _ _ _ _ _ _ (ck_screen _ _ K) _ (ck_advance _ _ K) out p n l) as [F R'];
    [exact (co_x _ _ _ _ _ _ _ _ _ C) | done | done | by rewrite Ha, Hb |].
  wp_step. eapply wp_mono.
  { apply (wp_ssfn_printf (face_memory ty) (font f) (face_size ty) (face_table ty) f _ _ _ _ (ck_screen _ _ K) fuel (ck_fuel _ _ K)
      (texts package) (message_text msg) itoa_zero rev_at temp_at output_at (format_at msg) _ _ p values out C);
      [by apply printed_wording | lia | done | by apply (talking_laid k (a + n) (b + l)) |].
    intros x [Hx|Hx] Hx'; [|by apply (ck_stack _ _ K x)]. apply (proj1 (ck_constant _ _ K x (or_introl Hx))). by right. }
  intros [r [m' g']] (_ & C' & U' & _). wp_ret. split; [|by exists (m', g')]. split.
  - etrans; [exact U|]. eapply mem_upd_mono; [exact U'|]. by right.
  - done.
  - by exists (final_cursor (face_memory ty) (font f) (face_table ty) f p out).
Qed.

Lemma talking_less k n l n' l' : talking k n l -> 0 <= n' <= n -> 0 <= l' <= l -> talking k n' l'.
Proof using K.
  intros [U Hf (p & C & R)] Hn Hl. split; [done | done|]. exists p. split; [done|].
  by apply (room_mono _ _ _ _ _ _ _ _ _ (ck_screen _ _ K) _ (ck_advance _ _ K) _ _ _ _ _ Hn Hl (proj1 (co_x _ _ _ _ _ _ _ _ _ C))).
Qed.

(** A message that is not the title takes a line of 44 characters. *)
Lemma wp_kprintf_line k msg values out n l :
  talking k (44 + n) (1 + l) -> msg <> Title -> wording package msg values = Some out -> 0 <= n -> 0 <= l ->
  wp (kprintf fuel k msg values) (fun k' => talking k' n l /\
    exists s, k' = with_screen k s /\ mem_upd console_area (memory k) s.1).
Proof using K.
  intros T Hne Hw Hn Hl. destruct (wording_short package msg values out Hne Hw) as (a & Hm & Ha).
  apply (wp_kprintf k msg values out a 1 n l); try done; [|lia]. apply (talking_less k _ _ _ _ T); lia.
Qed.

(** The console's memory is none of the allocator's. *)
Lemma print_stable m m' pm :
  (forall x, pmm_priv pm x <-> pmm_priv pm0 x) -> pmm_inv m pm -> mem_upd console_area m m' ->
  pmm_inv m' pm /\ forall a, pmm_avail m' pm a <-> pmm_avail m pm a.
Proof using K.
  intros HP I U. apply (@fa_stable pmm _ pmm_laws console_area m m' pm I U). intros x Hx Hp.
  apply (ck_apart _ _ K x Hx). left. by apply HP.
Qed.

(** ** The first messages *)
Lemma setup_talking k :
  memory k = m0 -> fb (system k) = f -> talking (setup_screen k) text_length text_lines.
Proof using K.
  intros Hm Hf. pose proof (ck_screen _ _ K) as [_ _ _ [Hp _] [Hm0 Hmr] [_ Hr] _ _]. pose proof (ck_pitch _ _ K) as Hp16.
  split; cbn [setup_screen with_screen memory screen system fst snd]; [by rewrite Hm | done|].
  exists (margin f, margin f). split; [|apply (ck_room _ _ K)]. rewrite Hf, Hm.
  assert (Hs : s16 (margin f) = margin f) by (apply s16_small; lia).
  split; cbn; rewrite ?Hs; try done; try lia; [apply (ck_font _ _ K) | apply (ck_backed _ _ K)|].
  split; [done|]. split; [|done]. unfold screen_pitch in *. unfold u16. apply Z.mod_small. lia.
Qed.

Lemma wp_start_messages k :
  memory k = m0 -> fb (system k) = f ->
  wp (start_messages fuel (setup_screen k)) (fun k' => talking k' 132 3 /\
    exists s, k' = with_screen k s /\ mem_upd console_area m0 s.1).
Proof using K.
  intros Hm Hf. pose proof (setup_talking k Hm Hf) as T0. set (k0 := setup_screen k) in *.
  assert (Hmem : memory k0 = m0) by done. assert (Hk0 : forall s, with_screen k0 s = with_screen k s) by done.
  clearbody k0. unfold start_messages.
  destruct (title_measures package PACKAGE_STRING package) as (out & Hw & Hmeas).
  { unfold texts. by rewrite Z.eqb_refl. }
  wp_step. eapply wp_mono.
  { apply (wp_kprintf k0 Title _ out _ _ 264 6 T0 Hw Hmeas); [pose proof (ck_package _ _ K); lia | done..]. }
  intros k1 (T1 & s1 & -> & U1). wp_step. eapply wp_mono; [eapply (wp_kprintf_line _ MapCopied _ _ 220 5 T1); [done | reflexivity | done..]|].
  intros k2 (T2 & s2 & -> & U2). wp_step. eapply wp_mono; [eapply (wp_kprintf_line _ EntryPoint _ _ 176 4 T2); [done | reflexivity | done..]|].
  intros k3 (T3 & s3 & -> & U3). eapply wp_mono; [eapply (wp_kprintf_line _ Starting _ _ 132 3 T3); [done | reflexivity | done..]|].
  intros k4 (T4 & s4 & -> & U4). split; [done|]. exists s4. split; [by rewrite <- Hk0|].
  cbn [with_screen memory] in *. rewrite <- Hmem. by do 3 (etrans; [eassumption|]).
Qed.

(** ** The descriptor table *)
Context (I0 : pmm_inv m0 pm0).

Lemma avail_kernel_area fr x : pmm_avail m0 pm0 fr -> region fr frame_size x -> kernel_area x.
Proof using Type. intros Ha Hx. right. by exists fr. Qed.

(** The table in frames [desc] and [base] that were free: the console leaves it alone. *)
Lemma print_built m m' desc base :
  pmm_avail m0 pm0 desc -> pmm_avail m0 pm0 base -> mem_upd console_area m m' ->
  gdt_built m desc base -> gdt_built m' desc base.
Proof using K.
  intros Hd Hb U. apply (gdt_built_upd _ _ _ _ _ U). intros x Hx Hc. apply (ck_apart _ _ K x Hc).
  destruct Hx as [Hx|Hx]; [by apply (avail_kernel_area desc) | by apply (avail_kernel_area base)].
Qed.

(** What the set-up of the table leaves: whichever way it ends, the allocator is consistent. *)
Record table_state (k0 k : machine) : Prop := {
  gs_inv : pmm_inv (memory k) (physical_memory (system k));
  gs_layout : pmm_layout (physical_memory (system k)) = pmm_layout pm0;
  gs_priv x : pmm_priv (physical_memory (system k)) x <-> pmm_priv pm0 x;
  gs_cr : cr k = cr k0
}.

Lemma table_state_print k0 k s :
  table_state k0 k -> mem_upd console_area (memory k) s.1 -> table_state k0 (with_screen k s).
Proof using K. intros [I L P C] U. split; try done. by apply (print_stable (memory k)). Qed.

(** The table is set up, and its two frames are gone. *)
Definition table_done (k : machine) (desc base : Z) : Prop :=
  pmm_avail m0 pm0 desc /\ pmm_avail m0 pm0 base /\ desc <> base /\
  gdt_built (memory k) desc base /\ seg k = kernel_segments base /\ gdt (system k) = desc /\
  forall a, pmm_avail (memory k) (physical_memory (system k)) a <-> pmm_avail m0 pm0 a /\ a <> desc /\ a <> base.

Lemma out_of_frames_print k s :
  pmm_inv (memory k) (physical_memory (system k)) ->
  (forall x, pmm_priv (physical_memory (system k)) x <-> pmm_priv pm0 x) ->
  mem_upd console_area (memory k) s.1 -> out_of_frames k -> out_of_frames (with_screen k s).
Proof using K.
  intros I P U Hno a Ha. apply (Hno a). by apply (proj2 (print_stable _ _ _ P I U) a).
Qed.

(** From gdt_flush on: the segments are loaded, and the message about the table. *)
Lemma wp_start_gdt_flush k base :
  talking k 88 2 -> gdt_built (memory k) (gdt (system k)) base ->
  backed (memory k) (gdt (system k)) frame_size -> backed (memory k) base frame_size ->
  wp (s ← gdt_flush (memory k) (gdt (system k));
      let k := with_seg k s in
      base ← load64 (memory k) (gdt_base_at (gdt (system k)));
      limit ← load16 (memory k) (gdt_limit_at (gdt (system k)));
      k ← kprintf fuel k TableAt [base; limit];
      Ok (true, k))
    (fun '(ok, k') => ok = true /\ talking k' 44 1 /\
      exists s, k' = with_screen (with_seg k (kernel_segments base)) s /\ mem_upd console_area (memory k) s.1).
Proof using K I0.
  intros T G Bd Bb. wp_step. eapply wp_mono; [by apply (wp_gdt_flush (memory k) (gdt (system k)) base)|].
  intros sg ->. set (k4 := with_seg _ _).
  assert (T4 : talking k4 88 2) by (by apply (talking_step k)).
  wp_step. apply (wp_loadn 8). { apply (backed_sub _ _ _ _ _ Bd); cbn; unfold gdt_base_at, frame_size; lia. }
  wp_step. apply (wp_loadn 2). { apply (backed_sub _ _ _ _ _ Bd); cbn; unfold gdt_limit_at, frame_size; lia. }
  wp_step. eapply wp_mono; [eapply (wp_kprintf_line k4 TableAt [_; _] _ 44 1 T4); [done | reflexivity | done..]|].
  intros k5 (T5 & s5 & -> & U5). wp_ret. split; [done|]. split; [done|]. by exists s5.
Qed.

Lemma wp_start_gdt k :
  talking k 132 3 -> mem_upd console_area m0 (memory k) -> physical_memory (system k) = pm0 ->
  wp (start_gdt fuel k) (fun '(ok, k') => talking k' 44 1 /\ table_state k k' /\
    if ok then exists desc base, table_done k' desc base else out_of_frames k' /\ frames_free pm0 <= 1).
Proof using K I0.
  intros T U Hpm. unfold start_gdt. rewrite Hpm.
  destruct (print_stable m0 (memory k) pm0 (fun x => iff_refl _) I0 U) as [I Hav].
  wp_step. eapply wp_mono; [by apply (@fa_allocate_spec pmm _ pmm_laws)|].
  intros [desc [m1 pm1]] [(-> & -> & -> & Hno)|(Hd & (I1 & U1 & P1 & L1) & Hav1)].
  { rewrite Z.eqb_refl. wp_step. set (k1 := with_pm k (memory k, pm0)).
    assert (T1 : talking k1 88 2) by (apply (talking_step k); [|done..]; by apply (talking_less _ _ _ _ _ T)).
    eapply wp_mono; [eapply (wp_kprintf_line k1 NoDescriptor [] _ 44 1 T1); [done | reflexivity | done..]|].
    intros k2 (T2 & s & -> & U2). wp_ret. split; [done|].
    split; [apply table_state_print; [by split|done]|]. split; [by apply out_of_frames_print|].
    etrans; [apply (frames_free_le m0 pm0 I0 [])|done]. intros a Ha%Hav. by destruct (Hno a). }
  pose proof (@avail_ok pmm _ pmm_laws _ _ _ I Hd) as FD. apply Hav in Hd as Hd0.
  rewrite (proj2 (Z.eqb_neq desc ALL_ONES)) by (destruct FD; unfold ALL_ONES, frame_size in *; zlia).
  set (k1 := with_system _ _).
  assert (T1 : talking k1 132 3).
  { apply (talking_step k); try done. eapply mem_upd_mono; [exact U1|]. by left. }
  wp_step. eapply wp_mono; [eapply (wp_kprintf_line k1 DescriptorAt [_] _ 88 2 T1); [done | reflexivity | done..]|].
  intros k2 (T2 & s2 & -> & U2). destruct (print_stable _ _ pm1 P1 I1 U2) as [I2 Hav2].
  wp_step. eapply wp_mono.
  { apply (@wp_setup_gdt pmm _ pmm_laws s2.1 pm1 desc I2).
    - destruct FD as [F1 F2 F3 F4 F5]. split; try done.
      + by apply (mem_upd_backed _ _ _ _ _ U2), (mem_upd_backed _ _ _ _ _ U1).
      + intros x Hx. rewrite P1. by apply F5.
    - rewrite Hav2, Hav1. tauto. }
  intros [ok [m3 pm3]] (I3 & L3 & P3 & G3). set (k3 := with_pm _ _).
  assert (HP3 : forall x, pmm_priv pm3 x <-> pmm_priv pm0 x) by (intros x; by rewrite P3, P1).
  assert (S3 : table_state k k3) by (split; [exact I3 | exact (eq_trans L3 L1) | exact HP3 | done]).
  destruct ok.
  2: { destruct G3 as (Hno2 & Hno & U3).
    assert (T3 : talking k3 88 2).
    { apply (talking_step _ _ _ _ T2); try done. eapply mem_upd_mono; [exact U3|]. intros x. by apply avail_kernel_area. }
    wp_step. eapply wp_mono; [eapply (wp_kprintf_line k3 NoBase [] _ 44 1 T3); [done | reflexivity | done..]|].
    intros k4 (T4 & s4 & -> & U4). wp_ret. split; [done|].
    split; [by apply table_state_print|]. split; [by apply out_of_frames_print|].
    apply (frames_free_le m0 pm0 I0 [desc]). intros a Ha%Hav. destruct (decide (a = desc)) as [->|Hne]; [left|].
    destruct (Hno2 a). by apply Hav2, Hav1. }
  destruct G3 as (base & Hb & Hne & Hg & Hav3 & U3). apply Hav2, Hav1 in Hb as [Hb _]. apply Hav in Hb as Hb0.
  pose proof (@avail_ok pmm _ pmm_laws _ _ _ I Hb) as FB.
  assert (T3 : talking k3 88 2).
  { apply (talking_step _ _ _ _ T2); try done. eapply mem_upd_mono; [exact U3|].
    intros x [Hx|[Hx|Hx]]; [left; by apply P1 | by apply (avail_kernel_area desc) | by apply (avail_kernel_area base)]. }
  assert (Hbk : forall a n, backed (memory k) a n -> backed m3 a n).
  { intros a n B. by apply (mem_upd_backed _ _ _ _ _ U3), (mem_upd_backed _ _ _ _ _ U2), (mem_upd_backed _ _ _ _ _ U1). }
  cbn [negb]. eapply wp_mono; [apply (wp_start_gdt_flush k3 base T3 Hg); apply Hbk; [exact (frame_backed _ _ _ FD) | exact (frame_backed _ _ _ FB)]|].
  intros [ok k5] (-> & T5 & s5 & -> & U5). split; [done|].
  split; [apply table_state_print; [by destruct S3 | done]|].
  exists desc, base. split; [done|]. split; [done|]. split; [done|]. split; [by apply (print_built m3)|].
  split; [done|]. split; [done|]. intros a.
  change (pmm_avail s5.1 pm3 a <-> pmm_avail m0 pm0 a /\ a <> desc /\ a <> base).
  rewrite (proj2 (print_stable m3 s5.1 pm3 HP3 I3 U5) a), (Hav3 a : pmm_avail m3 pm3 a <-> _),
    (Hav2 a), (Hav1 a : pmm_avail m1 pm1 a <-> _), (Hav a). tauto.
Qed.

(** ** The page tables *)

(** The console writes to no table: the translation stays. *)
Lemma print_translate m pm T root m' va :
  tables_ok m pm T root -> (forall a l, T !! a = Some l -> pmm_avail m0 pm0 a) -> mem_upd console_area m m' ->
  translate m' root va = translate m root va.
Proof using K.
  intros OK HT U. unfold translate. destruct (walk_ext m pm T root OK m' va 4 root (tb_root _ _ _ _ OK)) as [-> _]; [|done].
  intros b l Hl Hb _. left. apply (pte_upd console_area); [done|]. intros x Hx Hc.
  apply (ck_apart _ _ K x Hc). apply (avail_kernel_area b); [by apply (HT b l) | done].
Qed.

Context (k0 : machine) (sys : colonel_t) (Hmem : memory k0 = m0).
Context (Hsys : physical_memory sys = pm0) (Hfb : fb sys = f) (Hok : paging_ok fuel (with_system k0 sys)).

Lemma space_layout pm va :
  pmm_layout pm = pmm_layout pm0 ->
  kernel_space sys va <-> in_blocks pm (block_count pm) va \/ in_framebuffer f va.
Proof using Hsys Hfb.
  intros L. assert (Hc : block_count pm = block_count pm0) by exact (f_equal snd L).
  unfold kernel_space. rewrite Hsys, Hfb, Hc.
  split; (intros [Hb|Hb]; [left | by right]); revert Hb; apply in_blocks_layout; [done | by symmetry].
Qed.

(** The frames of the descriptor table are not for the page tables. *)
Lemma table_kept k desc base x :
  table_state k0 k -> table_done k desc base -> region desc frame_size x \/ region base frame_size x ->
  ~ (pmm_priv (physical_memory (system k)) x \/
     exists a, pmm_avail (memory k) (physical_memory (system k)) a /\ region a frame_size x).
Proof using I0.
  intros S (Hd & Hb & _ & _ & _ & _ & Hav) Hx.
  pose proof (inv_avail _ _ I0 _ Hd) as FD. pose proof (inv_avail _ _ I0 _ Hb) as FB. intros [Hp|(a & Ha & Hx')].
  - apply (gs_priv _ _ S) in Hp.
    destruct Hx as [Hx|Hx]; [by apply (frame_not_priv _ _ _ FD x) | by apply (frame_not_priv _ _ _ FB x)].
  - pose proof (frame_aligned _ _ _ (inv_avail _ _ (gs_inv _ _ S) a Ha)) as Hal.
    apply Hav in Ha as (_ & N1 & N2). destruct Hx as [Hx|Hx];
      eapply frames_disjoint; [exact Hal | apply FD | done | done | done | exact Hal | apply FB | done..].
Qed.

Lemma running_print k k2 s root desc base :
  table_state k0 k -> table_done k desc base -> fb (system k) = f ->
  kernel_tables k root (fun va => in_blocks (physical_memory (system k)) (block_count (physical_memory (system k))) va \/
    in_framebuffer (fb (system k)) va) k2 ->
  mem_upd console_area (memory k2) s.1 ->
  kernel_running m0 sys (with_screen (with_cr k2 (set_cr3 (cr k) root)) s).
Proof using K I0 Hsys Hfb Hmem Hok.
  intros S D Hf KT U. pose proof D as (Hd & Hb & Hne & Hg & Hseg & Hgdt & Hav).
  pose proof (kt_step _ _ _ _ KT) as KS. destruct (kt_tables _ _ _ _ KT) as (T & OK & HT & _).
  assert (HT0 : forall a l, T !! a = Some l -> pmm_avail m0 pm0 a) by (intros a l Ha; by apply Hav, (HT a l)).
  assert (HP : forall x, pmm_priv (physical_memory (system k2)) x <-> pmm_priv pm0 x)
    by (intros x; rewrite (ks_priv _ _ KS); apply S).
  destruct (print_stable _ s.1 _ HP (ks_inv _ _ KS) U) as [I Hav2].
  assert (Htr : forall va, translate s.1 root va = translate (memory k2) root va)
    by (intros va; by apply (print_translate (memory k2) (physical_memory (system k2)) T)).
  assert (Hin : forall va, 0 <= va < 2 ^ 48 -> kernel_space sys va -> translate s.1 root va = Some va).
  { intros va Hva Hs. rewrite Htr. apply (kt_in _ _ _ _ KT); [done|]. rewrite Hf. by apply (space_layout (physical_memory (system k)) va (gs_layout _ _ S)). }
  split; cbn [with_screen with_cr memory cr system set_cr3 cr3 fst snd].
  - exists desc, base. rewrite Hsys. split; [done|]. split; [done|]. split; [done|]. split; [split|].
    + cbn. by rewrite (ks_seg _ _ KS).
    + cbn. by rewrite (ks_gdt _ _ KS).
    + apply (print_built (memory k2)); [done..|].
      apply (gdt_built_upd _ _ _ _ _ (ks_upd _ _ KS)); [|done]. intros x. by apply table_kept.
    + intros x Hx. cbn. assert (Hx' : in_blocks pm0 (block_count pm0) x /\ 0 <= x < 2 ^ 48).
      { pose proof (fun a => avail_mapped fuel _ a x Hok) as AM. cbn in AM. rewrite Hmem, Hsys in AM.
        destruct Hx as [Hx|Hx]; [by apply (AM desc) | by apply (AM base)]. }
      apply Hin; [apply Hx'|]. left. rewrite Hsys. apply Hx'.
    + by split; intros Ha; apply Hav2, (ks_avail _ _ KS), Hav in Ha as (_ & ? & ?).
  - by rewrite (kt_pml4 _ _ _ _ KT).
  - done.
  - intros a Ha. rewrite Hsys. by apply Hav2, (ks_avail _ _ KS), Hav in Ha as [? _].
  - done.
  - intros va Hva Hs. rewrite Htr. apply (kt_out _ _ _ _ KT); [done|]. rewrite Hf.
    by rewrite <- (space_layout (physical_memory (system k)) va (gs_layout _ _ S)).
Qed.

(** There were not enough frames: two for the descriptor table, the rest for the tables. *)
Lemma too_few_left k desc base :
  table_state k0 k -> table_done k desc base -> fb (system k) = f ->
  frames_free (physical_memory (system k)) <= kernel_tables_needed (physical_memory (system k)) (fb (system k)) ->
  too_few sys.
Proof using I0 Hsys Hfb.
  intros TS (_ & _ & _ & _ & _ & _ & Hav) Hf Hle. unfold too_few. rewrite Hsys, Hfb.
  rewrite (kernel_tables_needed_layout pm0), Hf in Hle by apply TS.
  destruct (free_frames _ _ (gs_inv _ _ TS)) as (l & Hl & Hin).
  pose proof (frames_free_le m0 pm0 I0 (desc :: base :: l)) as H2. cbn [length] in H2.
  enough (frames_free pm0 <= Z.of_nat (S (S (length l)))) by lia. apply H2. intros a Ha.
  destruct (decide (a = desc)) as [->|]; [left|]. destruct (decide (a = base)) as [->|]; [right; left|].
  do 2 right. by apply Hin, Hav.
Qed.

Lemma wp_start_paging k desc base :
  talking k 44 1 -> table_state k0 k -> table_done k desc base ->
  wp (start_paging fuel k) (fun '(ok, k') => talking k' 0 0 /\
    if ok then kernel_running m0 sys k'
    else cr k' = cr k0 /\ out_of_frames k' /\ too_few sys).
Proof using K I0 Hsys Hfb Hmem Hok.
  intros T S D. pose proof (ta_fb _ _ _ T) as Hf. pose proof D as (_ & _ & _ & _ & _ & _ & Hav).
  assert (Hok1 : paging_ok fuel k).
  { apply (paging_ok_layout fuel _ k Hok (gs_inv _ _ S)); cbn; [rewrite Hsys; apply S | by rewrite Hfb]. }
  assert (HT : forall k2, kernel_step k k2 -> talking k2 44 1).
  { intros k2 KS. apply (talking_step k k2 _ _ T (ks_screen _ _ KS) (ks_fb _ _ KS)).
    eapply mem_upd_mono; [exact (ks_upd _ _ KS)|]. intros x [Hx|(a & Ha & Hx)]; [left; by apply (gs_priv _ _ S)|].
    apply (avail_kernel_area a); [by apply Hav | done]. }
  unfold start_paging. wp_step. eapply wp_mono; [by apply (wp_init_paging fuel k)|].
  intros [r k2] [(-> & root & k3 & KT & ->)|(-> & KS & Hno & Hfew)].
  - set (k4 := with_cr _ _).
    assert (T4 : talking k4 44 1) by (apply (talking_step k3); [by apply HT, (kt_step _ _ _ _ KT) | done..]).
    cbn [Z.eqb negb]. wp_step.
    eapply wp_mono; [eapply (wp_kprintf_line k4 Pml4At [_] _ 0 0 T4); [done | reflexivity | done..]|].
    intros k5 (T5 & s & -> & U). wp_ret. split; [done|]. by apply (running_print k k3 s root desc base).
  - pose proof (HT _ KS) as T2.
    cbn [Z.eqb negb]. wp_step.
    eapply wp_mono; [eapply (wp_kprintf_line k2 NoTables [] _ 0 0 T2); [done | reflexivity | done..]|].
    intros k5 (T5 & s & -> & U). wp_ret. split; [done|]. split; [cbn; by rewrite (ks_cr _ _ KS), (gs_cr _ _ S)|].
    split; [|by apply (too_few_left k desc base)]. apply out_of_frames_print; [apply KS | | done | done]. intros x. rewrite (ks_priv _ _ KS). apply S.
Qed.
End output.
End areas.

(** Writes elsewhere, and fewer of them, leave the console as it is. *)
Lemma console_on_keep `{Image} package ty P m m' f W W' fuel :
  console_on package ty m f W fuel -> mem_upd P m m' ->
  (forall a, constant_area package ty f a -> ~ P a) -> (forall a, W' a -> W a) ->
  console_on package ty m' f W' fuel.
Proof.
  intros K U HP HW. split; try apply K.
  - eapply same_font_trans; [apply K|]. apply (same_font_upd _ _ _ _ _ U). intros a Ha. apply HP. by left.
  - apply (mem_upd_backed _ _ _ _ _ U), K.
  - intros msg. apply (laid_out_keep _ _ _ _ _ _ _ _ _ _ _ _ (ck_laid _ _ _ _ _ _ K msg) U).
    intros a Ha. apply HP. right. by exists msg.
  - intros a Ha. destruct (ck_constant _ _ _ _ _ _ K a Ha) as [N1 N2]. split; [done|]. by intros Hw%HW.
  - intros a Ha Hw%HW. by apply (ck_apart _ _ _ _ _ _ K a Ha).
Qed.

(** ** kernel_start *)

(** How the kernel ends. *)
Definition kernel_started (k : machine) (sys : colonel_t) (b : boot) (k' : machine) : Prop :=
  match b with
  | GdtFailed => out_of_frames k' /\ too_few sys
  | PagingFailed => cr k' = cr k /\ out_of_frames k' /\ too_few sys
  | Running => kernel_running (memory k) sys k'
  end.

Lemma wp_kernel_start `{Image} package ty fuel k sys :
  paging_ok fuel (with_system k sys) ->
  console_ok package ty (memory k) (physical_memory sys) (fb sys) fuel ->
  wp (kernel_start fuel k sys) (fun '(b, k') => kernel_started k sys b k' /\
    mem_upd (fun a => kernel_area (memory k) (physical_memory sys) a \/ console_area (fb sys) a)
      (memory k) (memory k')).
Proof.
  intros Hok K. pose proof (pk_inv _ _ Hok) as I0. cbn in I0. set (m0 := memory k) in *. set (pm0 := physical_memory sys) in *.
  unfold kernel_start. set (k1 := with_system k sys). wp_step.
  eapply wp_mono; [by apply (wp_start_messages package ty m0 pm0 (fb sys) fuel K k1)|].
  intros k2 (T2 & s2 & -> & U2). wp_step.
  eapply wp_mono; [by apply (wp_start_gdt package ty m0 pm0 (fb sys) fuel K I0)|].
  intros [[] k3] (T3 & S3 & D3); cbn [negb].
  - destruct D3 as (desc & base & D3). assert (S : table_state pm0 k k3) by (by destruct S3). wp_step.
    eapply wp_mono; [by apply (wp_start_paging package ty m0 pm0 (fb sys) fuel K I0 k sys eq_refl eq_refl eq_refl Hok k3 desc base)|].
    intros [[] k4] [T4 Hk4]; wp_ret; (split; [done | apply T4]).
  - wp_ret. split; [|apply T3]. destruct D3 as [Hno Hfew]. split; [exact Hno|].
    unfold too_few. fold pm0. pose proof (tables_needed_nonneg (kernel_ranges pm0 (fb sys))).
    unfold kernel_tables_needed. lia.
Qed.
