(* ===== verification/Firmware.v ===== *)
(** The UEFI firmware as the loader sees it: the calls of efi-stage, a world of
    memory and a log of calls, and a monad of loader code over it.

    The firmware itself is a parameter: any function that answers a call, given the
    log and memory so far, with a reply and a new memory.  What the UEFI
    specification promises of its replies is stated in [sound]. *)
From stdpp Require Import base list gmultiset.
From Stdlib Require Import ZArith Lia.
From S2P Require Import Prelude Memory.
Local Open Scope Z_scope.

(** ** Status codes: errors have the top bit set *)
Definition EFI_SUCCESS : Z := 0.
Definition EFIERR (n : Z) : Z := 2 ^ 63 + n.
Definition EFI_INVALID_PARAMETER : Z := EFIERR 2.
Definition EFI_BUFFER_TOO_SMALL : Z := EFIERR 5.
Definition EFI_OUT_OF_RESOURCES : Z := EFIERR 9.
Definition EFI_NOT_FOUND : Z := EFIERR 14.
Definition EFI_UNSUPPORTED : Z := EFIERR 3.
Definition EFI_NOT_STARTED : Z := EFIERR 19.
Definition EFI_END_OF_FILE : Z := EFIERR 31.
Definition EFI_ERROR (status : Z) : bool := 2 ^ 63 <=? status.

(** ** Calls and replies *)
Inductive call : Type :=
  | ClearScreen
  | SetWatchdogTimer
  | Print
  | LocateHandleBuffer
  | HandleProtocol (handle : Z)
  | OpenVolume (fs : Z)
  | Open (root : Z) (filename : list Z)
  | GetInfo (file : Z)
  | Read (file size data : Z)
  | Close (file : Z)
  | AllocatePool (size : Z)
  | FreePool (handle : Z)
  | GetMemoryMap (size buffer : Z)
  | ExitBootServices (key : Z)
  | LocateProtocol
  | QueryMode (gop mode : Z)
  | SetMode (gop mode : Z).

(** A status and what the call passes back: the handles and their buffer, an
    interface or handle, a length, or the size, key and descriptor size of the map. *)
Definition reply (c : call) : Type :=
  match c with
  | LocateHandleBuffer => Z * (list Z * Z)
  | HandleProtocol _ | OpenVolume _ | Open _ _ | GetInfo _ | Read _ _ _ | AllocatePool _
  | LocateProtocol | QueryMode _ _ => Z * Z
  | GetMemoryMap _ _ => Z * (Z * Z * Z)
  | _ => Z
  end.

Definition event : Type := { c : call & reply c }.

(** The answer to a call, from the log (latest first) and memory. *)
Definition firmware : Type := list event -> mem -> forall c, reply c * mem.

(** ** Loader code *)
Record world := { w_mem : mem; w_log : list event }.

Definition io (A : Type) : Type := world -> res (A * world).

#[export] Instance io_ret : MRet io := fun A a w => Ok (a, w).
#[export] Instance io_bind : MBind io := fun A B f c w =>
  match c w with
  | Ok (a, w) => f a w
  | Fault => Fault
  | OutOfFuel => OutOfFuel
  end.

(** Code that touches memory only. *)
Definition on_mem {A} (f : mem -> res (A * mem)) : io A := fun w =>
  '(a, m) ← f (w_mem w); Ok (a, {| w_mem := m; w_log := w_log w |}).

(** Looking at memory. *)
Definition look {A} (f : mem -> A) : io A := fun w => Ok (f (w_mem w), w).

Definition out_of_fuel {A} : io A := fun w => OutOfFuel.
Definition fault {A} : io A := fun w => Fault.

(** for(;;) body, at most [fuel] times; the body leaves it with [inr]. *)
Fixpoint forever {S R} (fuel : nat) (body : S -> io (S + R)) (s : S) : io R :=
  match fuel with
  | O => out_of_fuel
  | Datatypes.S fuel =>
      c ← body s;
      match c with
      | inl s => forever fuel body s
      | inr r => mret r
      end
  end.

Section firmware.
Context (fw : firmware).

(** Calling the firmware. *)
Definition do (c : call) : io (reply c) := fun w =>
  let '(r, m) := fw (w_log w) (w_mem w) c in
  Ok (r, {| w_mem := m; w_log := existT c r :: w_log w |}).
End firmware.

(** ** Reasoning about loader code *)
Definition iwp {A} (c : io A) (w : world) (Q : A -> world -> Prop) : Prop :=
  wp (c w) (fun '(a, w') => Q a w').

Section rules.
Context {A B : Type}.
Implicit Types (Q : A -> world -> Prop).

Lemma iwp_ret (a : A) w Q : Q a w -> iwp (mret a) w Q.
Proof. done. Qed.

Lemma iwp_bind (c : io A) (f : A -> io B) w (Q : B -> world -> Prop) :
  iwp c w (fun a w' => iwp (f a) w' Q) -> iwp (c ≫= f) w Q.
Proof. unfold iwp, mbind, io_bind. by destruct (c w) as [[a w']| |]. Qed.

Lemma iwp_mono (c : io A) w Q Q' :
  iwp c w Q -> (forall a w', Q a w' -> Q' a w') -> iwp c w Q'.
Proof. intros H HQ. eapply wp_mono; [exact H|]. intros [a w']. apply HQ. Qed.

Lemma iwp_look (f : mem -> A) w Q : Q (f (w_mem w)) w -> iwp (look f) w Q.
Proof. done. Qed.

Lemma iwp_on_mem (f : mem -> res (A * mem)) w Q :
  wp (f (w_mem w)) (fun '(a, m) => Q a {| w_mem := m; w_log := w_log w |}) -> iwp (on_mem f) w Q.
Proof. unfold iwp, on_mem. intros H. cbv beta. wp_step. eapply wp_mono; [exact H|]. by intros [a m]. Qed.
End rules.

(** Total correctness but for faults that [P] accounts for. *)
Definition iwp_unless {A} (P : Prop) (c : io A) (w : world) (Q : A -> world -> Prop) : Prop :=
  match c w with
  | Ok (a, w') => Q a w'
  | Fault => P
  | OutOfFuel => False
  end.

Lemma iwp_unless_of {A} P (c : io A) w Q : iwp c w Q -> iwp_unless P c w Q.
Proof. unfold iwp, iwp_unless. by destruct (c w) as [[a w']| |]. Qed.

Lemma iwp_unless_bind' {A B} P (c : io A) (f : A -> io B) w (Q : B -> world -> Prop) :
  iwp_unless P c w (fun a w' => iwp_unless P (f a) w' Q) -> iwp_unless P (c ≫= f) w Q.
Proof. unfold iwp_unless, mbind, io_bind. by destruct (c w) as [[a w']| |]. Qed.

Lemma iwp_unless_bind {A B} P (c : io A) (f : A -> io B) w (Q : B -> world -> Prop) :
  iwp c w (fun a w' => iwp_unless P (f a) w' Q) -> iwp_unless P (c ≫= f) w Q.
Proof. intros H. by apply iwp_unless_bind', iwp_unless_of. Qed.

(** As above, remembering how the first part ended. *)
Lemma iwp_unless_bind_eq {A B} P (c : io A) (f : A -> io B) w R (Q : B -> world -> Prop) :
  iwp c w R -> (forall a w', c w = Ok (a, w') -> R a w' -> iwp_unless P (f a) w' Q) -> iwp_unless P (c ≫= f) w Q.
Proof.
  unfold iwp, iwp_unless, mbind, io_bind. destruct (c w) as [[a w']| |]; [|done..]. intros HR Hf. by apply Hf.
Qed.

(** Two computations that begin alike. *)
Lemma io_bind_step {A B C} (c : io A) (f : A -> io B) (g : A -> io C) (h : C -> io B) w :
  (forall a w1, f a w1 = (g a ≫= h) w1) -> (c ≫= f) w = ((c ≫= g) ≫= h) w.
Proof. intros Hf. unfold mbind, io_bind in *. destruct (c w) as [[a w1]| |]; cbn; [apply Hf | done..]. Qed.

(** What a call returns and does to the log. *)
Lemma iwp_do fw c w (Q : reply c -> world -> Prop) :
  (let r := (fw (w_log w) (w_mem w) c).1 in
   Q r {| w_mem := (fw (w_log w) (w_mem w) c).2; w_log := existT c r :: w_log w |}) ->
  iwp (do fw c) w Q.
Proof. unfold iwp, do. by destruct (fw (w_log w) (w_mem w) c) as [r m]. Qed.

(** A loop whose measure decreases ends. *)
Lemma iwp_forever {S R} (I : S -> world -> Prop) (measure : S -> world -> Z) (body : S -> io (S + R))
    (Q : R -> world -> Prop) fuel : forall s w,
  measure s w < Z.of_nat fuel -> I s w ->
  (forall s w, I s w -> 0 <= measure s w /\ iwp (body s) w (fun c w' =>
     match c with
     | inl s' => I s' w' /\ measure s' w' < measure s w
     | inr r => Q r w'
     end)) ->
  iwp (forever fuel body s) w Q.
Proof.
  induction fuel as [|fuel IH]; intros s w Hm HI Hstep.
  { destruct (Hstep s w HI) as [H0 _]. lia. }
  destruct (Hstep s w HI) as [H0 Hb]. cbn [forever]. apply iwp_bind. eapply iwp_mono; [exact Hb|].
  intros [s'|r] w'; [|done]. intros [HI' Hlt]. apply IH; [lia | done | done].
Qed.

(** ** What the loader holds

    Pool buffers and open files after a log of calls, as multisets: a buffer that
    is allocated twice must be freed twice. *)
Definition ok (status : Z) : bool := negb (EFI_ERROR status).

Definition pool_step (e : event) (X : gmultiset Z) : gmultiset Z :=
  match e with
  | existT LocateHandleBuffer (status, (_, p)) => if ok status then {[+ p +]} ⊎ X else X
  | existT (AllocatePool _) (status, p) => if ok status then {[+ p +]} ⊎ X else X
  | existT (FreePool p) _ => X ∖ {[+ p +]}
  | _ => X
  end.

Definition file_step (e : event) (X : gmultiset Z) : gmultiset Z :=
  match e with
  | existT (OpenVolume _) (status, f) => if ok status then {[+ f +]} ⊎ X else X
  | existT (Open _ _) (status, f) => if ok status then {[+ f +]} ⊎ X else X
  | existT (Close f) _ => X ∖ {[+ f +]}
  | _ => X
  end.

Definition pools (log : list event) : gmultiset Z := foldr pool_step ∅ log.
Definition files (log : list event) : gmultiset Z := foldr file_step ∅ log.

(** The pool buffers in use with their sizes. *)
Definition live_step (e : event) (L : list (Z * Z)) : list (Z * Z) :=
  match e with
  | existT (AllocatePool n) (status, p) => if ok status then (p, n) :: L else L
  | existT (FreePool p) _ => filter (fun b => b.1 <> p) L
  | _ => L
  end.

Definition live (log : list event) : list (Z * Z) := foldr live_step [] log.

(** The name under which a handle was opened last. *)
Fixpoint opened_as (log : list event) (file : Z) : option (list Z) :=
  match log with
  | [] => None
  | existT (Open _ name) (status, f) :: log =>
      if ok status && (f =? file) then Some name else opened_as log file
  | existT (OpenVolume _) (status, f) :: log =>
      if ok status && (f =? file) then None else opened_as log file
  | _ :: log => opened_as log file
  end.

(** The buffers into which as much was read of the file [name] as was asked for. *)
Fixpoint file_reads (name : list Z) (log : list event) : list (Z * Z) :=
  match log with
  | [] => []
  | existT (Read file n p) (status, k) :: log =>
      if ok status && (k =? n) && bool_decide (opened_as log file = Some name)
      then (p, n) :: file_reads name log else file_reads name log
  | _ :: log => file_reads name log
  end.

Lemma file_reads_suffix name log log' :
  log `suffix_of` log' -> forall b, b ∈ file_reads name log -> b ∈ file_reads name log'.
Proof.
  intros [l ->] b Hb. induction l as [|[c r] l IH]; [done|]. cbn.
  destruct c; try exact IH. destruct r as [status k]. destruct (_ && _); [|exact IH].
  by apply list_elem_of_further.
Qed.

(** Nothing is released that is not held. *)
Definition release_ok (e : event) (log : list event) : Prop :=
  match e with
  | existT (FreePool p) _ => p ∈ pools log
  | existT (Close f) _ => f ∈ files log
  | _ => True
  end.

Fixpoint releases_ok (log : list event) : Prop :=
  match log with
  | [] => True
  | e :: log => release_ok e log /\ releases_ok log
  end.

(** ** What UEFI promises of the replies

    An interface, handle or buffer that is returned without an error is not NULL; a
    buffer lies in the address space and is not one that is in use; services return no warnings where none is
    documented; lengths are 64-bit numbers.  The memory map takes at most [cap] bytes;
    it is not empty, a whole number of descriptors, and fits the buffer on success; if
    it does not fit, the size it needs is reported. *)
Definition sound_map (cap size : Z) (r : Z * (Z * Z * Z)) : Prop :=
  let '(status, (n, _, d)) := r in
  0 <= n /\ 0 < d /\ n + 2 * d < 2 ^ 64 /\
  (status = EFI_SUCCESS -> 0 < n <= size /\ n <= cap /\ n mod d = 0) /\
  (status = EFI_BUFFER_TOO_SMALL -> size < n <= cap).

Definition sound_reply (cap : Z) (log : list event) (c : call) : reply c -> Prop :=
  match c with
  | LocateHandleBuffer => fun '(status, (_, p)) => ok status = true -> p <> NULL /\ p ∉ pools log
  | OpenVolume _ | Open _ _ => fun '(status, f) => ok status = true -> f <> NULL
  | GetInfo _ | Read _ _ _ => fun '(status, n) => 0 <= n < 2 ^ 64
  | AllocatePool size => fun '(status, p) =>
      ok status = true -> status = EFI_SUCCESS /\ 0 < p /\ p + size < 2 ^ 64 /\ p ∉ pools log
  | GetMemoryMap size _ => sound_map cap size
  | _ => fun _ => True
  end.

Definition sound (fw : firmware) (cap : Z) : Prop :=
  forall log m c, sound_reply cap log c (fw log m c).1.
