(* ===== verification/Loader.v ===== *)
(** The loader: efi-stage/efi_malloc.c, efi_fs.c, efi_mmap.c and reserve_pmm of
    efi_pmm.c, as code over the firmware. *)
From stdpp Require Import base list.
From Stdlib Require Import ZArith Lia.
From S2P Require Import Prelude Memory Physical Firmware EfiPmm Paging Gdt Ssfn Console Kernel.
Local Open Scope Z_scope.

Section loader.
Context (fw : firmware).
Notation do := (Firmware.do fw).

(** ** efi_malloc.c *)
Definition efi_malloc (poolSize : Z) : io Z :=
  '(status, handle) ← do (AllocatePool poolSize);
  if status =? EFI_OUT_OF_RESOURCES then _ ← do Print; mret NULL
  else if status =? EFI_INVALID_PARAMETER then _ ← do Print; mret NULL
  else if EFI_ERROR status then _ ← do Print; mret NULL
  else mret handle.

Definition efi_free (handle : Z) : io unit :=
  status ← do (FreePool handle); mret tt.

(** ** efi_fs.c *)

(** The loop over the volumes: the result, the root and the file. *)
Fixpoint fread_scan (filename : list Z) (handles : list Z) (result : Z) : io (Z * Z * Z) :=
  match handles with
  | [] => mret (result, NULL, NULL)
  | handle :: handles =>
      '(status, fs) ← do (HandleProtocol handle);
      if EFI_ERROR status then fread_scan filename handles result else
      '(status, root) ← do (OpenVolume fs);
      if EFI_ERROR status then fread_scan filename handles result else
      '(result, file) ← do (Open root filename);
      if negb (EFI_ERROR result) then mret (result, root, file) else
      _ ← do (Close root);
      fread_scan filename handles result
  end.

(** From GetInfo to the label close: the result, and *buffer and *length if they were set. *)
Definition fread_file (file : Z) : io (Z * option (Z * Z)) :=
  '(result, size) ← do (GetInfo file);
  if EFI_ERROR result then mret (result, None) else
  data ← efi_malloc size;
  if data =? NULL then mret (EFI_OUT_OF_RESOURCES, None) else
  '(result, read) ← do (Read file size data);
  let result := if negb (EFI_ERROR result) && negb (read =? size) then EFI_END_OF_FILE else result in
  if EFI_ERROR result then
    _ ← efi_free data;
    mret (result, None)
  else mret (result, Some (data, size)).

Definition efi_fread (filename : list Z) : io (Z * option (Z * Z)) :=
  '(result, (handles, p)) ← do LocateHandleBuffer;
  if EFI_ERROR result then mret (result, None) else
  '(result, root, file) ← fread_scan filename handles EFI_NOT_FOUND;
  _ ← do (FreePool p);
  if file =? NULL then mret (if EFI_ERROR result then result else EFI_NOT_FOUND, None) else
  '(result, out) ← fread_file file;
  _ ← do (Close file);
  _ ← do (Close root);
  mret (result, out).

(** ** efi_mmap.c *)
Definition set_map_reply (mmap : efi_mmap_t) (r : Z * Z * Z) : efi_mmap_t :=
  let '(n, k, d) := r in
  {| start := start mmap; end_ := end_ mmap; size := n; key := k; descriptorSize := d |}.

Definition set_size (mmap : efi_mmap_t) (n : Z) : efi_mmap_t :=
  {| start := start mmap; end_ := end_ mmap; size := n; key := key mmap;
     descriptorSize := descriptorSize mmap |}.

Definition set_range (mmap : efi_mmap_t) (s e : Z) : efi_mmap_t :=
  {| start := s; end_ := e; size := size mmap; key := key mmap;
     descriptorSize := descriptorSize mmap |}.

(** if(memoryMap != NULL) FreePool(memoryMap) *)
Definition free_map (memoryMap : Z) : io unit :=
  if negb (memoryMap =? NULL) then _ ← do (FreePool memoryMap); mret tt else mret tt.

(** One turn of the loop: it leaves with the result, the map and the buffer. *)
Definition map_step (st : efi_mmap_t * Z) : io (efi_mmap_t * Z + Z * efi_mmap_t * Z) :=
  let '(mmap, memoryMap) := st in
  '(result, r) ← do (GetMemoryMap (size mmap) memoryMap);
  let mmap := set_map_reply mmap r in
  if result =? EFI_SUCCESS then mret (inr (result, mmap, memoryMap)) else
  if negb (result =? EFI_BUFFER_TOO_SMALL) then mret (inr (result, mmap, memoryMap)) else
  _ ← free_map memoryMap;
  let mmap := set_size mmap (u64 (size mmap + u64 (2 * descriptorSize mmap))) in
  '(result, p) ← do (AllocatePool (size mmap));
  if negb (result =? EFI_SUCCESS) then mret (inr (result, mmap, NULL))
  else mret (inl (mmap, p)).

Definition getEFIMemoryMap (fuel : nat) (mmap : efi_mmap_t) : io (Z * efi_mmap_t) :=
  '(result, mmap, memoryMap) ← forever fuel map_step (mmap, NULL);
  if negb (result =? EFI_SUCCESS) then
    _ ← free_map memoryMap;
    mret (result, set_range mmap 0 0)
  else mret (result, set_range mmap memoryMap (u64 (memoryMap + size mmap))).

Definition zero_mmap : efi_mmap_t :=
  {| start := 0; end_ := 0; size := 0; key := 0; descriptorSize := 0 |}.

Section descriptors.
(** *(EFI_MEMORY_DESCRIPTOR * )offset *)
Context (desc_at : mem -> Z -> efi_descriptor).

Definition page_count_step (mmap : efi_mmap_t) (type : efi_memory_type) (st : Z * Z)
  : io (Z * Z + Z) :=
  let '(offset, totalPages) := st in
  if negb (offset <? end_ mmap) then mret (inr totalPages) else
  desc ← look (fun m => desc_at m offset);
  if negb (bool_decide (Type_ desc = type))
  then mret (inl (u64 (offset + descriptorSize mmap), totalPages)) else
  _ ← do Print;
  mret (inl (u64 (offset + descriptorSize mmap), u32 (totalPages + NumberOfPages desc))).

Definition getPageCountByType (fuel : nat) (mmap : efi_mmap_t) (type : efi_memory_type) : io Z :=
  forever fuel (page_count_step mmap type) (start mmap, 0).

(** ** reserve_pmm of efi_pmm.c *)
Definition count_descriptors (fuel : nat) (mmap : efi_mmap_t) (m : mem) : res (Z * Z) :=
  after
    (while_fuel fuel (fun '(_, offset) => Ok (offset <? end_ mmap))
       (fun '(counts, offset) =>
          Ok (inl (count_step counts (desc_at m offset), u64 (offset + descriptorSize mmap))))
       ((0, 0), start mmap))
    (fun '(counts, _) => Ok counts).

Definition sizeof_pmm : Z := 16.

(** The bytes before the bitmap, and all of them. *)
Definition bitmap_offset (block_capacity : Z) : Z :=
  sizeof_pmm + block_capacity * 8 + block_capacity * sizeof_pm_block.
Definition pmm_bytes (block_capacity bitmap_words : Z) : Z :=
  u64 (bitmap_offset block_capacity + bitmap_words * 8).

(** A slot's block is uninitialised: [junk].  The pointers to the slots are left out. *)
Definition reserve_pmm (fuel : nat) (junk : pm_block) : io (Z * option pmm_storage) :=
  '(result, mmap) ← getEFIMemoryMap fuel zero_mmap;
  if negb (result =? EFI_SUCCESS) then
    _ ← do Print;
    mret (result, None)
  else
  '(block_count, ram_frames) ← on_mem (fun m => c ← count_descriptors fuel mmap m; Ok (c, m));
  _ ← efi_free (start mmap);
  let '(block_capacity, bitmap_words) := reserve_sizes block_count ram_frames in
  p ← efi_malloc (pmm_bytes block_capacity bitmap_words);
  if p =? NULL then
    _ ← do Print;
    mret (EFI_OUT_OF_RESOURCES, None)
  else
  mret (EFI_SUCCESS, Some
    {| EfiPmm.physical_memory := {| blocks := replicate (Z.to_nat block_capacity) junk; block_count := 0 |};
       block_capacity := block_capacity;
       bitmap := u64 (p + bitmap_offset block_capacity);
       bitmap_words := bitmap_words |}).
End descriptors.
End loader.
