(* ===== verification/LoaderMain.v ===== *)
(** The loader's entry point: efi-stage/main.c and efi_video.c. *)
From stdpp Require Import base list strings.
From Stdlib Require Import ZArith Lia.
From S2P Require Import Prelude Memory Physical Firmware EfiPmm Paging Gdt Ssfn Console Kernel Loader.
Local Open Scope Z_scope.

(** ** What the firmware's own structures hold

    The repository defines neither their layout nor CompareGuid. *)
Record gop_info := {
  HorizontalResolution : Z;
  VerticalResolution : Z;
  PixelsPerScanLine : Z;
  FrameBufferBase : Z
}.

Class Platform := {
  guid : Type;
  ACPI2 : guid;
  CompareGuid : guid -> guid -> Z;
  (** SystemTable->ConfigurationTable: the vendor and the table of each entry *)
  ConfigurationTable : list (guid * Z);
  (** *(EFI_MEMORY_DESCRIPTOR * )offset and gop->Mode, gop->Mode->MaxMode *)
  desc_at : mem -> Z -> efi_descriptor;
  gop_mode : mem -> Z -> gop_info;
  gop_max_mode : mem -> Z -> Z;
  (** the processor when the loader starts *)
  boot_cr : control_registers;
  boot_seg : segments;
  (** uninitialised memory: the kernel's global and a system structure, a block *)
  junk_system : colonel_t;
  junk_block : pm_block;
  junk_font : Z * Z
}.

(** How efi_main ends: it halts with or without a message, or calls the kernel. *)
Inductive outcome :=
  | Hang
  | Halt
  | Started (b : boot) (k : machine).

(** How the loop around ExitBootServices ends. *)
Inductive exited :=
  | ExitHang
  | ExitHalt
  | Exited (mmap : efi_mmap_t).

Section main.
Context (fw : firmware) `{Platform, Image}.
Notation do := (Firmware.do fw).

(** ** efi_video.c *)
Definition get_gop : io Z :=
  '(status, gop) ← do LocateProtocol;
  if EFI_ERROR status then _ ← do Print; mret NULL else mret gop.

(** One turn of the loop of get_graphics_info; the comparison with the current mode at
    its end has no effect. *)
Definition graphics_step (gop : Z) (st : Z * Z) : io (Z * Z + Z) :=
  let '(i, info) := st in
  max_mode ← look (fun m => gop_max_mode m gop);
  if negb (i <? max_mode) then mret (inr info) else
  '(result, p) ← do (QueryMode gop i);
  let info := if EFI_ERROR result then info else p in
  '(result, info) ← (if EFI_ERROR result && (result =? EFI_NOT_STARTED) then
      _ ← do (SetMode gop 9);
      '(result, p) ← do (QueryMode gop i);
      mret (result, if EFI_ERROR result then info else p)
    else mret (result, info));
  _ ← (if EFI_ERROR result then do Print else mret 0);
  mret (inl (u64 (i + 1), info)).

(** [junk] is the variable info, which is not initialised. *)
Definition get_graphics_info (fuel : nat) (junk : Z) : io Z :=
  gop ← get_gop;
  if gop =? NULL then fault else
  forever fuel (graphics_step gop) (0, junk).

(** The font fields are not set. *)
Definition framebuffer_init (margin : Z) : io framebuffer_t :=
  gop ← get_gop;
  if gop =? NULL then fault else
  info ← look (fun m => gop_mode m gop);
  mret {| width := HorizontalResolution info; height := VerticalResolution info;
          pixels_per_scanline := PixelsPerScanLine info; margin := margin;
          buffer := FrameBufferBase info; font := junk_font.1; font_size := junk_font.2 |}.

(** ** main.c *)

(** The lines of display_error. *)
Definition error_name (result : Z) : option string :=
  if result =? EFI_SUCCESS then Some "EFI_SUCCESS"
  else if result =? EFI_INVALID_PARAMETER then Some "EFI_INVALID_PARAMETER"
  else if result =? EFI_UNSUPPORTED then Some "EFI_UNSUPPORTED"
  else if result =? EFI_BUFFER_TOO_SMALL then Some "EFI_BUFFER_TOO_SMALL"
  else None.

(** An unknown result is printed as a number. *)
Definition display_error (result : Z) : io (option string) :=
  let name := error_name result in
  _ ← do Print; mret name.

Definition get_rsdp2 (fuel : nat) : res Z :=
  after
    (while_fuel fuel (fun counter => Ok (counter <? Z.of_nat (length ConfigurationTable)))
       (fun counter =>
          '(vendor, table) ← of_option (ConfigurationTable !! Z.to_nat counter);
          if CompareGuid ACPI2 vendor =? 0 then Ok (inl (u16 (counter + 1)))
          else Ok (inr table)) 0)
    (fun _ => Ok NULL).

(** The files the loader reads: \EFI\boot\unifont.sfn and \EFI\boot\libkernel.so. *)
Definition font_name : list Z :=
  [92; 69; 70; 73; 92; 98; 111; 111; 116; 92; 117; 110; 105; 102; 111; 110; 116; 46; 115; 102; 110].
Definition kernel_name : list Z :=
  [92; 69; 70; 73; 92; 98; 111; 111; 116; 92; 108; 105; 98; 107; 101; 114; 110; 101; 108; 46; 115; 111].

Definition sizeof_colonel_t : Z := 128.

(** One turn of the loop that leaves Boot Services. *)
Definition exit_step (map_capacity map_buffer : Z) (_ : unit) : io (unit + exited) :=
  '(result, r) ← do (GetMemoryMap map_capacity map_buffer);
  let mmap := set_map_reply zero_mmap r in
  if negb (result =? EFI_SUCCESS) then
    _ ← do Print;
    mret (inr ExitHang)
  else
  result ← do (ExitBootServices (key mmap));
  if result =? EFI_SUCCESS then
    mret (inr (Exited (set_range mmap map_buffer (u64 (map_buffer + size mmap)))))
  else if negb (result =? EFI_INVALID_PARAMETER) then mret (inr ExitHalt)
  else mret (inl tt).

(** The final memory map and the end of Boot Services. *)
Definition exit_boot_services (fuel : nat) : io exited :=
  '(_, (n, _, d)) ← do (GetMemoryMap 0 NULL);
  let map_capacity := u64 (n + u64 (8 * d)) in
  map_buffer ← efi_malloc fw map_capacity;
  if map_buffer =? NULL then mret ExitHang else
  forever fuel (exit_step map_capacity map_buffer) tt.

(** goto hang *)
Definition hang : io outcome := _ ← do Print; mret Hang.

(** Reading a variable that a call was to set. *)
Definition set_by {A} (o : option A) : io A :=
  match o with
  | Some a => mret a
  | None => fault
  end.

(** After Boot Services: build the memory manager and start the kernel. *)
Definition start_kernel (fuel : nat) (storage : pmm_storage) (mmap : efi_mmap_t)
    (rsdp : Z) (fb : framebuffer_t) : io outcome :=
  physical_memory ← on_mem (fun m =>
    '(m, pm) ← build_pmm desc_at fuel m storage mmap; Ok (pm, m));
  let system :=
    {| Kernel.physical_memory := physical_memory; pml4 := pml4 junk_system;
       heap := heap junk_system; heap_size := heap_size junk_system; gdt := gdt junk_system;
       rsdp2 := rsdp; cpus := cpus junk_system; fb := fb; mmap_key := key mmap |} in
  '(b, k) ← on_mem (fun m =>
    '(b, k) ← kernel_start fuel
      {| memory := m; cr := boot_cr; seg := boot_seg; system := junk_system; screen := ssfn_zero |} system;
    Ok ((b, k), memory k));
  mret (Started b k).

Definition set_font (f : framebuffer_t) (font font_size : Z) : framebuffer_t :=
  {| width := width f; height := height f; pixels_per_scanline := pixels_per_scanline f;
     margin := margin f; buffer := buffer f; font := font; font_size := font_size |}.

(** From the allocation of the system structure on, with the font that was read. *)
Definition main_rest (fuel : nat) (font : option (Z * Z)) : io outcome :=
  system ← efi_malloc fw sizeof_colonel_t;
  if system =? NULL then hang else
  rsdp ← on_mem (fun m => r ← get_rsdp2 fuel; Ok (r, m));
  if rsdp =? NULL then _ ← do Print; hang else
  fb ← framebuffer_init 10;
  '(font_file, font_size) ← set_by font;
  let fb := set_font fb font_file font_size in
  '(result, storage) ← reserve_pmm fw desc_at fuel junk_block;
  if negb (result =? EFI_SUCCESS) then _ ← do Print; hang else
  pmm_store ← set_by storage;
  e ← exit_boot_services fuel;
  match e with
  | ExitHang => hang
  | ExitHalt => mret Halt
  | Exited mmap => start_kernel fuel pmm_store mmap rsdp fb
  end.

Definition efi_main (fuel : nat) : io outcome :=
  _ ← do ClearScreen;
  _ ← do SetWatchdogTimer;
  '(result, font) ← efi_fread fw font_name;
  if negb (result =? EFI_SUCCESS) then _ ← do Print; hang else
  '(result, kernel) ← efi_fread fw kernel_name;
  if negb (result =? EFI_SUCCESS) then _ ← do Print; hang else
  main_rest fuel font.
End main.
