(* ===== verification/LoaderSpec.v ===== *)
(** What the loader holds and releases, and how it leaves Boot Services. *)
From stdpp Require Import list gmultiset.
From Stdlib Require Import ZArith Lia.
From S2P Require Import Prelude Memory Physical EfiPmm Firmware Loader LoaderMain.
Local Open Scope Z_scope.

(** From [w] to [w'] the pool buffers [P] and the open files [F] were added, the buffers
    not among those held before, which stay in use; nothing was released that was not
    held. *)
Record grows (P F : gmultiset Z) (w w' : world) : Prop := {
  gr_pools : pools (w_log w') = P ⊎ pools (w_log w);
  gr_files : files (w_log w') = F ⊎ files (w_log w);
  gr_fresh p : p ∈ P -> p ∉ pools (w_log w);
  gr_live q n : q ∈ pools (w_log w) -> (q, n) ∈ live (w_log w) -> (q, n) ∈ live (w_log w');
  gr_releases : releases_ok (w_log w) -> releases_ok (w_log w');
  gr_log : w_log w `suffix_of` w_log w'
}.

Lemma grows_refl w : grows ∅ ∅ w w.
Proof. split; [multiset_solver.. | done | done | done]. Qed.

Lemma grows_trans P F P' F' w1 w2 w3 :
  grows P F w1 w2 -> grows P' F' w2 w3 -> grows (P' ⊎ P) (F' ⊎ F) w1 w3.
Proof.
  intros [p1 f1 n1 v1 r1 l1] [p2 f2 n2 v2 r2 l2]. split; [rewrite p2, p1; multiset_solver |
    rewrite f2, f1; multiset_solver | | | auto | by etrans].
  - intros p [Hp|Hp]%gmultiset_elem_of_disj_union; [|by apply n1]. apply n2 in Hp. rewrite p1 in Hp. multiset_solver.
  - intros q n Hq Hl. apply v2; [rewrite p1; multiset_solver | by apply v1].
Qed.

(** A call, as seen by the log. *)
Definition logged (w : world) (e : event) (m : mem) : world := {| w_mem := m; w_log := e :: w_log w |}.

(** Calls that release nothing. *)
Definition takes (c : call) : bool :=
  match c with
  | FreePool _ | Close _ => false
  | _ => true
  end.

Lemma takes_release c r log : takes c = true -> release_ok (existT c r) log.
Proof. by destruct c. Qed.

Lemma takes_live c r b L : takes c = true -> b ∈ L -> b ∈ live_step (existT c r) L.
Proof. destruct c; try done. intros _ Hb. destruct r as [s p]. cbn. destruct (ok s); [by apply list_elem_of_further | done]. Qed.

(** What such a call adds. *)
Lemma grows_event P F P' F' w w' c r m :
  (forall X, pool_step (existT c r) X = P' ⊎ X) -> (forall X, file_step (existT c r) X = F' ⊎ X) ->
  takes c = true -> (forall p, p ∈ P' -> p ∉ pools (w_log w')) ->
  grows P F w w' -> grows (P' ⊎ P) (F' ⊎ F) w (logged w' (existT c r) m).
Proof.
  intros HP HF HR HN [Hp Hf Hn Hv Hr Hl]. split.
  - change (pools (w_log (logged w' (existT c r) m))) with (pool_step (existT c r) (pools (w_log w'))).
    rewrite HP, Hp. multiset_solver.
  - change (files (w_log (logged w' (existT c r) m))) with (file_step (existT c r) (files (w_log w'))).
    rewrite HF, Hf. multiset_solver.
  - intros p [Hp'|Hp']%gmultiset_elem_of_disj_union; [|by apply Hn]. apply HN in Hp'. rewrite Hp in Hp'. multiset_solver.
  - intros q n Hq Hq'. by apply (takes_live c r), Hv.
  - intros H. split; [by apply takes_release | by apply Hr].
  - by apply suffix_cons_r.
Qed.

Lemma grows_same P F w w' c r m :
  (forall X, pool_step (existT c r) X = X) -> (forall X, file_step (existT c r) X = X) ->
  takes c = true ->
  grows P F w w' -> grows P F w (logged w' (existT c r) m).
Proof.
  intros HP HF HR G. rewrite <- (left_id_L ∅ (⊎) P), <- (left_id_L ∅ (⊎) F).
  apply grows_event; [| |done| |done]; [intros X; rewrite ?HP, ?HF; multiset_solver..|]. multiset_solver.
Qed.

Lemma grows_pool P F w w' p c r m :
  (forall X, pool_step (existT c r) X = {[+ p +]} ⊎ X) -> (forall X, file_step (existT c r) X = X) ->
  takes c = true -> p ∉ pools (w_log w') ->
  grows P F w w' -> grows ({[+ p +]} ⊎ P) F w (logged w' (existT c r) m).
Proof.
  intros HP HF HR HN G. rewrite <- (left_id_L ∅ (⊎) F).
  apply grows_event; [done | |done| |done]; [intros X; rewrite HF; multiset_solver|].
  by intros q ->%gmultiset_elem_of_singleton.
Qed.

Lemma grows_file P F w w' f c r m :
  (forall X, pool_step (existT c r) X = X) -> (forall X, file_step (existT c r) X = {[+ f +]} ⊎ X) ->
  takes c = true ->
  grows P F w w' -> grows P ({[+ f +]} ⊎ F) w (logged w' (existT c r) m).
Proof.
  intros HP HF HR G. rewrite <- (left_id_L ∅ (⊎) P).
  apply grows_event; [| done |done| |done]; [intros X; rewrite HP; multiset_solver | multiset_solver].
Qed.

(** Giving back what was taken. *)
Lemma grows_free P F w w' p r m :
  grows ({[+ p +]} ⊎ P) F w w' -> grows P F w (logged w' (existT (FreePool p) r) m).
Proof.
  intros [Hp Hf Hn Hv Hr Hl].
  split; cbn [logged w_log pools files live foldr pool_step file_step live_step releases_ok release_ok].
  - fold pools. change (foldr pool_step ∅ (w_log w')) with (pools (w_log w')). rewrite Hp. multiset_solver.
  - exact Hf.
  - intros q Hq. apply Hn. multiset_solver.
  - intros q n Hq Hq'. apply list_elem_of_filter. split; [|by apply Hv]. cbn. intros ->.
    apply (Hn p); [multiset_solver | done].
  - intros H. split; [rewrite Hp; multiset_solver | by apply Hr].
  - by apply suffix_cons_r.
Qed.

Lemma grows_close P F w w' f r m :
  grows P ({[+ f +]} ⊎ F) w w' -> grows P F w (logged w' (existT (Close f) r) m).
Proof.
  intros [Hp Hf Hn Hv Hr Hl].
  split; cbn [logged w_log pools files live foldr pool_step file_step live_step releases_ok release_ok].
  - exact Hp.
  - change (foldr file_step ∅ (w_log w')) with (files (w_log w')). rewrite Hf. multiset_solver.
  - done.
  - done.
  - intros H. split; [rewrite Hf; multiset_solver | by apply Hr].
  - by apply suffix_cons_r.
Qed.

Create HintDb grows discriminated.
#[export] Hint Resolve grows_refl : grows.

Section spec.
Context (fw : firmware) (cap : Z) (Hfw : sound fw cap).

Lemma iwp_call c w (Q : reply c -> world -> Prop) :
  (forall r m, sound_reply cap (w_log w) c r -> Q r (logged w (existT c r) m)) -> iwp (Firmware.do fw c) w Q.
Proof using Hfw. intros H. apply iwp_do, H, Hfw. Qed.

(** The next call. *)
Ltac icall :=
  lazymatch goal with
  | |- iwp (_ ≫= _) _ _ => apply iwp_bind; icall
  | |- iwp (Firmware.do fw ?c) ?w ?Q => refine (iwp_call c w Q _); cbn [sound_reply reply]
  end.

(** The last call was [c], it replied [r], and nothing has touched memory since. *)
Definition answered (c : call) (r : reply c) (w : world) (log : list event) : Prop :=
  w_log w = existT c r :: log /\ exists m, fw log m c = (r, w_mem w).

Lemma iwp_reply c w (Q : reply c -> world -> Prop) :
  (forall r m, sound_reply cap (w_log w) c r -> fw (w_log w) (w_mem w) c = (r, m) ->
     Q r (logged w (existT c r) m)) ->
  iwp (Firmware.do fw c) w Q.
Proof using Hfw. intros H. apply iwp_do, H; [apply Hfw | apply surjective_pairing]. Qed.

(** efi_malloc: a buffer, or NULL and nothing taken. *)
Lemma iwp_efi_malloc n w0 w P F (Q : Z -> world -> Prop) :
  grows P F w0 w ->
  (forall w', grows P F w0 w' -> Q NULL w') ->
  (forall p w', 0 < p -> p + n < 2 ^ 64 -> grows ({[+ p +]} ⊎ P) F w0 w' ->
     w_log w' = existT (AllocatePool n) (EFI_SUCCESS, p) :: w_log w -> Q p w') ->
  iwp (efi_malloc fw n) w Q.
Proof using Hfw.
  intros G H0 H1. unfold efi_malloc. icall. intros [status p] m Hs.
  assert (HP : EFI_ERROR status = true -> iwp (_ ← Firmware.do fw Print; mret NULL)
    (logged w (existT (AllocatePool n) (status, p)) m) Q).
  { intros He. icall. intros r m' _. apply iwp_ret, H0, grows_same; try done.
    apply grows_same; try done. intros X. cbn. unfold ok. by rewrite He. }
  destruct (Z.eqb_spec status EFI_OUT_OF_RESOURCES) as [->|_]; [by apply HP|].
  destruct (Z.eqb_spec status EFI_INVALID_PARAMETER) as [->|_]; [by apply HP|].
  destruct (EFI_ERROR status) eqn:He; [by apply HP|]. apply iwp_ret.
  assert (Hk : ok status = true) by (unfold ok; by rewrite He). destruct (Hs Hk) as (-> & Hp & Hend & Hnew).
  apply H1; [done | done | |done]. by apply grows_pool.
Qed.

(** ** efi_fread *)

(** The scan ends with nothing open, or with the file and its root open. *)
Definition scanned (filename : list Z) (P F : gmultiset Z) (w0 : world) (r : Z * Z * Z) (w : world) : Prop :=
  let '(result, root, file) := r in
  (file = NULL /\ grows P F w0 w) \/
  (file <> NULL /\ opened_as (w_log w) file = Some filename /\ grows P ({[+ file +]} ⊎ ({[+ root +]} ⊎ F)) w0 w).

Lemma iwp_fread_scan filename P F w0 handles : forall result w,
  grows P F w0 w -> iwp (fread_scan fw filename handles result) w (scanned filename P F w0).
Proof using Hfw.
  induction handles as [|h handles IH]; intros result w G; cbn [fread_scan].
  { apply iwp_ret. by left. }
  icall. intros [st fs] m1 _. assert (G1 := grows_same _ _ _ _ (HandleProtocol h) (st, fs) m1 ltac:(done) ltac:(done) ltac:(done) G).
  destruct (EFI_ERROR st); [by apply IH|].
  icall. intros [st' root] m2 Hroot. destruct (EFI_ERROR st') eqn:He.
  { apply IH. apply grows_same; try done. intros X. cbn. unfold ok. by rewrite He. }
  set (w2 := logged _ (existT (OpenVolume fs) _) m2).
  assert (G2 : grows P ({[+ root +]} ⊎ F) w0 w2).
  { apply grows_file; try done. intros X. cbn. unfold ok. by rewrite He. }
  icall. intros [r file] m3 Hf. destruct (EFI_ERROR r) eqn:Hr; cbn [negb].
  - icall. intros st'' m4 _. apply IH. apply grows_close. apply grows_same; try done.
    intros X. cbn. unfold ok. by rewrite Hr.
  - apply iwp_ret. right. split; [apply Hf; unfold ok; by rewrite Hr|].
    split; [cbn; unfold ok; by rewrite Hr, Z.eqb_refl|].
    apply grows_file; try done. intros X. cbn. unfold ok. by rewrite Hr.
Qed.

(** What a call to efi_fread hands out: a pool buffer with the contents of the file, which
    a Read put there, as long as GetInfo said the file is. *)
Definition fread_out (filename : list Z) (w : world) (out : option (Z * Z)) (X : gmultiset Z) : Prop :=
  match out with
  | None => X = ∅
  | Some (buffer, length) => buffer <> NULL /\ X = {[+ buffer +]} /\
      (buffer, length) ∈ live (w_log w) /\ (buffer, length) ∈ file_reads filename (w_log w) /\
      exists file r k, (existT (Read file length buffer) (r, length) : event) ∈ w_log w /\
        EFI_ERROR r = false /\ (existT (GetInfo file) (k, length) : event) ∈ w_log w
  end.

(** The error exit after the buffer was allocated. *)
Lemma iwp_efi_free_data filename P F w0 w data result :
  EFI_ERROR result = true -> grows ({[+ data +]} ⊎ P) F w0 w ->
  iwp (_ ← efi_free fw data; mret (result, None)) w (fun '(result, out) w' =>
    (EFI_ERROR result = true <-> out = None) /\
    exists X, fread_out filename w' out X /\ grows (X ⊎ P) F w0 w').
Proof using Hfw.
  intros Hr G. unfold efi_free. apply iwp_bind. icall. intros s m _. apply iwp_ret. apply iwp_ret.
  split; [done|]. exists ∅. split; [done|]. rewrite (left_id_L ∅ (⊎)). by apply grows_free.
Qed.

Lemma iwp_fread_file filename P F w0 w file :
  opened_as (w_log w) file = Some filename -> grows P F w0 w ->
  iwp (fread_file fw file) w (fun '(result, out) w' =>
    (EFI_ERROR result = true <-> out = None) /\
    exists X, fread_out filename w' out X /\ grows (X ⊎ P) F w0 w').
Proof using Hfw.
  intros Hname G. unfold fread_file. icall. intros [st n] m1 _.
  assert (G1 := grows_same _ _ _ _ (GetInfo file) (st, n) m1 ltac:(done) ltac:(done) ltac:(done) G).
  destruct (EFI_ERROR st) eqn:He.
  { apply iwp_ret. split; [done|]. exists ∅. split; [done|]. by rewrite (left_id_L ∅ (⊎)). }
  apply iwp_bind. apply (iwp_efi_malloc n w0 _ P F); [done | |].
  { intros w' G'. apply iwp_ret. split; [done|]. exists ∅. split; [done|]. by rewrite (left_id_L ∅ (⊎)). }
  intros data w2 Hd Hend G2 Hs2. rewrite (proj2 (Z.eqb_neq data NULL)) by (unfold NULL; lia).
  icall. intros [r k] m2 _. set (w3 := logged w2 _ m2).
  assert (G3 : grows ({[+ data +]} ⊎ P) F w0 w3) by (by apply grows_same).
  destruct (EFI_ERROR r) eqn:Hr; cbn [negb andb]; [|destruct (Z.eqb_spec k n) as [->|Hk]; cbn [negb]].
  - rewrite Hr. by apply iwp_efi_free_data.
  - rewrite Hr. apply iwp_ret. split; [by rewrite Hr|]. exists {[+ data +]}. split; [|done].
    split; [unfold NULL; lia|]. split; [done|]. cbn [w_log w3 logged]. rewrite Hs2.
    split; [apply list_elem_of_here|]. split.
    { cbn. unfold ok. rewrite Hr, Z.eqb_refl, bool_decide_eq_true_2 by exact Hname. apply list_elem_of_here. }
    exists file, r, st. split; [apply list_elem_of_here|].
    split; [done|]. do 2 apply list_elem_of_further. apply list_elem_of_here.
  - change (EFI_ERROR EFI_END_OF_FILE) with true. cbn match.
    by apply iwp_efi_free_data.
Qed.

Lemma fread_out_close filename w f r m out X :
  fread_out filename w out X -> fread_out filename (logged w (existT (Close f) r) m) out X.
Proof using Type.
  destruct out as [[b n]|]; [|done]. intros (Hb & HX & HL & HR & file & r' & k & H1 & Hr & H2).
  split; [done|]. split; [done|]. split; [done|]. split; [done|]. exists file, r', k.
  split; [by apply list_elem_of_further|]. split; [done | by apply list_elem_of_further].
Qed.

Lemma iwp_efi_fread filename w :
  iwp (efi_fread fw filename) w (fun '(result, out) w' =>
    (EFI_ERROR result = true <-> out = None) /\
    exists X, fread_out filename w' out X /\ grows X ∅ w w').
Proof using Hfw.
  unfold efi_fread. icall. intros [st [handles p]] m1 Hnew. destruct (EFI_ERROR st) eqn:He.
  { apply iwp_ret. split; [done|]. exists ∅. split; [done|]. apply grows_same; try done; [|apply grows_refl].
    intros X. cbn. unfold ok. by rewrite He. }
  set (w1 := logged w _ m1). assert (G1 : grows {[+ p +]} ∅ w w1).
  { rewrite <- (right_id_L ∅ (⊎) {[+ p +]}). apply grows_pool; try done; [| |apply grows_refl].
    - intros X. cbn. unfold ok. by rewrite He.
    - apply Hnew. unfold ok. by rewrite He. }
  apply iwp_bind. eapply iwp_mono; [by apply (iwp_fread_scan filename {[+ p +]} ∅ w)|].
  intros [[result root] file] w2 Hscan. icall. intros s2 m2 _. set (w3 := logged w2 _ m2).
  destruct Hscan as [[-> G2]|(Hf & Hname & G2)].
  - rewrite Z.eqb_refl. apply iwp_ret. split; [by destruct (EFI_ERROR result) eqn:Hr|].
    exists ∅. split; [done|]. apply grows_free. by rewrite (right_id_L ∅ (⊎)).
  - rewrite (proj2 (Z.eqb_neq file NULL)) by done. rewrite <- (right_id_L ∅ (⊎) {[+ p +]}) in G2.
    apply (grows_free _ _ _ _ p s2 m2) in G2. apply iwp_bind.
    eapply iwp_mono; [by apply (iwp_fread_file filename ∅ ({[+ file +]} ⊎ ({[+ root +]} ⊎ ∅)) w w3)|].
    intros [result' out] w4 (Hiff & X & Hout & G4). rewrite (right_id_L ∅ (⊎)) in G4.
    icall. intros s5 m5 _. icall. intros s6 m6 _. apply iwp_ret. split; [done|]. exists X. split.
    + by do 2 apply fread_out_close.
    + by do 2 apply grows_close.
Qed.

(** ** getEFIMemoryMap *)

(** The buffer the loop holds. *)
Definition map_held (p : Z) : gmultiset Z := if p =? NULL then ∅ else {[+ p +]}.

Lemma iwp_free_map p w w0 P F (Q : unit -> world -> Prop) :
  grows (map_held p ⊎ P) F w0 w -> (forall w', grows P F w0 w' -> Q tt w') ->
  iwp (free_map fw p) w Q.
Proof using Hfw.
  unfold free_map, map_held. destruct (p =? NULL); cbn [negb]; intros G HQ.
  - apply iwp_ret, HQ. by rewrite (left_id_L ∅ (⊎)) in G.
  - icall. intros r m _. apply iwp_ret, HQ. by apply grows_free.
Qed.

(** The last call filled the buffer [p]. *)
Definition map_filled (w : world) (mmap : efi_mmap_t) (p : Z) : Prop :=
  (exists n log, 0 < size mmap <= n /\
    answered (GetMemoryMap n p) (EFI_SUCCESS, (size mmap, key mmap, descriptorSize mmap)) w log) /\
  size mmap <= cap /\ 0 < descriptorSize mmap /\ size mmap mod descriptorSize mmap = 0 /\
  0 < p /\ p + size mmap < 2 ^ 64.

Definition map_loop_post (w0 : world) (r : Z * efi_mmap_t * Z) (w : world) : Prop :=
  let '(result, mmap, p) := r in
  grows (map_held p) ∅ w0 w /\ (result = EFI_SUCCESS -> map_filled w mmap p).

Lemma iwp_map_loop fuel mmap w :
  size mmap = 0 -> 0 <= cap + 1 < Z.of_nat fuel ->
  iwp (forever fuel (map_step fw) (mmap, NULL)) w (map_loop_post w).
Proof using Hfw.
  intros H0 Hfuel.
  apply (iwp_forever (fun '(mmap, p) w' => grows (map_held p) ∅ w w' /\
      (size mmap = 0 \/ 0 < p /\ p + size mmap < 2 ^ 64))
    (fun '(mmap, p) _ => Z.max 0 (cap + 1 - size mmap))); [lia | by split; [apply grows_refl | left] |].
  clear mmap H0 Hfuel. intros [mmap p] w1 [G Hsz]. split; [lia|].
  unfold map_step. apply iwp_bind. refine (iwp_reply (GetMemoryMap (size mmap) p) w1 _ _).
  intros [result [[n k] d]] m (Hn & Hd & Hnd & Hok & Hsmall) Hans.
  set (w2 := logged w1 _ m). assert (G2 : grows (map_held p) ∅ w w2) by (by apply grows_same).
  destruct (Z.eqb_spec result EFI_SUCCESS) as [->|Hne].
  { apply iwp_ret. split; [done|]. intros _. destruct (Hok eq_refl) as (Hle & Hcap & Hmod).
    split.
    { exists (size mmap), (w_log w1). split; [done|]. split; [done|]. by exists (w_mem w1). }
    split; [done|]. split; [done|]. split; [done|].
    cbn [size set_map_reply]. lia. }
  destruct (Z.eqb_spec result EFI_BUFFER_TOO_SMALL) as [->|Hne']; cbn [negb]; [|by apply iwp_ret].
  specialize (Hsmall eq_refl). apply iwp_bind.
  apply (iwp_free_map p w2 w ∅ ∅); [by rewrite (right_id_L ∅ (⊎))|]. intros w3 G3.
  cbn [set_map_reply set_size size]. cbn [set_map_reply descriptorSize].
  assert (Hsize : u64 (n + u64 (2 * d)) = n + 2 * d) by (by rewrite (u64_small (2 * d)), u64_small by lia).
  rewrite Hsize. icall. intros [st q] m4 Hst.
  destruct (Z.eqb_spec st EFI_SUCCESS) as [->|Hst']; cbn [negb]; apply iwp_ret.
  - destruct (Hst eq_refl) as (_ & Hq & Hend & Hnew). split; [|cbn [size set_size]; lia].
    split; [|by right]. unfold map_held. rewrite (proj2 (Z.eqb_neq q NULL)) by (unfold NULL; lia).
    rewrite <- (right_id_L ∅ (⊎) {[+ q +]}). by apply grows_pool.
  - split; [|done]. apply grows_same; try done. intros X. cbn. destruct (ok st) eqn:Hk; [|done].
    by destruct (Hst eq_refl).
Qed.

Lemma iwp_getEFIMemoryMap fuel mmap w :
  size mmap = 0 -> 0 <= cap + 1 < Z.of_nat fuel ->
  iwp (getEFIMemoryMap fw fuel mmap) w (fun '(result, mm) w' =>
    (result <> EFI_SUCCESS /\ start mm = 0 /\ end_ mm = 0 /\ grows ∅ ∅ w w') \/
    (result = EFI_SUCCESS /\ end_ mm = start mm + size mm /\
     map_filled w' mm (start mm) /\ grows {[+ start mm +]} ∅ w w')).
Proof using Hfw.
  intros H0 Hfuel. unfold getEFIMemoryMap. apply iwp_bind.
  eapply iwp_mono; [by apply iwp_map_loop|]. intros [[result mm] p] w1 [G Hok].
  destruct (Z.eqb_spec result EFI_SUCCESS) as [->|Hne]; cbn [negb].
  - apply iwp_ret. pose proof (Hok eq_refl) as Hf. pose proof Hf as (_ & _ & _ & _ & Hp & Hend).
    destruct Hf as [(n & log & Hn & Hans) Hf]. right. split; [done|].
    split; [cbn; rewrite u64_small; lia|]. split; [split; [by exists n, log | exact Hf]|].
    unfold map_held in G. by rewrite (proj2 (Z.eqb_neq p NULL)) in G by (unfold NULL; lia).
  - apply iwp_bind. apply (iwp_free_map p w1 w ∅ ∅); [by rewrite (right_id_L ∅ (⊎))|].
    intros w2 G2. apply iwp_ret. by left.
Qed.

(** ** Leaving Boot Services *)

(** Calls that leave the memory map alone. *)
Definition quiet (e : event) : Prop :=
  match e with
  | existT (GetMemoryMap _ _) _ | existT (ExitBootServices _) _ => True
  | _ => False
  end.

(** How often a key was refused. *)
Definition refused (e : event) : Z :=
  match e with
  | existT (ExitBootServices _) status => if status =? EFI_INVALID_PARAMETER then 1 else 0
  | _ => 0
  end.
Definition refusals (log : list event) : Z := foldr (fun e n => refused e + n) 0 log.

Lemma refusals_nonneg log : 0 <= refusals log.
Proof using Type.
  induction log as [|[c r] log IH]; [done|]. change (refusals (existT c r :: log)) with (refused (existT c r) + refusals log).
  assert (0 <= refused (existT c r)); [|lia]. destruct c; cbn; try done. by destruct (_ =? _).
Qed.

(** The firmware refuses at most [n] keys. *)
Definition refuses (n : Z) : Prop :=
  forall log m k, n <= refusals log -> (fw log m (ExitBootServices k)).1 <> EFI_INVALID_PARAMETER.

(** Boot Services ended with the key of the map in the buffer, fetched by the call
    just before; between the allocation of the buffer and the end there were only
    calls that leave the map alone. *)
Definition left_boot_services (w0 w : world) (mmap : efi_mmap_t) : Prop :=
  exists c calls r0 m1 m2,
    let log := calls ++ existT (AllocatePool c) (EFI_SUCCESS, start mmap) ::
      existT (GetMemoryMap 0 NULL) r0 :: w_log w0 in
    let map_call := GetMemoryMap c (start mmap) in
    let map_reply := (EFI_SUCCESS, (size mmap, key mmap, descriptorSize mmap)) in
    w_log w = existT (ExitBootServices (key mmap)) EFI_SUCCESS :: existT map_call map_reply :: log /\
    fw log m1 map_call = (map_reply, m2) /\
    fw (existT map_call map_reply :: log) m2 (ExitBootServices (key mmap)) = (EFI_SUCCESS, w_mem w) /\
    Forall quiet calls /\ 0 < size mmap <= c /\ 0 < start mmap /\ start mmap + c < 2 ^ 64 /\
    end_ mmap = start mmap + size mmap /\
    size mmap <= cap /\ 0 < descriptorSize mmap /\ size mmap mod descriptorSize mmap = 0.

Lemma iwp_exit_loop n fuel c p r0 w0 w :
  refuses n -> 0 <= n < Z.of_nat fuel ->
  let log0 := existT (AllocatePool c) (EFI_SUCCESS, p) :: existT (GetMemoryMap 0 NULL) r0 :: w_log w0 in
  w_log w = log0 -> 0 < p -> p + c < 2 ^ 64 -> grows {[+ p +]} ∅ w0 w ->
  iwp (forever fuel (exit_step fw c p) tt) w (fun e w' => grows {[+ p +]} ∅ w0 w' /\
    forall mmap, e = Exited mmap -> start mmap = p /\ left_boot_services w0 w' mmap).
Proof using Hfw.
  intros Hn Hfuel log0 Hlog Hp Hpc G.
  apply (iwp_forever (fun _ w' => grows {[+ p +]} ∅ w0 w' /\ exists calls,
      w_log w' = calls ++ log0 /\ Forall quiet calls)
    (fun _ w' => Z.max 0 (n - refusals (w_log w'))));
    [pose proof (refusals_nonneg (w_log w)); lia | split; [done | by exists []] |].
  clear G Hlog Hfuel. intros [] w1 (G & calls & Hlog & Hq). split; [lia|].
  unfold exit_step. apply iwp_bind. refine (iwp_reply (GetMemoryMap c p) w1 _ _).
  intros [result [[z k] d]] m (Hz & Hd & _ & Hok & _) Hmap.
  set (w2 := logged w1 _ m).
  assert (G2 : grows {[+ p +]} ∅ w0 w2) by (by apply grows_same).
  assert (Hlog2 : refusals (w_log w2) = refusals (w_log w1)) by done.
  destruct (Z.eqb_spec result EFI_SUCCESS) as [->|Hne]; cbn [negb].
  2: { icall. intros r m2 _. apply iwp_ret. split; [by apply grows_same | done]. }
  specialize (Hok eq_refl). apply iwp_bind.
  refine (iwp_reply (ExitBootServices k) w2 _ _). cbn [reply]. intros status m3 _ Hexit.
  set (w3 := logged w2 _ m3).
  assert (G3 : grows {[+ p +]} ∅ w0 w3) by (by apply grows_same).
  destruct (Z.eqb_spec status EFI_SUCCESS) as [Hs|Hs].
  { apply iwp_ret. split; [done|]. intros mm [= <-]. split; [done|].
    exists c, calls, r0, (w_mem w1), m. cbn [set_range key start size descriptorSize end_ set_map_reply].
    fold log0. rewrite <- Hlog. rewrite Hs in Hexit. rewrite u64_small by lia.
    split; [cbn [w_log w3 w2 logged]; by rewrite Hs|]. repeat (split; [done || lia|]). done || lia. }
  destruct (Z.eqb_spec status EFI_INVALID_PARAMETER) as [Hi|Hi]; cbn [negb]; apply iwp_ret; [|done].
  assert (Hlt : refusals (w_log w1) < n).
  { destruct (Z.lt_ge_cases (refusals (w_log w1)) n) as [|Hge]; [done|].
    rewrite <- Hlog2 in Hge. destruct (Hn (w_log w2) (w_mem w2) k Hge).
    exact (eq_trans (f_equal fst Hexit) Hi). }
  assert (Hr3 : refusals (w_log w3) = 1 + refusals (w_log w1)).
  { cbn [w_log w3 logged refusals foldr refused]. rewrite Hi. done. }
  split; [|lia]. split; [done|].
  exists (existT (ExitBootServices k) status :: existT (GetMemoryMap c p) (EFI_SUCCESS, (z, k, d)) :: calls).
  split; [cbn [w_log w3 w2 logged]; by rewrite Hlog | by repeat constructor].
Qed.

Lemma iwp_exit_boot_services n fuel w :
  refuses n -> 0 <= n < Z.of_nat fuel ->
  iwp (exit_boot_services fw fuel) w (fun e w' =>
    (exists P, grows P ∅ w w') /\
    forall mmap, e = Exited mmap -> grows {[+ start mmap +]} ∅ w w' /\ left_boot_services w w' mmap).
Proof using Hfw.
  intros Hn Hfuel. unfold exit_boot_services. icall. intros [r0 [[z k] d]] m1 _.
  set (w1 := logged w _ m1). assert (G1 : grows ∅ ∅ w w1) by (apply grows_same; by auto with grows).
  set (c := u64 _). apply iwp_bind. apply (iwp_efi_malloc c w w1 ∅ ∅); [done | |].
  { intros w' G'. rewrite Z.eqb_refl. apply iwp_ret. split; [by eexists | done]. }
  intros p w2 Hp Hend G2 Hlog. rewrite (right_id_L ∅ (⊎)) in G2.
  rewrite (proj2 (Z.eqb_neq p NULL)) by (unfold NULL; lia).
  eapply iwp_mono.
  { apply (iwp_exit_loop n fuel c p (r0, (z, k, d)) w w2); [done | done | exact Hlog | done..]. }
  intros e w' [G' He']. split; [by eexists|]. intros mmap Hmm. destruct (He' mmap Hmm) as [Hst Hl].
  by rewrite Hst.
Qed.
End spec.
