(* ===== verification/ReserveSpec.v ===== *)
(** The storage reserve_pmm gets for the memory manager. *)
From stdpp Require Import list gmultiset.
From Stdlib Require Import ZArith Lia.
From S2P Require Import Prelude Memory Physical EfiPmm EfiPmmSpec Firmware Loader LoaderMain LoaderSpec.
Local Open Scope Z_scope.

(** ** The sizes *)

(** The frames of RAM in a map. *)
Fixpoint ram_pages (l : list efi_descriptor) : Z :=
  match l with
  | [] => 0
  | d :: l => (if is_ram_type (Type_ d) then NumberOfPages d else 0) + ram_pages l
  end.

Definition slots (l : list efi_descriptor) : Z := Z.of_nat (length (filter nonempty l)).

Lemma slots_cons d l : slots (d :: l) = (if NumberOfPages d =? 0 then 0 else 1) + slots l.
Proof.
  unfold slots. rewrite filter_cons. unfold nonempty at 1. case_decide as Hd.
  - rewrite (proj2 (Z.eqb_neq _ _) Hd). simpl. lia.
  - destruct (Z.eqb_spec (NumberOfPages d) 0); [simpl; lia | done].
Qed.

Definition pages_ok (l : list efi_descriptor) : Prop := Forall (fun d => 0 <= NumberOfPages d) l.

Lemma ram_pages_nonneg l : pages_ok l -> 0 <= ram_pages l.
Proof. induction 1 as [|d l Hd _ IH]; simpl; [done|]. destruct (is_ram_type _); lia. Qed.

(** The counts without wrapping. *)
Lemma count_foldl l : forall a b,
  pages_ok l -> 0 <= a -> 0 <= b -> a + Z.of_nat (length l) < 2 ^ 64 -> b + ram_pages l < 2 ^ 64 ->
  foldl count_step (a, b) l = (a + slots l, b + ram_pages l).
Proof.
  induction l as [|d l IH]; intros a b Hp Ha Hb Hla Hlb; [unfold slots; simpl; f_equal; lia|].
  inversion Hp as [|? ? Hd Hp']. subst. pose proof (ram_pages_nonneg l Hp').
  cbn [foldl count_step ram_pages length] in *.
  rewrite slots_cons. destruct (NumberOfPages d =? 0); cbn [negb]; destruct (is_ram_type (Type_ d));
    rewrite ?(u64_small (a + 1)), ?(u64_small (b + NumberOfPages d)) by lia;
    rewrite IH by (done || lia); f_equal; lia.
Qed.

(** The words of the bitmaps: each region wastes less than one word. *)
Lemma total_words_bound l :
  pages_ok l -> 64 * total_words l <= ram_pages l + 63 * Z.of_nat (length l).
Proof.
  induction 1 as [|d l Hd _ IH]; [done|]. cbn [total_words ram_pages length]. unfold desc_words.
  destruct (is_ram_type (Type_ d)); zlia.
Qed.

Lemma ram_pages_filter l : pages_ok l -> ram_pages (filter nonempty l) = ram_pages l.
Proof.
  induction 1 as [|d l Hd _ IH]; [done|]. rewrite filter_cons. unfold nonempty at 1.
  case_decide as Hn; cbn [ram_pages]; rewrite IH; [done|].
  assert (NumberOfPages d = 0) as -> by lia. by destruct (is_ram_type _).
Qed.

(** The sizes for a map. *)
Definition sizes_for (l : list efi_descriptor) : Z * Z :=
  let '(block_count, ram_frames) := foldl count_step (0, 0) l in
  reserve_sizes block_count ram_frames.

Lemma sizes_for_eq l :
  pages_ok l -> Z.of_nat (length l) + PMM_BLOCK_SLACK + ram_pages l < 2 ^ 64 ->
  sizes_for l = (slots l + PMM_BLOCK_SLACK, ram_pages l / 64 + (slots l + PMM_BLOCK_SLACK)).
Proof.
  intros Hp Hb. unfold PMM_BLOCK_SLACK in *. pose proof (ram_pages_nonneg l Hp).
  assert (Hs : 0 <= slots l <= Z.of_nat (length l)).
  { unfold slots. pose proof (length_filter nonempty l). lia. }
  unfold sizes_for. rewrite count_foldl by (done || lia). cbv zeta. unfold reserve_sizes, PMM_BLOCK_SLACK.
  rewrite !Z.add_0_l. rewrite (u64_small (slots l + 16)) by lia. rewrite u64_small by zlia. done.
Qed.

(** The final map fits if it has at most [PMM_BLOCK_SLACK] more regions and no more RAM. *)
Lemma sizes_suffice l l' :
  pages_ok l -> pages_ok l' -> Z.of_nat (length l) + PMM_BLOCK_SLACK + ram_pages l < 2 ^ 64 ->
  slots l' <= slots l + PMM_BLOCK_SLACK -> ram_pages l' <= ram_pages l ->
  slots l' <= (sizes_for l).1 /\ total_words (filter nonempty l') <= (sizes_for l).2.
Proof.
  intros Hp Hp' Hb Hs Hr. rewrite sizes_for_eq by done. cbn [fst snd]. split; [done|].
  assert (Hf : pages_ok (filter nonempty l')).
  { apply Forall_forall. intros d [_ Hd]%list_elem_of_In%list_elem_of_filter.
    by apply (proj1 (Forall_forall _ l') Hp'), list_elem_of_In. }
  pose proof (total_words_bound _ Hf) as H. rewrite ram_pages_filter in H by done.
  fold (slots l') in H. pose proof (ram_pages_nonneg l' Hp'). assert (0 <= slots l) by (unfold slots; lia).
  unfold PMM_BLOCK_SLACK in *. zlia.
Qed.

(** ** reserve_pmm *)
Section reserve.
Context (fw : firmware) (cap : Z) (Hfw : sound fw cap).
Context (desc_at : mem -> Z -> efi_descriptor).

(** The descriptors of a map in memory. *)
Definition descriptors (m : mem) (mmap : efi_mmap_t) : list efi_descriptor :=
  (fun i => desc_at m (start mmap + i * descriptorSize mmap)) <$> seqZ 0 (size mmap / descriptorSize mmap).

Lemma wp_count_descriptors fuel mmap m w :
  map_filled fw cap w mmap (start mmap) -> end_ mmap = start mmap + size mmap -> cap <= Z.of_nat fuel ->
  wp (count_descriptors desc_at fuel mmap m) (fun c => c = foldl count_step (0, 0) (descriptors m mmap)).
Proof using Type.
  intros ((n0 & log0 & Hn0 & _) & Hcap & Hd & Hmod & Hp & Hend) He Hfuel. unfold count_descriptors.
  set (d := descriptorSize mmap) in *. set (n := size mmap) in *.
  assert (Hnd : n = d * (n / d)) by (pose proof (Z.div_mod n d ltac:(lia)); lia).
  set (k := n / d) in *. wp_step. eapply wp_mono.
  - apply (wp_while (fun '(c, offset) => exists i, 0 <= i <= k /\ offset = start mmap + i * d /\
        c = foldl count_step (0, 0) ((fun i => desc_at m (start mmap + i * d)) <$> seqZ 0 i))
      (fun _ => False) (fun '(_, offset) => end_ mmap - offset)); [lia | |].
    + exists 0. split; [nia|]. split; [lia | done].
    + intros [c offset] (i & Hi & -> & ->). wp_ret. rewrite He.
      destruct (Z.ltb_spec (start mmap + i * d) (start mmap + n)) as [Hlt|]; [|done].
      assert (Hik : i < k) by nia. split; [lia|]. wp_ret.
      rewrite u64_small by nia. split; [|lia]. exists (i + 1). split; [lia|]. split; [lia|].
      rewrite seqZ_app by lia. rewrite fmap_app, foldl_app. done.
  - intros [[c offset]|r]; [|done]. intros [(i & Hi & -> & ->) [= Hge%Z.ltb_ge]]. wp_ret.
    rewrite He in Hge. assert (i = k) as -> by nia. done.
Qed.

(** What reserve_pmm ends with. *)
Definition reserved (w w' : world) (result : Z) (storage : option pmm_storage) : Prop :=
  match storage with
  | None => result <> EFI_SUCCESS /\ grows ∅ ∅ w w'
  | Some st => result = EFI_SUCCESS /\ exists w1 mm p,
      map_filled fw cap w1 mm (start mm) /\
      (block_capacity st, bitmap_words st) = sizes_for (descriptors (w_mem w1) mm) /\
      Z.of_nat (length (blocks (EfiPmm.physical_memory st))) = Z.max 0 (block_capacity st) /\
      block_count (EfiPmm.physical_memory st) = 0 /\
      0 < p /\ p + pmm_bytes (block_capacity st) (bitmap_words st) < 2 ^ 64 /\
      bitmap st = u64 (p + bitmap_offset (block_capacity st)) /\ grows {[+ p +]} ∅ w w' /\
      exists log, w_log w' =
        existT (AllocatePool (pmm_bytes (block_capacity st) (bitmap_words st))) (EFI_SUCCESS, p) :: log
  end.

Lemma iwp_reserve_pmm fuel junk w :
  0 <= cap + 1 < Z.of_nat fuel ->
  iwp (reserve_pmm fw desc_at fuel junk) w (fun '(result, storage) w' => reserved w w' result storage).
Proof using Hfw.
  intros Hfuel. unfold reserve_pmm. apply iwp_bind.
  eapply iwp_mono; [by apply (iwp_getEFIMemoryMap fw cap Hfw)|]. intros [result mm] w1.
  intros [(Hne & _ & _ & G)|(-> & He & Hf & G)].
  { rewrite (proj2 (Z.eqb_neq result EFI_SUCCESS)) by done. cbn [negb]. apply iwp_bind.
    refine (iwp_call fw cap Hfw Print w1 _ _). intros r m _. apply iwp_ret. split; [done|]. by apply grows_same. }
  rewrite Z.eqb_refl. cbn [negb]. apply iwp_bind, iwp_on_mem. wp_step.
  eapply wp_mono; [apply (wp_count_descriptors fuel mm (w_mem w1) w1 Hf He); lia|].
  intros [block_count ram_frames] Hc. wp_ret. destruct w1 as [m1 log1]. cbn [w_mem w_log] in *.
  apply iwp_bind. unfold efi_free. apply iwp_bind. refine (iwp_call fw cap Hfw (FreePool _) _ _ _).
  intros r m2 _. apply iwp_ret.
  assert (G2 : grows ∅ ∅ w (logged {| w_mem := m1; w_log := log1 |} (existT (FreePool (start mm)) r) m2)).
  { apply grows_free. by rewrite (right_id_L ∅ (⊎)). }
  destruct (reserve_sizes block_count ram_frames) as [capacity words] eqn:Hs. apply iwp_bind.
  apply (iwp_efi_malloc fw cap Hfw _ w _ ∅ ∅ _ G2).
  - intros w' G'. rewrite Z.eqb_refl. apply iwp_bind. refine (iwp_call fw cap Hfw Print w' _ _).
    intros r' m' _. apply iwp_ret. split; [done|]. by apply grows_same.
  - intros p w' Hp Hend G' Hlog. rewrite (proj2 (Z.eqb_neq p NULL)) by (unfold NULL; lia). apply iwp_ret.
    split; [done|]. exists {| w_mem := m1; w_log := log1 |}, mm, p.
    cbn [block_capacity bitmap_words bitmap EfiPmm.physical_memory blocks Physical.block_count w_mem].
    split; [done|]. split; [unfold sizes_for; by rewrite <- Hc, Hs|].
    split; [rewrite length_replicate; lia|]. split; [done|]. split; [done|]. split; [done|]. split; [done|].
    rewrite (right_id_L ∅ (⊎)) in G'. split; [done|]. by eexists.
Qed.
End reserve.
