(* ===== verification/LoaderBoot.v ===== *)
(** From the firmware's memory map to the running kernel: what the loader relies on
    the firmware for, and that its parts then fit together. *)
From stdpp Require Import list gmultiset.
From Stdlib Require Import ZArith Lia Strings.Byte.
From S2P Require Import Prelude Memory Physical FrameAllocator PhysicalSpec EfiPmm EfiPmmSpec LibString Paging PagingSpec Mapping MapRange Gdt GdtSpec Stdio StdioSpec Ssfn SsfnSpec Console ConsoleSpec Kernel KernelText KernelSpec KernelBoot Firmware Loader LoaderMain LoaderSpec ReserveSpec.
Local Open Scope Z_scope.

#[local] Instance byte_eq_decision : EqDecision Byte.byte := Byte.byte_eq_dec.

Lemma live_quiet calls log : Forall quiet calls -> live (calls ++ log) = live log.
Proof. induction 1 as [|[c r] calls Hq _ IH]; [done|]. cbn. destruct c; done. Qed.

(** The buffer with the font, from when it was read. *)
Definition font_held (w : world) (qf nf : Z) : Prop :=
  qf ∈ pools (w_log w) /\ (qf, nf) ∈ live (w_log w) /\ (qf, nf) ∈ file_reads font_name (w_log w).

Lemma font_held_grows P F w w' qf nf : grows P F w w' -> font_held w qf nf -> font_held w' qf nf.
Proof.
  intros G (H1 & H2 & H3). split; [rewrite (gr_pools _ _ _ _ G); multiset_solver|].
  split; [by apply (gr_live _ _ _ _ G)|]. by apply (file_reads_suffix _ _ _ (gr_log _ _ _ _ G)).
Qed.

Lemma font_held_read w w' out X :
  fread_out font_name w' out X -> grows X ∅ w w' -> forall qf nf, out = Some (qf, nf) -> font_held w' qf nf.
Proof.
  intros Hout G qf nf ->. destruct Hout as (_ & -> & HL & HR & _). split; [|done].
  rewrite (gr_pools _ _ _ _ G). multiset_solver.
Qed.

Section boot.
Context `{Platform, Image} (package : list Z).

(** ** The screen and the font *)

(** The framebuffer efi_main makes of a mode and a font. *)
Definition screen_of (i : gop_info) (font font_size : Z) : framebuffer_t :=
  {| width := HorizontalResolution i; height := VerticalResolution i; pixels_per_scanline := PixelsPerScanLine i;
     margin := 10; buffer := FrameBufferBase i; Console.font := font; Console.font_size := font_size |}.

(** What the kernel may write: conventional memory, and [R]. *)
Definition kernel_writes (descs : list efi_descriptor) (R : Z -> Prop) (a : Z) : Prop :=
  (exists x, x ∈ descs /\ Type_ x = EfiConventionalMemory /\
    region (PhysicalStart x) (NumberOfPages x * frame_size) a) \/ R a.

(** The console works on memory [m] with the font in the buffer [q]. *)
Definition console_on_font (m : mem) (q n : Z) (W : Z -> Prop) : Prop :=
  forall m0 gop fuel, 0x110000 <= Z.of_nat fuel -> exists ty, face_size ty = n /\
    console_on package ty m (screen_of (gop_mode m0 gop) q n) W fuel.

Definition other_buffers (L : list (Z * Z)) (q a : Z) : Prop :=
  exists q' n', (q', n') ∈ L /\ q' <> q /\ region q' n' a.

(** ** What a memory map says

    The descriptors at [p], each of [d] bytes: page-aligned disjoint regions of the 52-bit
    physical address space; conventional memory is there, and no pool buffer ([L]) is in
    it; pool buffers do not overlap. *)
Record reported_map (m : mem) (p d : Z) (descs : list efi_descriptor) (L : list (Z * Z)) : Prop := {
  mp_desc k x : descs !! k = Some x -> desc_at m (p + d * Z.of_nat k) = x;
  mp_pages : pages_ok descs;
  mp_ram : ram_pages descs < 2 ^ 52;
  mp_geom x : x ∈ descs -> nonempty x -> block_geom (init_block x);
  mp_disjoint i j x y : i <> j ->
    filter nonempty descs !! i = Some x -> filter nonempty descs !! j = Some y ->
    block_end (init_block x) <= PhysicalStart y \/ block_end (init_block y) <= PhysicalStart x;
  mp_backed x : x ∈ descs -> Type_ x = EfiConventionalMemory ->
    backed m (PhysicalStart x) (NumberOfPages x * frame_size);
  mp_live q n : (q, n) ∈ L -> backed m q n /\
    forall x y, x ∈ descs -> Type_ x = EfiConventionalMemory ->
      region (PhysicalStart x) (NumberOfPages x * frame_size) y -> ~ region q n y;
  mp_apart i j q n q' n' : i <> j -> L !! i = Some (q, n) -> L !! j = Some (q', n') ->
    q + n <= q' \/ q' + n' <= q
}.

(** A machine on which such a map suits the kernel: the regions it maps lie below 2^47 and
    have at most [limit] pages; a buffer that holds the font file ([F]) holds a font; and
    the screen is large enough for the messages, and it, the kernel's strings and its stack
    are in none of the memory that the kernel will write. *)
Record suitable_map (limit : Z) (m : mem) (descs : list efi_descriptor) (L F : list (Z * Z)) : Prop := {
  mp_low x : x ∈ descs -> mappable (init_block x) ->
    block_end (init_block x) <= 2 ^ 47 /\ NumberOfPages x <= limit;
  mp_console q n : (q, n) ∈ L -> (q, n) ∈ F ->
    console_on_font m q n (kernel_writes descs (other_buffers L q))
}.

Definition memory_map (limit : Z) (m : mem) (p d : Z) (descs : list efi_descriptor) (L F : list (Z * Z)) : Prop :=
  reported_map m p d descs L /\ suitable_map limit m descs L F.

Definition sizeof_EFI_MEMORY_DESCRIPTOR : Z := 40.

(** ** A firmware that conforms to UEFI
    Its replies are as specified, a map that is read successfully takes at most [cap]
    bytes, and leaving Boot Services leaves the loader's buffers and the kernel's strings
    alone.  A graphics output protocol need not be there. *)
Record conforming (fw : firmware) (cap : Z) : Prop := {
  cf_sound : sound fw cap;
  cf_desc m m' a : (forall x, region a sizeof_EFI_MEMORY_DESCRIPTOR x -> m' !! x = m !! x) ->
    desc_at m' a = desc_at m a;
  cf_map log m z p s k d m' : fw log m (GetMemoryMap z p) = ((EFI_SUCCESS, (s, k, d)), m') ->
    sizeof_EFI_MEMORY_DESCRIPTOR <= d /\ exists descs, s = d * Z.of_nat (length descs) /\
      reported_map m' p d descs (live log);
  cf_exit log m k m' : fw log m (ExitBootServices k) = (EFI_SUCCESS, m') ->
    (forall x, is_Some (m' !! x) <-> is_Some (m !! x)) /\
    (forall q z x, (q, z) ∈ live log -> region q z x -> m' !! x = m !! x) /\
    forall msg x, reads (texts package) (message_text msg) itoa_zero (format_at msg) x -> m' !! x = m !! x;
  cf_gop log m : let '(status, gop) := (fw log m LocateProtocol).1 in ok status = true -> gop <> NULL
}.

(** ** What the loader relies on beyond UEFI, without looking
    The map and the number of tables are of a reasonable size, a key is refused at most [n]
    times, every map suits the kernel, and a framebuffer lies below 2^47. *)
Record suitable (fw : firmware) (cap limit n : Z) : Prop := {
  su_cap : 0 <= cap /\ cap + 1 < limit /\ cap < 2 ^ 40;
  su_refuses : refuses fw n;
  su_map log m z p s k d m' descs : fw log m (GetMemoryMap z p) = ((EFI_SUCCESS, (s, k, d)), m') ->
    s = d * Z.of_nat (length descs) -> reported_map m' p d descs (live log) ->
    suitable_map limit m' descs (live log) (file_reads font_name log);
  su_mode m g : let i := gop_mode m g in
    0 <= FrameBufferBase i /\ 0 <= PixelsPerScanLine i /\ 0 <= VerticalResolution i /\
    FrameBufferBase i + PixelsPerScanLine i * VerticalResolution i * 4 <= 2 ^ 47 /\
    range_pages (FrameBufferBase i) (PixelsPerScanLine i * VerticalResolution i * 4) <= limit;
  su_tables : Z.of_nat (length ConfigurationTable) < 2 ^ 16 /\
    Z.of_nat (length ConfigurationTable) <= limit
}.

(** A request for the graphics output protocol that fails. *)
Definition gop_missing (fw : firmware) (log : list event) (m : mem) : Prop :=
  ok (fw log m LocateProtocol).1.1 = false.

(** ** efi_main up to framebuffer_init and from there on
    [inl true] is an end with a message, [inl false] one without. *)
Definition to_screen (fw : firmware) (fuel : nat) : io (bool + option (Z * Z) * Z) :=
  _ ← Firmware.do fw ClearScreen;
  _ ← Firmware.do fw SetWatchdogTimer;
  '(result, font) ← efi_fread fw font_name;
  if negb (result =? EFI_SUCCESS) then mret (inl true) else
  '(result, kernel) ← efi_fread fw kernel_name;
  if negb (result =? EFI_SUCCESS) then mret (inl true) else
  system ← efi_malloc fw sizeof_colonel_t;
  if system =? NULL then mret (inl false) else
  rsdp ← on_mem (fun m => r ← get_rsdp2 fuel; Ok (r, m));
  if rsdp =? NULL then mret (inl true) else mret (inr (font, rsdp)).

Definition from_screen (fw : firmware) (fuel : nat) (font : option (Z * Z)) (rsdp : Z) : io outcome :=
  fb ← framebuffer_init fw 10;
  '(font_file, font_size) ← set_by font;
  let fb := set_font fb font_file font_size in
  '(result, storage) ← reserve_pmm fw desc_at fuel junk_block;
  if negb (result =? EFI_SUCCESS) then _ ← Firmware.do fw Print; hang fw else
  pmm_store ← set_by storage;
  e ← exit_boot_services fw fuel;
  match e with
  | ExitHang => hang fw
  | ExitHalt => mret Halt
  | Exited mmap => start_kernel fuel pmm_store mmap rsdp fb
  end.

Definition stop (fw : firmware) (message : bool) : io outcome :=
  if message then (_ ← Firmware.do fw Print; hang fw) else hang fw.

Lemma efi_main_split fw fuel w :
  efi_main fw fuel w =
    (r ← to_screen fw fuel; match r with inl e => stop fw e | inr (font, rsdp) => from_screen fw fuel font rsdp end) w.
Proof.
  unfold efi_main, to_screen, main_rest.
  apply io_bind_step; intros _ w1. apply io_bind_step; intros _ w2. apply io_bind_step; intros [r1 font] w3.
  destruct (negb (r1 =? EFI_SUCCESS)); [done|]. apply io_bind_step; intros [r2 kernel] w4.
  destruct (negb (r2 =? EFI_SUCCESS)); [done|]. apply io_bind_step; intros system w5.
  destruct (system =? NULL); [done|]. apply io_bind_step; intros rsdp w6. by destruct (rsdp =? NULL).
Qed.

(** efi_main gets as far as the screen, and the graphics output protocol is missing then. *)
Definition no_gop (fw : firmware) (fuel : nat) (w : world) : Prop :=
  exists font rsdp w1, to_screen fw fuel w = Ok (inr (font, rsdp), w1) /\ gop_missing fw (w_log w1) (w_mem w1).

Section parts.
Context (fw : firmware) (cap limit n : Z) (Hfw : conforming fw cap) (Hsuit : suitable fw cap limit n).

Lemma map_success log m z p s k d m' :
  fw log m (GetMemoryMap z p) = ((EFI_SUCCESS, (s, k, d)), m') ->
  sizeof_EFI_MEMORY_DESCRIPTOR <= d /\ exists descs, s = d * Z.of_nat (length descs) /\
    memory_map limit m' p d descs (live log) (file_reads font_name log).
Proof using Hfw Hsuit.
  intros E. destruct (cf_map _ _ Hfw _ _ _ _ _ _ _ _ E) as (Hd & descs & Hs & M).
  split; [done|]. exists descs. split; [done|]. split; [done|].
  by apply (su_map _ _ _ _ Hsuit _ _ _ _ _ _ _ _ descs E).
Qed.

(** ** The storage for the memory manager *)

(** The storage is one buffer: the block slots and then the bitmap. *)
Record stored_at (q : Z) (st : pmm_storage) : Prop := {
  sa_slots : Z.of_nat (length (blocks (EfiPmm.physical_memory st))) = block_capacity st;
  sa_words : 0 <= bitmap_words st;
  sa_bitmap : q < bitmap st;
  sa_end : bitmap st + 8 * bitmap_words st = q + pmm_bytes (block_capacity st) (bitmap_words st)
}.

Lemma descriptors_map m (mm : efi_mmap_t) descs L F :
  0 < descriptorSize mm -> size mm = descriptorSize mm * Z.of_nat (length descs) ->
  memory_map limit m (start mm) (descriptorSize mm) descs L F -> descriptors desc_at m mm = descs.
Proof using Type.
  intros Hd Hs M. unfold descriptors. rewrite Hs, Z.mul_comm, Z.div_mul by lia.
  apply list_eq. intros i. rewrite list_lookup_fmap.
  destruct (descs !! i) as [x|] eqn:Hx.
  - pose proof (lookup_lt_Some _ _ _ Hx). rewrite lookup_seqZ_lt by lia. cbn. f_equal.
    rewrite <- (mp_desc _ _ _ _ _ (proj1 M) _ _ Hx). f_equal. lia.
  - apply lookup_ge_None in Hx. rewrite lookup_seqZ_ge by lia. done.
Qed.

Lemma reserved_stored w w' st :
  reserved fw cap desc_at w w' EFI_SUCCESS (Some st) -> exists q log,
    0 < q /\ stored_at q st /\ grows {[+ q +]} ∅ w w' /\
    w_log w' = existT (AllocatePool (pmm_bytes (block_capacity st) (bitmap_words st))) (EFI_SUCCESS, q) :: log.
Proof using Hfw Hsuit.
  intros (_ & w1 & mm & q & Hf & Hsz & Hlen & _ & Hq & Hend & Hb & G & log & Hlog). exists q, log.
  split; [done|]. split; [|done].
  destruct Hf as ((z & log1 & Hz & _ & m0 & Hans) & Hcap & _ & _ & _).
  destruct (map_success _ _ _ _ _ _ _ _ Hans) as (Hd & descs & Hs & M).
  unfold sizeof_EFI_MEMORY_DESCRIPTOR in Hd. destruct (su_cap _ _ _ _ Hsuit) as (_ & _ & Hc40).
  assert (Hl : 0 <= Z.of_nat (length descs) < 2 ^ 40) by nia.
  pose proof (ram_pages_nonneg _ (mp_pages _ _ _ _ _ (proj1 M))). pose proof (mp_ram _ _ _ _ _ (proj1 M)).
  assert (Hsl : 0 <= slots descs <= Z.of_nat (length descs)).
  { unfold slots. pose proof (length_filter nonempty descs). lia. }
  assert (Hd0 : 0 < descriptorSize mm) by lia.
  rewrite (descriptors_map _ _ _ _ _ Hd0 Hs M), sizes_for_eq in Hsz
    by (unfold PMM_BLOCK_SLACK; first [apply (mp_pages _ _ _ _ _ (proj1 M)) | lia]).
  injection Hsz as Hcap' Hw. unfold PMM_BLOCK_SLACK in *.
  assert (0 <= ram_pages descs / 64 < 2 ^ 46) by zlia.
  assert (Hby : pmm_bytes (block_capacity st) (bitmap_words st) =
    bitmap_offset (block_capacity st) + bitmap_words st * 8).
  { unfold pmm_bytes, bitmap_offset, sizeof_pmm, sizeof_pm_block. apply u64_small. lia. }
  rewrite Hby in Hend. split.
  - lia.
  - lia.
  - rewrite Hb. unfold bitmap_offset, sizeof_pmm, sizeof_pm_block in *. rewrite u64_small by lia. lia.
  - rewrite Hb, Hby. rewrite u64_small; unfold bitmap_offset, sizeof_pmm, sizeof_pm_block in *; lia.
Qed.

(** ** The final map *)

(** The map that build_pmm reads, once Boot Services are gone. *)
Record final_map (m : mem) (st : pmm_storage) (mm : efi_mmap_t) (descs : list efi_descriptor) : Prop := {
  fm_storage : storage_ok m st;
  fm_holds : map_holds desc_at m st mm descs;
  fm_regions : regions_ok m st descs;
  fm_low x : x ∈ descs -> mappable (init_block x) ->
    block_end (init_block x) <= 2 ^ 47 /\ NumberOfPages x <= limit;
  fm_length : Z.of_nat (length descs) <= limit
}.

(** Boot Services have just ended, with the key of the map [descs]. *)
Definition map_given (w : world) (descs : list efi_descriptor) : Prop :=
  exists z p s k d log m m',
    w_log w = existT (ExitBootServices k) EFI_SUCCESS ::
      existT (GetMemoryMap z p) (EFI_SUCCESS, (s, k, d)) :: log /\
    fw log m (GetMemoryMap z p) = ((EFI_SUCCESS, (s, k, d)), m') /\
    s = d * Z.of_nat (length descs) /\ memory_map limit m' p d descs (live log) (file_reads font_name log).

(** The last map, in memory [m] when Boot Services end: the buffers that were in use are
    still there. *)
Record left_with (w0 w : world) (mm : efi_mmap_t) (c : Z) (descs : list efi_descriptor)
    (m : mem) (F : list (Z * Z)) : Prop := {
  le_map : memory_map limit m (start mm) (descriptorSize mm) descs ((start mm, c) :: live (w_log w0)) F;
  le_reads b : b ∈ file_reads font_name (w_log w0) -> b ∈ F;
  le_extent a : is_Some (w_mem w !! a) <-> is_Some (m !! a);
  le_buffers b z x : (b, z) ∈ (start mm, c) :: live (w_log w0) -> region b z x -> w_mem w !! x = m !! x;
  le_strings msg x : reads (texts package) (message_text msg) itoa_zero (format_at msg) x -> w_mem w !! x = m !! x;
  le_size : sizeof_EFI_MEMORY_DESCRIPTOR <= descriptorSize mm /\ size mm = descriptorSize mm * Z.of_nat (length descs);
  le_fits : 0 < size mm <= c /\ size mm <= cap;
  le_buffer : 0 < start mm /\ start mm + c < 2 ^ 64 /\ end_ mm = start mm + size mm;
  le_given : map_given w descs
}.

Lemma left_map w0 w mm :
  left_boot_services fw cap w0 w mm -> exists c descs m F, left_with w0 w mm c descs m F.
Proof using Hfw Hsuit.
  intros (c & calls & r0 & m1 & m2 & Hleft). cbv zeta in Hleft. set (log := calls ++ _) in Hleft.
  destruct Hleft as (Hlog & Hmap & Hexit & Hquiet & Hsize & Hp & Hpc & Hend & Hcap & Hd & _).
  destruct (map_success _ _ _ _ _ _ _ _ Hmap) as (Hd40 & descs & Hs & M).
  destruct (cf_exit _ _ Hfw _ _ _ _ Hexit) as (Hback & Hkeep & Hstr).
  assert (HL : live log = (start mm, c) :: live (w_log w0)) by (unfold log; by rewrite live_quiet).
  exists c, descs, m2, (file_reads font_name log). split; try done.
  - rewrite <- HL. exact M.
  - apply file_reads_suffix. exists (calls ++ [existT (AllocatePool c) (EFI_SUCCESS, start mm); existT (GetMemoryMap 0 NULL) r0]).
    unfold log. by rewrite <- app_assoc.
  - intros b z x. rewrite <- HL. apply Hkeep.
  - do 8 eexists. split; [exact Hlog|]. split; [exact Hmap|]. done.
Qed.

Section final.
Context (w0 w : world) (mm : efi_mmap_t) (st : pmm_storage) (q : Z) (log : list event).
Context (c : Z) (descs : list efi_descriptor) (m2 : mem) (F : list (Z * Z)).
Context (Hst : stored_at q st) (Hq : 0 < q).
Context (Hlog : w_log w0 =
  existT (AllocatePool (pmm_bytes (block_capacity st) (bitmap_words st))) (EFI_SUCCESS, q) :: log).
Context (E : left_with w0 w mm c descs m2 F).

Lemma storage_live : live (w_log w0) = (q, pmm_bytes (block_capacity st) (bitmap_words st)) :: live log.
Proof using Hlog. by rewrite Hlog. Qed.

Lemma left_backed a z : backed m2 a z -> backed (w_mem w) a z.
Proof using E. intros B x Hx. by apply (le_extent _ _ _ _ _ _ _ E), B. Qed.

Lemma bitmap_in_storage x : bitmap_region st x -> region q (pmm_bytes (block_capacity st) (bitmap_words st)) x.
Proof using Hst. destruct Hst as [_ Swords Sbit Send]. unfold bitmap_region, region. lia. Qed.

Lemma final_map_ok : final_map (w_mem w) st mm descs.
Proof using Hfw Hsuit Hst Hq Hlog E.
  pose proof Hst as [Sslots Swords Sbit Send]. destruct E as [M _ _ Hkeep _ [Hd40 Hs] [Hsize Hcap] (Hp & Hpc & Hend) _].
  set (bytes := pmm_bytes _ _) in *. rewrite storage_live in M, Hkeep. fold bytes in M, Hkeep.
  destruct (mp_live _ _ _ _ _ (proj1 M) q bytes) as [Bq Aq]; [apply list_elem_of_further, list_elem_of_here|].
  assert (Hap : start mm + c <= q \/ q + bytes <= start mm) by exact (mp_apart _ _ _ _ _ (proj1 M) 0 1 _ _ _ _ ltac:(lia) eq_refl eq_refl).
  unfold sizeof_EFI_MEMORY_DESCRIPTOR in Hd40. split.
  - split; [done | done | lia |]. apply (backed_sub _ q bytes); [by apply left_backed | lia | lia].
  - split; [lia | lia | lia | lia |].
    intros k x m' Hk U. rewrite <- (mp_desc _ _ _ _ _ (proj1 M) k x Hk). pose proof (lookup_lt_Some _ _ _ Hk).
    apply (cf_desc _ _ Hfw). unfold sizeof_EFI_MEMORY_DESCRIPTOR. intros y Hy.
    assert (Hin : region (start mm) c y) by (unfold region in *; nia).
    rewrite (upd_outside _ _ _ U) by (unfold bitmap_region, region in *; lia).
    apply (Hkeep (start mm) c); [apply list_elem_of_here | done].
  - split.
    + intros x Hx. by apply (proj1 (List.Forall_forall _ descs) (mp_pages _ _ _ _ _ (proj1 M))), list_elem_of_In.
    + by apply (mp_geom _ _ _ _ _ (proj1 M)).
    + by apply (mp_disjoint _ _ _ _ _ (proj1 M)).
    + intros x Hx Ht. by apply left_backed, (mp_backed _ _ _ _ _ (proj1 M)).
    + intros x y Hx Ht Hy Hbit. by apply (Aq x y Hx Ht Hy), bitmap_in_storage.
  - exact (mp_low _ _ _ _ _ (proj2 M)).
  - destruct (su_cap _ _ _ _ Hsuit) as (_ & Hlim & _). nia.
Qed.

(** The font is where it was read to, so the console works. *)
Lemma final_console qf nf :
  (qf, nf) ∈ live (w_log w0) -> (qf, nf) ∈ file_reads font_name (w_log w0) -> q <> qf ->
  console_on_font (w_mem w) qf nf (kernel_writes descs (bitmap_region st)).
Proof using Hst Hlog E.
  intros HL HF Hne m0 g fuel Hf. destruct E as [M HR Hext Hkeep Hstr _ _ _ _].
  apply (list_elem_of_further _ (start mm, c)) in HL.
  destruct (mp_console _ _ _ _ _ (proj2 M) qf nf HL (HR _ HF) m0 g fuel Hf) as (ty & Hty & K).
  exists ty. split; [done|].
  apply (console_on_keep package ty (fun x => w_mem w !! x <> m2 !! x) m2 (w_mem w) _ _ _ fuel K).
  - split; [done|]. intros a Ha. by destruct (decide (w_mem w !! a = m2 !! a)).
  - intros a [Ha|[msg Ha]] Hch; apply Hch; [|by apply (Hstr msg)]. rewrite Hty in Ha. by apply (Hkeep qf nf).
  - intros a [Ha|Ha]; [by left|]. right. exists q, (pmm_bytes (block_capacity st) (bitmap_words st)).
    split; [rewrite storage_live; apply list_elem_of_further, list_elem_of_here|]. split; [done|]. by apply bitmap_in_storage.
Qed.
End final.

(** ** The kernel on the final map *)

(** A framebuffer the kernel can map. *)
Definition fb_ok (f : framebuffer_t) : Prop :=
  0 <= buffer f /\ 0 <= pixels_per_scanline f /\ 0 <= height f /\
  buffer f + fb_length f <= 2 ^ 47 /\ range_pages (buffer f) (fb_length f) <= limit.

(** The block of a region is mapped if and only if the region is. *)
Lemma mappable_block d b : block_for d b -> mappable b <-> mappable (init_block d).
Proof using Type. intros [_ _ Ht _]. unfold mappable. by rewrite Ht. Qed.

Lemma built_paging fuel m st mm descs m' (k : machine) :
  limit <= Z.of_nat fuel -> final_map m st mm descs ->
  all_built m st descs m' (Kernel.physical_memory (system k)) -> memory k = m' ->
  fb_ok (fb (system k)) -> paging_ok fuel k.
Proof using Type.
  intros Hfuel [S M R Hlow _] (ds & rest & nm & wl & Hds & _ & B) Hm (F1 & F2 & F3 & F4 & F5).
  assert (Hblock : forall i b, active (Kernel.physical_memory (system k)) i b ->
    exists d, d ∈ descs /\ block_for d b /\ (pb_map b <> NULL -> is_ram_type (Type_ d) = true)).
  { intros i b A. destruct (active_built m st m' _ ds nm wl B i b A) as (d & Hd & HC).
    exists d. split; [by apply (ds_in descs ds rest Hds _ _ Hd)|]. split; [apply HC|]. intros Hne.
    by destruct (complete_managed st m' nm d b HC Hne) as [[? _ _] _]. }
  split; rewrite ?Hm; try done; try lia.
  - by apply (built_pmm_inv m st descs R m' _ ds rest nm wl Hds B).
  - intros i b A Hmp. destruct (Hblock i b A) as (d & Hd & [Ha Ht Hty _] & _).
    destruct (Hlow d Hd) as [Hl _]; [unfold mappable in *; cbn; by rewrite <- Hty|].
    unfold block_end in *. cbn in Hl. by rewrite Ha, Ht.
  - intros i b A Hne. destruct (Hblock i b A) as (d & Hd & HF & Hram). specialize (Hram Hne).
    apply (mappable_block d b HF). unfold mappable. cbn. by destruct (Type_ d).
  - intros i b A Hmp. destruct (Hblock i b A) as (d & Hd & HF & _).
    destruct (Hlow d Hd) as [_ Hl]; [by apply (mappable_block d b)|].
    rewrite (bf_total _ _ HF). lia.
Qed.

(** What the kernel was started with, how it ended, and where it wrote. *)
Definition handed_over (descs : list efi_descriptor) (b : boot) (k : machine) : Prop :=
  exists k0 sys, pmm_inv (memory k0) (Kernel.physical_memory sys) /\
    (forall a, pmm_avail (memory k0) (Kernel.physical_memory sys) a ->
       exists d, d ∈ descs /\ free_frame d a) /\
    kernel_started k0 sys b k /\
    mem_upd (fun a => kernel_area (memory k0) (Kernel.physical_memory sys) a \/ console_area (fb sys) a)
      (memory k0) (memory k).

(** The memory of the kernel on a map: conventional memory and the bitmaps. *)
Lemma built_area m st descs m' pm' a :
  regions_ok m st descs -> all_built m st descs m' pm' -> kernel_area m' pm' a ->
  kernel_writes descs (bitmap_region st) a.
Proof using Type.
  intros R (ds & rest & nm & wl & Hds & _ & B) [Hp|(fr & Ha & Hx)].
  - right. by apply (built_priv m st m' pm' ds nm wl B).
  - left. destruct (built_avail m st descs R m' pm' ds rest nm wl Hds B fr Ha) as (i & d & Hd & Ht & _ & k & Hk & ->).
    exists d. split; [by apply (ds_in descs ds rest Hds i)|]. split; [done|]. unfold region, frame_size in *. lia.
Qed.

Lemma iwp_start_kernel fuel st mm descs rsdp m0 gop qf nf w :
  let f := screen_of (gop_mode m0 gop) qf nf in
  limit <= Z.of_nat fuel -> 0x110000 <= Z.of_nat fuel -> final_map (w_mem w) st mm descs -> fb_ok f ->
  console_on_font (w_mem w) qf nf (kernel_writes descs (bitmap_region st)) ->
  iwp (start_kernel fuel st mm rsdp f) w (fun o w' => w_log w' = w_log w /\
    exists b k, o = Started b k /\ handed_over descs b k).
Proof using Type.
  intros f Hfuel Hfuel2 FM Hf HC. pose proof FM as [S M R _ Hlen]. unfold start_kernel.
  apply iwp_bind, iwp_on_mem. wp_step.
  eapply wp_mono; [apply (wp_build_pmm desc_at (w_mem w) st mm descs S M R fuel); lia|].
  intros [m' pm'] HB. wp_ret. apply iwp_bind, iwp_on_mem. cbn [w_mem w_log]. cbv zeta. wp_step.
  set (k0 := {| memory := m'; cr := _; seg := _; system := _; screen := _ |}).
  set (sys := {| Kernel.physical_memory := pm'; pml4 := _ |}).
  destruct (HC m0 gop fuel Hfuel2) as (ty & _ & K).
  assert (U : mem_upd (bitmap_region st) (w_mem w) m') by (destruct HB as (? & ? & ? & ? & _ & _ & B); apply B).
  apply (console_on_keep _ _ _ _ _ _ _ (kernel_area m' pm') _ K) in U.
  2: { intros a Ha Hb. apply (proj2 (ck_constant _ _ _ _ _ _ K a Ha)). by right. }
  2: { intros a Ha. by apply (built_area (w_mem w) st descs m' pm'). }
  eapply wp_mono.
  { apply (wp_kernel_start package ty fuel k0 sys); [|exact U]. by apply (built_paging fuel (w_mem w) st mm descs m'). }
  intros [b k] Hk. wp_ret. apply iwp_ret. split; [done|]. exists b, k. split; [done|].
  exists k0, sys. destruct HB as (ds & rest & nm & wl & Hds & _ & B). split; [|split; [|done]].
  - by apply (built_pmm_inv (w_mem w) st descs R m' pm' ds rest nm wl).
  - intros a Ha. destruct (built_avail (w_mem w) st descs R m' pm' ds rest nm wl Hds B a Ha) as (i & d & Hd & Hfr).
    exists d. split; [|done]. by eapply ds_in.
Qed.

(** ** efi_main *)

Lemma iwp_print w (Q : Z -> world -> Prop) :
  (forall r m, Q r (logged w (existT Print r) m)) -> iwp (Firmware.do fw Print) w Q.
Proof using Hfw Hsuit. intros HQ. refine (iwp_call fw cap (cf_sound _ _ Hfw) Print w Q _). by intros r m _. Qed.

Lemma iwp_hang w (Q : outcome -> world -> Prop) :
  (forall w', Q Hang w') -> iwp (hang fw) w Q.
Proof using Hfw Hsuit. intros HQ. apply iwp_bind, iwp_print. intros r m. by apply iwp_ret. Qed.

Lemma wp_get_rsdp2 fuel : limit <= Z.of_nat fuel -> wp (get_rsdp2 fuel) (fun _ => True).
Proof using Hfw Hsuit.
  intros Hfuel. destruct (su_tables _ _ _ _ Hsuit) as [H16 Hl]. unfold get_rsdp2.
  set (N := Z.of_nat (length ConfigurationTable)) in *. wp_step. eapply wp_mono.
  - apply (wp_while (fun c => 0 <= c <= N) (fun _ => True) (fun c => N - c)); [lia | lia |].
    intros c Hc. wp_ret. destruct (Z.ltb_spec c N) as [Hlt|]; [|done]. split; [lia|].
    destruct (lookup_lt_is_Some_2 ConfigurationTable (Z.to_nat c)) as [[v t] Ht]; [unfold N in Hlt; lia|].
    rewrite Ht. wp_step. cbn [of_option wp]. destruct (CompareGuid ACPI2 v =? 0); wp_ret; [|done].
    unfold u16. rewrite Z.mod_small by lia. lia.
  - by intros [c|r].
Qed.

(** The pointer to a missing protocol is used. *)
Lemma framebuffer_init_missing margin w :
  gop_missing fw (w_log w) (w_mem w) -> framebuffer_init fw margin w = Fault.
Proof using Type.
  intros Hg. unfold gop_missing, ok in Hg. apply negb_false_iff in Hg. unfold framebuffer_init, get_gop, mbind, io_bind, Firmware.do.
  destruct (fw (w_log w) (w_mem w) LocateProtocol) as [[st g] m]. cbn [fst] in Hg.
  cbn [w_log w_mem]. rewrite Hg. cbn [w_log w_mem]. by destruct (fw (existT LocateProtocol (st, g) :: w_log w) m Print).
Qed.

Lemma iwp_framebuffer_init P w (Q : framebuffer_t -> world -> Prop) :
  (gop_missing fw (w_log w) (w_mem w) -> P) ->
  (forall f w' m gop, fb_ok f -> (forall qf nf, set_font f qf nf = screen_of (gop_mode m gop) qf nf) ->
     grows ∅ ∅ w w' -> Q f w') ->
  iwp_unless P (framebuffer_init fw 10) w Q.
Proof using Hfw Hsuit.
  intros HP HQ. destruct (ok (fw (w_log w) (w_mem w) LocateProtocol).1.1) eqn:Hok.
  2: { unfold iwp_unless. rewrite framebuffer_init_missing by done. by apply HP. }
  apply iwp_unless_of. unfold framebuffer_init, get_gop. apply iwp_bind, iwp_bind.
  refine (iwp_reply fw cap (cf_sound _ _ Hfw) LocateProtocol w _ _).
  intros [st g] m _ Hr. pose proof (cf_gop _ _ Hfw (w_log w) (w_mem w)) as Hg. rewrite Hr in Hg, Hok. cbn [fst] in Hg, Hok.
  specialize (Hg Hok). unfold ok in Hok. apply negb_true_iff in Hok. rewrite Hok. apply iwp_ret.
  rewrite (proj2 (Z.eqb_neq g NULL)) by done. apply iwp_bind, iwp_look, iwp_ret. apply (HQ _ _ m g); [|done|].
  - destruct (su_mode _ _ _ _ Hsuit m g) as (H2 & H3 & H4 & H5 & H6). done.
  - by apply grows_same, grows_refl.
Qed.

Lemma efi_main_faults fuel w : no_gop fw fuel w -> efi_main fw fuel w = Fault.
Proof using Type.
  intros (font & rsdp & w1 & E & Hg). rewrite efi_main_split. unfold mbind, io_bind. rewrite E.
  unfold from_screen, mbind, io_bind. by rewrite framebuffer_init_missing.
Qed.

(** How efi_main may end: the kernel is started right after Boot Services have ended. *)
Definition main_post (o : outcome) (w : world) : Prop :=
  match o with
  | Started b k => exists descs, map_given w descs /\ handed_over descs b k
  | _ => True
  end.

Lemma iwp_print_hang w : iwp (_ ← Firmware.do fw Print; hang fw) w main_post.
Proof using Hfw Hsuit. apply iwp_bind, iwp_print. intros r m. by apply iwp_hang. Qed.

(** From the memory manager's storage on. *)
Lemma iwp_boot fuel st q log rsdp m0 gop qf nf w :
  let f := screen_of (gop_mode m0 gop) qf nf in
  limit <= Z.of_nat fuel -> 0x110000 <= Z.of_nat fuel -> 0 <= n < Z.of_nat fuel -> fb_ok f -> stored_at q st -> 0 < q ->
  w_log w = existT (AllocatePool (pmm_bytes (block_capacity st) (bitmap_words st))) (EFI_SUCCESS, q) :: log ->
  font_held w qf nf -> q <> qf ->
  iwp (e ← exit_boot_services fw fuel;
    match e with
    | ExitHang => hang fw
    | ExitHalt => mret Halt
    | Exited mmap => start_kernel fuel st mmap rsdp f
    end) w main_post.
Proof using Hfw Hsuit.
  intros f Hfuel Hfuel2 Hn Hf Hst Hq Hlog (_ & HL & HF) Hne. apply iwp_bind. eapply iwp_mono.
  { apply (iwp_exit_boot_services fw cap (cf_sound _ _ Hfw) n fuel w); [apply (su_refuses _ _ _ _ Hsuit) | lia]. }
  intros [| |mm] w1 [_ Hex]; [by apply iwp_hang | by apply iwp_ret |].
  destruct (Hex mm eq_refl) as [_ (c & descs & m2 & F & E)%left_map].
  eapply iwp_mono.
  { apply (iwp_start_kernel fuel st mm descs rsdp m0 gop qf nf w1); [done | done | | done |].
    - by apply (final_map_ok w w1 mm st q log c descs m2 F).
    - by apply (final_console w w1 mm st q log c descs m2 F). }
  intros o w2 (Hl & b & k & -> & HH). exists descs. split; [|done].
  destruct (le_given _ _ _ _ _ _ _ E) as (z & p & s & key & d & log' & m & m' & HG). rewrite <- Hl in HG. by do 8 eexists.
Qed.

(** From the screen on. *)
Lemma iwp_from_screen P fuel w qf nf rsdp :
  limit <= Z.of_nat fuel -> 0x110000 <= Z.of_nat fuel -> 0 <= n < Z.of_nat fuel -> font_held w qf nf ->
  (gop_missing fw (w_log w) (w_mem w) -> P) ->
  iwp_unless P (from_screen fw fuel (Some (qf, nf)) rsdp) w main_post.
Proof using Hfw Hsuit.
  intros Hfuel Hfuel2 Hn HF HP. pose proof (cf_sound _ _ Hfw) as Hs. destruct (su_cap _ _ _ _ Hsuit) as (Hc0 & Hc & _).
  unfold from_screen.
  apply iwp_unless_bind', iwp_framebuffer_init; [done|]. intros f w4 m0 gop Hf Hscr G4. apply iwp_unless_bind, iwp_ret. rewrite Hscr.
  apply (font_held_grows ∅ ∅ w w4 _ _ G4) in HF.
  apply iwp_unless_bind. eapply iwp_mono; [apply (iwp_reserve_pmm fw cap Hs); lia|].
  intros [r3 storage] w5 Hres. destruct (Z.eqb_spec r3 EFI_SUCCESS) as [->|]; cbn [negb]; [|by apply iwp_unless_of, iwp_print_hang].
  apply iwp_unless_bind. destruct storage as [st|]; [|by destruct Hres]. apply iwp_ret.
  destruct (reserved_stored w4 w5 st Hres) as (q & log & Hq & Hst & G5 & Hlog).
  apply iwp_unless_of, (iwp_boot fuel st q log); try done.
  - rewrite <- Hscr. exact Hf.
  - by apply (font_held_grows _ _ _ _ _ _ G5).
  - intros ->. apply (gr_fresh _ _ _ _ G5 qf); [multiset_solver | apply HF].
Qed.

(** Up to the screen: nothing faults, and if it is reached the font is in memory. *)
Lemma iwp_to_screen fuel w : limit <= Z.of_nat fuel ->
  iwp (to_screen fw fuel) w (fun r w' =>
    match r with inl _ => True | inr (font, _) => exists qf nf, font = Some (qf, nf) /\ font_held w' qf nf end).
Proof using Hfw Hsuit.
  intros Hfuel. pose proof (cf_sound _ _ Hfw) as Hs. unfold to_screen.
  do 2 (apply iwp_bind, (iwp_call fw cap Hs); intros ? ? _).
  apply iwp_bind. eapply iwp_mono; [by apply (iwp_efi_fread fw cap Hs)|].
  intros [r1 font] w1 (Hiff1 & X1 & Hout & G1). destruct (Z.eqb_spec r1 EFI_SUCCESS) as [->|]; cbn [negb]; [|by apply iwp_ret].
  apply iwp_bind. eapply iwp_mono; [by apply (iwp_efi_fread fw cap Hs)|].
  intros [r2 kernel] w2 (_ & X2 & _ & G2). destruct (Z.eqb_spec r2 EFI_SUCCESS) as [->|]; cbn [negb]; [|by apply iwp_ret].
  destruct font as [[qf nf]|]; [|discriminate (proj2 Hiff1 eq_refl)].
  apply iwp_bind. apply (iwp_efi_malloc fw cap Hs _ w2 _ ∅ ∅ _ (grows_refl w2)).
  { intros w' _. rewrite Z.eqb_refl. by apply iwp_ret. }
  intros p w3 Hp _ G3 _. rewrite (proj2 (Z.eqb_neq p NULL)) by (unfold NULL; lia).
  apply iwp_bind, iwp_on_mem. wp_step. eapply wp_mono; [by apply wp_get_rsdp2|]. intros rsdp _. wp_ret.
  destruct (rsdp =? NULL); apply iwp_ret; [done|]. exists qf, nf. split; [done|].
  destruct w3. by apply (font_held_grows _ _ _ _ _ _ G3), (font_held_grows _ _ _ _ _ _ G2), (font_held_read _ _ _ _ Hout G1).
Qed.

Lemma iwp_efi_main fuel w :
  limit <= Z.of_nat fuel -> 0x110000 <= Z.of_nat fuel -> 0 <= n < Z.of_nat fuel ->
  iwp_unless (no_gop fw fuel w) (efi_main fw fuel) w main_post.
Proof using Hfw Hsuit.
  intros Hfuel Hfuel2 Hn. unfold iwp_unless. rewrite efi_main_split.
  eapply (iwp_unless_bind_eq (no_gop fw fuel w)); [by apply iwp_to_screen|].
  intros [e|[font rsdp]] w1 E Hto; cbn beta iota.
  - apply iwp_unless_of. destruct e; [by apply iwp_print_hang | by apply iwp_hang].
  - destruct Hto as (qf & nf & -> & HF). apply iwp_from_screen; try done. intros Hg. by exists (Some (qf, nf)), rsdp, w1.
Qed.
End parts.
End boot.
