(* ===== verification/Machine.v ===== *)
(** A small concrete machine: sixteen frames of RAM from 0x10000 on, managed by
    one block whose bitmap word lies at 0x1000.  It shows that the invariants
    the theorems assume can hold, and lets them be evaluated. *)
From coqutil Require Import Byte.
From stdpp Require Import gmap list list_numbers.
From Stdlib Require Import ZArith Lia.
From S2P Require Import Prelude Memory Physical FrameAllocator PhysicalSpec.
Local Open Scope Z_scope.

(** A machine with [n] frames of RAM (at most 64), a bitmap word [w] for them,
    and the counter [free], on top of the memory [base]. *)
Definition machine_block (n free : Z) : pm_block :=
  {| pb_address := 0x10000; pb_frames_total := n; pb_frames_free := free; pb_map := 0x1000;
     pb_type := PM_USABLE; pb_attributes := 0 |}.

Definition machine_pmm (n free : Z) : pmm :=
  {| blocks := [machine_block n free]; block_count := 1 |}.

Definition machine_on (base : mem) (n w : Z) : mem :=
  poke64 (fill (fill base 0x10000 (Z.to_nat (n * 4096)) Byte.x00) 0x1000 8 Byte.x00) 0x1000 w.
Abbreviation machine_mem := (machine_on ∅).

(** The bitmap word with the first [used] of [n] frames taken. *)
Definition machine_word (n used : Z) : Z := 2 ^ 64 - 2 ^ n + 2 ^ used - 1.

Section machine.
Context (base : mem) (n free w : Z) (Hn : 0 < n <= 63) (Hw : 0 <= w < 2 ^ 64).
Context (Hpad : forall f, n <= f < 64 -> Z.testbit w f = true).
Context (Hfree : free =
  Z.of_nat (length (filter (fun f => Z.testbit w f = false) (seqZ 0 n)))).
Let m := machine_on base n w.
Let b := machine_block n free.

Lemma machine_backed_map : backed m 0x1000 8.
Proof.
  clear. intros x Hx. unfold m, machine_on. rewrite lookup_poken. case_decide.
  - apply lookup_lt_is_Some. rewrite LittleEndianList.length_le_split. lia.
  - by rewrite lookup_fill, decide_True by lia.
Qed.

Lemma machine_backed_ram a k : 0x10000 <= a -> a + k <= 0x10000 + n * 4096 -> backed m a k.
Proof.
  clear. intros H1 H2 x Hx. unfold m, machine_on. rewrite lookup_poken, decide_False by lia.
  rewrite lookup_fill, decide_False by lia. by rewrite lookup_fill, decide_True by lia.
Qed.

Lemma machine_used f : 0 <= f < 64 -> used m b f = Z.testbit w f.
Proof.
  intros Hf. unfold used, map_word. cbn [b machine_block pb_map].
  replace (f / 64) with 0 by zlia. replace (f mod 64) with f by zlia.
  unfold m, machine_on. rewrite Z.mul_0_r, Z.add_0_r.
  by rewrite peek64_poke64_eq, u64_small by done.
Qed.

Lemma machine_words : map_words b = 1.
Proof. unfold map_words. cbn [b machine_block pb_frames_total]. zlia. Qed.

Lemma machine_managed : block_managed m b.
Proof.
  split.
  - split; cbn [b machine_block pb_address pb_frames_total]; unfold frame_size; zlia.
  - done.
  - rewrite machine_words. apply machine_backed_map.
  - cbn [b machine_block pb_frames_free]. rewrite Hfree. unfold free_count. f_equal.
    apply filter_length_ext. intros f Hf. apply elem_of_seqZ in Hf.
    change (pb_frames_total b) with n in Hf. by rewrite machine_used by lia.
  - rewrite machine_words. intros f Hf. cbn [b machine_block pb_frames_total] in Hf.
    rewrite machine_used by lia. apply Hpad. lia.
Qed.

Lemma machine_active i c : active (machine_pmm n free) i c -> i = 0 /\ c = b.
Proof.
  clear. intros [Hi Hc]. cbn [machine_pmm block_count] in Hi. assert (i = 0) as -> by lia.
  cbn in Hc. split; [done | by injection Hc].
Qed.

Lemma machine_inv : pmm_inv m (machine_pmm n free).
Proof.
  pose proof machine_managed as M. split.
  - cbn. lia.
  - intros i c A. apply machine_active in A as [-> ->]. apply M.
  - intros i c A Hm. apply machine_active in A as [-> ->]. done.
  - intros i c A _. by apply machine_active in A as [-> ->].
  - intros i j c d Hne A1 A2. apply machine_active in A1 as [-> _], A2 as [-> _]. done.
  - intros i j c d x Hne A1 A2. apply machine_active in A1 as [-> _], A2 as [-> _]. done.
  - intros a (i & c & f & (A & _ & Hf) & _ & ->). apply machine_active in A as [-> ->].
    cbn [b machine_block pb_frames_total] in Hf.
    unfold frame_addr, frame_size. cbn [b machine_block pb_address]. split; unfold frame_size.
    + lia.
    + zlia.
    + zlia.
    + apply machine_backed_ram; lia.
    + intros x Hx (j & d & A & _ & Hd). apply machine_active in A as [-> ->].
      unfold map_region, region in *. rewrite machine_words in Hd.
      cbn [b machine_block pb_map] in Hd. lia.
Qed.
End machine.

(** Outside the frames and the bitmap word the memory is [base]. *)
Lemma lookup_machine base n w x :
  0 <= n -> ~ (0x1000 <= x < 0x1008) -> ~ (0x10000 <= x < 0x10000 + n * 4096) ->
  machine_on base n w !! x = base !! x.
Proof.
  intros Hn H1 H2. unfold machine_on. rewrite lookup_poken_ne by (unfold region; lia).
  by rewrite !lookup_fill, !decide_False by lia.
Qed.

(** All the frames of such a machine free. *)
Lemma free_word n :
  0 < n <= 63 -> machine_word n 0 = Z.shiftl (Z.ones (64 - n)) n /\ 0 <= machine_word n 0 < 2 ^ 64.
Proof.
  intros Hn. assert (Hp : 2 ^ n <= 2 ^ 63) by (apply Z.pow_le_mono_r; lia).
  assert (Hp0 : 0 < 2 ^ n) by (apply Z.pow_pos_nonneg; lia).
  unfold machine_word. rewrite Z.shiftl_mul_pow2, Z.ones_equiv by lia. split; [|zlia].
  replace (2 ^ 64) with (2 ^ (64 - n) * 2 ^ n); [zlia|].
  rewrite <- Z.pow_add_r by lia. f_equal. lia.
Qed.

Lemma free_machine_inv base n :
  0 < n <= 63 -> pmm_inv (machine_on base n (machine_word n 0)) (machine_pmm n n).
Proof.
  intros Hn. destruct (free_word n Hn) as [Hw Hr]. apply machine_inv; [done | done | |].
  - intros f Hf. rewrite Hw, Z.shiftl_spec, Z.testbit_ones_nonneg by lia. apply Z.ltb_lt. lia.
  - rewrite length_filter_all; [rewrite length_seqZ; lia|].
    intros f Hf%elem_of_seqZ. by rewrite Hw, Z.shiftl_spec, Z.testbit_neg_r by lia.
Qed.

(** Sixteen frames, all free. *)
Definition m16 : mem := machine_mem 16 (machine_word 16 0).
Definition p16 : pmm := machine_pmm 16 16.

Lemma inv16 : pmm_inv m16 p16.
Proof. exact (free_machine_inv ∅ 16 ltac:(lia)). Qed.

Lemma active16 i c : active p16 i c -> i = 0 /\ c = machine_block 16 16.
Proof. apply machine_active. Qed.

Lemma used16 f : 0 <= f < 16 -> used m16 (machine_block 16 16) f = false.
Proof.
  intros Hf. unfold m16. rewrite machine_used by (done || lia).
  unfold machine_word. change (2 ^ 64 - 2 ^ 16 + 2 ^ 0 - 1) with (Z.shiftl (Z.ones 48) 16).
  by rewrite Z.shiftl_spec, Z.testbit_neg_r by lia.
Qed.

Lemma frame16 f : 0 <= f < 16 -> frame_of p16 0 (machine_block 16 16) f.
Proof. intros Hf. split; [split; [cbn; lia | done] | done]. Qed.

Lemma avail16 f : 0 <= f < 16 -> pmm_avail m16 p16 (0x10000 + f * 4096).
Proof.
  intros Hf. exists 0, (machine_block 16 16), f. split; [by apply frame16|]. by split; [apply used16|].
Qed.

(** An allocation from it succeeds. *)
Lemma alloc16 : exists r m' pm', frame_allocate m16 p16 = Ok (r, (m', pm')) /\ r <> ALL_ONES.
Proof.
  destruct (wp_inv _ _ (wp_frame_allocate m16 p16 inv16)) as ([r [m' pm']] & Hc & Hr).
  exists r, m', pm'. split; [done|]. destruct Hr as [(i & b & f & F & _ & _ & Heq)|[He _]].
  - pose proof (frame_addr_not_ones m16 p16 inv16 i b f F) as Hne. congruence.
  - pose proof (used16 0 ltac:(lia)) as Hu.
    rewrite (He 0 (machine_block 16 16) 0) in Hu; [done | done | apply frame16; lia].
Qed.
