(* ===== verification/ImageMachine.v ===== *)
(** A concrete kernel image for the witnesses: a font with one glyph, the strings of
    kernel_start, the local arrays and a screen. *)
From coqutil Require Import Byte Word.LittleEndianList.
From stdpp Require Import gmap list list_numbers strings.
From Stdlib Require Import ZArith Lia.
From S2P Require Import Prelude Memory Physical FrameAllocator PhysicalSpec LibString Stdio StdioSpec Paging Gdt Ssfn SsfnSpec Console ConsoleSpec Kernel KernelSpec KernelText KernelBoot.
Local Open Scope Z_scope.

(** ** Lists of bytes in memory *)
Definition place (m : mem) (a : Z) (l : list Z) : mem := poke m a (byte.of_Z <$> l).

Definition holds (m : mem) (a : Z) (l : list Z) : Prop :=
  forall i c, l !! i = Some c -> m !! (a + Z.of_nat i) = Some (byte.of_Z c).

Definition octets (l : list Z) : bool := forallb (fun c => (0 <=? c) && (c <? 256)) l.

Lemma lookup_place m a l x :
  place m a l !! x = if decide (a <= x < a + Z.of_nat (length l)) then byte.of_Z <$> l !! Z.to_nat (x - a) else m !! x.
Proof. unfold place. rewrite lookup_poke, length_fmap. case_decide; [|done]. by rewrite list_lookup_fmap. Qed.

Lemma holds_place m a l : holds (place m a l) a l.
Proof.
  intros i c Hi. pose proof (lookup_lt_Some _ _ _ Hi). rewrite lookup_place, decide_True by lia.
  replace (Z.to_nat (a + Z.of_nat i - a)) with i by lia. by rewrite Hi.
Qed.

Lemma holds_ext m m' a l :
  holds m a l -> (forall x, region a (Z.of_nat (length l)) x -> m' !! x = m !! x) -> holds m' a l.
Proof.
  intros Hl He i c Hi. pose proof (lookup_lt_Some _ _ _ Hi). rewrite He by (unfold region; lia). by apply Hl.
Qed.

Lemma holds_sub m a l k n l' : holds m a l -> take n (drop k l) = l' -> holds m (a + Z.of_nat k) l'.
Proof.
  intros Hl <- i c Hi. rewrite lookup_take_Some, lookup_drop in Hi. destruct Hi as [Hi _].
  replace (a + Z.of_nat k + Z.of_nat i) with (a + Z.of_nat (k + i)) by lia. by apply Hl.
Qed.

Lemma holds_backed m a l : holds m a l -> backed m a (Z.of_nat (length l)).
Proof.
  intros Hl x Hx. destruct (lookup_lt_is_Some_2 l (Z.to_nat (x - a))) as [c Hc]; [lia|].
  pose proof (Hl _ _ Hc) as Hx'. replace (a + Z.of_nat (Z.to_nat (x - a))) with x in Hx' by lia. by rewrite Hx'.
Qed.

Lemma holds_peekn m a l n : holds m a l -> length l = n -> peekn n m a = le_combine (byte.of_Z <$> l).
Proof.
  intros Hl <-. unfold peekn. f_equal. apply list_eq. intros i. rewrite !list_lookup_fmap.
  destruct (l !! i) as [c|] eqn:Hi.
  - pose proof (lookup_lt_Some _ _ _ Hi). rewrite lookup_seqZ_lt by lia. cbn. unfold byte_at. by rewrite (Hl i c Hi).
  - apply lookup_ge_None in Hi. by rewrite lookup_seqZ_ge by lia.
Qed.

Lemma holds_peek8 m a l k c : holds m a l -> l !! k = Some c -> 0 <= c < 256 -> peek8 m (a + Z.of_nat k) = c.
Proof.
  intros Hl Hk Hc. rewrite (holds_peekn m _ [c] 1); [|apply (holds_sub _ _ _ _ 1 _ Hl)|done].
  - change (le_combine (byte.of_Z <$> [c])) with (Z.lor (byte.unsigned (byte.of_Z c)) (Z.shiftl 0 8)).
    rewrite Z.shiftl_0_l, Z.lor_0_r, byte.unsigned_of_Z. unfold byte.wrap. by apply Z.mod_small.
  - by rewrite (drop_S _ _ _ Hk).
Qed.

Lemma holds_bytes m a l : holds m a l -> octets l = true -> bytes_at m a (Z.of_nat (length l)) = l.
Proof.
  intros Hl Ho. apply list_eq. intros i. destruct (l !! i) as [c|] eqn:Hi.
  - pose proof (lookup_lt_Some _ _ _ Hi). rewrite bytes_at_lookup by lia. f_equal. apply (holds_peek8 _ _ _ _ _ Hl Hi).
    unfold octets in Ho. rewrite forallb_forall in Ho. apply list_elem_of_lookup_2, list_elem_of_In, Ho in Hi. lia.
  - apply lookup_ge_None in Hi. apply lookup_ge_None. pose proof (length_bytes_at m a (Z.of_nat (length l))). lia.
Qed.

Lemma holds_cstring m a s :
  holds m a (s ++ [0]) -> octets s && forallb (fun c => negb (c =? 0)) s = true -> cstring m a s.
Proof.
  intros Hl [Ho Hn]%andb_prop. pose proof (holds_backed _ _ _ Hl) as B.
  assert (Hlen : Z.of_nat (length (s ++ [0])) = Z.of_nat (length s) + 1) by (rewrite length_app; cbn; lia).
  rewrite Hlen in B. apply cstring_intro; [done | |].
  - apply Forall_forall. intros c Hc%list_elem_of_In. rewrite forallb_forall in Hn. apply Hn in Hc. lia.
  - rewrite <- Hlen. apply holds_bytes; [done|]. unfold octets in *. rewrite forallb_app. by rewrite Ho.
Qed.

(** ** The font

    The header: the magic, a line height of 2 and the table at 32.  The table: skip 65
    characters, 'A' with one fragment at offset 62 and an advance of 1, skip the rest.
    The fragment: a bitmap of 8 by 2 pixels. *)
Definition font_bytes : list Z :=
  [83; 70; 78; 50; 66; 0; 0; 0; 0; 0; 8; 2; 0; 0; 0; 0; 32; 0; 0; 0; 0; 0; 0; 0; 0; 0; 0; 0; 0; 0; 0; 0] ++
  [0xBF; 0x80] ++ [0; 1; 8; 2; 1; 0; 0; 0; 62; 0; 0] ++ replicate 17 0xFF ++ [0x80; 1; 0x81; 0x7E].

Definition font_table (src : Z) : list (Z * Z) := [(65, src + 34)].

Section font.
Context (m : mem) (src : Z) (Hsrc : 0 < src) (F : holds m src font_bytes).

Lemma font_backed : backed m src 66.
Proof using F. exact (holds_backed _ _ _ F). Qed.

Lemma font_byte_at k : forall c, font_bytes !! k = Some c -> peek8 m (src + Z.of_nat k) = c.
Proof using F.
  intros c Hc. apply (holds_peek8 _ _ _ _ _ F Hc).
  assert (Ho : octets font_bytes = true) by (vm_compute; reflexivity). unfold octets in Ho. rewrite forallb_forall in Ho.
  apply list_elem_of_lookup_2, list_elem_of_In, Ho in Hc. lia.
Qed.

Lemma font_byte_is k c : font_bytes !! k = Some c -> byte_is m src 66 (src + Z.of_nat k) c.
Proof using F.
  intros Hc. pose proof (lookup_lt_Some _ _ _ Hc) as Hk. change (length font_bytes) with 66%nat in Hk.
  split; [unfold region; lia|].
  rewrite loadn_ok by (apply (backed_sub _ _ _ _ _ font_backed); lia). by rewrite (font_byte_at _ _ Hc).
Qed.

Lemma font_skips k i : (45 <= k <= 62)%nat -> i = 66 + (Z.of_nat k - 45) * 65536 ->
  char_table m src 66 (src + Z.of_nat k) i [].
Proof using F.
  intros Hk. remember (62 - k)%nat as n eqn:Hn. revert k Hk Hn i. induction n as [|n IH]; intros k Hk Hn i ->.
  { apply table_end. lia. }
  apply (table_skip _ _ _ _ _ 1 65536); [lia | | lia |].
  - apply skip_64k, font_byte_is. unfold font_bytes. rewrite !lookup_app_r by (cbn; lia). cbn [length Nat.sub].
    rewrite lookup_app_l by (rewrite length_replicate; lia). apply lookup_replicate_2. lia.
  - replace (src + Z.of_nat k + 1) with (src + Z.of_nat (S k)) by lia. apply IH; lia.
Qed.

Lemma font_chars : char_table m src 66 (src + 32) 0 (font_table src).
Proof using F.
  apply (table_skip _ _ _ _ _ 1 64); [lia | by apply (skip_short _ _ _ _ 0xBF); [apply (font_byte_is 32)|] | lia |].
  replace (src + 32 + 1) with (src + Z.of_nat 33) by lia.
  apply (table_skip _ _ _ _ _ 1 1); [lia | by apply (skip_short _ _ _ _ 0x80); [apply (font_byte_is 33)|] | lia |].
  replace (src + Z.of_nat 33 + 1) with (src + 34) by lia. apply (table_glyph _ _ _ _ _ 11); [lia | |].
  - exists 0, 1. split; [by apply (font_byte_is 34)|]. split; [done|]. split; [|done].
    replace (src + 34 + 1) with (src + Z.of_nat 35) by lia. by apply font_byte_is.
  - replace (src + 34 + 11) with (src + Z.of_nat 45) by lia. apply font_skips; lia.
Qed.

Lemma font_image_ok : font_ok m src 66 (font_table src).
Proof using F Hsrc.
  split; [unfold NULL; lia | exact font_backed | done | |].
  - intros k c Hc. apply font_byte_at. do 4 (destruct k as [|k]; [exact Hc|]). discriminate Hc.
  - replace (peek32 m (font_characters_offs_at src)) with 32; [exact font_chars|].
    symmetry. unfold font_characters_offs_at.
    apply (holds_peekn m (src + Z.of_nat 16) [32; 0; 0; 0] 4); [|done]. by apply (holds_sub _ _ _ _ 4 _ F).
Qed.

(** The glyph. *)
Lemma font_at a k c : a = src + Z.of_nat k -> font_bytes !! k = Some c -> peek8 m a = c.
Proof using F. intros ->. apply font_byte_at. Qed.

Lemma font_fragment :
  fragment_count m (src + 34) = 1 /\ desc_size m (src + 34) = 5 /\ desc m (src + 34) 0 = src + 40 /\
  frag m src (src + 34) 0 = src + 62 /\ frag_y m (src + 34) 0 = 0 /\
  frag_cols m src (src + 34) 0 = 8 /\ frag_rows m src (src + 34) 0 = 2.
Proof using F.
  assert (Hw : wide m (src + 34) = false) by (unfold wide; by rewrite (font_at _ 34 0) by (done || lia)).
  assert (Hs : desc_size m (src + 34) = 5) by (unfold desc_size; by rewrite Hw).
  assert (Hd : desc m (src + 34) 0 = src + 40) by (unfold desc; lia).
  assert (Hf : frag m src (src + 34) 0 = src + 62).
  { unfold frag. rewrite Hw, Hd. cbv zeta.
    by rewrite (font_at (src + 40 + 4) 44 0), (font_at (src + 40 + 3) 43 0), (font_at (src + 40 + 2) 42 62) by (done || lia). }
  split; [unfold fragment_count; by apply (font_at _ 35); [lia|]|].
  do 3 (split; [done|]). unfold frag_y, frag_cols, frag_rows. rewrite Hd, Hf.
  split; [by apply (font_at _ 41); [lia|]|].
  rewrite (font_at (src + 62) 62 128), (font_at (src + 62 + 1) 63 1) by (done || lia). done.
Qed.

Lemma font_glyph_fits : glyph_fits m src 66 2 8 (src + 34).
Proof using F.
  destruct font_fragment as (Hn & Hs & Hd & Hf & Hy & Hc & Hr).
  split; rewrite ?Hn, ?Hs; try (intros i Hi; assert (i = 0) as -> by lia; rewrite ?Hd, ?Hf, ?Hy, ?Hc, ?Hr);
    unfold in_font; intros; try lia.
  - change (2 * 8 / 8) with 2. lia.
  - by apply (font_at _ 39); [lia|].
Qed.

Lemma font_glyph unicode chr : glyph_of (font_table src) unicode = Some chr -> chr = src + 34.
Proof using Type. cbn [glyph_of font_table]. destruct (65 =? unicode); [by intros [= <-] | done]. Qed.

Lemma font_advance unicode : advance m (font_table src) unicode <= 1.
Proof using F.
  unfold advance. destruct (glyph_of (font_table src) unicode) as [chr|] eqn:Hg; [|lia].
  apply font_glyph in Hg as ->. rewrite (font_at _ 38 1); [lia | lia | done].
Qed.

Lemma font_line_height : line_height m src = 2.
Proof using F. unfold line_height, font_height_at. by apply (font_at _ 11); [lia|]. Qed.

(** On a screen of [w] by [h] pixels with the margin [g], [p] bytes per line. *)
Lemma font_screen_ok fb p :
  buffer fb <> 0 -> 0 < p -> p mod 4 = 0 -> 0 <= margin fb <= width fb - margin fb - 5 ->
  4 * (width fb - margin fb + 3) <= p -> width fb < 2 ^ 14 -> height fb < 2 ^ 14 ->
  (forall a, region src 66 a -> ~ region (buffer fb) (height fb * p) a) ->
  screen_ok m src 66 (font_table src) fb 2 8 p (height fb).
Proof using F Hsrc.
  intros Hb Hp Hp4 Hm Hw H14 Hh Hap. split; unfold right_end; try done; try lia.
  - exact font_image_ok.
  - intros unicode chr ->%font_glyph. exact font_glyph_fits.
Qed.
End font.

(** ** The strings and the local arrays

    The strings at 0x3000, each in 64 bytes; the local arrays in the page at 0x4000. *)
Definition all_messages : list message :=
  [Title; MapCopied; EntryPoint; Starting; NoDescriptor; DescriptorAt; NoBase; TableAt; NoTables; Pml4At].

Definition message_slot (msg : message) : Z :=
  match msg with
  | Title => 0 | MapCopied => 1 | EntryPoint => 2 | Starting => 3 | NoDescriptor => 4
  | DescriptorAt => 5 | NoBase => 6 | TableAt => 7 | NoTables => 8 | Pml4At => 9
  end.

#[export] Instance test_image : Image := {
  format_at msg := 0x3000 + 64 * message_slot msg;
  itoa_zero := 0x3280;
  PACKAGE_STRING := 0x32C0;
  kernel_start_at := 0x5000;
  pmm_at := 0x8000;
  output_at := 0x4000;
  temp_at := 0x4400;
  rev_at := 0x4420
}.

(** "echOS 0.1" *)
Definition package : list Z := chars "echOS 0.1".

Definition slot (s : list Z) : list Z := s ++ replicate (64 - length s) 0.
Definition string_bytes : list Z :=
  concat (slot ∘ message_text <$> all_messages) ++ slot [48] ++ slot package.

Definition with_strings (m : mem) : mem := place (fill m 0x4000 (Z.to_nat 4096) Byte.x00) 0x3000 string_bytes.

Record has_image (m : mem) : Prop := {
  hi_strings : holds m 0x3000 string_bytes;
  hi_stack : backed m 0x4000 4096
}.

Lemma length_strings : length string_bytes = 768%nat.
Proof. vm_compute. reflexivity. Qed.

Lemma with_strings_image m : has_image (with_strings m).
Proof.
  unfold with_strings. split; [exact (holds_place _ 0x3000 string_bytes)|]. intros x Hx. rewrite lookup_place, length_strings.
  case_decide; [lia|]. by apply (backed_fill m 0x4000 (Z.to_nat 4096) Byte.x00 0x4000 4096); lia.
Qed.

Lemma lookup_with_strings m x : ~ (0x3000 <= x < 0x5000) -> with_strings m !! x = m !! x.
Proof.
  intros Hx. unfold with_strings. rewrite lookup_place, length_strings, decide_False by lia.
  by rewrite lookup_fill, decide_False by lia.
Qed.

Section image.
Context (m : mem) (I : has_image m).

Lemma slot_string k s : (k * 64 + length s + 1 <= 768)%nat ->
  take (length (s ++ [0])) (drop (k * 64) string_bytes) = s ++ [0] ->
  octets s && forallb (fun c => negb (c =? 0)) s = true -> cstring m (0x3000 + Z.of_nat (k * 64)) s.
Proof using I. intros Hk Hs. apply holds_cstring. exact (holds_sub _ _ _ _ _ _ (hi_strings _ I) Hs). Qed.

Lemma message_string msg : cstring m (format_at msg) (message_text msg).
Proof using I.
  assert (Hf : format_at msg = 0x3000 + Z.of_nat (Z.to_nat (message_slot msg) * 64)) by (by destruct msg).
  rewrite Hf. destruct msg; (apply slot_string; [vm_compute; lia | vm_compute; reflexivity | vm_compute; reflexivity]).
Qed.

Lemma message_length msg : Z.of_nat (length (message_text msg)) <= 40 /\ 0 <= message_slot msg <= 9.
Proof using Type. clear. by destruct msg; vm_compute. Qed.

Lemma image_laid_out fuel msg : 1000 <= Z.of_nat fuel ->
  laid_out (texts package) (message_text msg) m 1024 fuel itoa_zero rev_at temp_at output_at (format_at msg).
Proof using I.
  intros Hf. destruct (message_length msg) as [Hl Hs]. pose proof (hi_stack _ I) as B.
  assert (Hw : forall x, writes 1024 rev_at temp_at output_at x -> 0x4000 <= x) by (unfold writes, region; cbn; lia).
  split; cbn [output_at temp_at rev_at itoa_zero format_at test_image]; try (apply (backed_sub _ _ _ _ _ B); lia); try lia.
  - split; [apply message_string|]. intros x Hx Hw'%Hw. unfold region in Hx. lia.
  - split; [by apply (slot_string 10 [48]); [vm_compute; lia | vm_compute | vm_compute]|].
    intros x Hx Hw'%Hw. unfold region in Hx. lia.
  - unfold texts. intros v s. destruct (Z.eqb_spec v PACKAGE_STRING) as [->|]; [|done]. intros [= <-].
    assert (Hp : Z.of_nat (length package) = 9) by done.
    split; [by apply (slot_string 11 package); [vm_compute; lia | vm_compute | vm_compute]|].
    split; [lia|]. intros x Hx Hw'%Hw. unfold region in Hx. cbn [PACKAGE_STRING test_image] in Hx. lia.
Qed.
End image.

(** ** The screen: 32 by 36 pixels, and more with a margin *)
Definition image_fb (g src : Z) : framebuffer_t :=
  {| width := 32 + 3 * g; height := 36 + g; pixels_per_scanline := 36 + 3 * g; margin := g;
     buffer := 0x30000; font := src; font_size := 66 |}.

Definition image_face (m : mem) (src : Z) : typeface :=
  {| face_memory := m; face_size := 66; face_table := font_table src; face_height := 2; face_width := 8;
     face_advance := 1 |}.

Lemma constant_bounds m g src a : constant_area package (image_face m src) (image_fb g src) a ->
  region src 66 a \/ 0x3000 <= a < 0x3300.
Proof.
  intros [Ha|(msg & [Ha|[Ha|(v & s & Hs & Ha)]])]; [by left | right..]; unfold region in Ha.
  - destruct (message_length msg). cbn [format_at test_image] in Ha. lia.
  - cbn [itoa_zero test_image] in Ha. lia.
  - unfold texts in Hs. destruct (Z.eqb_spec v PACKAGE_STRING) as [->|]; [|done]. injection Hs as <-.
    change (Z.of_nat (length package)) with 9 in Ha. cbn [PACKAGE_STRING test_image] in Ha. lia.
Qed.

Lemma console_bounds g src a : g = 0 \/ g = 10 -> console_area (image_fb g src) a ->
  region 0x30000 0x3000 a \/ 0x4000 <= a < 0x4500.
Proof.
  intros Hg [Ha|Ha]; [left | right].
  - unfold on_screen, screen_pitch, image_fb, region in *. cbn in Ha. destruct Hg as [-> | ->]; lia.
  - unfold writes, region in Ha. cbn [output_at temp_at rev_at test_image] in Ha. lia.
Qed.

Lemma image_console_ok m W fuel g src :
  g = 0 \/ g = 10 ->
  has_image m -> holds m src font_bytes -> backed m 0x30000 0x3000 -> 0x110000 <= Z.of_nat fuel ->
  0 < src -> src + 66 <= 0x3000 \/ 0x5000 <= src /\ src + 66 <= 0x30000 ->
  (forall a, W a -> ~ (0x3000 <= a < 0x5000) /\ ~ region src 66 a /\ ~ region 0x30000 0x3000 a) ->
  console_on package (image_face m src) m (image_fb g src) W fuel.
Proof.
  intros Hg I F B Hf H0 Hsrc HA. split; cbn [image_face face_memory face_size face_table face_height face_width face_advance].
  - done.
  - by vm_compute.
  - done.
  - apply (font_screen_ok m src H0 F); unfold region, screen_pitch; destruct Hg as [-> | ->]; cbn; try done; lia.
  - unfold screen_pitch. destruct Hg as [-> | ->]; cbn; lia.
  - unfold screen_pitch. destruct Hg as [-> | ->]; cbn; apply (backed_sub _ _ _ _ _ B); lia.
  - exact (font_advance m src F).
  - intros msg. apply (image_laid_out m I). lia.
  - intros a Ha%constant_bounds. split.
    + intros Hc%console_bounds; [|done]. unfold region in *. lia.
    + intros Hk%HA. unfold region in *. lia.
  - intros a Ha Hw. assert (Hc : region 0x30000 0x3000 a).
    { unfold on_screen, screen_pitch, image_fb, region in *. cbn in Ha. destruct Hg as [-> | ->]; lia. }
    unfold writes, region in *. cbn [output_at temp_at rev_at test_image] in Hw. lia.
  - intros a Ha%console_bounds Hk%HA; [|done]. unfold region in *. lia.
  - unfold room. cbn [font image_fb fst snd]. rewrite (font_line_height m src F). destruct Hg as [-> | ->]; by vm_compute.
Qed.

(** ** The image in memory: the font at 0x2000, three pages of memory at the screen *)
Definition image_base : mem :=
  place (with_strings (fill ∅ 0x30000 (Z.to_nat 12288) Byte.x00)) 0x2000 font_bytes.

Record shows_image (m : mem) : Prop := {
  si_font : holds m 0x2000 font_bytes;
  si_image : has_image m;
  si_screen : backed m 0x30000 0x3000
}.

Lemma shows_ext m m' :
  shows_image m ->
  (forall x, region 0x2000 66 x \/ 0x3000 <= x < 0x5000 \/ 0x30000 <= x < 0x33000 -> m' !! x = m !! x) ->
  shows_image m'.
Proof.
  intros [F [S B] Sc] He. split; [|split|].
  - apply (holds_ext _ _ _ _ F). intros x Hx. apply He. by left.
  - apply (holds_ext _ _ _ _ S). rewrite length_strings. intros x Hx. apply He. unfold region in Hx. lia.
  - intros x Hx. rewrite He by lia. by apply B.
  - intros x Hx. rewrite He by lia. by apply Sc.
Qed.

Lemma image_base_shows : shows_image image_base.
Proof.
  destruct (with_strings_image (fill ∅ 0x30000 (Z.to_nat 12288) Byte.x00)) as [S B].
  assert (Hb : forall x, 0x3000 <= x -> image_base !! x = with_strings (fill ∅ 0x30000 (Z.to_nat 12288) Byte.x00) !! x).
  { intros x Hx. unfold image_base. rewrite lookup_place, decide_False; [done|].
    change (Z.of_nat (length font_bytes)) with 66. lia. }
  split; [exact (holds_place _ 0x2000 font_bytes) | split|].
  - apply (holds_ext _ image_base _ _ S). rewrite length_strings. intros x Hx. apply Hb. unfold region in Hx. lia.
  - intros x Hx. rewrite Hb by lia. by apply B.
  - intros x Hx. rewrite Hb, lookup_with_strings by lia.
    by apply (backed_fill _ 0x30000 (Z.to_nat 12288) Byte.x00 0x30000 0x3000); lia.
Qed.
