(* ===== verification/PhysicalThm.v ===== *)
(** Theorems about the frame allocator of kernel/memory/physical.c. *)
From stdpp Require Import list relations.
From Stdlib Require Import ZArith Lia.
From S2P Require Import Prelude Memory Physical FrameAllocator PhysicalSpec Machine.
Local Open Scope Z_scope.

(** ** Undoing an allocation *)
Section undo.
Context (m : mem) (b : pm_block) (M : block_managed m b).

Lemma set_clear_word f :
  let w := peek64 m (map_word b (f / 64)) in
  used m b f = false ->
  Z.land (Z.lor w (Z.shiftl 1 (f mod 64))) (not64 (Z.shiftl 1 (f mod 64))) = w.
Proof.
  intros w Hu. pose proof (peek64_range m (map_word b (f / 64))) as Hw. fold w in Hw.
  apply Z.bits_inj'. intros j Hj. destruct (Z.lt_ge_cases j 64).
  - rewrite testbit_clear, testbit_set by zlia. destruct (Z.eqb_spec (f mod 64) j) as [<-|].
    + rewrite andb_false_r. unfold used in Hu. by fold w in Hu.
    + by rewrite orb_false_r, andb_true_r.
  - rewrite (testbit_high w 64) by lia. rewrite (testbit_high _ 64); [done | | lia].
    apply land_range; [lia|]. apply lor_range; [lia | done |]. apply shiftl_1_range. zlia.
Qed.

Lemma set_clear f :
  0 <= f < 64 * map_words b -> used m b f = false ->
  set_used (set_used m b f true) b f false = m.
Proof.
  intros Hf Hu. unfold set_used at 1. unfold set_used.
  rewrite peek64_poke64_eq, u64_small.
  - rewrite set_clear_word by done. apply poke64_restore. apply backed_word; [done | zlia].
  - apply lor_range; [lia | apply peek64_range |]. apply shiftl_1_range. zlia.
Qed.

Lemma clear_clear f :
  0 <= f < 64 * map_words b -> used m b f = false -> set_used m b f false = m.
Proof.
  intros Hf Hu. rewrite <- (set_clear f Hf Hu) at 2. unfold set_used at 2 3.
  rewrite poken_poken. rewrite peek64_poke64_eq, u64_small.
  - rewrite set_clear_word by done. unfold set_used. f_equal.
    apply Z.bits_inj'. intros j Hj. destruct (Z.lt_ge_cases j 64).
    + rewrite testbit_clear by zlia. destruct (Z.eqb_spec (f mod 64) j) as [<-|].
      * rewrite andb_false_r. unfold used in Hu. by rewrite Hu.
      * by rewrite andb_true_r.
    + rewrite !(testbit_high _ 64); try done; [apply peek64_range | apply land_range, peek64_range; lia].
  - apply lor_range; [lia | apply peek64_range |]. apply shiftl_1_range. zlia.
Qed.
End undo.

Lemma put_put pm i b c : put_block (put_block pm i b) i c = put_block pm i c.
Proof. unfold put_block. simpl. f_equal. apply list_insert_insert_eq. Qed.

(** What frame_free does to a frame of the allocator. *)
Lemma frame_free_owned m pm i b f a :
  pmm_inv m pm -> frame_of pm i b f -> frame_addr b f <= a < frame_addr b (f + 1) ->
  frame_free m pm a = Ok ((released m b f).1, put_block pm i (released m b f).2).
Proof.
  intros Hinv F Hab. destruct (wp_inv _ _ (wp_frame_free m pm Hinv a)) as (r & -> & Hr).
  destruct Hr as [(j & c & g & G & Ha & ->)|[Hno _]].
  - assert (He : frame_addr b f = frame_addr c g).
    { pose proof (geom_aligned _ (inv_geom _ _ Hinv i b (proj1 F))).
      pose proof (geom_aligned _ (inv_geom _ _ Hinv j c (proj1 G))).
      unfold frame_addr, frame_size in *. zlia. }
    by destruct (frame_of_inj m pm i j b c f g Hinv F G He) as (-> & -> & ->).
  - by destruct (Hno i b f F).
Qed.

(** ** Sequences of allocator calls

    [held] lists the frames handed out and not yet given back. *)
Inductive alloc_step : mem * pmm * list Z -> mem * pmm * list Z -> Prop :=
  | step_allocate m pm held r m' pm' :
      frame_allocate m pm = Ok (r, (m', pm')) -> r <> ALL_ONES ->
      alloc_step (m, pm, held) (m', pm', r :: held)
  | step_allocate_run m pm held count r m' pm' :
      1 <= count < 2 ^ 64 ->
      frames_allocate m pm count = Ok (r, (m', pm')) -> r <> ALL_ONES ->
      alloc_step (m, pm, held)
        (m', pm', ((fun i => r + i * frame_size) <$> seqZ 0 count) ++ held)
  | step_free m pm before a after m' pm' :
      frame_free m pm a = Ok (m', pm') ->
      alloc_step (m, pm, before ++ a :: after) (m', pm', before ++ after).

(** Held frames are distinct, not free, and still fit to be used. *)
Definition held_ok (st : mem * pmm * list Z) : Prop :=
  let '(m, pm, held) := st in
  pmm_inv m pm /\ NoDup held /\
  forall a, a ∈ held -> ~ pmm_avail m pm a /\ pmm_owned pm a /\ frame_ok m (pmm_priv pm) a.

Lemma step_keeps_ok m pm m' pm' a :
  pmm_step m pm m' pm' -> frame_ok m (pmm_priv pm) a -> frame_ok m' (pmm_priv pm') a.
Proof.
  intros (_ & U & P & _) [? ? ? Hb Hp]. split; try done.
  - by apply (mem_upd_backed _ _ _ _ _ U).
  - intros x Hx. rewrite P. by apply Hp.
Qed.

(** Frames that become held: free before, distinct, not free after. *)
Lemma held_grow m pm m' pm' held new :
  held_ok (m, pm, held) -> pmm_step m pm m' pm' -> NoDup new ->
  (forall a, a ∈ new -> pmm_avail m pm a) ->
  (forall a, pmm_avail m' pm' a <-> pmm_avail m pm a /\ a ∉ new) ->
  held_ok (m', pm', new ++ held).
Proof.
  intros (Hinv & Hnd & Hh) S Hnew Hav Hav'. split; [apply S|]. split.
  - apply NoDup_app. split; [done|]. split; [|done]. intros a Ha Hb. by destruct (Hh a Hb) as [? _]; auto.
  - intros a Ha. pose proof S as (_ & _ & _ & O).
    assert (Hok : pmm_owned pm a /\ frame_ok m (pmm_priv pm) a).
    { apply elem_of_app in Ha as [Ha|Ha]; [|by apply Hh]. split.
      - destruct (Hav a Ha) as (i & b & f & F & _ & ->). by exists i, b, f.
      - by apply (inv_avail _ _ Hinv), Hav. }
    split; [|split; [apply (pmm_layout_owned _ _ O), Hok | eapply step_keeps_ok; [exact S | apply Hok]]].
    rewrite Hav'. intros [H1 H2]. apply elem_of_app in Ha as [Ha|Ha]; [done|]. by destruct (Hh a Ha) as [? _].
Qed.

Lemma alloc_step_ok st st' : alloc_step st st' -> held_ok st -> held_ok st'.
Proof.
  intros Hstep. destruct Hstep as [m pm held r m' pm' Hc Hr|m pm held n r m' pm' Hn Hc Hr|m pm l1 a l2 m' pm' Hc];
    intros Hh; pose proof Hh as (Hinv & Hnd & Hin).
  - pose proof (wp_elim _ _ _ (fa_allocate_spec m pm Hinv) Hc) as [(? & _)|(Hav & S & Hav')]; [done|].
    apply (held_grow m pm m' pm' held [r] Hh S); [apply NoDup_singleton | |].
    + intros b ->%list_elem_of_singleton. done.
    + intros b. by rewrite Hav', list_elem_of_singleton.
  - pose proof (wp_elim _ _ _ (fa_allocate_run_spec m pm n Hinv Hn) Hc)
      as [(? & _)|(_ & Hav & S & Hav')]; [done|].
    apply (held_grow m pm m' pm' held _ Hh S).
    + apply NoDup_fmap_2; [intros x y; unfold frame_size; lia | apply NoDup_seqZ].
    + intros b (i & -> & Hi)%list_elem_of_fmap. apply elem_of_seqZ in Hi. apply Hav. lia.
    + intros b. rewrite Hav'. split; intros [H1 H2]; split; try done.
      * intros (i & -> & Hi)%list_elem_of_fmap. apply elem_of_seqZ in Hi. apply (H2 i); [lia | done].
      * intros i Hi ->. apply H2, list_elem_of_fmap. exists i. split; [done|]. apply elem_of_seqZ. lia.
  - assert (Ha : a ∈ l1 ++ a :: l2) by (apply elem_of_app; right; left).
    destruct (Hin a Ha) as (_ & Ho & Hok).
    pose proof (wp_elim _ _ _ (fa_free_spec m pm a Hinv Ho Hok) Hc) as [S Hav'].
    rewrite <- Permutation_middle in Hnd. apply NoDup_cons in Hnd as [Hna Hnd].
    split; [apply S|]. split; [done|]. intros b Hb.
    assert (Hb' : b ∈ l1 ++ a :: l2) by (rewrite elem_of_app, elem_of_cons; apply elem_of_app in Hb; tauto).
    destruct (Hin b Hb') as (Hnav & Hob & Hokb). pose proof S as (_ & _ & _ & O).
    split; [|split; [by apply (pmm_layout_owned _ _ O) | by eapply step_keeps_ok]].
    rewrite Hav'. intros [?| ->]; done.
Qed.

(** What frame_allocate does to the free frames, and which frame it takes. *)
Lemma wp_allocates_first m pm :
  pmm_inv m pm ->
  wp (frame_allocate m pm) (fun '(r, (m', pm')) =>
    (r = ALL_ONES /\ m' = m /\ pm' = pm /\ forall a, ~ pmm_avail m pm a) \/
    (pmm_avail m pm r /\ pmm_step m pm m' pm' /\
     (forall a, pmm_avail m' pm' a <-> pmm_avail m pm a /\ a <> r) /\ took_frame m pm (r, (m', pm')))).
Proof.
  intros Hinv. eapply wp_mono; [exact (wp_frame_allocate m pm Hinv) |].
  intros [r [m' pm']] [T|[He [= -> -> ->]]]; [right | left].
  - by destruct (took_frame_effect m pm Hinv r m' pm' T) as (Hav & S & Hav').
  - split; [done|]. split; [done|]. split; [done|]. intros a (i & b & f & F & Hu & _).
    pose proof F as ((Hi & _) & _). rewrite (He i b f) in Hu by (lia || done). done.
Qed.

(** ** Theorems *)

(** C1: frame_allocate implements the abstract allocator, first fit: from a consistent
    state it never faults, fails (with all ones, changing nothing) exactly when
    no frame is free, and otherwise returns the lowest free frame of the first block
    that has any, which is fit to be used, removes exactly that frame from the free set,
    keeps the state consistent, and changes nothing but the mark of that frame and the
    counter of its block. *)
Theorem frame_allocate_refines m pm :
  pmm_inv m pm ->
  wp (frame_allocate m pm) (fun '(r, (m', pm')) =>
    (r = ALL_ONES /\ m' = m /\ pm' = pm /\ forall a, ~ pmm_avail m pm a) \/
    (pmm_avail m pm r /\ frame_ok m (pmm_priv pm) r /\ pmm_step m pm m' pm' /\
     (forall a, pmm_avail m' pm' a <-> pmm_avail m pm a /\ a <> r) /\
     exists i b f, active pm i b /\ first_free m b f /\ exhausted m pm i /\ r = frame_addr b f /\
       m' = set_used m b f true /\
       pm' = put_block pm i (set_frames_free b (pb_frames_free b - 1)))).
Proof.
  intros Hinv. eapply wp_mono; [exact (wp_allocates_first m pm Hinv) |].
  intros [r [m' pm']] [H|(Hav & S & Hav' & T)]; [by left | right].
  split; [done|]. split; [by apply (inv_avail _ _ Hinv)|]. split; [done|]. split; [done|].
  destruct T as (i & b & f & F & Hf & He & [= -> -> ->]). exists i, b, f. by split; [apply F|].
Qed.

Lemma frame_allocate_refines_witness :
  pmm_inv m16 p16 /\ (exists a, pmm_avail m16 p16 a) /\
  wp (frame_allocate m16 p16) (fun '(r, (m', pm')) =>
    (r = ALL_ONES /\ m' = m16 /\ pm' = p16 /\ forall a, ~ pmm_avail m16 p16 a) \/
    (pmm_avail m16 p16 r /\ frame_ok m16 (pmm_priv p16) r /\ pmm_step m16 p16 m' pm' /\
     (forall a, pmm_avail m' pm' a <-> pmm_avail m16 p16 a /\ a <> r) /\
     exists i b f, active p16 i b /\ first_free m16 b f /\ exhausted m16 p16 i /\ r = frame_addr b f /\
       m' = set_used m16 b f true /\
       pm' = put_block p16 i (set_frames_free b (pb_frames_free b - 1)))).
Proof.
  split; [exact inv16|]. split; [exists (0x10000 + 0 * 4096); apply avail16; lia|].
  exact (frame_allocate_refines m16 p16 inv16).
Defined.

(** C2: contiguous allocation: frames_allocate fails without effect exactly when
    no single block has a run of [count] free frames; otherwise it claims the
    lowest such run of the first block that has one, and precisely those frames
    leave the free set. *)
Theorem frames_allocate_refines m pm count :
  pmm_inv m pm -> 1 <= count < 2 ^ 64 ->
  wp (frames_allocate m pm count) (fun '(r, (m', pm')) =>
    (r = ALL_ONES /\ m' = m /\ pm' = pm /\
     forall i b, active pm i b -> pb_map b <> NULL -> no_run m b count) \/
    (exists i b s, active pm i b /\ first_run m b s count /\ r = frame_addr b s /\
     (forall j c, j < i -> active pm j c -> pb_map c <> NULL -> no_run m c count) /\
     (forall k, 0 <= k < count -> pmm_avail m pm (r + k * frame_size)) /\
     pmm_step m pm m' pm' /\
     forall a, pmm_avail m' pm' a <->
       pmm_avail m pm a /\ forall k, 0 <= k < count -> a <> r + k * frame_size)).
Proof.
  intros Hinv Hc. eapply wp_mono; [by apply wp_frames_allocate |].
  intros [r [m' pm']] [T|[Hno [= -> -> ->]]]; [right | by left].
  destruct (took_frames_effect m pm Hinv count r m' pm' ltac:(lia) T) as (_ & Hav & S & Hav').
  destruct T as (i & b & s & m1 & b' & A & Hm & F & Hearlier & _ & Hr).
  exists i, b, s. split; [done|]. split; [done|]. split; [congruence|]. done.
Qed.

Lemma frames_allocate_refines_witness :
  pmm_inv m16 p16 /\ 1 <= 3 < 2 ^ 64 /\
  wp (frames_allocate m16 p16 3) (fun '(r, (m', pm')) =>
    (r = ALL_ONES /\ m' = m16 /\ pm' = p16 /\
     forall i b, active p16 i b -> pb_map b <> NULL -> no_run m16 b 3) \/
    (exists i b s, active p16 i b /\ first_run m16 b s 3 /\ r = frame_addr b s /\
     (forall j c, j < i -> active p16 j c -> pb_map c <> NULL -> no_run m16 c 3) /\
     (forall k, 0 <= k < 3 -> pmm_avail m16 p16 (r + k * frame_size)) /\
     pmm_step m16 p16 m' pm' /\
     forall a, pmm_avail m' pm' a <->
       pmm_avail m16 p16 a /\ forall k, 0 <= k < 3 -> a <> r + k * frame_size)).
Proof.
  split; [exact inv16|]. split; [lia|]. apply (frames_allocate_refines m16 p16 3 inv16). lia.
Defined.

(** C3: frame_free accepts any address: the frame it falls into becomes free if a
    block with a bitmap contains it, provided it is fit to be handed out again;
    an address of no block, or of an unmanaged one, changes nothing.  The state
    stays consistent and the counters exact. *)
Theorem frame_free_refines m pm a :
  let page := a - a mod frame_size in
  pmm_inv m pm -> (pmm_owned pm page -> frame_ok m (pmm_priv pm) page) ->
  wp (frame_free m pm a) (fun '(m', pm') =>
    pmm_step m pm m' pm' /\
    (forall x, pmm_avail m' pm' x <-> pmm_avail m pm x \/ (pmm_owned pm page /\ x = page)) /\
    (~ pmm_owned pm page -> m' = m /\ pm' = pm)).
Proof.
  intros page Hinv Hok. eapply wp_mono; [by apply wp_frame_free |].
  intros [m' pm'] [G|[Hno [= -> ->]]].
  - assert (Ho : pmm_owned pm page).
    { destruct G as (i & b & f & F & Ha & _). exists i, b, f. split; [done|].
      pose proof (geom_aligned _ (inv_geom _ _ Hinv i b (proj1 F))).
      subst page. unfold frame_addr, frame_size in *. zlia. }
    destruct (gave_frame_effect m pm Hinv a m' pm' G (Hok Ho)) as [S Hav].
    split; [done|]. split; [|done]. intros x. rewrite Hav. subst page. tauto.
  - assert (Hno' : ~ pmm_owned pm page).
    { intros (i & b & f & F & Hp). apply (Hno i b f F).
      subst page. unfold frame_addr, frame_size in *. zlia. }
    split; [split; [done|]; done|]. split; [|done]. intros x. tauto.
Qed.

Lemma frame_free_refines_witness :
  pmm_inv m16 p16 /\
  wp (frame_free m16 p16 0x11234) (fun '(m', pm') =>
    pmm_step m16 p16 m' pm' /\
    (forall x, pmm_avail m' pm' x <-> pmm_avail m16 p16 x \/
       (pmm_owned p16 (0x11234 - 0x11234 mod frame_size) /\ x = 0x11234 - 0x11234 mod frame_size)) /\
    (~ pmm_owned p16 (0x11234 - 0x11234 mod frame_size) -> m' = m16 /\ pm' = p16)).
Proof.
  split; [exact inv16|]. apply (frame_free_refines m16 p16 0x11234 inv16).
  intros _. apply (inv_avail _ _ inv16). exact (avail16 1 ltac:(lia)).
Defined.

(** First fit: the frame frame_allocate returns is the lowest free frame of
    the first block that has any, and exactly the mark of that frame and the
    counter of that block change. *)
Theorem frame_allocate_first_fit m pm r m' pm' :
  pmm_inv m pm -> frame_allocate m pm = Ok (r, (m', pm')) -> r <> ALL_ONES ->
  exists i b f, active pm i b /\ first_free m b f /\ exhausted m pm i /\ r = frame_addr b f /\
    m' = set_used m b f true /\
    pm' = put_block pm i (set_frames_free b (pb_frames_free b - 1)).
Proof.
  intros Hinv Hc Hr. pose proof (wp_elim _ _ _ (wp_frame_allocate m pm Hinv) Hc) as [T|[_ [= ? _ _]]]; [|done].
  destruct T as (i & b & f & F & Hf & He & [= -> -> ->]). exists i, b, f. by split; [apply F|].
Qed.

Lemma frame_allocate_first_fit_witness :
  exists r m' pm', frame_allocate m16 p16 = Ok (r, (m', pm')) /\ r <> ALL_ONES /\
  exists i b f, active p16 i b /\ first_free m16 b f /\ exhausted m16 p16 i /\ r = frame_addr b f /\
    m' = set_used m16 b f true /\
    pm' = put_block p16 i (set_frames_free b (pb_frames_free b - 1)).
Proof.
  destruct alloc16 as (r & m' & pm' & Hc & Hne).
  exists r, m', pm'. split; [exact Hc|]. split; [exact Hne|].
  exact (frame_allocate_first_fit m16 p16 r m' pm' inv16 Hc Hne).
Defined.

(** Freeing the frame that frame_allocate just returned restores memory and
    allocator exactly, bit for bit. *)
Theorem allocate_free_roundtrip m pm r m' pm' :
  pmm_inv m pm -> frame_allocate m pm = Ok (r, (m', pm')) -> r <> ALL_ONES ->
  frame_free m' pm' r = Ok (m, pm).
Proof.
  intros Hinv Hc Hr. pose proof (wp_elim _ _ _ (wp_frame_allocate m pm Hinv) Hc) as [T|[_ [= ? _ _]]]; [|done].
  destruct (took_frame_effect m pm Hinv r m' pm' T) as (_ & (Hinv' & _) & _).
  destruct T as (i & b & f & F & (Hf & Hu & _) & _ & [= -> -> ->]).
  pose proof (managed_of m pm Hinv i b f F) as M. pose proof (map_words_bounds b (mng_geom _ _ M)).
  set (b' := set_frames_free b (pb_frames_free b - 1)) in *.
  assert (F' : frame_of (put_block pm i b') i b' f).
  { destruct F as (A & Hm & _). split; [|done]. apply (active_put pm i b A). by left. }
  change (frame_addr b f) with (frame_addr b' f). rewrite (frame_free_owned _ _ i b' f _ Hinv' F') by (unfold frame_addr, frame_size; lia).
  unfold released. change (used (set_used m b f true) b' f) with (used (set_used m b f true) b f).
  rewrite used_set_used, decide_True by done. cbn [fst snd].
  change (set_used (set_used m b f true) b' f false) with (set_used (set_used m b f true) b f false).
  rewrite set_clear by (done || lia). rewrite put_put. do 2 f_equal.
  replace (set_frames_free b' (pb_frames_free b' + 1)) with b.
  - by apply put_block_same, F.
  - unfold b', set_frames_free. destruct b. cbn. f_equal. lia.
Qed.

Lemma allocate_free_roundtrip_witness :
  exists r m' pm', frame_allocate m16 p16 = Ok (r, (m', pm')) /\ r <> ALL_ONES /\
    frame_free m' pm' r = Ok (m16, p16).
Proof.
  destruct alloc16 as (r & m' & pm' & Hc & Hne).
  exists r, m', pm'. split; [exact Hc|]. split; [exact Hne|].
  exact (allocate_free_roundtrip m16 p16 r m' pm' inv16 Hc Hne).
Defined.

(** A double free is harmless: freeing a frame that is already free, at any
    address inside it, changes neither memory nor counters. *)
Theorem double_free_noop m pm i b f a :
  pmm_inv m pm -> frame_of pm i b f -> used m b f = false ->
  frame_addr b f <= a < frame_addr b (f + 1) ->
  frame_free m pm a = Ok (m, pm).
Proof.
  intros Hinv F Hu Ha. rewrite (frame_free_owned m pm i b f a Hinv F Ha).
  pose proof (managed_of m pm Hinv i b f F) as M. pose proof (map_words_bounds b (mng_geom _ _ M)).
  unfold released. rewrite Hu. cbn [fst snd].
  rewrite (clear_clear m b M f) by (done || (destruct F as (_ & _ & ?); lia)).
  by rewrite (put_block_same _ _ _ (proj1 F)).
Qed.

Lemma double_free_noop_witness :
  pmm_inv m16 p16 /\ frame_of p16 0 (machine_block 16 16) 5 /\
  used m16 (machine_block 16 16) 5 = false /\
  frame_free m16 p16 0x15678 = Ok (m16, p16).
Proof.
  split; [exact inv16|]. split; [apply frame16; lia|]. split; [apply used16; lia|].
  apply (double_free_noop m16 p16 0 (machine_block 16 16) 5 0x15678 inv16);
    [apply frame16; lia | apply used16; lia | unfold frame_addr, frame_size; simpl; lia].
Defined.

(** C10: no frame is ever handed out twice: along any sequence of frame_allocate,
    frames_allocate and frame_free of held frames, the held frames stay pairwise
    distinct, none of them is free, and all remain usable. *)
Theorem held_frames_distinct m pm st :
  pmm_inv m pm -> rtc alloc_step (m, pm, []) st -> held_ok st.
Proof.
  intros Hinv Hsteps.
  assert (H0 : held_ok (m, pm, [])).
  { split; [done|]. split; [apply NoDup_nil_2|]. intros a Ha. by apply not_elem_of_nil in Ha. }
  induction Hsteps as [|s1 s2 s3 Hstep _ IH]; [done|]. apply IH. by eapply alloc_step_ok.
Qed.

Lemma held_frames_distinct_witness :
  exists r m' pm', rtc alloc_step (m16, p16, []) (m', pm', [r]) /\ held_ok (m', pm', [r]).
Proof.
  destruct alloc16 as (r & m' & pm' & Hc & Hne).
  assert (Hs : rtc alloc_step (m16, p16, []) (m', pm', [r])) by (apply rtc_once; by constructor).
  exists r, m', pm'. split; [exact Hs|]. exact (held_frames_distinct m16 p16 _ inv16 Hs).
Defined.
