(* ===== verification/PagingThm.v ===== *)
(** Theorems about the page tables of kernel/memory/paging.c. *)
From stdpp Require Import gmap.
From Stdlib Require Import ZArith Lia.
From S2P Require Import Prelude Memory Physical FrameAllocator PhysicalSpec LibString Paging PagingSpec Mapping MapRange Machine.
Local Open Scope Z_scope.

(** ** A concrete PML4, and one with a page *)

(** Whether an operation returned [r]; the memory it leaves is not compared. *)
Definition returned {S} (c : res (Z * S)) (r : Z) : bool :=
  match c with Ok (r', _) => r' =? r | _ => false end.

Lemma returned_Ok {S} (c : res (Z * S)) r : returned c r = true -> { s | c = Ok (r, s) }.
Proof.
  destruct c as [[r' s]| |]; cbn; try done. intros H. exists s.
  by apply Z.eqb_eq in H as ->.
Defined.

Definition pml4_16 : Z := 0x10000.

Lemma init_pml4_runs : returned (init_pml4 m16 p16) pml4_16 = true.
Proof. vm_compute. reflexivity. Qed.

Definition tabled_run := returned_Ok (init_pml4 m16 p16) pml4_16 init_pml4_runs.
Notation tabled := (proj1_sig tabled_run).

Lemma init_pml4_16 : init_pml4 m16 p16 = Ok (pml4_16, tabled).
Proof. exact (proj2_sig tabled_run). Qed.

Lemma init_pml4_ok m s r m' s' :
  fa_inv m s -> init_pml4 m s = Ok (r, (m', s')) -> r <> NULL ->
  fa_inv m' s' /\ tables_ok m' s' {[r := 4%nat]} r.
Proof.
  intros Hinv Hc Hr. pose proof (init_pml4_spec m s Hinv) as Hw. rewrite Hc in Hw.
  destruct Hw as [[Hn _]|(_ & OK & S & _)]; [done|]. split; [apply S | done].
Qed.

Lemma tabled_ok : fa_inv tabled.1 tabled.2 /\ tables_ok tabled.1 tabled.2 {[pml4_16 := 4%nat]} pml4_16.
Proof.
  apply (init_pml4_ok m16 p16); [exact inv16 | | done].
  rewrite <- surjective_pairing. exact init_pml4_16.
Qed.

Lemma flags_small flags : 0 <= flags < 4096 -> flags_ok flags.
Proof.
  intros Hf. split; [zlia|]. rewrite land_mask.
  replace (flags / 4096) with 0 by zlia. done.
Qed.

Lemma page_runs : returned (map_page tabled.1 tabled.2 pml4_16 0x400000 0x15000 2) 0 = true.
Proof. vm_compute. reflexivity. Qed.

Definition paged_run := returned_Ok (map_page tabled.1 tabled.2 pml4_16 0x400000 0x15000 2) 0 page_runs.
Notation paged := (proj1_sig paged_run).

Section facts.
Context {A : Type} `{FrameAllocatorLaws A}.
Implicit Types (m : mem) (s : A) (T : gmap Z nat) (root : Z).

(** The tables stay well formed, and the tables, the allocator's free frames
    and the memory written account for each other: a frame that is no longer
    available holds a table, and only the allocator's data and tables change. *)
Definition accounted m s T root m' s' : Prop :=
  fa_inv m' s' /\ exists T', T ⊆ T' /\ tables_ok m' s' T' root /\
    (forall a, avail m' s' a <-> avail m s a /\ T' !! a = None) /\
    (forall x, ~ priv s x -> (forall a l, T' !! a = Some l -> ~ region a frame_size x) ->
       m' !! x = m !! x).

Lemma step_accounted m s T root m' s' T' :
  tables_step m s T m' s' T' -> tables_ok m' s' T' root -> accounted m s T root m' s'.
Proof.
  intros S OK. split; [apply S|]. exists T'. split; [apply S|]. split; [done|].
  split; [apply S|]. intros x Hp Hx. apply (upd_outside _ _ _ (ts_upd _ _ _ _ _ _ S)).
  intros [?|(a & l & Ha & Hr)]; [done | by apply (Hx a l)].
Qed.

(** The translation after the page of [va] has been mapped to [pa]. *)
Definition page_mapped m root m' va pa : Prop :=
  forall vb, translate m' root vb =
    if decide (page 1 vb = page 1 va) then Some (target pa + vb mod page_size)
    else translate m root vb.

Lemma mapped_page_mapped m root m' va pa flags :
  flags_ok flags -> mapped 1 (init_pt_entry pa (Z.lor flags PRESENT_BIT)) m root m' va ->
  page_mapped m root m' va pa.
Proof.
  intros Hfl [Hin Hout] vb. unfold translate. case_decide as Hp; [|by rewrite Hout].
  rewrite Hin by done. cbn. destruct (leaf_entry pa flags Hfl) as (_ & _ & ->).
  pose proof (target_range pa) as [_ Hal]. destruct span_values as [-> _].
  f_equal. unfold page_size. zlia.
Qed.

Lemma covered_page_mapped m root m' va pa :
  unmoved m root m' -> covered m root va pa -> page_mapped m root m' va pa.
Proof.
  intros Hw Hc vb. assert (He : translate m' root vb = translate m root vb)
    by (unfold translate; by rewrite Hw).
  rewrite He. case_decide as Hp; [by apply Hc | done].
Qed.
End facts.

(** The function init_pml4 returns NULL, without effect, only when no frame is free, and
    otherwise a frame that was free, now holding a well-formed PML4 that
    translates no address; nothing else changed hands. *)
Theorem init_pml4_empty {A} `{FrameAllocatorLaws A} m (s : A) :
  fa_inv m s ->
  wp (init_pml4 m s) (fun '(pml4, (m', s')) =>
    (pml4 = NULL /\ m' = m /\ s' = s /\ forall a, ~ avail m s a) \/
    (avail m s pml4 /\ accounted m s ∅ pml4 m' s' /\ forall va, translate m' pml4 va = None)).
Proof.
  intros Hinv. eapply wp_mono; [by apply init_pml4_spec |].
  intros [r [m' s']] [?|(Hav & OK & S & Hw)]; [by left | right].
  split; [done|]. split; [by eapply step_accounted|]. intros va. unfold translate. by rewrite Hw.
Qed.

Lemma init_pml4_empty_witness :
  fa_inv m16 p16 /\
  wp (init_pml4 m16 p16) (fun '(pml4, (m', s')) =>
    (pml4 = NULL /\ m' = m16 /\ s' = p16 /\ forall a, ~ avail m16 p16 a) \/
    (avail m16 p16 pml4 /\ accounted m16 p16 ∅ pml4 m' s' /\
     forall va, translate m' pml4 va = None)).
Proof. split; [exact inv16|]. exact (init_pml4_empty m16 p16 inv16). Defined.

(** C4: map_page on well-formed tables returns 0 or -1.  After 0 the page of the
    address translates to the given frame and every other address translates as
    before; after -1 no translation has changed and either no frame is left for
    a table or a 2 MiB page maps the address elsewhere.  Frames are only taken for tables
    and only tables and the allocator's data are written. *)
Theorem map_page_correct {A} `{FrameAllocatorLaws A} m (s : A) T root vaddr paddr flags :
  fa_inv m s -> tables_ok m s T root -> flags_ok flags ->
  wp (map_page m s root vaddr paddr flags) (fun '(r, (m', s')) =>
    accounted m s T root m' s' /\
    ((r = 0 /\ page_mapped m root m' vaddr paddr) \/
     (r = -1 /\ unmoved m root m' /\ (no_frame m' s' \/ blocked m' root vaddr paddr)))).
Proof.
  intros Hinv OK Hfl. eapply wp_mono; [by apply (map_page_spec (eq vaddr) m s T root) |].
  intros [r [m' s']] (T' & S & OK' & _ & Hc). split; [by eapply step_accounted|].
  destruct Hc as [(-> & Hm)|[(-> & Hw & Hcov)|?]]; [left | left | by right]; (split; [done|]).
  - by eapply mapped_page_mapped.
  - by apply covered_page_mapped.
Qed.

Lemma map_page_correct_witness :
  (exists ms, map_page tabled.1 tabled.2 pml4_16 0x400000 0x15000 2 = Ok (0, ms)) /\
  wp (map_page tabled.1 tabled.2 pml4_16 0x400000 0x15000 2) (fun '(r, (m', s')) =>
    accounted tabled.1 tabled.2 {[pml4_16 := 4%nat]} pml4_16 m' s' /\
    ((r = 0 /\ page_mapped tabled.1 pml4_16 m' 0x400000 0x15000) \/
     (r = -1 /\ unmoved tabled.1 pml4_16 m' /\
      (no_frame m' s' \/ blocked m' pml4_16 0x400000 0x15000)))).
Proof.
  split; [exists paged; exact (proj2_sig paged_run)|].
  apply (map_page_correct tabled.1 tabled.2 {[pml4_16 := 4%nat]} pml4_16 0x400000 0x15000 2);
    [apply tabled_ok | apply tabled_ok | apply flags_small; lia].
Defined.


Lemma large_runs :
  returned (map_large_page tabled.1 tabled.2 pml4_16 0x400000 0x200000 2) 0 = true.
Proof. vm_compute. reflexivity. Qed.


(** Remapping: if the page table of the address already exists, map_page
    cannot fail, and it replaces whatever entry the page had, a present one
    included, by the new leaf entry (physical address, flags, present bit). *)
Theorem map_page_overwrites {A} `{FrameAllocatorLaws A} m (s : A) T root vaddr paddr flags pt :
  fa_inv m s -> tables_ok m s T root -> flags_ok flags -> reach 4 1 m root vaddr = Some pt ->
  wp (map_page m s root vaddr paddr flags) (fun '(r, (m', s')) =>
    r = 0 /\ page_mapped m root m' vaddr paddr /\
    forall vb, page 1 vb = page 1 vaddr ->
      snd <$> walk 4 m' root vb = Some (Z.lor (target paddr) (Z.lor flags PRESENT_BIT))).
Proof.
  intros Hinv OK Hfl Hpt. eapply wp_mono; [by apply (map_page_remaps (eq vaddr) m s T root vaddr paddr flags pt) |].
  intros [r [m' s']] [-> Hm]. split; [done|]. split; [by eapply mapped_page_mapped|].
  intros vb Hp. by rewrite (proj1 Hm).
Qed.

Lemma paged_ok : fa_inv paged.1 paged.2 /\ exists T, tables_ok paged.1 paged.2 T pml4_16.
Proof.
  destruct tabled_ok as [Hinv OK]. pose proof (map_page_spec (eq 0x400000) tabled.1 tabled.2 _ pml4_16
    0x400000 0x15000 2 eq_refl Hinv OK (flags_small 2 ltac:(lia))) as Hw.
  rewrite (proj2_sig paged_run) in Hw. revert Hw. generalize paged. intros [m' s'] (T' & S & OK' & _).
  split; [apply S | by exists T'].
Qed.

(** The page table of 0x400000 after it has been mapped. *)
Lemma paged_table : reach 4 1 paged.1 pml4_16 0x400000 = Some 0x13000.
Proof. vm_compute. reflexivity. Qed.

Lemma paged_translate : translate paged.1 pml4_16 0x400123 = Some 0x15123.
Proof. vm_compute. reflexivity. Qed.

Lemma map_page_overwrites_witness :
  translate paged.1 pml4_16 0x400123 = Some 0x15123 /\
  wp (map_page paged.1 paged.2 pml4_16 0x400000 0x19000 2) (fun '(r, (m', s')) =>
    r = 0 /\ page_mapped paged.1 pml4_16 m' 0x400000 0x19000 /\
    forall vb, page 1 vb = page 1 0x400000 ->
      snd <$> walk 4 m' pml4_16 vb = Some (Z.lor (target 0x19000) (Z.lor 2 PRESENT_BIT))).
Proof.
  split; [exact paged_translate|]. destruct paged_ok as [Hinv [T OK]].
  exact (map_page_overwrites paged.1 paged.2 T pml4_16 0x400000 0x19000 2 0x13000 Hinv OK
           (flags_small 2 ltac:(lia)) paged_table).
Defined.

Section ranges.
Context {A : Type} `{FrameAllocatorLaws A}.

(** The pages of [align_down vaddr, end) translate linearly to the frames from
    [align_down paddr] on; addresses in no such page translate as before. *)
Definition range_mapped m root m' vaddr paddr end_ : Prop :=
  (forall va, align_down vaddr <= va < end_ ->
     translate m' root va = Some (align_down paddr + (va - align_down vaddr))) /\
  (forall vb, (forall va, align_down vaddr <= va < end_ -> page 1 vb <> page 1 va) ->
     translate m' root vb = translate m root vb).

(** A prefix of the pages of a range, as loop_inv tracks it. *)
Lemma prefix_mapped m root vaddr paddr k m' :
  0 <= vaddr -> 0 <= k -> mapped_pages m root (align_down vaddr) (align_down paddr) k m' ->
  range_mapped m root m' vaddr paddr (align_down vaddr + page_size * k).
Proof.
  intros Hv Hk [Hin Hout]. pose proof (align_down_spec vaddr Hv) as (Hal & _ & Hnn).
  split.
  - intros va Hva. rewrite (Hin ((va - align_down vaddr) / page_size) va).
    + f_equal. unfold page_size in *. zlia.
    + unfold page_size in *. zlia.
    + rewrite page_off by done. unfold page. destruct span_values as [-> _].
      change (9 * (5 - Z.of_nat 1)) with 36. unfold page_size in *. f_equal. zlia.
  - intros vb Hno. unfold translate. rewrite Hout; [done|]. intros i Hi. apply Hno.
    unfold page_size in *. lia.
Qed.

Lemma prefix_weaken m root m' vaddr paddr e1 e2 :
  e2 <= e1 -> (forall va, e2 <= va < e1 -> align_down vaddr <= va ->
    exists vb, page 1 va = page 1 vb /\ align_down vaddr <= vb < e2) ->
  range_mapped m root m' vaddr paddr e1 -> range_mapped m root m' vaddr paddr e2.
Proof.
  intros He Hcov [Hin Hout]. split.
  - intros va Hva. apply Hin. lia.
  - intros vb Hno. apply Hout. intros va Hva. destruct (decide (va < e2)).
    + apply Hno. lia.
    + destruct (Hcov va) as (vc & -> & Hvc); [lia.. |]. by apply Hno.
Qed.

(** All the pages of the range. *)
Lemma all_mapped m s T root vaddr paddr length m' s' :
  0 <= vaddr -> 0 <= length ->
  range_state m s T root (align_down vaddr) (align_down paddr) (range_pages vaddr length) (range_pages vaddr length) m' s' ->
  0 < length -> range_mapped m root m' vaddr paddr (vaddr + length).
Proof.
  intros Hv Hl Hst Hpos. pose proof (align_down_spec vaddr Hv) as (Hal & Hb & Hnn).
  pose proof (range_pages_spec vaddr length Hl) as [HN Hends]. cbv zeta in Hends.
  apply (prefix_weaken _ _ _ _ _ (align_down vaddr + page_size * range_pages vaddr length));
    [lia | | apply prefix_mapped; [lia | lia | apply Hst]].
  intros va H1 H2. exists (Z.max (align_down vaddr) (align_down va)).
  unfold page. destruct span_values as [-> _]. change (9 * (5 - Z.of_nat 1)) with 36.
  unfold align_down, page_size in *. split; [f_equal; zlia | zlia].
Qed.
End ranges.

(** C5: map_range terminates within one iteration per page.  If it returns 0,
    every address of the range translates linearly to the frames from [paddr]
    on and all other pages are untouched; if it returns -1, exactly a prefix of
    the pages is mapped that way, and no frame is left for a table or a 2 MiB
    page maps the first unmapped one elsewhere. *)
Theorem map_range_correct {A} `{FrameAllocatorLaws A} fuel m (s : A) T root vaddr paddr length flags :
  fa_inv m s -> tables_ok m s T root -> range_ok vaddr paddr length flags -> 0 < length ->
  range_pages vaddr length <= Z.of_nat fuel ->
  wp (map_range fuel m s root vaddr paddr length flags) (fun '(r, (m', s')) =>
    accounted m s T root m' s' /\
    ((r = 0 /\ range_mapped m root m' vaddr paddr (vaddr + length)) \/
     (r = -1 /\ exists k, 0 <= k < range_pages vaddr length /\
        range_mapped m root m' vaddr paddr (align_down vaddr + page_size * k) /\
        (no_frame m' s' \/ blocked m' root (align_down vaddr + page_size * k) (align_down paddr + page_size * k))))).
Proof.
  intros Hinv OK Hok Hpos Hfuel. pose proof (rg_vaddr _ _ _ _ Hok) as Hv.
  eapply wp_mono; [by apply (wp_map_range fuel m s T root) |].
  intros [r [m' s']] [(m1 & s1 & [= -> -> ->] & St)|(-> & k & Hk & St & Hwhy)].
  - split; [destruct St as [(T' & S & OK' & _) _]; by eapply step_accounted|].
    left. split; [done|]. eapply all_mapped; [lia | lia | exact St | done].
  - split; [destruct St as [(T' & S & OK' & _) _]; by eapply step_accounted|].
    right. split; [done|]. exists k. split; [done|]. split; [|done].
    apply prefix_mapped; [lia | lia | apply St].
Qed.

Lemma range_runs :
  returned (map_range 3 tabled.1 tabled.2 pml4_16 0x400800 0x18000 0x2000 2) 0 = true.
Proof. vm_compute. reflexivity. Qed.

Lemma map_range_correct_witness :
  (exists ms, map_range 3 tabled.1 tabled.2 pml4_16 0x400800 0x18000 0x2000 2 = Ok (0, ms)) /\
  wp (map_range 3 tabled.1 tabled.2 pml4_16 0x400800 0x18000 0x2000 2) (fun '(r, (m', s')) =>
    accounted tabled.1 tabled.2 {[pml4_16 := 4%nat]} pml4_16 m' s' /\
    ((r = 0 /\ range_mapped tabled.1 pml4_16 m' 0x400800 0x18000 (0x400800 + 0x2000)) \/
     (r = -1 /\ exists k, 0 <= k < range_pages 0x400800 0x2000 /\
        range_mapped tabled.1 pml4_16 m' 0x400800 0x18000 (align_down 0x400800 + page_size * k) /\
        (no_frame m' s' \/ blocked m' pml4_16 (align_down 0x400800 + page_size * k) (align_down 0x18000 + page_size * k))))).
Proof.
  split; [destruct (returned_Ok _ _ range_runs) as [ms Hms]; by exists ms|].
  apply (map_range_correct 3 tabled.1 tabled.2 {[pml4_16 := 4%nat]} pml4_16 0x400800 0x18000 0x2000 2);
    [apply tabled_ok | apply tabled_ok | | lia | by vm_compute].
  split; try (by vm_compute); lia.
Defined.

(** A range whose end wraps around (the end of the address space included)
    maps nothing, and map_range nevertheless reports success. *)
Theorem map_range_wrapped {A} `{FrameAllocator A} fuel m (s : A) root vaddr paddr length flags :
  0 <= vaddr < 2 ^ 64 -> u64 (vaddr + length) <= align_down vaddr ->
  map_range (S fuel) m s root vaddr paddr length flags = Ok (0, (m, s)).
Proof.
  intros Hv Hw. unfold map_range. rewrite (land_align_down vaddr) by done.
  cbn [while_fuel mbind res_bind]. rewrite (proj2 (Z.ltb_ge _ _)) by done. done.
Qed.

(** The last page of the address space, and the last 2 MiB. *)
Lemma map_range_wrapped_witness :
  map_range 1 m16 p16 pml4_16 0xFFFFFFFFFFFFF000 0x15000 0x1000 3 = Ok (0, (m16, p16)) /\
  map_range 1 m16 p16 pml4_16 0xFFFFFFFFFFE00000 0x15000 0x200000 3 = Ok (0, (m16, p16)).
Proof.
  split.
  - apply (map_range_wrapped 0 m16 p16 pml4_16 0xFFFFFFFFFFFFF000 0x15000 0x1000 3); [lia | done].
  - apply (map_range_wrapped 0 m16 p16 pml4_16 0xFFFFFFFFFFE00000 0x15000 0x200000 3); [lia | done].
Defined.

(** A range that ends inside the last page, but not at its end, is never
    completed: the loop's address wraps to 0 before it reaches the end, so
    map_range goes on over the whole address space until a mapping fails; in
    no number of iterations does it report success. *)
Theorem map_range_last_page {A} `{FrameAllocatorLaws A} fuel m (s : A) root vaddr paddr length flags c :
  0 <= vaddr < 2 ^ 64 -> 2 ^ 64 - page_size < u64 (vaddr + length) ->
  map_range fuel m s root vaddr paddr length flags = Ok c -> c.1 = -1.
Proof.
  intros Hv Hend. unfold map_range, after. rewrite (land_align_down vaddr) by done.
  pose proof (align_down_spec vaddr ltac:(lia)) as (Hal & Hb & Hnn).
  set (I := fun st : mem * A * Z * Z =>
    let '(_, _, v, _) := st in v mod page_size = 0 /\ 0 <= v < 2 ^ 64).
  destruct (while_fuel _ _ _ _) as [[st|r]| |] eqn:Hloop; cbn [mbind res_bind]; try done.
  - exfalso. eapply (while_forever _ _ I); [| | | exact Hloop].
    + split; [done | lia].
    + intros [[[m1 s1] v] p] [Hv1 Hv2]. f_equal. apply Z.ltb_lt. unfold page_size in *. zlia.
    + intros st1 st2 HI. by apply map_range_step_aligned.
  - intros [= <-]. apply while_end_state in Hloop as [st Hst]. by eapply map_range_step_returns.
Qed.

(** A machine of four frames: three tables for the last page, none for page 0. *)
Lemma init4_runs :
  returned (init_pml4 (machine_mem 4 (machine_word 4 0)) (machine_pmm 4 4)) pml4_16 = true.
Proof. vm_compute. reflexivity. Qed.

Definition small_run := returned_Ok _ _ init4_runs.
Notation small := (proj1_sig small_run).

Lemma last_runs :
  returned (map_range 2 small.1 small.2 pml4_16 0xFFFFFFFFFFFFF000 0x15000 0x800 3) (-1) = true.
Proof. vm_compute. reflexivity. Qed.

Lemma map_range_last_page_witness :
  exists c, map_range 2 small.1 small.2 pml4_16 0xFFFFFFFFFFFFF000 0x15000 0x800 3 = Ok c /\
    c.1 = -1.
Proof.
  destruct (returned_Ok _ _ last_runs) as [ms Hms]. eexists. split; [exact Hms|].
  eapply (map_range_last_page 2 small.1 small.2 pml4_16 0xFFFFFFFFFFFFF000 0x15000 0x800 3);
    [lia | vm_compute; reflexivity | exact Hms].
Defined.

(** C35: at the end of the address space map_range does not do what it is asked: a range whose
    end wraps around (that of the last page, or the last 2 MiB, to its end) maps nothing, and
    map_range nevertheless reports success; and a range that ends inside the last page is
    never completed: the loop's address wraps to 0 before it reaches the end, so map_range
    goes on over the whole address space until a mapping fails, and in no number of
    iterations does it report success. *)
Theorem map_range_top {A} `{FrameAllocatorLaws A} m (s : A) root vaddr paddr length flags :
  0 <= vaddr < 2 ^ 64 ->
  (u64 (vaddr + length) <= align_down vaddr ->
   forall fuel, map_range (S fuel) m s root vaddr paddr length flags = Ok (0, (m, s))) /\
  (2 ^ 64 - page_size < u64 (vaddr + length) ->
   forall fuel c, map_range fuel m s root vaddr paddr length flags = Ok c -> c.1 = -1).
Proof.
  intros Hv. split; intros Hend fuel; [by apply map_range_wrapped|].
  intros c. by apply map_range_last_page.
Qed.

(** All of the last page, and the first half of it. *)
Lemma map_range_top_witness :
  map_range 1 small.1 small.2 pml4_16 0xFFFFFFFFFFFFF000 0x15000 0x1000 3 = Ok (0, (small.1, small.2)) /\
  (exists c, map_range 2 small.1 small.2 pml4_16 0xFFFFFFFFFFFFF000 0x15000 0x800 3 = Ok c /\ c.1 = -1).
Proof.
  split.
  - apply (proj1 (map_range_top small.1 small.2 pml4_16 0xFFFFFFFFFFFFF000 0x15000 0x1000 3 ltac:(lia))). done.
  - destruct (returned_Ok _ _ last_runs) as [ms Hms]. eexists. split; [exact Hms|].
    apply (proj2 (map_range_top small.1 small.2 pml4_16 0xFFFFFFFFFFFFF000 0x15000 0x800 3 ltac:(lia)) eq_refl 2%nat _ Hms).
Defined.
