(* ===== verification/PagingDebugThm.v ===== *)
(** What the page table dumps of paging_debug.c say about an entry. *)
From stdpp Require Import base list strings.
From Stdlib Require Import ZArith Lia.
From S2P Require Import Prelude Memory LibString Stdio StdioSpec FormatSpec Paging PagingSpec PagingDebug.
Local Open Scope Z_scope.

(** ** The text of a dump, in the processor's reading of the entry *)
Definition number_line (label : string) (v : Z) : list Z := chars label ++ hex 16 v ++ [10].
Definition truth_line (label : string) (b : bool) : list Z :=
  chars label ++ chars (if b then "True" else "False") ++ [10].
Definition bit_line (label : string) (b : bool) : list Z := chars label ++ chars (if b then "1" else "0") ++ [10].

(** The lines the three dumps share; bit 7 is the PAT bit or the page size. *)
Definition flags_text (bit7 : string) (e : Z) : list Z :=
  truth_line "    Present: " (present e) ++
  truth_line "    Writeable: " (Z.testbit e 1) ++
  truth_line "    User accessible: " (negb (Z.testbit e 2)) ++
  truth_line "    Page level write-through: " (Z.testbit e 3) ++
  truth_line "    Page level cache disable: " (Z.testbit e 4) ++
  truth_line "    Accessed: " (Z.testbit e 5) ++
  truth_line "    Dirty: " (Z.testbit e 6) ++
  bit_line bit7 (Z.testbit e 7) ++
  truth_line "    Global: " (Z.testbit e 8) ++
  truth_line "    NX: " (Z.testbit e 63).

Definition pte_text (e : Z) : list Z :=
  number_line "Page table entry: 0x" e ++
  number_line "    Physical address: 0x" (target e mod 2 ^ 48) ++
  flags_text "    PAT: " e.

Definition table_text (title : string) (e : Z) : list Z :=
  number_line title e ++
  number_line "    Physical address of table: 0x" (target e mod 2 ^ 48) ++
  flags_text "    Page size: " e.

(** ** Bits *)
Lemma has_bit e k mask : mask = Z.shiftl 1 k -> 0 <= k -> has e mask = Z.testbit e k.
Proof. intros -> Hk. unfold has. by rewrite land_bit, negb_involutive. Qed.

(** The mask of the dumps is the physical address without its highest four bits. *)
Lemma dumped_address e : Z.land e 0xFFFFFFFFF000 = target e mod 2 ^ 48.
Proof.
  unfold target. rewrite <- Z.land_ones, <- Z.land_assoc by lia. f_equal.
Qed.

(** ** Printing *)
Section prints.
Context `{DumpStrings} (texts : Z -> option (list Z)).

(** The strings are where the dumps take them from. *)
Record strings_at : Prop := {
  sa_True : texts at_True = Some (chars "True");
  sa_False : texts at_False = Some (chars "False");
  sa_1 : texts at_1 = Some (chars "1");
  sa_0 : texts at_0 = Some (chars "0")
}.
Context (S : strings_at).

Lemma all_printed_cons f a out calls rest :
  printed texts f a = Some out -> all_printed texts calls = Some rest ->
  all_printed texts ((f, a) :: calls) = Some (out ++ rest).
Proof using Type. intros Hf Hc. cbn [all_printed]. by rewrite Hf, Hc. Qed.

Lemma all_printed_one f a out : printed texts f a = Some out -> all_printed texts [(f, a)] = Some out.
Proof using Type. intros Hf. cbn [all_printed]. rewrite Hf. cbn [mbind option_bind]. by rewrite app_nil_r. Qed.

Lemma printed_truth l (b : bool) :
  literal (chars l) = true ->
  printed texts (chars l ++ 37 :: 115 :: 10 :: []) [if b then at_True else at_False] = Some (truth_line l b).
Proof using S.
  intros Hl. destruct b; apply printed_string; try done; apply S.
Qed.

Lemma printed_bit l (b : bool) :
  literal (chars l) = true ->
  printed texts (chars l ++ 37 :: 115 :: 10 :: []) [if b then at_1 else at_0] = Some (bit_line l b).
Proof using S.
  intros Hl. destruct b; apply printed_string; try done; apply S.
Qed.

Lemma printed_number_line l v :
  literal (chars l) = true ->
  printed texts (chars l ++ 37 :: 108 :: 108 :: 120 :: 10 :: []) [v] = Some (number_line l v).
Proof using Type. intros Hl. by apply printed_hex64. Qed.

Definition flag_calls (bit7 : list Z) (e : Z) : list print_call :=
  [(chars "    Present: %s" ++ [10], true_false e PRESENT_BIT);
   (chars "    Writeable: %s" ++ [10], true_false e READ_WRITE_BIT);
   (chars "    User accessible: %s" ++ [10], false_true e USER_SUPERVISOR_BIT);
   (chars "    Page level write-through: %s" ++ [10], true_false e PAGE_LEVEL_WRITETHROUGH_BIT);
   (chars "    Page level cache disable: %s" ++ [10], true_false e PAGE_LEVEL_CACHE_DISABLE_BIT);
   (chars "    Accessed: %s" ++ [10], true_false e ACCESSED_BIT);
   (chars "    Dirty: %s" ++ [10], true_false e DIRTY_BIT);
   (bit7, one_zero e PAGE_SIZE_BIT);
   (chars "    Global: %s" ++ [10], true_false e GLOBAL_PAGE_BIT);
   (chars "    NX: %s" ++ [10], true_false e NX_BIT)].

Lemma print_flags bit7 e :
  literal (chars bit7) = true ->
  all_printed texts (flag_calls (chars bit7 ++ 37 :: 115 :: 10 :: []) e) = Some (flags_text bit7 e).
Proof using S.
  intros Hl. unfold flag_calls, flags_text, true_false, false_true, one_zero.
  rewrite (has_bit e 0), (has_bit e 1), (has_bit e 2), (has_bit e 3), (has_bit e 4), (has_bit e 5), (has_bit e 6),
    (has_bit e 7), (has_bit e 8), (has_bit e 63) by done.
  replace (if Z.testbit e 2 then at_False else at_True) with (if negb (Z.testbit e 2) then at_True else at_False)
    by (by destruct (Z.testbit e 2)).
  apply all_printed_cons; [by apply (printed_truth "    Present: ")|].
  apply all_printed_cons; [by apply (printed_truth "    Writeable: ")|].
  apply all_printed_cons; [by apply (printed_truth "    User accessible: ")|].
  apply all_printed_cons; [by apply (printed_truth "    Page level write-through: ")|].
  apply all_printed_cons; [by apply (printed_truth "    Page level cache disable: ")|].
  apply all_printed_cons; [by apply (printed_truth "    Accessed: ")|].
  apply all_printed_cons; [by apply (printed_truth "    Dirty: ")|].
  apply all_printed_cons; [by apply printed_bit|].
  apply all_printed_cons; [by apply (printed_truth "    Global: ")|].
  apply all_printed_one. by apply (printed_truth "    NX: ").
Qed.

Lemma print_table title e :
  literal (chars title) = true ->
  all_printed texts ((chars title ++ 37 :: 108 :: 108 :: 120 :: 10 :: [], [e]) :: dump_paging_bits e) =
    Some (table_text title e).
Proof using S.
  intros Hl. apply all_printed_cons; [by apply printed_number_line|].
  change (dump_paging_bits e) with ((chars "    Physical address of table: 0x%llx" ++ [10], [Z.land e 0xFFFFFFFFF000]) ::
    flag_calls (chars "    Page size: %s" ++ [10]) e).
  rewrite dumped_address.
  apply all_printed_cons; [by apply (printed_number_line "    Physical address of table: 0x")|].
  by apply (print_flags "    Page size: ").
Qed.

Lemma print_pte e : all_printed texts (dump_pte e) = Some (pte_text e).
Proof using S.
  change (dump_pte e) with ((chars "Page table entry: 0x%llx" ++ [10], [e]) ::
    (chars "    Physical address: 0x%llx" ++ [10], [Z.land e 0xFFFFFFFFF000]) :: flag_calls (chars "    PAT: %s" ++ [10]) e).
  rewrite dumped_address. apply all_printed_cons; [by apply (printed_number_line "Page table entry: 0x")|].
  apply all_printed_cons; [by apply (printed_number_line "    Physical address: 0x")|].
  by apply (print_flags "    PAT: ").
Qed.
End prints.

(** C34: the page table dumps print, of any entry, what the processor reads from it:
    the entry, its flags by name, and the physical address; but a user page is printed as
    not accessible to the user and the other way round, and bits 48 to 51 of the address
    are lost. *)
Theorem dumps_print `{DumpStrings} texts entry :
  strings_at texts ->
  all_printed texts (dump_pte entry) = Some (pte_text entry) /\
  all_printed texts (dump_pde entry) = Some (table_text "Page directory entry: 0x" entry) /\
  all_printed texts (dump_pdpe entry) = Some (table_text "Page directory pointer entry: 0x" entry).
Proof.
  intros S. split; [by apply print_pte|]. split; [by apply (print_table texts S "Page directory entry: 0x")|].
  by apply (print_table texts S "Page directory pointer entry: 0x").
Qed.

#[export] Instance some_strings : DumpStrings := {| at_True := 0x100; at_False := 0x105; at_1 := 0x10B; at_0 := 0x10D |}.

Definition some_texts (v : Z) : option (list Z) :=
  if v =? 0x100 then Some (chars "True") else if v =? 0x105 then Some (chars "False")
  else if v =? 0x10B then Some (chars "1") else if v =? 0x10D then Some (chars "0") else None.

(** A present user page at 2^48. *)
Lemma dumps_print_witness :
  strings_at some_texts /\
  let entry := init_pt_entry (2 ^ 48) (Z.lor PRESENT_BIT USER_SUPERVISOR_BIT) in
  all_printed some_texts (dump_pte entry) = Some (pte_text entry) /\
  all_printed some_texts (dump_pde entry) = Some (table_text "Page directory entry: 0x" entry) /\
  all_printed some_texts (dump_pdpe entry) = Some (table_text "Page directory pointer entry: 0x" entry).
Proof.
  assert (S : strings_at some_texts) by (by split). split; [exact S|]. exact (dumps_print some_texts _ S).
Defined.
