(* ===== verification/HeapThm.v ===== *)
(** Theorems about the heap of kernel/memory/heap.c. *)
From stdpp Require Import gmap.
From Stdlib Require Import ZArith Lia.
From S2P Require Import Prelude Memory Physical FrameAllocator PhysicalSpec FrameCount LibString Paging PagingSpec Mapping MapRange TableCount Heap Machine PagingThm.
Local Open Scope Z_scope.

Lemma heap_range_mapped {A} `{FrameAllocatorLaws A} m (s : A) T root vaddr length paddr k b m' s' T' :
  fa_inv m s -> heap_ok vaddr length -> 0 <= k ->
  heap_state m s T root vaddr length paddr k b m' s' T' ->
  range_mapped m root m' vaddr paddr (vaddr + page_size * k).
Proof.
  intros Hinv Hok Hk HS. destruct (heap_n vaddr length Hok) as (Hn & _).
  assert (Hrun : in_run paddr (heap_pages length) paddr)
    by (exists 0; unfold run_frame; lia).
  destruct (hs_run _ _ _ _ _ _ _ _ _ _ _ _ HS _ Hrun) as [Hav _].
  pose proof (frame_aligned _ _ _ (avail_ok _ _ _ Hinv Hav)) as Hal.
  destruct Hok as [H1 H2 _ _ _]. pose proof (hs_pages _ _ _ _ _ _ _ _ _ _ _ _ HS) as M.
  assert (Hd : forall x, x mod page_size = 0 -> align_down x = x)
    by (clear; intros x Hx; unfold align_down, page_size in *; zlia).
  rewrite <- (Hd vaddr) at 2 by done. apply prefix_mapped; [done..|]. by rewrite !Hd.
Qed.

(** C11: get_heap returns 0 or -1.  After 0, a run of frames that was free, and
    that holds no page table, belongs to the heap alone: the pages from [vaddr]
    on that cover [length] bytes translate to it linearly, all other addresses
    translate as before, and besides the run only frames for tables were taken. *)
Theorem get_heap_backs {A} `{FrameAllocatorLaws A} fuel m (s : A) T root vaddr length :
  fa_inv m s -> tables_ok m s T root -> heap_ok vaddr length ->
  heap_pages length <= Z.of_nat fuel ->
  wp (get_heap fuel m s root vaddr length) (fun '(r, (m', s')) =>
    r = -1 \/
    (r = 0 /\ fa_inv m' s' /\ exists paddr T', T ⊆ T' /\ tables_ok m' s' T' root /\
     (forall a, in_run paddr (heap_pages length) a ->
        avail m s a /\ ~ avail m' s' a /\ T' !! a = None) /\
     (forall a, avail m' s' a <->
        avail m s a /\ T' !! a = None /\ ~ in_run paddr (heap_pages length) a) /\
     range_mapped m root m' vaddr paddr (vaddr + page_size * heap_pages length))).
Proof.
  intros Hinv OK Hok Hfuel. eapply wp_mono; [by apply (get_heap_spec m s T root vaddr length) |].
  intros [r [m' s']] [(-> & _)|[(-> & paddr & T' & HS)|(-> & _)]]; [by left | right | by left].
  destruct (heap_n vaddr length Hok) as (Hn & _).
  pose proof HS as [I G OK' R Av _ _ _]. split; [done|]. split; [done|].
  exists paddr, T'. split; [done|]. split; [done|]. split; [|split].
  - intros a Ha. destruct (R a Ha). split_and!; [done | | done].
    intros (_ & _ & Hno)%Av. by apply Hno.
  - intros a. rewrite Av. naive_solver.
  - eapply heap_range_mapped; [done | done | lia | exact HS].
Qed.

Lemma heap_runs : returned (get_heap 3 tabled.1 tabled.2 pml4_16 0x400000 0x2800) 0 = true.
Proof. vm_compute. reflexivity. Qed.

Lemma heap_ok_16 : heap_ok 0x400000 0x2800.
Proof. by split; vm_compute. Qed.

Lemma get_heap_backs_witness :
  (exists ms, get_heap 3 tabled.1 tabled.2 pml4_16 0x400000 0x2800 = Ok (0, ms)) /\
  wp (get_heap 3 tabled.1 tabled.2 pml4_16 0x400000 0x2800) (fun '(r, (m', s')) =>
    r = -1 \/
    (r = 0 /\ fa_inv m' s' /\ exists paddr T', {[pml4_16 := 4%nat]} ⊆ T' /\
     tables_ok m' s' T' pml4_16 /\
     (forall a, in_run paddr (heap_pages 0x2800) a ->
        avail tabled.1 tabled.2 a /\ ~ avail m' s' a /\ T' !! a = None) /\
     (forall a, avail m' s' a <->
        avail tabled.1 tabled.2 a /\ T' !! a = None /\ ~ in_run paddr (heap_pages 0x2800) a) /\
     range_mapped tabled.1 pml4_16 m' 0x400000 paddr (0x400000 + page_size * heap_pages 0x2800))).
Proof.
  split; [destruct (returned_Ok _ _ heap_runs) as [ms Hms]; by exists ms|].
  apply (get_heap_backs 3 tabled.1 tabled.2 {[pml4_16 := 4%nat]} pml4_16 0x400000 0x2800);
    [apply tabled_ok | apply tabled_ok | exact heap_ok_16 | by vm_compute].
Defined.

(** C25: a failed get_heap loses no frame: the frames that are no longer free
    hold page tables, which are kept.  It says why it failed: there is no run of free
    frames that is long enough, or besides the run no frame is left for a table, or a
    2 MiB page is in the way.  But it does not undo its mappings: a prefix of the pages
    stays mapped to frames that are free again. *)
Theorem get_heap_failure {A} `{FrameAllocatorLaws A} fuel m (s : A) T root vaddr length :
  fa_inv m s -> tables_ok m s T root -> heap_ok vaddr length ->
  heap_pages length <= Z.of_nat fuel ->
  wp (get_heap fuel m s root vaddr length) (fun '(r, (m', s')) =>
    r <> 0 -> r = -1 /\ accounted m s T root m' s' /\
    ((unmoved m root m' /\ ~ has_run m s (heap_pages length)) \/
     exists paddr k, 0 <= k < heap_pages length /\
       range_mapped m root m' vaddr paddr (vaddr + page_size * k) /\
       (forall i, 0 <= i < heap_pages length -> avail m' s' (run_frame paddr i)) /\
       ((forall a, avail m' s' a -> in_run paddr (heap_pages length) a) \/
        blocked m' root (vaddr + page_size * k) (paddr + page_size * k)))).
Proof.
  intros Hinv OK Hok Hfuel. eapply wp_mono; [by apply (get_heap_spec m s T root vaddr length) |].
  intros [r [m' s']] [(-> & -> & -> & Hno)|[(-> & _)|(-> & paddr & k & T' & Hk & HS & Hwhy)]]; intros Hr; [|done|].
  - split; [done|]. split; [|by left]. eapply step_accounted; [|done].
    apply step_refl; [done | apply OK].
  - pose proof HS as [I G OK' R Av _ F M]. split; [done|]. split.
    + split; [done|]. exists T'. split; [done|]. split; [done|]. split; [|done].
      intros a. rewrite Av. naive_solver.
    + right. exists paddr, k. split; [done|]. split.
      * eapply heap_range_mapped; [done | done | lia | exact HS].
      * split; [|done]. intros i Hi. apply Av. destruct (R (run_frame paddr i)); [by exists i|]. done.
Qed.

(** A machine of six frames, enough for the tables of one page table only. *)
Lemma init6_runs :
  returned (init_pml4 (machine_mem 6 (machine_word 6 0)) (machine_pmm 6 6)) pml4_16 = true.
Proof. vm_compute. reflexivity. Qed.

Definition six_run := returned_Ok _ _ init6_runs.
Notation six := (proj1_sig six_run).


Lemma six_ok : fa_inv six.1 six.2 /\ tables_ok six.1 six.2 {[pml4_16 := 4%nat]} pml4_16.
Proof.
  apply (init_pml4_ok (machine_mem 6 (machine_word 6 0)) (machine_pmm 6 6));
    [exact (free_machine_inv ∅ 6 ltac:(lia)) | | done].
  rewrite <- surjective_pairing. exact (proj2_sig six_run).
Qed.

(** A heap of two pages in different page tables: the second mapping fails. *)
Lemma heap_fails : returned (get_heap 2 six.1 six.2 pml4_16 0x3FF000 0x2000) (-1) = true.
Proof. vm_compute. reflexivity. Qed.

Definition failed_run := returned_Ok _ _ heap_fails.
Notation after_failure := (proj1_sig failed_run).

Lemma get_heap_failure_witness :
  get_heap 2 six.1 six.2 pml4_16 0x3FF000 0x2000 = Ok (-1, after_failure) /\
  wp (get_heap 2 six.1 six.2 pml4_16 0x3FF000 0x2000) (fun '(r, (m', s')) =>
    r <> 0 -> r = -1 /\ accounted six.1 six.2 {[pml4_16 := 4%nat]} pml4_16 m' s' /\
    ((unmoved six.1 pml4_16 m' /\ ~ has_run six.1 six.2 (heap_pages 0x2000)) \/
     exists paddr k, 0 <= k < heap_pages 0x2000 /\
       range_mapped six.1 pml4_16 m' 0x3FF000 paddr (0x3FF000 + page_size * k) /\
       (forall i, 0 <= i < heap_pages 0x2000 -> avail m' s' (run_frame paddr i)) /\
       ((forall a, avail m' s' a -> in_run paddr (heap_pages 0x2000) a) \/
        blocked m' pml4_16 (0x3FF000 + page_size * k) (paddr + page_size * k)))).
Proof.
  split; [exact (proj2_sig failed_run)|].
  apply (get_heap_failure 2 six.1 six.2 {[pml4_16 := 4%nat]} pml4_16 0x3FF000 0x2000);
    [apply six_ok | apply six_ok | by split; vm_compute | by vm_compute].
Defined.

(** ** A heap that there is room for *)

(** A run as a list. *)
Lemma run_list paddr n : 0 <= n ->
  exists l, Z.of_nat (Datatypes.length l) = n /\ forall a, in_run paddr n a -> a ∈ l.
Proof.
  intros Hn. exists (run_frame paddr <$> seqZ 0 n). split; [rewrite length_fmap, length_seqZ; lia|].
  intros a (i & Hi & ->). apply list_elem_of_fmap. exists i. rewrite elem_of_seqZ. split; [done | lia].
Qed.

(** If a heap has been given up with the tables full, there were not enough frames. *)
Lemma heap_frames m pm T root vaddr length paddr k m' pm' T' :
  pmm_inv m pm -> tables_ok m pm T root -> 0 <= heap_pages length ->
  heap_state m pm T root vaddr length paddr k true m' pm' T' ->
  (forall a, pmm_avail m' pm' a -> in_run paddr (heap_pages length) a) ->
  frames_free pm <= heap_pages length + range_tables (vaddr, vaddr + heap_pages length * page_size).
Proof.
  intros I OK Hn HS Hall. destruct (run_list paddr _ Hn) as (l & Hl & Hin).
  pose proof (grown_count _ m pm T root m' pm' T' [(vaddr, vaddr + heap_pages length * page_size)]
    OK (hs_tables _ _ _ _ _ _ _ _ _ _ _ _ HS) (hs_grown _ _ _ _ _ _ _ _ _ _ _ _ HS)) as Hc.
  pose proof (frames_free_le m pm I (l ++ (map_to_list (T' ∖ T)).*1)) as Hle.
  rewrite length_app, Nat2Z.inj_add, length_fmap, length_map_to_list, Hl in Hle.
  cbn [foldr] in Hc. etrans; [apply Hle | rewrite Z.add_0_r in Hc; apply Z.add_le_mono_l, Hc].
  - intros a Ha. apply elem_of_app. destruct (T' !! a) as [lv|] eqn:E.
    + right. apply list_elem_of_fmap. exists (a, lv). split; [done|]. apply elem_of_map_to_list, lookup_difference_Some.
      split; [done|]. destruct (T !! a) as [lv'|] eqn:E'; [|done]. by destruct (tb_used _ _ _ _ OK a lv' E').
    + left. apply Hin, Hall. by apply (hs_avail _ _ _ _ _ _ _ _ _ _ _ _ HS).
  - intros v Hv. exists vaddr, (vaddr + heap_pages length * page_size). split; [left|].
    unfold touched in Hv. lia.
Qed.

(** A heap is given up over an unmapped range only if there were not enough frames. *)
Lemma heap_gives_up m pm T root vaddr length paddr k m' pm' T' :
  pmm_inv m pm -> tables_ok m pm T root -> heap_ok vaddr length ->
  (forall va, vaddr <= va < vaddr + heap_pages length * page_size -> translate m root va = None) ->
  0 <= k < heap_pages length -> heap_state m pm T root vaddr length paddr k true m' pm' T' ->
  (forall a, pmm_avail m' pm' a -> in_run paddr (heap_pages length) a) \/
    blocked m' root (vaddr + page_size * k) (paddr + page_size * k) ->
  frames_free pm <= heap_pages length + range_tables (vaddr, vaddr + heap_pages length * page_size).
Proof.
  intros I OK Hok Hnone Hk HS [Hall|(q & Hq & _)%blocked_translate]; destruct (heap_n vaddr length Hok) as (Hn & _).
  { by apply (heap_frames m pm T root vaddr length paddr k m' pm' T' I OK ltac:(lia) HS). }
  destruct (hs_pages _ _ _ _ _ _ _ _ _ _ _ _ HS) as [_ Hout]. unfold translate in Hq.
  rewrite Hout in Hq; [|intros i Hi Hp; apply page_off_inj in Hp; [lia | apply Hok | lia | lia]].
  pose proof (Hnone (vaddr + page_size * k)) as Hnk. unfold translate in Hnk.
  rewrite Hnk in Hq by (unfold page_size in *; lia). done.
Qed.

(** C26: get_heap succeeds where it can: if there is a run of free frames for the heap,
    nothing is mapped in its range, and there are more free frames than the heap and the
    tables for its range may take, it returns 0. *)
Theorem get_heap_succeeds fuel m (pm : pmm) T root vaddr length :
  pmm_inv m pm -> tables_ok m pm T root -> heap_ok vaddr length -> heap_pages length <= Z.of_nat fuel ->
  (forall va, vaddr <= va < vaddr + heap_pages length * page_size -> translate m root va = None) ->
  pmm_has_run m pm (heap_pages length) ->
  heap_pages length + range_tables (vaddr, vaddr + heap_pages length * page_size) < frames_free pm ->
  wp (get_heap fuel m pm root vaddr length) (fun '(r, _) => r = 0).
Proof.
  intros I OK Hok Hfuel Hnone Hrun Hfree. eapply wp_mono; [by apply (get_heap_spec m pm T root vaddr length) |].
  intros [r [m' pm']] [(_ & _ & _ & Hno)|[[-> _]|(_ & paddr & k & T' & Hk & HS & Hwhy)]]; [done | done|].
  pose proof (heap_gives_up m pm T root vaddr length paddr k m' pm' T' I OK Hok Hnone Hk HS Hwhy). lia.
Qed.

Lemma init_pml4_translate {A} `{FrameAllocatorLaws A} m (s : A) r m' s' va :
  fa_inv m s -> init_pml4 m s = Ok (r, (m', s')) -> r <> NULL -> translate m' r va = None.
Proof.
  intros Hinv E Hr. pose proof (init_pml4_spec m s Hinv) as W. rewrite E in W. cbn [wp] in W.
  destruct W as [[-> _]|(_ & _ & _ & Hw)]; [done|]. unfold translate. by rewrite Hw.
Qed.

Lemma tabled_empty va : translate tabled.1 pml4_16 va = None.
Proof.
  apply (@init_pml4_translate pmm _ pmm_laws m16 p16 pml4_16 tabled.1 tabled.2 va inv16); [|done].
  rewrite <- surjective_pairing. exact init_pml4_16.
Qed.

(** Fifteen frames are free: the heap takes three, and its range three tables. *)
Lemma tabled_has_run : pmm_has_run tabled.1 tabled.2 (heap_pages 0x2800).
Proof.
  exists 0, (machine_block 16 15), 1. split; [split; [by vm_compute | by vm_compute]|]. split; [by vm_compute|].
  split; [lia|]. split; [by vm_compute|]. intros f Hf. change (heap_pages 0x2800) with 3 in Hf.
  assert (E : f = 1 \/ f = 2 \/ f = 3) by lia. destruct E as [-> |[-> | ->]]; vm_compute; reflexivity.
Qed.

Lemma get_heap_succeeds_witness :
  heap_pages 0x2800 + range_tables (0x400000, 0x400000 + heap_pages 0x2800 * page_size) < frames_free tabled.2 /\
  wp (get_heap 3 tabled.1 tabled.2 pml4_16 0x400000 0x2800) (fun '(r, _) => r = 0).
Proof.
  assert (Hf : heap_pages 0x2800 + range_tables (0x400000, 0x400000 + heap_pages 0x2800 * page_size) < frames_free tabled.2)
    by (vm_compute; reflexivity).
  split; [exact Hf|].
  apply (get_heap_succeeds 3 tabled.1 tabled.2 {[pml4_16 := 4%nat]} pml4_16 0x400000 0x2800);
    [apply tabled_ok | apply tabled_ok | exact heap_ok_16 | by vm_compute | intros va _; exact (tabled_empty va) |
     exact tabled_has_run | exact Hf].
Defined.

(** An address that the first [k] pages of a heap have mapped lies in a frame of the run. *)
Lemma dangling_frame {A} `{FrameAllocatorLaws A} m (s : A) root vaddr paddr k m' va pa :
  fa_inv m s -> avail m s (run_frame paddr 0) -> mapped_pages m root vaddr paddr k m' ->
  translate m root va = None -> translate m' root va = Some pa ->
  exists i, 0 <= i < k /\ align_down pa = run_frame paddr i.
Proof.
  intros Hinv Hav [Hin Hout] Hnone Hpa. pose proof (frame_aligned _ _ _ (avail_ok _ _ _ Hinv Hav)) as Hal.
  destruct (decide (Exists (fun i => page 1 va = page 1 (vaddr + page_size * i)) (seqZ 0 k))) as [He|Hno].
  - apply Exists_exists in He as (i & Hi%elem_of_seqZ & Hp). exists i. split; [lia|].
    rewrite (Hin i va) in Hpa by (done || lia). injection Hpa as <-.
    unfold run_frame, align_down, frame_size, page_size in *. zlia.
  - unfold translate in *. rewrite Hout in Hpa; [by rewrite Hpa in Hnone|].
    intros i Hi Hp. apply Hno, Exists_exists. exists i. split; [apply elem_of_seqZ; lia | done].
Qed.

(** C36: the mappings a failed get_heap leaves behind do harm: an address that
    was not mapped before and is mapped now translates into a frame that is free, and the
    next request for as many frames is given the very same run; whoever holds it then
    shares that frame with the address, which still translates to it. *)
Theorem failed_heap_dangles fuel m (pm : pmm) T root vaddr length :
  pmm_inv m pm -> tables_ok m pm T root -> heap_ok vaddr length -> heap_pages length <= Z.of_nat fuel ->
  wp (get_heap fuel m pm root vaddr length) (fun '(r, (m', pm')) =>
    r <> 0 -> forall va pa, translate m root va = None -> translate m' root va = Some pa ->
      pmm_avail m' pm' (align_down pa) /\
      wp (frames_allocate m' pm' (heap_pages length)) (fun '(paddr, (m2, _)) =>
        in_run paddr (heap_pages length) (align_down pa) /\ translate m2 root va = Some pa)).
Proof.
  intros I OK Hok Hfuel. destruct (heap_n vaddr length Hok) as (Hn & _).
  eapply wp_mono; [by apply (get_heap_runs m pm T root vaddr length)|].
  intros [r [m' pm']] [(_ & -> & _)|(paddr & ms & Et & Hne & HL & [(-> & _)|(-> & k & T' & Hk & HS & _)])] Hr va pa Hnone Hpa;
    [congruence | done |].
  pose proof HS as [I' _ OK' R Av _ _ M].
  assert (Hback : forall i, 0 <= i < heap_pages length -> pmm_avail m' pm' (run_frame paddr i)).
  { intros i Hi. apply Av. destruct (R (run_frame paddr i)); [by exists i|]. done. }
  destruct (dangling_frame m pm root vaddr paddr k m' va pa) as (i & Hi & ->); try done.
  { apply (R (run_frame paddr 0)). exists 0. split; [lia | done]. }
  split; [apply Hback; lia|].
  eapply wp_mono.
  { apply wp_and; [|apply (@fa_allocate_run_spec pmm _ pmm_laws m' pm' (heap_pages length) I'); lia].
    apply (wp_frames_again m pm (heap_pages length) paddr ms.1 ms.2 m' pm'); try done; [lia | |].
    - rewrite <- surjective_pairing. exact Et.
    - intros a Ha. by apply Av. }
  intros [q [m2 pm2]] [-> [[? _]|(_ & _ & S & _)]]; [done|]. split; [exists i; split; [lia | done]|].
  unfold translate in *. by rewrite (walk_fa_step m' pm' T' root m2 pm2 va OK' S).
Qed.

(** The heap of two pages on the machine of six frames. *)
Lemma failed_heap_dangles_witness :
  (get_heap 2 six.1 six.2 pml4_16 0x3FF000 0x2000 = Ok (-1, after_failure) /\
   translate six.1 pml4_16 0x3FF000 = None /\ translate after_failure.1 pml4_16 0x3FF000 = Some 0x11000) /\
  wp (get_heap 2 six.1 six.2 pml4_16 0x3FF000 0x2000) (fun '(r, (m', pm')) =>
    r <> 0 -> forall va pa, translate six.1 pml4_16 va = None -> translate m' pml4_16 va = Some pa ->
      pmm_avail m' pm' (align_down pa) /\
      wp (frames_allocate m' pm' (heap_pages 0x2000)) (fun '(paddr, (m2, _)) =>
        in_run paddr (heap_pages 0x2000) (align_down pa) /\ translate m2 pml4_16 va = Some pa)).
Proof.
  split; [split; [exact (proj2_sig failed_run)|]; split; vm_compute; reflexivity|].
  apply (failed_heap_dangles 2 six.1 six.2 {[pml4_16 := 4%nat]} pml4_16 0x3FF000 0x2000);
    [apply six_ok | apply six_ok | by split; vm_compute | by vm_compute].
Defined.

(** ** A heap whose address is not page-aligned *)

(** get_heap counts the pages of [length] only; from an address inside a page on that many
    bytes take one page more. *)
Record straddles (vaddr length : Z) : Prop := {
  st_vaddr : 0 <= vaddr;
  st_unaligned : vaddr mod page_size <> 0;
  st_length : 0 < length;
  st_end : vaddr + heap_pages length * page_size <= 2 ^ 64 - page_size;
  st_pages : heap_pages length + 1 < 2 ^ 36
}.

Lemma straddles_range vaddr length paddr :
  straddles vaddr length -> 0 <= paddr -> paddr mod page_size = 0 ->
  paddr + (heap_pages length + 1) * page_size <= 2 ^ 52 ->
  let n := heap_pages length in
  1 <= n /\ 0 <= length < 2 ^ 64 /\ range_ok vaddr paddr (n * page_size) READ_WRITE_BIT /\
  range_pages vaddr (n * page_size) = n + 1 /\ align_down paddr = paddr.
Proof.
  intros [H1 H2 H3 H4 H5] Hp Hal Hend n.
  assert (Hn : 1 <= n /\ 0 <= length < 2 ^ 64) by (subst n; unfold heap_pages, page_size in *; zlia).
  assert (Hr : range_pages vaddr (n * page_size) = n + 1).
  { clear -H1 H2 Hn. unfold range_pages, align_down, page_size in *. zlia. }
  assert (Hpa : align_down paddr = paddr) by (clear -Hal; unfold align_down, page_size in *; zlia).
  split; [apply Hn|]. split; [apply Hn|]. split; [|done].
  split; rewrite ?Hr, ?Hpa; fold n in H4, H5, Hend; [unfold page_size in *; lia | unfold page_size in *; lia |
    unfold page_size in *; lia | exact H4 | exact H5 | unfold page_size in *; lia | by split].
Qed.


Lemma unaligned_runs : returned (get_heap 2 tabled.1 tabled.2 pml4_16 0x400800 0x1000) 0 = true.
Proof. vm_compute. reflexivity. Qed.

Lemma tabled_low a : pmm_avail tabled.1 tabled.2 a -> a + 2 * page_size <= 2 ^ 52.
Proof.
  assert (E : tabled.2 = machine_pmm 16 15) by (vm_compute; reflexivity).
  intros (i & b & f & (A & _ & Hf) & _ & ->). rewrite E in A. apply machine_active in A as [_ ->].
  change (frame_addr (machine_block 16 15) f) with (0x10000 + f * 4096). cbn [machine_block pb_frames_total] in Hf.
  unfold page_size. lia.
Qed.

