(* ===== verification/GdtThm.v ===== *)
(** Theorems about the global descriptor table. *)
From stdpp Require Import gmap list.
From Stdlib Require Import ZArith Lia.
From S2P Require Import Prelude Memory Physical FrameAllocator PhysicalSpec Gdt GdtSpec Machine.
Local Open Scope Z_scope.

(** C30: gdt_entry_create encodes a segment faithfully: the processor reads back
    the base, the access byte, the low 4 bits of the flags and the low 20 bits
    of the limit. *)
Theorem gdt_entry_roundtrip base limit access flags :
  0 <= base < 2 ^ 32 -> 0 <= limit < 2 ^ 32 -> 0 <= access < 2 ^ 8 -> 0 <= flags < 2 ^ 8 ->
  let e := gdt_entry_create base limit access flags in
  0 <= e < 2 ^ 64 /\ seg_base e = base /\ seg_limit e = limit mod 2 ^ 20 /\
  seg_access e = access /\ seg_flags e = flags mod 2 ^ 4.
Proof.
  intros Hb Hl Ha Hf e. unfold e. rewrite gdt_entry_value by done.
  assert (Hbase : base / 2 ^ 24 * 2 ^ 24 + base mod 2 ^ 24 = base) by zlia.
  assert (Hlim : limit / 2 ^ 16 mod 2 ^ 4 * 2 ^ 16 + limit mod 2 ^ 16 = limit mod 2 ^ 20) by zlia.
  pose proof (gdt_fields (base / 2 ^ 24) (flags mod 2 ^ 4) (limit / 2 ^ 16 mod 2 ^ 4) access
    (base mod 2 ^ 24) (limit mod 2 ^ 16)) as Hfields. cbv zeta in Hfields.
  rewrite Hbase, Hlim in Hfields. apply Hfields; zlia.
Qed.

Lemma gdt_entry_roundtrip_witness :
  let e := gdt_entry_create 0x12345678 0xABCDEF01 0x9A 0xFC in
  0 <= e < 2 ^ 64 /\ seg_base e = 0x12345678 /\ seg_limit e = 0xABCDEF01 mod 2 ^ 20 /\
  seg_access e = 0x9A /\ seg_flags e = 0xFC mod 2 ^ 4.
Proof. apply (gdt_entry_roundtrip 0x12345678 0xABCDEF01 0x9A 0xFC); lia. Defined.

(** The GDT of kernel_start, once it has a frame for the descriptor: the set-up halts
    only when no frame is free; otherwise it takes a free frame for the table, and
    the two frames hold the limit, the base and the five flat 64-bit segments; nothing
    else but the allocator's bitmaps is written. *)
Theorem setup_gdt_correct {A} `{FrameAllocatorLaws A} m (s : A) gdt :
  fa_inv m s -> frame_ok m (priv s) gdt -> ~ avail m s gdt ->
  wp (setup_gdt m s gdt) (fun '(ok, (m', s')) =>
    fa_inv m' s' /\
    if ok then
      exists base, avail m s base /\ gdt <> base /\ gdt_built m' gdt base /\
        (forall a, avail m' s' a <-> avail m s a /\ a <> base) /\
        mem_upd (fun x => priv s x \/ region gdt frame_size x \/ region base frame_size x) m m'
    else (forall a, ~ avail m s a) /\ (forall a, ~ avail m' s' a) /\ mem_upd (region gdt frame_size) m m').
Proof.
  intros Hinv F Hna. eapply wp_mono; [by apply wp_setup_gdt|]. by intros [ok [m' s']] (I & _ & _ & P).
Qed.

(** The machine of sixteen frames with the first one taken. *)
Definition m15 : mem := machine_mem 16 (machine_word 16 1).
Definition p15 : pmm := machine_pmm 16 15.

Lemma word15 f : 0 <= f < 64 -> Z.testbit (machine_word 16 1) f = (f =? 0) || (16 <=? f).
Proof.
  intros Hf. assert (Hall : forallb (fun f => eqb (Z.testbit (machine_word 16 1) f) ((f =? 0) || (16 <=? f))) (seqZ 0 64) = true)
    by (vm_compute; reflexivity).
  rewrite forallb_forall in Hall. apply eqb_prop, Hall, list_elem_of_In, elem_of_seqZ. lia.
Qed.

Lemma inv15 : pmm_inv m15 p15.
Proof.
  apply machine_inv; [lia | by vm_compute | | by vm_compute].
  intros f Hf. rewrite word15 by lia. destruct (Z.eqb_spec f 0), (Z.leb_spec 16 f); (done || lia).
Qed.

Lemma taken15 : frame_ok m15 (priv p15) 0x10000 /\ ~ avail m15 p15 0x10000.
Proof.
  split.
  - split; unfold frame_size; [lia | done | lia | apply machine_backed_ram; lia |].
    intros x Hx (i & c & A & _ & Hd). apply machine_active in A as [_ ->].
    unfold map_region, region in *. change (map_words (machine_block 16 15)) with 1 in Hd.
    cbn [machine_block pb_map] in Hd. lia.
  - intros (i & c & f & (A & _ & Hf) & Hu & Ha). apply machine_active in A as [_ ->]. cbn in Ha, Hf.
    change (frame_addr (machine_block 16 15) f) with (0x10000 + f * 4096) in Ha.
    assert (f = 0) as -> by lia.
    assert (Hu0 : used m15 (machine_block 16 15) 0 = true) by (vm_compute; reflexivity). exact (eq_true_false_abs _ Hu0 Hu).
Qed.

Lemma setup_gdt_correct_witness :
  (fa_inv m15 p15 /\ frame_ok m15 (priv p15) 0x10000 /\ ~ avail m15 p15 0x10000) /\
  wp (setup_gdt m15 p15 0x10000) (fun '(ok, (m', s')) =>
    fa_inv m' s' /\
    if ok then
      exists base, avail m15 p15 base /\ 0x10000 <> base /\ gdt_built m' 0x10000 base /\
        (forall a, avail m' s' a <-> avail m15 p15 a /\ a <> base) /\
        mem_upd (fun x => priv p15 x \/ region 0x10000 frame_size x \/ region base frame_size x) m15 m'
    else (forall a, ~ avail m15 p15 a) /\ (forall a, ~ avail m' s' a) /\ mem_upd (region 0x10000 frame_size) m15 m').
Proof.
  destruct taken15 as [F Hna]. split; [exact (conj inv15 (conj F Hna))|].
  exact (setup_gdt_correct m15 p15 0x10000 inv15 F Hna).
Defined.
