(* ===== verification/IdtThm.v ===== *)
(** Theorems about the interrupt descriptor table. *)
From stdpp Require Import gmap list.
From Stdlib Require Import ZArith Lia.
From S2P Require Import Prelude Memory LibString Stdio StdioSpec FormatSpec Idt IdtSpec.
Local Open Scope Z_scope.

(** ** An allocator: the word at 0x1000 is the next free address, up to 0x8000. *)
Definition bump_next (m : mem) : Z := peek64 m 0x1000.
Definition bump (m : mem) (n : Z) : Z * mem := (bump_next m, poke64 m 0x1000 (bump_next m + n)).

Definition bump_busy (m : mem) (x : Z) : Prop := 0x2000 <= x < bump_next m.

Record bump_room (m : mem) (n : Z) : Prop := {
  br_word : backed m 0x1000 8;
  br_heap : backed m 0x2000 0x6000;
  br_low : 0x2000 <= bump_next m;
  br_high : bump_next m + n <= 0x8000
}.

Lemma bump_spec m n k p m' :
  0 <= n -> 0 <= k -> bump_room m (n + k) -> bump m n = (p, m') ->
  0 <= p /\ p + n <= 2 ^ 64 /\ backed m' p n /\ bump_room m' k /\
  (forall x, region p n x -> ~ bump_busy m x) /\
  (forall x, bump_busy m' x <-> bump_busy m x \/ region p n x) /\
  (forall x, bump_busy m x -> m' !! x = m !! x).
Proof.
  intros Hn Hk [B0 B1 L H] [= <- <-].
  assert (E : bump_next (poke64 m 0x1000 (bump_next m + n)) = bump_next m + n)
    by (unfold bump_next in *; rewrite peek64_poke64_eq; apply u64_small; lia).
  unfold bump_busy, region. rewrite E.
  split; [lia|]. split; [lia|]. split; [apply backed_poken, (backed_sub _ _ _ _ _ B1); lia|].
  split; [split; [by apply backed_poken | by apply backed_poken | lia.. ]|].
  split; [intros x; lia|]. split; [intros x; lia|]. intros x Hx. apply lookup_poken_ne. unfold region. lia.
Qed.

Lemma bump_stable m m' n :
  mem_upd (bump_busy m) m m' -> bump_room m n -> bump_room m' n /\ forall x, bump_busy m' x <-> bump_busy m x.
Proof.
  intros U [B0 B1 L H].
  assert (E : bump_next m' = bump_next m) by (apply (mem_upd_peek64 _ _ _ _ U); unfold bump_busy; lia).
  unfold bump_busy. rewrite E. split; [|done].
  split; rewrite ?E; [by apply (mem_upd_backed _ _ _ _ _ U) | by apply (mem_upd_backed _ _ _ _ _ U) | lia..].
Qed.

#[export] Instance bump_malloc : Malloc :=
  {| malloc := bump; busy := bump_busy; room := bump_room; malloc_spec := bump_spec; malloc_stable := bump_stable |}.

Definition bump_mem : mem :=
  poke64 (fill ∅ 0x1000 (Z.to_nat 0x7000) Init.Byte.x00) 0x1000 0x2000.

Lemma bump_mem_room : room bump_mem (sizeof_idt_desc + 4096).
Proof. split; [apply backed_poken, backed_fill; lia | apply backed_poken, backed_fill; lia | by vm_compute..]. Qed.

(** A page fault handler, replaced by another, and one for double faults. *)
Definition requests : list request :=
  [(14, 0, {| h_isr := 0x100000; h_segment := 8; h_ist := 0; h_flags := 0x8E |});
   (8, 7, {| h_isr := 0xFFFFFFFF80123456; h_segment := 8; h_ist := 1; h_flags := 0x8E |});
   (14, 0, {| h_isr := 0xFFFFFFFF80654321; h_segment := 8; h_ist := 0; h_flags := 0x8E |})].

Lemma requests_ok : Forall request_ok requests.
Proof. repeat constructor; cbn; lia. Qed.

(** ** Theorems *)

(** C31: the interrupt descriptor table is a map from vectors to handlers.  idt_init puts
    an empty one into memory of its own, given an allocator with room for it;
    idt_entry_add of what idt_entry_create makes inserts a handler, replacing the one
    before; once the descriptor is loaded with idt_set, an interrupt on any vector
    reaches the handler last installed for it, at its full address, with its selector,
    stack and flags, if its gate is marked present, and none otherwise; and dump_idt
    prints the table, of each address the lowest 32 bits.  No byte in use before is
    touched. *)
Theorem idt_is_map `{Malloc} m (l : list request) :
  room m (sizeof_idt_desc + 4096) -> Forall request_ok l ->
  wp ('(desc, m1) ← idt_init malloc m; m2 ← install m1 desc l; idt ← load_idt_desc m2 desc;
      calls ← dump_idt m2 idt; Ok (m2, idt, calls))
    (fun '(m2, idt, calls) =>
       (forall x, busy m x -> m2 !! x = m !! x) /\
       (forall idtr v, 0 <= v -> deliver m2 (idt_get (idt_set idtr idt)) v =
          Ok (h ← handlers ∅ l !! v; if is_present h then Some h else None)) /\
       all_printed (fun _ => None) calls = Some (dump_text idt (handlers ∅ l) 256)).
Proof.
  intros R Hl. wp_step. eapply wp_mono; [by apply wp_idt_init|]. intros [desc m1] [TI HB].
  wp_step. eapply wp_mono; [by apply (wp_install desc l m1 ∅)|]. intros m2 [TI2 U].
  wp_step. eapply wp_mono; [exact (wp_load_idt_desc m2 desc _ TI2)|]. intros idt <-.
  wp_step. eapply wp_mono; [exact (wp_dump_idt m2 desc _ TI2)|]. intros calls Hc. wp_ret.
  split; [|split; [|exact Hc]].
  - intros x Hx. destruct (HB x Hx) as [Hn <-]. by apply (upd_outside _ _ _ U).
  - intros idtr v Hv. unfold idt_get, idt_set. rewrite (deliver_table m2 desc _ v TI2 Hv).
    destruct (decide (v < 256)); [done|]. by rewrite handlers_none by (done || lia).
Qed.

Lemma idt_is_map_witness :
  room bump_mem (sizeof_idt_desc + 4096) /\ Forall request_ok requests /\
  wp ('(desc, m1) ← idt_init malloc bump_mem; m2 ← install m1 desc requests; idt ← load_idt_desc m2 desc;
      calls ← dump_idt m2 idt; Ok (m2, idt, calls))
    (fun '(m2, idt, calls) =>
       (forall x, busy bump_mem x -> m2 !! x = bump_mem !! x) /\
       (forall idtr v, 0 <= v -> deliver m2 (idt_get (idt_set idtr idt)) v =
          Ok (h ← handlers ∅ requests !! v; if is_present h then Some h else None)) /\
       all_printed (fun _ => None) calls = Some (dump_text idt (handlers ∅ requests) 256)).
Proof.
  split; [exact bump_mem_room|]. split; [exact requests_ok|].
  exact (idt_is_map bump_mem requests bump_mem_room requests_ok).
Defined.

(** One handler: after idt_entry_add of the entry idt_entry_create makes, the processor
    reads from gate [index] exactly the handler given, and no byte outside the gate has
    changed. *)
Theorem idt_handler_installed m desc index junk h :
  backed m (idt_base_at desc) 8 ->
  let a := peek64 m (idt_base_at desc) + 16 * index in
  backed m a 16 -> handler_ok h ->
  wp (idt_entry_add m desc index (entry_of junk h)) (fun m' =>
    gate (peek_entry m' a) = h /\ mem_upd (region a 16) m m').
Proof.
  intros Hb a Ba Hh. unfold idt_entry_add. wp_step. apply (wp_loadn 8); [exact Hb|].
  apply wp_store_gate; [exact Ba|]. split; [|by apply poke_entry_upd]. by apply gate_poke_entry.
Qed.

(** The address dump_idt_entry passes to ssfn_printf is the handler's only if bit 31 of it
    is clear; otherwise the promotion of isr2 to int makes its upper 32 bits all ones. *)
Theorem dump_idt_entry_address junk h :
  handler_ok h ->
  hd 0 (dump_idt_entry (entry_of junk h)).2 =
    if Z.testbit (h_isr h) 31 then 0xFFFFFFFF * 2 ^ 32 + h_isr h mod 2 ^ 32 else h_isr h.
Proof.
  intros Hh. destruct (isr_pieces junk h Hh) as (E1 & E2 & E3). destruct Hh as [Hi _].
  unfold dump_idt_entry. cbn [snd hd]. rewrite E1, E2, E3. generalize dependent (h_isr h). intros isr Hi _ _ _.
  set (i2 := isr / 2 ^ 16 mod 2 ^ 16). set (l := isr mod 2 ^ 16). set (t := isr / 2 ^ 32).
  assert (Hh : 0 <= i2 < 2 ^ 16) by (unfold i2; zlia). assert (Hl : 0 <= l < 2 ^ 16) by (unfold l; zlia).
  assert (Hisr : isr = t * 2 ^ 32 + i2 * 2 ^ 16 + l /\ 0 <= t < 2 ^ 32) by (unfold t, i2, l; zlia).
  destruct Hisr as [Hisr Ht]. clearbody i2 l t.
  rewrite !Z.shiftl_mul_pow2 by lia. rewrite (u64_small (t * 2 ^ 32)) by zlia.
  destruct (Z.testbit isr 31) eqn:Hb.
  - apply Z.testbit_true in Hb; [|lia]. assert (Hh' : 2 ^ 15 <= i2) by zlia.
    replace (u64 (s32 (i2 * 2 ^ 16))) with (Z.lor (Z.ones 32 * 2 ^ 32) (i2 * 2 ^ 16)).
    2:{ rewrite lor_fields by lia. unfold u64, s32. change (Z.ones 32) with 4294967295. zlia. }
    rewrite Z.lor_assoc. replace (Z.lor (t * 2 ^ 32) (Z.ones 32 * 2 ^ 32)) with (Z.ones 32 * 2 ^ 32).
    2:{ rewrite <- !(Z.shiftl_mul_pow2 _ 32), <- Z.shiftl_lor by lia. f_equal.
        apply Z.bits_inj'. intros j Hj. rewrite Z.lor_spec. destruct (Z.lt_ge_cases j 32).
        - by rewrite Z.ones_spec_low, orb_true_r by lia.
        - by rewrite (testbit_high t 32) by lia. }
    rewrite lor_fields by lia. rewrite <- (Z.mul_1_r l). rewrite (lor_fields _ 16 l 0) by lia.
    change (Z.ones 32) with 4294967295. zlia.
  - apply Z.testbit_false in Hb; [|lia]. assert (Hh' : i2 < 2 ^ 15) by zlia.
    replace (u64 (s32 (i2 * 2 ^ 16))) with (i2 * 2 ^ 16) by (unfold u64, s32; zlia).
    rewrite lor_fields by lia. rewrite <- (Z.mul_1_r l). rewrite (lor_fields _ 16 l 0) by lia. zlia.
Qed.
