(* ===== verification/StringThm.v ===== *)
(** Theorems about the string library of lib/string. *)
From stdpp Require Import gmap list.
From Stdlib Require Import ZArith Lia.
From S2P Require Import Prelude Memory LibString ItoaSpec.
Local Open Scope Z_scope.

(** A concrete memory: text at 0x100 and 0x140, "0" at 0x180, free space from 0x1C0. *)
Definition text_mem : mem :=
  let m := fill ∅ 0x100 (Z.to_nat 0x200) Init.Byte.x00 in
  let m := poke32 m 0x100 0x00434241 in
  let m := poke32 m 0x140 0x00444241 in
  let m := poke8 m 0x180 48 in
  poke8 m 0x240 0xAA.

Lemma text_backed a k : 0x100 <= a -> a + k <= 0x300 -> backed text_mem a k.
Proof.
  intros H1 H2. unfold text_mem. cbv zeta. do 4 apply backed_poken. apply backed_fill; lia.
Qed.

Lemma text_string a s :
  0x100 <= a -> a + Z.of_nat (length s) + 1 <= 0x300 -> Forall (fun c => c <> 0) s ->
  (fun i => peek8 text_mem (a + Z.of_nat i)) <$> seq 0 (length s) = s ->
  peek8 text_mem (a + Z.of_nat (length s)) = 0 -> cstring text_mem a s.
Proof.
  intros H1 H2 Hz Hm He. split; [by apply text_backed; lia | | done].
  intros i c Hi. pose proof (lookup_lt_Some _ _ _ Hi) as Hlt.
  split; [|by apply (proj1 (Forall_lookup _ s) Hz i c)].
  rewrite <- Hm, list_lookup_fmap, lookup_seq_lt in Hi by done. apply (inj Some) in Hi. exact Hi.
Qed.

Lemma text_abc : cstring text_mem 0x100 [0x41; 0x42; 0x43].
Proof. apply text_string; [done | done | by repeat constructor | by vm_compute..]. Qed.

Lemma text_abd : cstring text_mem 0x140 [0x41; 0x42; 0x44].
Proof. apply text_string; [done | done | by repeat constructor | by vm_compute..]. Qed.

Lemma text_zero : cstring text_mem 0x180 [48].
Proof. apply text_string; [done | done | by repeat constructor | by vm_compute..]. Qed.

(** C27: itoa followed by reading the text back gives the number, for every
    non-negative number in the bases 2 to 10 and every negative decimal but the
    most negative one: the text is a sign if negative and the digits, with no
    leading zero. *)
Theorem itoa_roundtrip fuel zero temp m num str base :
  (34 <= fuel)%nat -> 2 <= base <= 10 -> Z.abs num < 2 ^ 31 -> (num < 0 -> base = 10) ->
  backed m str 34 -> backed m temp 34 -> str + 34 <= temp \/ temp + 34 <= str ->
  cstring m zero [48] -> str + 2 <= zero \/ zero + 2 <= str ->
  wp (itoa fuel zero temp m num str base) (fun '(p, m') =>
    p = str /\ exists s, cstring m' str s /\ text_of num base s).
Proof.
  intros Hf Hb Hn Hneg Bs Bt Hd Cz Hdz. destruct (decide (num = 0)) as [->|Hne].
  - unfold itoa. rewrite Z.eqb_refl. wp_step. eapply wp_mono.
    { apply (wp_strcpy fuel m str zero [48] Cz); [|simpl; lia..].
      apply (backed_sub _ _ _ _ _ Bs); simpl; lia. }
    intros [p m'] (_ & _ & C). wp_ret. split; [done|]. exists [48]. split; [done|].
    exists false, [48]. split_and!; try done. apply Forall_singleton. lia.
  - apply (wp_itoa fuel zero temp str base m Hf Hb 31); [lia | | | | lia | lia | done].
    + etrans; [|apply (Z.pow_le_mono_l 2 base); lia]. done.
    + apply (backed_sub _ _ _ _ _ Bs); lia.
    + apply (backed_sub _ _ _ _ _ Bt); lia.
Qed.

Lemma itoa_roundtrip_witness :
  wp (itoa 34 0x180 0x200 text_mem (-2025) 0x1C0 10) (fun '(p, m') =>
    p = 0x1C0 /\ exists s, cstring m' 0x1C0 s /\ text_of (-2025) 10 s).
Proof.
  apply (itoa_roundtrip 34 0x180 0x200 text_mem (-2025) 0x1C0 10);
    [lia | lia | lia | done | apply text_backed; lia | apply text_backed; lia | lia
    | exact text_zero | lia].
Defined.

(** reverse_string reverses the string in place, but its local array is one
    byte short: the array has as many bytes as the string has characters, and
    the byte after it is overwritten with NUL, whatever it held. *)
Theorem reverse_string_overflows fuel m s temp l :
  cstring m s l -> 0 < Z.of_nat (length l) < 2 ^ 31 -> Z.of_nat (length l) <= Z.of_nat fuel ->
  backed m temp (Z.of_nat (length l) + 1) ->
  s + Z.of_nat (length l) < temp \/ temp + Z.of_nat (length l) < s ->
  wp (reverse_string fuel m s temp) (fun m' =>
    cstring m' s (reverse l) /\ peek8 m' (temp + Z.of_nat (length l)) = 0).
Proof.
  intros C Hl Hf Bt Hd. eapply wp_mono; [by apply (wp_reverse_string fuel m s temp l)|].
  intros m' (_ & Ct & Cs). split; [done|]. exact (cs_end _ _ _ Ct).
Qed.

(** The byte 0xAA at 0x240 is the first one after an array of 3 bytes at 0x23D. *)
Lemma reverse_string_overflows_witness :
  peek8 text_mem (0x23D + Z.of_nat (length [0x41; 0x42; 0x43])) = 0xAA /\
  wp (reverse_string 3 text_mem 0x100 0x23D) (fun m' =>
    cstring m' 0x100 (reverse [0x41; 0x42; 0x43]) /\
    peek8 m' (0x23D + Z.of_nat (length [0x41; 0x42; 0x43])) = 0).
Proof.
  split; [vm_compute; reflexivity|].
  apply (reverse_string_overflows 3 text_mem 0x100 0x23D [0x41; 0x42; 0x43]);
    [exact text_abc | simpl; lia | simpl; lia | apply text_backed; simpl; lia | simpl; lia].
Defined.

(** The characters at an address. *)
Definition chars_at (m : mem) (a : Z) (n : nat) : list Z :=
  (fun i => peek8 m (a + Z.of_nat i)) <$> seq 0 n.

(** Itoa is wrong outside that range: INT_MIN is written as the characters
    "-./,),(-*,(", a negative number in base 2 and ten in base 16 as characters
    that are no digits. *)
Theorem itoa_garbage :
  wp (itoa 34 0x180 0x200 text_mem (- 2 ^ 31) 0x1C0 10) (fun '(_, m) =>
    chars_at m 0x1C0 12 = [45; 46; 47; 44; 41; 44; 40; 45; 42; 44; 40; 0]) /\
  wp (itoa 34 0x180 0x200 text_mem (-2) 0x1C0 2) (fun '(_, m) => chars_at m 0x1C0 3 = [47; 48; 0]) /\
  wp (itoa 34 0x180 0x200 text_mem 10 0x1C0 16) (fun '(_, m) => chars_at m 0x1C0 2 = [58; 0]).
Proof. vm_compute. repeat split. Qed.

(** C32: strcmp decides equality of strings and never reads past their ends:
    it returns 0 exactly when they are equal, and otherwise -1 or 1 by the
    order of the first differing characters taken as signed. *)
Theorem strcmp_correct fuel m a b s1 s2 :
  cstring m a s1 -> cstring m b s2 ->
  Z.of_nat (length s1) < 2 ^ 64 - 1 -> Z.of_nat (length s2) < 2 ^ 64 - 1 ->
  Z.of_nat (length s1) <= Z.of_nat fuel -> Z.of_nat (length s2) <= Z.of_nat fuel ->
  wp (strcmp fuel m a b) (fun r =>
    (r = 0 <-> s1 = s2) /\
    (r <> 0 -> exists i : nat, take i s1 = take i s2 /\ s1 !! i <> s2 !! i /\
       r = if s8 (default 0 (s1 !! i)) <? s8 (default 0 (s2 !! i)) then -1 else 1)).
Proof.
  intros C1 C2 L1 L2 F1 F2. eapply wp_mono; [by apply (wp_strcmp fuel m a b s1 s2)|].
  intros r [[-> ->]|(i & Hi1 & Hi2 & D)]; [done|].
  pose proof D as (Hag & Hne & Hr). destruct (cs_peek m a s1 i C1 Hi1) as [P1 _].
  destruct (cs_peek m b s2 i C2 ltac:(lia)) as [P2 _]. rewrite P1, P2 in Hne, Hr.
  assert (Hlook : s1 !! Z.to_nat i <> s2 !! Z.to_nat i) by congruence.
  split.
  - split; [intros ->; by destruct (differ_nonzero _ _ _ _ _ D) | intros ->; done].
  - intros _. exists (Z.to_nat i). split; [|done]. apply list_eq. intros j.
    destruct (decide (j < Z.to_nat i)%nat) as [Hj|Hj].
    + rewrite !lookup_take_lt by done. pose proof (Hag (Z.of_nat j) ltac:(lia)) as He.
      destruct (lookup_lt_is_Some_2 s1 j ltac:(lia)) as [c Hc].
      destruct (lookup_lt_is_Some_2 s2 j ltac:(lia)) as [d Hd].
      rewrite Hc, Hd. destruct (cs_char _ _ _ C1 j c Hc) as [E1 _]. destruct (cs_char _ _ _ C2 j d Hd) as [E2 _].
      congruence.
    + by rewrite !lookup_take_ge by lia.
Qed.

Lemma strcmp_correct_witness :
  wp (strcmp 3 text_mem 0x100 0x140) (fun r =>
    (r = 0 <-> [0x41; 0x42; 0x43] = [0x41; 0x42; 0x44]) /\
    (r <> 0 -> exists i : nat, take i [0x41; 0x42; 0x43] = take i [0x41; 0x42; 0x44] /\
       [0x41; 0x42; 0x43] !! i <> [0x41; 0x42; 0x44] !! i /\
       r = if s8 (default 0 ([0x41; 0x42; 0x43] !! i)) <? s8 (default 0 ([0x41; 0x42; 0x44] !! i))
           then -1 else 1)).
Proof.
  apply (strcmp_correct 3 text_mem 0x100 0x140 [0x41; 0x42; 0x43] [0x41; 0x42; 0x44]);
    [exact text_abc | exact text_abd | simpl; lia..].
Defined.
