(* ===== verification/StackThm.v ===== *)
(** Theorems about the stack of words and the dumps of the loader's memory manager. *)
From stdpp Require Import gmap list strings.
From Stdlib Require Import ZArith Lia.
From S2P Require Import Prelude Memory Physical PhysicalSpec Stack EfiDump.
Local Open Scope Z_scope.

(** ** The stack *)

(** The stack of words is last in, first out: after any number of 64-bit words
    are pushed, popping as many returns them, the last first, and leaves the stack as it was;
    the pushes fault nowhere and write only the words above the old top. *)
Theorem stack_lifo (m : mem) (s : stack64_t) (l : list Z)
    (Hsp : 0 <= sp s) (Hfit : sp s + Z.of_nat (length l) < 2 ^ 64)
    (Hl : Forall (fun v => 0 <= v < 2 ^ 64) l)
    (B : backed m (stack s + 8 * sp s) (8 * Z.of_nat (length l))) :
  exists m' s',
    push_all m s l = Ok (m', s') /\ pop_all m' s' (length l) = Ok (reverse l, s) /\
    sp s' = sp s + Z.of_nat (length l) /\
    mem_upd (region (stack s + 8 * sp s) (8 * Z.of_nat (length l))) m m'.
Proof.
  pose proof (wp_push_all l m s Hsp Hfit Hl B) as W.
  destruct (push_all m s l) as [[m' s']| |]; [|done..]. destruct W as (_ & Hs & _ & U & Hpop).
  by exists m', s'.
Qed.

Definition stack_mem : mem := fill ∅ 0x100 (Z.to_nat 64) Init.Byte.x00.

Lemma stack_lifo_witness :
  let s := {| stack := 0x100; size := 8; sp := 2 |} in
  (exists m' s',
    push_all stack_mem s [5; 7; 2 ^ 64 - 1] = Ok (m', s') /\
    pop_all m' s' (length [5; 7; 2 ^ 64 - 1]) = Ok (reverse [5; 7; 2 ^ 64 - 1], s) /\
    sp s' = sp s + Z.of_nat (length [5; 7; 2 ^ 64 - 1]) /\
    mem_upd (region (stack s + 8 * sp s) (8 * Z.of_nat (length [5; 7; 2 ^ 64 - 1]))) stack_mem m') /\
  ('(m, s1) ← push_all stack_mem s [5; 7]; '(v, _) ← stack64_pop m s1; Ok v) = Ok 7.
Proof.
  split.
  - apply (stack_lifo stack_mem {| stack := 0x100; size := 8; sp := 2 |}); cbn; [lia | lia | |].
    + repeat constructor; lia.
    + apply backed_fill; lia.
  - vm_compute. reflexivity.
Defined.

(** ** compare_pmm *)

(** The comparison prints nothing but its title exactly if the two maps have as many blocks
    and every block has the same total and the same number of free frames in both; it reads no
    block past the end of either. *)
Theorem compare_pmm_silent (at_a at_b : Z) (a b : pmm)
    (Ha : 0 <= block_count a <= Z.of_nat (length (blocks a)))
    (Hb : 0 <= block_count b <= Z.of_nat (length (blocks b))) :
  exists lines, compare_pmm at_a at_b a b = Ok lines /\
    (lines = [(ln "Comparing physical memory maps at a:0x%llx and b:0x%llx", [at_a; at_b])] <->
     block_count a = block_count b /\ forall i, 0 <= i < block_count a -> same_counts a b i).
Proof.
  pose proof (wp_compare_pmm at_a at_b a b Ha Hb) as W.
  destruct (compare_pmm at_a at_b a b) as [lines| |]; [by exists lines | done..].
Qed.

Definition two_blocks (free : Z) : pmm :=
  let b := {| pb_address := 0; pb_frames_total := 16; pb_frames_free := free; pb_map := 0x100;
              pb_type := PM_USABLE; pb_attributes := 0 |} in
  {| blocks := [b; set_frames_free b 3]; block_count := 2 |}.

Lemma compare_pmm_silent_witness :
  (exists lines, compare_pmm 1 2 (two_blocks 4) (two_blocks 5) = Ok lines /\
    (lines = [(ln "Comparing physical memory maps at a:0x%llx and b:0x%llx", [1; 2])] <->
     block_count (two_blocks 4) = block_count (two_blocks 5) /\
     forall i, 0 <= i < block_count (two_blocks 4) -> same_counts (two_blocks 4) (two_blocks 5) i)) /\
  compare_pmm 1 2 (two_blocks 4) (two_blocks 5) =
    Ok [(ln "Comparing physical memory maps at a:0x%llx and b:0x%llx", [1; 2]); (ln "Block %d frames_free - a: %d, b: %d", [0; 4; 5])].
Proof.
  split.
  - apply compare_pmm_silent; cbn; lia.
  - vm_compute. reflexivity.
Defined.
