(* ===== verification/StdioThm.v ===== *)
(** Theorems about formatted output. *)
From stdpp Require Import gmap list.
From Stdlib Require Import ZArith Lia.
From S2P Require Import Prelude Memory LibString Stdio StdioSpec FormatSpec.
Local Open Scope Z_scope.

(** ** Hexadecimal digits *)

(** The text of a number in [k] + 1 digits. *)
Definition hex_text (m m' : mem) (str n num : Z) : Prop :=
  mem_upd (region str n) m m' /\ hex_value (bytes_at m' str n) = num /\
  Forall (fun c => c ∈ hex_chars) (bytes_at m' str n).

Lemma wp_hex_text k m num str :
  0 <= k -> 0 <= num < 16 ^ (k + 1) -> backed m str (k + 1) ->
  wp (hex_toa k m num str) (fun m' => hex_text m m' str (k + 1) num).
Proof.
  intros Hk Hn B. eapply wp_mono; [by apply wp_hex_toa|]. intros m' [U Hd]. split; [done|]. split.
  - rewrite (hex_value_digits k m' num str (k + 1)) by (done || lia).
    by rewrite Z.sub_diag, Z.mul_0_r, Z.shiftr_0_r.
  - apply Forall_fmap, Forall_forall. intros j Hj%elem_of_seqZ. cbn. rewrite Hd by lia.
    apply hex_char_digit.
Qed.

(** The hexadecimal conversions write the number in exactly 8 and 16 upper-case
    digits, most significant first, and nothing else: no terminating NUL, so the
    text ends only where the buffer held one before. *)
Theorem hex_roundtrip m num str :
  backed m str 16 ->
  (0 <= num < 2 ^ 32 -> wp (x32toa m num str) (fun m' => hex_text m m' str 8 num)) /\
  (0 <= num < 2 ^ 64 -> wp (x64toa m num str) (fun m' => hex_text m m' str 16 num)).
Proof.
  intros B. split; intros Hn.
  - apply (wp_hex_text 7); [done | exact Hn |]. apply (backed_sub _ _ _ _ _ B); lia.
  - by apply (wp_hex_text 15).
Qed.

(** Memory for vsprintf: output at 0x100, temp at 0x200, rev at 0x240, the literal of
    itoa at 0x280, the format at 0x2A0. *)
Definition fmt_mem (format : list Z) : mem :=
  let m := fill ∅ 0x100 (Z.to_nat 0x200) Init.Byte.x00 in
  let m := poke8 m 0x280 48 in
  foldl (fun m '(i, c) => poke8 m (0x2A0 + i) c) m (zip (seqZ 0 (Z.of_nat (length format))) format).

Lemma hex_roundtrip_witness :
  backed (fmt_mem []) 0x200 16 /\
  wp (x64toa (fmt_mem []) 0xFEEDBEEF 0x200) (fun m' => hex_text (fmt_mem []) m' 0x200 16 0xFEEDBEEF).
Proof.
  assert (B : backed (fmt_mem []) 0x200 16) by (apply backed_poken, backed_fill; lia).
  split; [exact B|]. apply (hex_roundtrip (fmt_mem []) 0xFEEDBEEF 0x200 B). lia.
Defined.

(** What vsprintf writes for a format without %s, wherever that and its buffers lie. *)
Definition writes_out (fmt arg out : list Z) : Prop :=
  forall fuel zero rev temp str format m,
    laid_out (fun _ => None) fmt m (Z.of_nat (length out)) fuel zero rev temp str format ->
    wp (vsprintf fuel zero rev temp str format m arg) (fun '(written, m') =>
      written = Z.of_nat (length out) /\ bytes_at m' str written = out).

Lemma printed_out fmt arg out : printed (fun _ => None) fmt arg = Some out -> writes_out fmt arg out.
Proof.
  intros Hp fuel zero rev temp str format m L.
  eapply wp_mono; [by apply (wp_vsprintf (fun _ => None) fmt m _ fuel zero rev temp str format L arg out)|].
  by intros [written m'] (-> & _ & Hb).
Qed.

(** C40: where vsprintf departs from the C standard, whatever the text before and after.
    The character behind a conversion is copied as it is, a percent sign too: the
    conversion it would begin is lost, and its argument left alone.  A conversion at the end
    of the format adds a NUL to the output, and it is counted.  And %x after %llx prints
    sixteen digits: behind its own eight the last eight of the longer number, which are
    still in the buffer. *)
Theorem vsprintf_conversions before after v q w c d args :
  literal before = true -> literal after = true -> s32 v <> - 2 ^ 31 ->
  writes_out (before ++ [37; 100; c] ++ after) (v :: args) (before ++ decimal (s32 v) ++ c :: after) /\
  writes_out (before ++ [37; 100]) (v :: args) (before ++ decimal (s32 v) ++ [0]) /\
  writes_out (before ++ [37; 108; 108; 120; c; 37; 120; d] ++ after) (q :: w :: args)
    (before ++ hex 16 q ++ c :: hex 8 (u32 w) ++ drop 8 (hex 16 q) ++ d :: after).
Proof.
  intros Hb Ha Hv. split; [|split]; apply printed_out; unfold printed; rewrite length_app, print_literal by done.
  - change (length ([37; 100; c] ++ after)) with (S (S (S (length after)))). cbn [app].
    rewrite print_decimal by done. by rewrite (Nat.add_comm 2 (length after) : S (S (length after)) = _), print_end.
  - change (length [37; 100]) with 2%nat. by rewrite print_decimal_end.
  - change (length _) with (S (S (S (S (S (S (S (S (length after))))))))). cbn [app].
    rewrite print_hex64 by done. change 32%nat with (16 + S 15)%nat. rewrite print_hex32_stale.
    by rewrite (Nat.add_comm 6 (length after) : S (S (S (S (S (S (length after)))))) = _), print_end.
Qed.

(** C13: vsprintf against its reference: given room for what the reference prints, it
    returns the number of those characters and has written just them, and nothing
    outside the output and its two local arrays. *)
Theorem vsprintf_prints texts fmt m fuel zero rev temp str format arg out :
  printed texts fmt arg = Some out ->
  laid_out texts fmt m (Z.of_nat (length out)) fuel zero rev temp str format ->
  wp (vsprintf fuel zero rev temp str format m arg) (fun '(written, m') =>
    written = Z.of_nat (length out) /\ bytes_at m' str written = out /\
    mem_upd (writes (Z.of_nat (length out)) rev temp str) m m').
Proof.
  intros Hp L. eapply wp_mono; [by apply (wp_vsprintf texts fmt m _ fuel zero rev temp str format L arg out)|].
  by intros [written m'] (H1 & H2 & H3).
Qed.

(** "%s %d:%llx" and "echOS" in memory. *)
Definition fmt_s : list Z := [37; 115; 32; 37; 100; 58; 37; 108; 108; 120; 10].
Definition text_s : list Z := [101; 99; 104; 79; 83].
Definition print_mem : mem :=
  foldl (fun m '(i, c) => poke8 m (0x2E0 + i) c) (fmt_mem fmt_s) (zip (seqZ 0 5) text_s).
Definition texts_s (v : Z) : option (list Z) := if v =? 0x2E0 then Some text_s else None.
Definition out_s : list Z :=
  [101; 99; 104; 79; 83; 32; 45; 52; 48; 53; 58; 48; 48; 48; 48; 48; 48; 48; 48; 66; 56; 48; 48; 48; 48; 48; 48; 10].

Lemma print_mem_backed a k : 0x100 <= a -> a + k <= 0x300 -> backed print_mem a k.
Proof.
  intros H1 H2. unfold print_mem, fmt_mem.
  assert (Hf : forall l b m, backed m a k -> backed (foldl (fun m '(i, c) => poke8 m (b + i) c) m l) a k).
  { induction l as [|[i c] l IH]; intros b m B; [done|]. cbn [foldl]. apply IH. by apply backed_poken. }
  do 2 apply Hf. apply backed_poken, backed_fill; lia.
Qed.

Lemma print_mem_string a s :
  0x100 <= a -> a + Z.of_nat (length s) + 1 <= 0x300 -> Forall (fun c => c <> 0) s ->
  bytes_at print_mem a (Z.of_nat (length s) + 1) = s ++ [0] -> cstring print_mem a s.
Proof. intros. apply cstring_intro; [apply print_mem_backed; lia | done | done]. Qed.

Lemma print_mem_laid_out :
  laid_out texts_s fmt_s print_mem (Z.of_nat (length out_s)) 40 0x280 0x240 0x200 0x100 0x2A0.
Proof.
  split; try (apply print_mem_backed; cbn; lia).
  - cbn. lia.
  - split; [apply print_mem_string; [done | cbn; lia | by repeat constructor | by vm_compute]|].
    unfold writes, region. cbn. lia.
  - split; [apply print_mem_string; [done | cbn; lia | by repeat constructor | by vm_compute]|].
    unfold writes, region. cbn. lia.
  - unfold texts_s. intros v s. destruct (Z.eqb_spec v 0x2E0) as [->|]; [|done]. intros [= <-].
    split; [apply print_mem_string; [done | cbn; lia | by repeat constructor | by vm_compute]|].
    split; [cbn; lia|]. unfold writes, region. cbn. lia.
  - cbn. lia.
  - cbn. lia.
Qed.

Lemma vsprintf_prints_witness :
  printed texts_s fmt_s [0x2E0; -405; 0xB8000000] = Some out_s /\
  wp (vsprintf 40 0x280 0x240 0x200 0x100 0x2A0 print_mem [0x2E0; -405; 0xB8000000]) (fun '(written, m') =>
    written = Z.of_nat (length out_s) /\ bytes_at m' 0x100 written = out_s /\
    mem_upd (writes (Z.of_nat (length out_s)) 0x240 0x200 0x100) print_mem m').
Proof.
  assert (Hp : printed texts_s fmt_s [0x2E0; -405; 0xB8000000] = Some out_s) by (vm_compute; reflexivity).
  split; [exact Hp|].
  exact (vsprintf_prints texts_s fmt_s print_mem 40 0x280 0x240 0x200 0x100 0x2A0 _ out_s Hp print_mem_laid_out).
Defined.

(** "1%d", of "%d%d" and the arguments 1 and 2. *)
Definition twice : list Z := [37; 100; 37; 100].

Lemma fmt_mem_twice :
  laid_out (fun _ => None) twice (fmt_mem twice) 3 64 0x280 0x240 0x200 0x100 0x2A0.
Proof.
  assert (B : forall a k, 0x100 <= a -> a + k <= 0x300 -> backed (fmt_mem twice) a k).
  { intros a k H1 H2. unfold fmt_mem, twice. cbn [length]. do 5 apply backed_poken. apply backed_fill; lia. }
  assert (C : forall a s, 0x100 <= a -> a + Z.of_nat (length s) + 1 <= 0x300 -> Forall (fun c => c <> 0) s ->
    bytes_at (fmt_mem twice) a (Z.of_nat (length s) + 1) = s ++ [0] -> cstring (fmt_mem twice) a s)
    by (intros; apply cstring_intro; [apply B; lia | done | done]).
  split; try (apply B; lia).
  - lia.
  - split; [apply C; [done | cbn; lia | by repeat constructor | by vm_compute]|]. unfold writes, region. cbn. lia.
  - split; [apply C; [done | cbn; lia | by repeat constructor | by vm_compute]|]. unfold writes, region. cbn. lia.
  - done.
  - lia.
  - cbn. lia.
Qed.

Lemma vsprintf_conversions_witness :
  wp (vsprintf 64 0x280 0x240 0x200 0x100 0x2A0 (fmt_mem twice) [1; 2]) (fun '(written, m') =>
    written = 3 /\ bytes_at m' 0x100 written = [49; 37; 100]).
Proof.
  exact (proj1 (vsprintf_conversions [] [100] 1 0 0 37 37 [2] eq_refl eq_refl ltac:(discriminate))
    64%nat 0x280 0x240 0x200 0x100 0x2A0 (fmt_mem twice) fmt_mem_twice).
Defined.
