(* ===== verification/ConsoleThm.v ===== *)
(** Theorems about the console and its renderer. *)
From coqutil Require Import Byte.
From stdpp Require Import gmap list.
From Stdlib Require Import ZArith Lia.
From S2P Require Import Prelude Memory Physical LibString Stdio StdioSpec FormatSpec Paging Gdt Ssfn SsfnSpec Console ConsoleSpec Kernel KernelText KernelBoot ImageMachine.
Local Open Scope Z_scope.

(** ** A console: the font at 0x2000, 40 times 'A' at 0x2100, and the screen at 0x30000
    with two pages of memory *)
Definition many : list Z := replicate 40 65.
Definition con_mem : mem := place image_base 0x2100 (many ++ [0]).

Definition con_fb : framebuffer_t := image_fb 0 0x2000.
Definition con_g : ssfn_t := ssfn_setup ssfn_zero con_fb.

Lemma con_shows : shows_image con_mem.
Proof.
  apply (shows_ext _ con_mem image_base_shows). intros x Hx. unfold con_mem. rewrite lookup_place, decide_False; [reflexivity|].
  change (Z.of_nat (length (many ++ [0]))) with 41. unfold region in Hx. lia.
Qed.
Definition con_font := si_font _ con_shows.

Lemma con_screen_ok : screen_ok con_mem 0x2000 66 (font_table 0x2000) con_fb 2 8 144 36.
Proof.
  apply (font_screen_ok con_mem 0x2000 ltac:(done) con_font con_fb 144); cbn; try done. unfold region. lia.
Qed.

Lemma con_console : console con_mem 0x2000 66 con_fb 144 36 con_mem con_g (0, 0).
Proof.
  split; try done. apply (backed_sub _ 0x30000 0x3000); [exact (si_screen _ con_shows) | done | done].
Qed.

(** C16: ssfn_putc with a zero background: a newline or a carriage return moves the
    cursor; a character the font has no glyph for leaves everything as it is; the glyph
    of any other is drawn at the cursor: each pixel that is lit in one of its bitmaps
    gets the foreground colour, and no other byte of memory changes. *)
Theorem ssfn_putc_draws fuel m0 m g size t unicode :
  0x110000 <= Z.of_nat fuel -> font_ok m0 (ssfn_src g) size t -> same_font (ssfn_src g) size m0 m ->
  dst_ptr (ssfn_dst g) <> NULL -> dst_p (ssfn_dst g) <> 0 ->
  ((unicode =? 13) || (unicode =? 10) = false ->
    forall chr, glyph_of t unicode = Some chr -> glyph_ok m0 m (ssfn_src g) size (ssfn_dst g) chr) ->
  wp (ssfn_putc fuel (m, g) unicode) (putc_post m0 m g t unicode).
Proof. intros. by apply (wp_ssfn_putc fuel m0 m g size t unicode). Qed.

Lemma ssfn_putc_draws_witness :
  glyph_of (font_table 0x2000) 65 = Some 0x2022 /\
  wp (ssfn_putc (Z.to_nat 0x110000) (con_mem, con_g) 65) (putc_post con_mem con_mem con_g (font_table 0x2000) 65).
Proof.
  split; [reflexivity|].
  apply (ssfn_putc_draws (Z.to_nat 0x110000) con_mem con_mem con_g 66 (font_table 0x2000) 65);
    [by rewrite Z2Nat.id | exact (sk_font _ _ _ _ _ _ _ _ _ con_screen_ok) | intros a _; reflexivity | discriminate | discriminate |].
  intros _ chr ->%font_glyph.
  apply (glyph_ok_fits con_mem 0x2000 66 (font_table 0x2000) con_fb 2 8 144 36 con_screen_ok con_mem con_g (0, 0) _ con_console);
    [done | exact (font_glyph_fits con_mem 0x2000 con_font)].
Defined.

(** C17: ssfn_printf prints what vsprintf's reference does, and where: if every character
    starts on a line of the screen, it returns one more than their number, leaves the
    cursor where the characters take it, within the margins, and writes to the screen and
    its own buffers only. *)
Theorem ssfn_printf_on_screen m0 size t fb height_max width_max pitch lines fuel texts fmt zero rev temp output
    format m g p values out :
  screen_ok m0 (ssfn_src g) size t fb height_max width_max pitch lines -> 0x110000 <= Z.of_nat fuel ->
  console m0 (ssfn_src g) size fb pitch lines m g p ->
  printed texts fmt values = Some out -> Z.of_nat (length out) <= 1024 ->
  fits m0 (ssfn_src g) t fb height_max lines p out ->
  laid_out texts fmt m 1024 fuel zero rev temp output format ->
  (forall a, region (ssfn_src g) size a \/ on_screen fb pitch lines a -> ~ writes 1024 rev temp output a) ->
  wp (ssfn_printf fuel zero rev temp output (m, g) fb format values) (fun '(r, (m', g')) =>
    r = Z.of_nat (length out) + 1 /\
    console m0 (ssfn_src g) size fb pitch lines m' g' (final_cursor m0 (ssfn_src g) t fb p out) /\
    mem_upd (fun a => on_screen fb pitch lines a \/ writes 1024 rev temp output a) m m').
Proof.
  intros K Hf C Hp H1 Hn L D. eapply wp_mono.
  { by apply (wp_ssfn_printf m0 _ size t fb height_max width_max pitch lines K fuel Hf texts fmt zero rev temp output
      format m g p values out). }
  by intros [r [m' g']] (Hr & C' & U & _).
Qed.

(** The cursor over this font. *)
Definition con_next (p : Z * Z) (c : Z) : Z * Z :=
  let '(x, y) := p in
  let '(x, y) :=
    if char_code c =? 13 then (0, y) else if char_code c =? 10 then (0, y + 2)
    else (x + (if 65 =? char_code c then 1 else 0), y) in
  let '(x, y) := if 27 <? x then (0, y + 2) else (x, y) in
  (Z.max 0 x, y).

(** The characters all start on one of the first [lines] lines. *)
Fixpoint con_fits (lines : Z) (p : Z * Z) (l : list Z) : bool :=
  match l with
  | [] => true
  | c :: l => (p.2 + 2 <=? lines) && con_fits lines (con_next p c) l
  end.

Section cursor.
Context (m : mem) (F : holds m 0x2000 font_bytes).

Lemma con_next_cursor p c : next_cursor m 0x2000 (font_table 0x2000) con_fb p c = con_next p c.
Proof using F.
  unfold next_cursor, con_next. rewrite (font_line_height m 0x2000 F).
  assert (Ha : advance m (font_table 0x2000) (char_code c) = if 65 =? char_code c then 1 else 0).
  { unfold advance, font_table. cbn [glyph_of]. destruct (65 =? char_code c); [|done].
    by apply (font_at m 0x2000 F _ 38). }
  rewrite Ha. done.
Qed.

Lemma con_text lines l : forall p,
  con_fits lines p l = true -> fits m 0x2000 (font_table 0x2000) con_fb 2 lines p l.
Proof using F.
  induction l as [|c l IH]; intros p; [done|]. cbn [con_fits fits].
  intros [H1%Z.leb_le H2]%andb_prop. rewrite con_next_cursor. split; [exact H1 | by apply IH].
Qed.

Lemma con_cursor l : forall p, final_cursor m 0x2000 (font_table 0x2000) con_fb p l = foldl con_next p l.
Proof using F.
  induction l as [|c l IH]; intros p; [done|]. cbn [foldl]. rewrite <- con_next_cursor. apply IH.
Qed.
End cursor.

Definition many_texts (v : Z) : option (list Z) := if v =? 0x2100 then Some many else None.

Lemma con_laid_out :
  laid_out many_texts (message_text Title) con_mem 1024 (Z.to_nat 0x110000) 0x3280 0x4420 0x4400 0x4000 0x3000.
Proof.
  destruct (image_laid_out con_mem (si_image _ con_shows) (Z.to_nat 0x110000) Title) as [H1 H2 H3 H4 H5 H6 _ H8 H9]; [by rewrite Z2Nat.id|].
  split; [exact H1 | exact H2 | exact H3 | exact H4 | exact H5 | exact H6 | | exact H8 | exact H9].
  unfold many_texts. intros v s. destruct (Z.eqb_spec v 0x2100) as [->|]; [|done]. intros [= <-].
  change (Z.of_nat (length many)) with 40. rewrite Z2Nat.id by done. split; [|split; [done|]].
  - apply holds_cstring; [|by vm_compute].
    exact (holds_place image_base 0x2100 (many ++ [0])).
  - unfold region, writes. intros x Hx Hw. unfold region in Hw. lia.
Qed.

(** A line takes 28 of the characters, so they end on the second, and two newlines follow. *)
Lemma ssfn_printf_on_screen_witness :
  wp (ssfn_printf (Z.to_nat 0x110000) 0x3280 0x4420 0x4400 0x4000 (con_mem, con_g) con_fb 0x3000 [0x2100])
    (fun '(r, (m', g')) => r = 42 + 1 /\
      console con_mem 0x2000 66 con_fb 144 36 m' g' (0, 6) /\
      mem_upd (fun a => on_screen con_fb 144 36 a \/ writes 1024 0x4420 0x4400 0x4000 a) con_mem m').
Proof.
  pose proof (con_text con_mem con_font 36 (many ++ [10; 10]) (0, 0) ltac:(vm_compute; reflexivity)) as F.
  change (0, 6) with (foldl con_next (0, 0) (many ++ [10; 10])). rewrite <- (con_cursor con_mem con_font).
  apply (ssfn_printf_on_screen con_mem 66 (font_table 0x2000) con_fb 2 8 144 36 (Z.to_nat 0x110000) many_texts
    (message_text Title) 0x3280 0x4420 0x4400 0x4000 0x3000 con_mem con_g (0, 0) [0x2100] (many ++ [10; 10])).
  - exact con_screen_ok.
  - by rewrite Z2Nat.id.
  - exact con_console.
  - exact (printed_string many_texts [] 10 [10] 0x2100 many eq_refl eq_refl eq_refl).
  - by vm_compute.
  - exact F.
  - exact con_laid_out.
  - change (ssfn_src con_g) with 0x2000. unfold on_screen, writes, region. cbn. lia.
Defined.

(** C39: nothing stops a text at the bottom of the framebuffer: ssfn_setup leaves the width
    and the height of the destination as they are, 0 in the kernel, which turns clipping
    off, and ssfn_put never scrolls.  Whatever the font, the framebuffer and the text, if the
    text takes the cursor to a line past the last one before its last character, then each
    pixel of that character's glyph is drawn behind the end of the framebuffer, over
    whatever is there ([lines], counted from the start of the buffer, says how far memory
    goes on). *)
Theorem console_past_bottom m0 size t fb height_max width_max pitch lines fuel texts fmt zero rev temp output
    format m g p values out c chr r col :
  screen_ok m0 (ssfn_src g) size t fb height_max width_max pitch lines -> 0x110000 <= Z.of_nat fuel ->
  console m0 (ssfn_src g) size fb pitch lines m g p ->
  dst_w (ssfn_dst g) = dst_w (ssfn_dst (ssfn_setup ssfn_zero fb)) ->
  dst_h (ssfn_dst g) = dst_h (ssfn_dst (ssfn_setup ssfn_zero fb)) ->
  printed texts fmt values = Some (out ++ [c]) -> Z.of_nat (length (out ++ [c])) <= 1024 ->
  fits m0 (ssfn_src g) t fb height_max lines p (out ++ [c]) ->
  laid_out texts fmt m 1024 fuel zero rev temp output format ->
  (forall a, region (ssfn_src g) size a \/ on_screen fb pitch lines a -> ~ writes 1024 rev temp output a) ->
  (char_code c =? 13) || (char_code c =? 10) = false -> glyph_of t (char_code c) = Some chr ->
  glyph_bit m0 (ssfn_src g) chr r col ->
  let '(x, y) := final_cursor m0 (ssfn_src g) t fb p out in
  height fb <= y ->
  wp (ssfn_printf fuel zero rev temp output (m, g) fb format values) (fun '(_, (m', _)) =>
    let a := buffer fb + (y + r) * pitch + 4 * (x + col) in
    buffer fb + height fb * pitch <= a /\ a + 4 <= buffer fb + lines * pitch /\
    peek32 m' a = u32 (dst_fg (ssfn_dst g))).
Proof.
  intros K Hf C Hw Hh Hp H1 Hn L D Hnl Hg Hbit. cbn in Hw, Hh.
  destruct (final_cursor m0 (ssfn_src g) t fb p out) as [x y] eqn:Efc. intros Hy. eapply wp_mono.
  { by apply (wp_ssfn_printf m0 _ size t fb height_max width_max pitch lines K fuel Hf texts fmt zero rev temp output
      format m g p values (out ++ [c])). }
  intros [q [m' g']] (_ & _ & _ & HL). destruct (HL out c eq_refl) as (m1 & g1 & C1 & (x1 & y1 & S1) & D1).
  rewrite Efc in C1.
  assert (Hroom : y + height_max <= lines).
  { pose proof (fits_last m0 (ssfn_src g) t fb height_max lines out c p Hn) as HR. by rewrite Efc in HR. }
  destruct (glyph_bit_drawn m0 (ssfn_src g) size t fb height_max width_max pitch lines K m1 g1 (x, y)
    (char_code c) chr r col m' C1) as (Hpix & Hr & Hx & [Hlo _] & [_ Hhi]); try done; [by rewrite S1 | by rewrite S1 |].
  cbn [fst snd] in *. pose proof (sk_pitch _ _ _ _ _ _ _ _ _ K) as [Hp0 _]. rewrite S1 in Hpix.
  split; [nia|]. split; [lia | exact Hpix].
Qed.

(** Eighteen newlines and an 'A' on the screen of 36 lines, with memory for 80. *)
Definition bottom : list Z := replicate 18 10.
Definition bot_mem : mem := place image_base 0x2100 ((bottom ++ [65]) ++ [0]).

Lemma bot_shows : shows_image bot_mem.
Proof.
  apply (shows_ext _ bot_mem image_base_shows). intros x Hx. unfold bot_mem. rewrite lookup_place, decide_False; [reflexivity|].
  change (Z.of_nat (length ((bottom ++ [65]) ++ [0]))) with 20. unfold region in Hx. lia.
Qed.
Definition bot_font := si_font _ bot_shows.

Lemma bot_screen_36 : screen_ok bot_mem 0x2000 66 (font_table 0x2000) con_fb 2 8 144 36.
Proof.
  apply (font_screen_ok bot_mem 0x2000 ltac:(done) bot_font con_fb 144); cbn; try done. unfold region. lia.
Qed.

(** Memory may be looked at past the last line. *)
Lemma screen_lines m src size t fb hm wm pitch lines lines' :
  screen_ok m src size t fb hm wm pitch lines -> lines' + 255 < 2 ^ 15 ->
  (forall a, region src size a -> ~ on_screen fb pitch lines' a) -> screen_ok m src size t fb hm wm pitch lines'.
Proof. intros [H1 H2 H3 H4 H5 H6 [H7 _] _] Hl Ha. by split. Qed.

Lemma bot_screen_ok : screen_ok bot_mem 0x2000 66 (font_table 0x2000) con_fb 2 8 144 80.
Proof.
  refine (screen_lines _ _ _ _ _ _ _ _ _ 80 bot_screen_36 _ _); [lia|].
  unfold on_screen, region. cbn. lia.
Qed.

Lemma bot_console : console bot_mem 0x2000 66 con_fb 144 80 bot_mem con_g (0, 0).
Proof.
  split; try done. apply (backed_sub _ 0x30000 0x3000); [exact (si_screen _ bot_shows) | done | done].
Qed.

Lemma bot_laid_out :
  laid_out (fun _ => None) (bottom ++ [65]) bot_mem 1024 (Z.to_nat 0x110000) 0x3280 0x4420 0x4400 0x4000 0x2100.
Proof.
  destruct (image_laid_out bot_mem (si_image _ bot_shows) (Z.to_nat 0x110000) Title) as [H1 H2 H3 H4 _ H6 _ H8 _]; [by rewrite Z2Nat.id|].
  split; [exact H1 | exact H2 | exact H3 | exact H4 | | exact H6 | done | exact H8 |].
  - split.
    + apply holds_cstring; [|by vm_compute]. exact (holds_place image_base 0x2100 ((bottom ++ [65]) ++ [0])).
    + change (Z.of_nat (length (bottom ++ [65]))) with 19. unfold region, writes. intros x Hx Hw. unfold region in Hw. lia.
  - change (Z.of_nat (length (bottom ++ [65]))) with 19. rewrite Z2Nat.id by done. split; [done|]. split; [done|]. lia.
Qed.

(** The first line of the glyph begins with a pixel. *)
Lemma font_first_bit m : holds m 0x2000 font_bytes -> glyph_bit m 0x2000 0x2022 0 0.
Proof.
  intros F. destruct (font_fragment m 0x2000 F) as (Hn & _ & Hd & Hf & Hy & Hc & Hr).
  change (0x2000 + 34) with 0x2022 in *. exists 0. unfold hidden, is_bitmap, frag_bit. rewrite Hn, Hd, Hf, Hy, Hc, Hr.
  split; [lia|].
  rewrite (font_at m 0x2000 F (0x2000 + 40) 40 0), (font_at m 0x2000 F (0x2000 + 62) 62 128) by (done || lia).
  change (0x2000 + 62 + 2 + _ / 8) with (0x2000 + 64). by rewrite (font_at m 0x2000 F (0x2000 + 64) 64 129) by (done || lia).
Qed.

Lemma bot_apart a :
  region 0x2000 66 a \/ on_screen con_fb 144 80 a -> ~ writes 1024 0x4420 0x4400 0x4000 a.
Proof. unfold on_screen, writes, region. cbn. lia. Qed.

Lemma console_past_bottom_witness :
  wp (ssfn_printf (Z.to_nat 0x110000) 0x3280 0x4420 0x4400 0x4000 (bot_mem, con_g) con_fb 0x2100 []) (fun '(_, (m', _)) =>
    let a := buffer con_fb + (36 + 0) * 144 + 4 * (0 + 0) in
    buffer con_fb + height con_fb * 144 <= a /\ a + 4 <= buffer con_fb + 80 * 144 /\
    peek32 m' a = u32 (dst_fg (ssfn_dst con_g))).
Proof.
  pose proof (con_text bot_mem bot_font 80 (bottom ++ [65]) (0, 0) ltac:(vm_compute; reflexivity)) as F.
  assert (Hf : 0x110000 <= Z.of_nat (Z.to_nat 0x110000)) by (by rewrite Z2Nat.id).
  assert (H36 : 36 <= 36) by reflexivity.
  pose proof (console_past_bottom bot_mem 66 (font_table 0x2000) con_fb 2 8 144 80 (Z.to_nat 0x110000) (fun _ => None)
    (bottom ++ [65]) 0x3280 0x4420 0x4400 0x4000 0x2100 bot_mem con_g (0, 0) [] bottom 65 0x2022 0 0
    bot_screen_ok Hf bot_console eq_refl eq_refl
    (printed_literal (fun _ => None) (bottom ++ [65]) eq_refl) ltac:(by vm_compute) F bot_laid_out bot_apart
    eq_refl eq_refl (font_first_bit bot_mem bot_font)) as W.
  change (ssfn_src con_g) with 0x2000 in W. rewrite (con_cursor bot_mem bot_font) in W.
  change (foldl con_next (0, 0) bottom) with (0, 36) in W. exact (W H36).
Defined.
