(* ===== verification/Utf8Thm.v ===== *)
(** Theorems about the part that the renderers of include/ssfn.h share. *)
From stdpp Require Import gmap list strings.
From Stdlib Require Import ZArith Lia.
From S2P Require Import Prelude Memory LibString Ssfn ImageMachine Utf8.
Local Open Scope Z_scope.

(** C33: UTF-8 round trip: on a string of encoded code points, of one to four bytes each,
    ssfn_utf8 returns the code points one after the other and then 0 for the terminator,
    and leaves the pointer behind it; only the pointer is written. *)
Theorem utf8_roundtrip m s us :
  backed m s 8 -> Forall code_point us -> cstring m (peek64 m s) (utf8_text us) ->
  peek64 m s + Z.of_nat (length (utf8_text us)) + 1 < 2 ^ 64 ->
  (forall x, region (peek64 m s) (Z.of_nat (length (utf8_text us)) + 1) x -> ~ region s 8 x) ->
  wp ('(l, m1) ← read_utf8 (length us) m s; '(c, m2) ← ssfn_utf8 m1 s; Ok (l, c, m2))
    (fun '(l, c, m2) => l = us /\ c = 0 /\
       peek64 m2 s = peek64 m s + Z.of_nat (length (utf8_text us)) + 1 /\ mem_upd (region s 8) m m2).
Proof.
  intros Bs Hus [HL H0]%utf8_bytes Hend Hap. pose proof (peek64_range m s) as Hr. set (p := peek64 m s) in *.
  set (n := Z.of_nat (length (utf8_text us))) in *.
  wp_step. eapply wp_mono.
  { apply (wp_read_utf8 s us m Bs Hus HL); fold p n; [lia|]. intros x Hx. apply Hap. unfold region in *. lia. }
  intros [l m1] [-> Hm1]. fold p n in Hm1.
  assert (Hp1 : peek64 m1 s = p + n) by (rewrite Hm1, peek64_poke64_eq; apply u64_small; lia).
  assert (U1 : mem_upd (region s 8) m m1) by (rewrite Hm1; by apply mem_upd_poke64). clear Hm1.
  wp_step. eapply wp_mono.
  { apply wp_utf8_nul; rewrite ?Hp1; [by apply (mem_upd_backed _ _ _ _ _ U1) | | lia].
    apply (bytes_lie_upd _ _ _ _ _ U1); [|exact H0]. intros x Hx. apply Hap. unfold region in *. cbn in Hx. lia. }
  intros [c m2] [Hc Hm2]. cbn [fst snd] in Hc, Hm2. subst c m2. wp_ret. split; [done|]. split; [done|].
  rewrite peek64_poke64_eq, Hp1, u64_small by lia. split; [done|].
  etrans; [exact U1|]. by apply mem_upd_poke64, (mem_upd_backed _ _ _ _ _ U1).
Qed.

(** "A", e with acute accent, the euro sign and a smiling face. *)
Definition greeting : list Z := [0x41; 0xE9; 0x20AC; 0x1F600].

Definition utf8_mem : mem :=
  poke64 (fill (place ∅ 0x1000 (utf8_text greeting ++ [0])) 0x2000 8 Init.Byte.x00) 0x2000 0x1000.

Lemma greeting_text : cstring utf8_mem (peek64 utf8_mem 0x2000) (utf8_text greeting).
Proof.
  change (peek64 utf8_mem 0x2000) with 0x1000. apply holds_cstring; [|done].
  apply (holds_ext (place ∅ 0x1000 (utf8_text greeting ++ [0])) utf8_mem _ _ (holds_place _ _ _)).
  intros x Hx. assert (Hx' : 0x1000 <= x < 0x1000 + 11) by exact Hx. unfold utf8_mem.
  rewrite lookup_poken_ne by (unfold region; simpl; lia). rewrite lookup_fill, decide_False by lia. done.
Qed.

Lemma utf8_roundtrip_witness :
  wp ('(l, m1) ← read_utf8 4 utf8_mem 0x2000; '(c, m2) ← ssfn_utf8 m1 0x2000; Ok (l, c, m2))
    (fun '(l, c, m2) => l = greeting /\ c = 0 /\
       peek64 m2 0x2000 = peek64 utf8_mem 0x2000 + Z.of_nat (length (utf8_text greeting)) + 1 /\
       mem_upd (region 0x2000 8) utf8_mem m2).
Proof.
  apply (utf8_roundtrip utf8_mem 0x2000 greeting);
    [apply backed_poken, backed_fill; lia | repeat constructor; lia | exact greeting_text | by vm_compute |].
  intros x. change (peek64 utf8_mem 0x2000) with 0x1000. unfold region. change (length (utf8_text greeting)) with 10%nat. lia.
Defined.

(** The decoder does not check its input, as its comment says: a string that ends within an
    encoding is read past its terminator. *)
Theorem utf8_truncated m s c :
  backed m s 8 -> 0xC0 <= c < 0xE0 -> cstring m (peek64 m s) [c] -> peek64 m s + 2 < 2 ^ 64 ->
  wp (ssfn_utf8 m s) (fun '(u, m') => u = c mod 32 * 64 /\ peek64 m' s = peek64 m s + 2).
Proof.
  intros Bs Hc [B C E] Hend. pose proof (peek64_range m s) as Hr. set (p := peek64 m s) in *.
  assert (HL : bytes_lie m p [c; 0]).
  { split; [exact B|]. intros [|[|i]] d Hd; [|by injection Hd as <-|done]. injection Hd as <-. by apply (C 0%nat). }
  unfold ssfn_utf8. wp_step. apply (wp_loadn 8); [done|]. fold p. wp_step. rewrite <- (Z.add_0_r p) at 1.
  apply (wp_char_at m p [c; 0] 0 c _ HL); [done|]. destruct (lead2 c Hc) as (-> & ->). cbn [negb].
  wp_step. wp_step. apply (wp_char_at m p [c; 0] 1 0 _ HL); [done|]. wp_step. apply wp_advance_ptr; [done|].
  wp_ret. wp_step. apply wp_advance_ptr; [by apply backed_poken|]. wp_ret. fold p. split.
  - rewrite (char_low c 5 0x1F eq_refl) by lia. change (Z.land (s8 0) 0x3F) with 0.
    by rewrite Z.lor_0_r, Z.shiftl_mul_pow2.
  - rewrite peek64_poke64_eq, peek64_poke64_eq, (u64_small (p + 1)) by lia. rewrite u64_small by lia. lia.
Qed.

(** The error codes that ssfn_putc returns have a text. *)
Theorem putc_errors_named :
  ssfn_error SSFN_ERR_INVINP = Some "Invalid input value"%string /\
  ssfn_error SSFN_ERR_NOGLYPH = Some "Glyph not found"%string /\ ssfn_error SSFN_OK = Some "Unknown error"%string.
Proof. done. Qed.
