(* ===== verification/AcpiThm.v ===== *)
(** Theorems about the ACPI table walks of kernel/acpi. *)
From stdpp Require Import gmap list.
From Stdlib Require Import ZArith Lia.
From S2P Require Import Prelude Memory LibString Acpi.
Local Open Scope Z_scope.

(** ** The interrupt controller records *)

(** The records from [a] on: their types and lengths. *)
Fixpoint records_at (m : mem) (a : Z) (l : list (Z * Z)) : Prop :=
  match l with
  | [] => True
  | (type, n) :: l =>
      backed m a 2 /\ peek8 m (madt_EntryType a) = type /\ peek8 m (madt_RecordLength a) = n /\
      records_at m (a + n) l
  end.

Definition records_size (l : list (Z * Z)) : Z := foldr (fun r acc => r.2 + acc) 0 l.

(** The number of processor records. *)
Definition processors (l : list (Z * Z)) : Z :=
  Z.of_nat (length (filter (fun r => r.1 = 0) l)).

Lemma records_size_cons r l : records_size (r :: l) = r.2 + records_size l.
Proof. done. Qed.

Lemma processors_cons t n l : processors ((t, n) :: l) = (if t =? 0 then 1 else 0) + processors l.
Proof.
  unfold processors. rewrite filter_cons. cbn [fst]. case_decide as Ht.
  - rewrite Ht. simpl. lia.
  - rewrite (proj2 (Z.eqb_neq t 0)) by done. lia.
Qed.

Section madt.
Context (m : mem) (apic : Z) (all : list (Z * Z)).
Context (Hlen : backed m (sdt_Length apic) 4).
Context (Hsize : peek32 m (sdt_Length apic) = sizeof_APIC + records_size all).
Context (Hrec : records_at m (apic + sizeof_APIC) all).
Context (Hpos : Forall (fun r => 0 < r.2) all).
Context (Ha : 0 <= apic /\ apic + sizeof_APIC + records_size all < 2 ^ 64).

Lemma records_nonneg l : Forall (fun r => 0 < r.2) l -> 0 <= records_size l /\ Z.of_nat (length l) <= records_size l.
Proof using Type. induction 1 as [|[t n] l Hn _ IH]; [done|]. rewrite records_size_cons. simpl in *. lia. Qed.

(** The loop has passed over [done] and has [rest] before it. *)
Definition madt_inv (st : Z * Z * Z) : Prop :=
  let '(pos, offset, count) := st in
  exists front rest, all = front ++ rest /\ pos = records_size front /\
    offset = apic + sizeof_APIC + pos /\ records_at m offset rest /\ count = processors front.

Lemma records_size_app l1 l2 : records_size (l1 ++ l2) = records_size l1 + records_size l2.
Proof using Type. induction l1 as [|r l1 IH]; [done|]. cbn [app]. rewrite !records_size_cons. lia. Qed.

Lemma processors_app l1 l2 : processors (l1 ++ l2) = processors l1 + processors l2.
Proof using Type. unfold processors. rewrite filter_app, length_app. lia. Qed.

Lemma wp_madt fuel :
  records_size all <= Z.of_nat fuel ->
  wp (madt_get_processor_local_apic_count fuel m apic) (fun n => n = processors all).
Proof using Hlen Hsize Hrec Hpos Ha.
  intros Hfuel. destruct (records_nonneg all Hpos) as [Hnn Hle]. unfold madt_get_processor_local_apic_count.
  wp_step. apply (wp_loadn 4); [exact Hlen|]. rewrite Hsize.
  replace (u64 (sizeof_APIC + records_size all - sizeof_APIC)) with (records_size all)
    by (rewrite u64_small; unfold sizeof_APIC, sizeof_sdt_header in *; lia).
  wp_step. eapply wp_mono.
  - apply (wp_while madt_inv (fun _ => False) (fun '(pos, _, _) => records_size all - pos)); [lia | |].
    + exists [], all. split_and!; try done. lia.
    + intros [[pos offset] count] (front & rest & Hall & -> & -> & Hr & ->). wp_ret.
      rewrite Hall in Hpos. apply Forall_app in Hpos as [Hf Hrest].
      assert (Hsum : records_size all = records_size front + records_size rest)
        by (by rewrite Hall, records_size_app).
      destruct (records_nonneg front Hf) as [Hf0 _]. destruct (records_nonneg rest Hrest) as [Hr0 _].
      destruct (Z.ltb_spec (records_size front) (records_size all)) as [Hlt|]; [|done].
      split; [lia|]. destruct rest as [|[t n] rest]; [rewrite Hsum in Hlt; simpl in Hlt; lia|].
      destruct Hr as (B & Ht & Hn & Hr). apply Forall_cons in Hrest as [Hn0 Hrest]. simpl in Hn0.
      destruct (records_nonneg rest Hrest) as [Hr1 _]. rewrite records_size_cons in Hsum. cbn [snd] in Hsum.
      wp_step. apply (wp_loadn 1); [apply (backed_sub _ _ _ _ _ B); unfold madt_EntryType; lia|].
      wp_step. apply (wp_loadn 1); [apply (backed_sub _ _ _ _ _ B); unfold madt_RecordLength; lia|].
      wp_ret. rewrite Ht, Hn.
      assert (Hs0 : records_size (front ++ [(t, n)]) = records_size front + n)
        by (rewrite records_size_app; cbn; lia).
      assert (Hc : (if t =? 0 then u64 (processors front + 1) else processors front) =
        processors (front ++ [(t, n)])).
      { rewrite processors_app, processors_cons. change (processors []) with 0.
        destruct (t =? 0); [|lia]. rewrite u64_small; [lia|].
        assert (0 <= processors front <= records_size front).
        { destruct (records_nonneg front Hf) as [_ Hl]. unfold processors.
          pose proof (length_filter (fun r : Z * Z => r.1 = 0) front). lia. }
        unfold sizeof_APIC, sizeof_sdt_header in *. lia. }
      rewrite Hc, !u64_small by (unfold sizeof_APIC, sizeof_sdt_header in *; lia).
      split; [|lia]. exists (front ++ [(t, n)]), rest.
      split; [by rewrite <- app_assoc|]. split; [lia|]. split; [lia|]. split; [|done].
      by replace (apic + sizeof_APIC + (records_size front + n)) with (apic + sizeof_APIC + records_size front + n) by lia.
  - intros [[[pos offset] count]|r]; [|done].
    intros [(front & rest & Hall & -> & _ & _ & ->) [= Hge%Z.ltb_ge]]. wp_ret.
    rewrite Hall in Hpos. apply Forall_app in Hpos as [_ Hrest].
    rewrite Hall, records_size_app in Hge. destruct (records_nonneg rest Hrest) as [H1 H2].
    destruct rest as [|r rest]; [by rewrite Hall, app_nil_r|]. cbn [length] in H2. lia.
Qed.
End madt.

(** C29: the number of processors: on a table of records of positive length that
    fill it exactly, the walk terminates, reads nothing outside the records and
    returns the number of those of type 0 (processor local APIC). *)
Theorem madt_count_correct fuel m apic l :
  backed m (sdt_Length apic) 4 -> peek32 m (sdt_Length apic) = sizeof_APIC + records_size l ->
  records_at m (apic + sizeof_APIC) l -> Forall (fun r => 0 < r.2) l ->
  0 <= apic /\ apic + sizeof_APIC + records_size l < 2 ^ 64 ->
  records_size l <= Z.of_nat fuel ->
  wp (madt_get_processor_local_apic_count fuel m apic) (fun n => n = processors l).
Proof. intros. by apply wp_madt. Qed.

(** A table at 0x1000: a processor, an I/O APIC, a processor. *)
Definition madt_mem : mem :=
  let m := fill ∅ 0x1000 (Z.to_nat 256) Init.Byte.x00 in
  let m := poke32 m 0x1004 72 in
  let m := poke16 m 0x102C 0x0800 in
  let m := poke16 m 0x1034 0x0C01 in
  poke16 m 0x1040 0x0800.

Lemma madt_backed a k : 0x1000 <= a -> a + k <= 0x1100 -> backed madt_mem a k.
Proof. intros H1 H2. unfold madt_mem. cbv zeta. do 4 apply backed_poken. apply backed_fill; lia. Qed.

Definition madt_records : list (Z * Z) := [(0, 8); (1, 12); (0, 8)].

Lemma madt_count_correct_witness :
  processors madt_records = 2 /\
  wp (madt_get_processor_local_apic_count 28 madt_mem 0x1000) (fun n => n = processors madt_records).
Proof.
  split; [done|].
  apply (madt_count_correct 28 madt_mem 0x1000 madt_records);
    [apply madt_backed; unfold sdt_Length; lia | by vm_compute | | by repeat constructor | by vm_compute
    | by vm_compute].
  repeat split; try (apply madt_backed; unfold sizeof_APIC, sizeof_sdt_header; lia); by vm_compute.
Defined.

(** C38: a record of length 0 makes the walk loop for ever: however many
    iterations it is given, it does not return. *)
Theorem madt_zero_length_diverges fuel m apic front t :
  backed m (sdt_Length apic) 4 -> peek32 m (sdt_Length apic) < 2 ^ 32 ->
  records_at m (apic + sizeof_APIC) (front ++ [(t, 0)]) -> Forall (fun r => 0 < r.2) front ->
  sizeof_APIC + records_size front < peek32 m (sdt_Length apic) ->
  0 <= apic /\ apic + peek32 m (sdt_Length apic) < 2 ^ 64 ->
  madt_get_processor_local_apic_count fuel m apic = OutOfFuel.
Proof.
  intros Hb H32 Hrec Hpos Hlt Ha. unfold madt_get_processor_local_apic_count.
  rewrite loadn_ok by exact Hb. cbn [mbind res_bind]. set (len := peek32 m (sdt_Length apic)) in *.
  destruct (records_nonneg front Hpos) as [H0 _].
  rewrite (u64_small (len - sizeof_APIC)) by (unfold sizeof_APIC, sizeof_sdt_header in *; lia).
  set (inv := fun st : Z * Z * Z => let '(pos, offset, _) := st in exists l1 l2, front = l1 ++ l2 /\
    pos = records_size l1 /\ offset = apic + sizeof_APIC + pos /\ records_at m offset (l2 ++ [(t, 0)])).
  unfold after. rewrite (while_diverges _ _ inv); [done | |].
  { exists [], front. split_and!; [done | done | cbn; lia | done]. }
  intros [[pos offset] count] (l1 & l2 & Hf & -> & -> & Hr).
  rewrite Hf in Hpos. apply Forall_app in Hpos as [Hp1 Hp2].
  assert (Hsum : records_size front = records_size l1 + records_size l2) by (by rewrite Hf, records_size_app).
  destruct (records_nonneg l1 Hp1) as [Hn1 _]. destruct (records_nonneg l2 Hp2) as [Hn2 _].
  split; [f_equal; apply Z.ltb_lt; lia|].
  assert (Hbody : exists t' n, backed m (apic + sizeof_APIC + records_size l1) 2 /\
    peek8 m (madt_RecordLength (apic + sizeof_APIC + records_size l1)) = n /\
    0 <= n /\ records_size l1 + n <= records_size front /\
    exists l1' l2', front = l1' ++ l2' /\ records_size l1' = records_size l1 + n /\
      records_at m (apic + sizeof_APIC + records_size l1 + n) (l2' ++ [(t, 0)]) /\
    peek8 m (madt_EntryType (apic + sizeof_APIC + records_size l1)) = t').
  { destruct l2 as [|[t' n] l2]; cbn [app] in Hr; pose proof Hr as (B & Ht & Hn & Hr').
    - exists t, 0. split_and!; [done | done | lia | lia |]. exists l1, [].
      split_and!; [done | lia | by rewrite Z.add_0_r | done].
    - apply Forall_cons in Hp2 as [Hn0 Hp2]. cbn in Hn0. rewrite records_size_cons in Hsum. cbn [snd] in Hsum.
      destruct (records_nonneg l2 Hp2) as [Hn3 _].
      exists t', n. split_and!; [done | done | lia | lia |]. exists (l1 ++ [(t', n)]), l2.
      split_and!; [by rewrite <- app_assoc | rewrite records_size_app; cbn; lia | done | done]. }
  destruct Hbody as (t' & n & B & Hn & Hn0 & Hle & l1' & l2' & Hf' & Hs' & Hr' & Ht).
  cbn beta iota. rewrite (loadn_ok 1 _ (madt_EntryType _)) by (apply (backed_sub _ _ _ _ _ B); unfold madt_EntryType; lia).
  cbn [mbind res_bind].
  cbn beta iota. rewrite (loadn_ok 1 _ (madt_RecordLength _)) by (apply (backed_sub _ _ _ _ _ B); unfold madt_RecordLength; lia).
  cbn [mbind res_bind]. rewrite Hn. eexists. split; [done|].
  exists l1', l2'. unfold sizeof_APIC, sizeof_sdt_header in *. rewrite !u64_small by lia.
  split_and!; [done | lia | lia |].
  by replace (apic + (36 + 8) + (records_size l1 + n)) with (apic + (36 + 8) + records_size l1 + n) by lia.
Qed.

(** The same table with the second record's length zeroed. *)
Definition looping_mem : mem := poke16 madt_mem 0x1034 0x0001.

Lemma looping_backed a k : 0x1000 <= a -> a + k <= 0x1100 -> backed looping_mem a k.
Proof. intros H1 H2. apply backed_poken. by apply madt_backed. Qed.

Lemma madt_zero_length_diverges_witness :
  madt_get_processor_local_apic_count (Z.to_nat 1000000) looping_mem 0x1000 = OutOfFuel.
Proof.
  apply (madt_zero_length_diverges (Z.to_nat 1000000) looping_mem 0x1000 [(0, 8)] 1);
    [apply looping_backed; unfold sdt_Length; lia | by vm_compute | | by repeat constructor
    | by vm_compute | by vm_compute].
  repeat split; try (apply looping_backed; unfold sizeof_APIC, sizeof_sdt_header; lia); by vm_compute.
Defined.

(** ** The table of tables *)

(** Table [i] of the XSDT, and whether its signature is the four characters at [signature]. *)
Definition table_at (m : mem) (xsdt i : Z) : Z := peek64 m (xsdt_ptr xsdt i).
Definition signed_as (m : mem) (signature header : Z) : Prop := agree m header signature 4.

(** The XSDT the RSDP points to lies in memory and has [n] tables. *)
Record xsdt_of (m : mem) (rsdp xsdt n : Z) : Prop := {
  xo_rsdp : backed m (rsdp2_XsdtAddress rsdp) 8 /\ peek64 m (rsdp2_XsdtAddress rsdp) = xsdt;
  xo_length : backed m (sdt_Length xsdt) 4 /\
    sizeof_sdt_header + 8 * n <= peek32 m (sdt_Length xsdt) < sizeof_sdt_header + 8 * n + 8;
  xo_ptr i : 0 <= i < n -> backed m (xsdt_ptr xsdt i) 8 /\ backed m (table_at m xsdt i) 4
}.

(** C28: looking up an ACPI table: xsdt_get_table returns the first table with the
    signature, reading nothing but the table list and the signatures; with no such table it
    returns NULL. *)
Theorem xsdt_get_table_correct m rsdp xsdt signature n :
  0 <= n -> xsdt_of m rsdp xsdt n -> backed m signature 4 ->
  wp (xsdt_get_table m rsdp signature) (fun r =>
    (exists i, 0 <= i < n /\ r = table_at m xsdt i /\ signed_as m signature r /\
       forall j, 0 <= j < i -> ~ signed_as m signature (table_at m xsdt j)) \/
    (r = NULL /\ forall j, 0 <= j < n -> ~ signed_as m signature (table_at m xsdt j))).
Proof.
  intros Hn [[Br Hr] [Bl Hl] Hp] Bs. unfold xsdt_get_table. wp_step. apply (wp_loadn 8); [exact Br|].
  rewrite Hr. wp_step. apply (wp_loadn 4); [exact Bl|]. pose proof (peekn_range 4 m (sdt_Length xsdt)) as Hrg.
  replace (u64 (peek32 m (sdt_Length xsdt) - sizeof_sdt_header) / 8) with n
    by (unfold u64, sizeof_sdt_header in *; change (8 * Z.of_nat 4) with 32 in Hrg; zlia).
  cbv zeta. wp_step. eapply wp_mono.
  - apply (wp_for_range (fun i _ => forall j, 0 <= j < i -> ~ signed_as m signature (table_at m xsdt j))
      (fun r => exists i, 0 <= i < n /\ r = table_at m xsdt i /\ signed_as m signature r /\
         forall j, 0 <= j < i -> ~ signed_as m signature (table_at m xsdt j))); [done | lia |].
    intros i _ Hi Hno. destruct (Hp i Hi) as [B1 B2]. wp_step. apply (wp_loadn 8); [exact B1|].
    wp_step. eapply wp_mono; [by apply (wp_memcmp m (table_at m xsdt i)) |].
    intros r [[-> Hag]|(k & Hk & Hd)].
    + wp_ret. by exists i.
    + rewrite (proj2 (Z.eqb_neq r 0)) by (by eapply differ_nonzero). wp_ret. intros j Hj Hsig.
      destruct (decide (j = i)) as [->|]; [|by apply (Hno j); [lia|]].
      destruct Hd as (_ & Hd & _). by apply Hd, Hsig.
  - intros [u|r] H; wp_ret; [by right | by left].
Qed.

(** An RSDP at 0x1000, an XSDT of two tables at 0x1040, the tables at 0x1080 (FACP) and
    0x10A0 (APIC); signatures to look for at 0x10C0 (APIC) and 0x10D0 (HPET). *)
Definition xsdt_mem : mem :=
  let m := fill ∅ 0x1000 (Z.to_nat 256) Init.Byte.x00 in
  let m := poke64 m 0x1018 0x1040 in
  let m := poke32 m 0x1044 52 in
  let m := poke64 m 0x1064 0x1080 in
  let m := poke64 m 0x106C 0x10A0 in
  let m := poke32 m 0x1080 0x50434146 in
  let m := poke32 m 0x10A0 0x43495041 in
  let m := poke32 m 0x10C0 0x43495041 in
  poke32 m 0x10D0 0x54455048.

Lemma xsdt_backed a k : 0x1000 <= a -> a + k <= 0x1100 -> backed xsdt_mem a k.
Proof. intros H1 H2. unfold xsdt_mem. cbv zeta. do 8 apply backed_poken. apply backed_fill; lia. Qed.

Lemma xsdt_mem_ok : xsdt_of xsdt_mem 0x1000 0x1040 2.
Proof.
  split.
  - split; [apply xsdt_backed; unfold rsdp2_XsdtAddress, sizeof_rsdp; lia | by vm_compute].
  - split; [apply xsdt_backed; unfold sdt_Length; lia | by vm_compute].
  - intros i Hi. split; [apply xsdt_backed; unfold xsdt_ptr, sizeof_sdt_header; lia|].
    assert (Hc : i = 0 \/ i = 1) by lia. destruct Hc as [-> | ->]; apply xsdt_backed; by vm_compute.
Qed.

Lemma xsdt_get_table_correct_witness :
  xsdt_get_table xsdt_mem 0x1000 0x10C0 = Ok 0x10A0 /\ xsdt_get_table xsdt_mem 0x1000 0x10D0 = Ok NULL /\
  wp (xsdt_get_table xsdt_mem 0x1000 0x10C0) (fun r =>
    (exists i, 0 <= i < 2 /\ r = table_at xsdt_mem 0x1040 i /\ signed_as xsdt_mem 0x10C0 r /\
       forall j, 0 <= j < i -> ~ signed_as xsdt_mem 0x10C0 (table_at xsdt_mem 0x1040 j)) \/
    (r = NULL /\ forall j, 0 <= j < 2 -> ~ signed_as xsdt_mem 0x10C0 (table_at xsdt_mem 0x1040 j))).
Proof.
  split; [by vm_compute|]. split; [by vm_compute|].
  apply (xsdt_get_table_correct xsdt_mem 0x1000 0x1040 0x10C0 2);
    [done | exact xsdt_mem_ok | apply xsdt_backed; lia].
Defined.
