(* ===== verification/EfiPmmThm.v ===== *)
(** Theorems about the construction of the physical memory manager. *)
From stdpp Require Import gmap list list_numbers.
From Stdlib Require Import ZArith Lia.
From S2P Require Import Prelude Memory Physical FrameAllocator PhysicalSpec EfiPmm EfiPmmSpec Machine.
Local Open Scope Z_scope.

(** ** A concrete memory map

    Descriptors in the layout of the UEFI specification: Type at 0,
    PhysicalStart at 8, NumberOfPages at 24, Attribute at 32. *)
Definition uefi_type (t : Z) : efi_memory_type :=
  match t with
  | 1 => EfiLoaderCode | 2 => EfiLoaderData | 3 => EfiBootServicesCode | 4 => EfiBootServicesData
  | 5 => EfiRuntimeServicesCode | 6 => EfiRuntimeServicesData | 7 => EfiConventionalMemory
  | 9 => EfiACPIReclaimMemory | 10 => EfiACPIMemoryNVS | 11 => EfiMemoryMappedIO
  | 12 => EfiMemoryMappedIOPortSpace | _ => EfiOtherMemory t
  end.

Definition uefi_desc (m : mem) (a : Z) : efi_descriptor :=
  {| Type_ := uefi_type (peek32 m a); PhysicalStart := peek64 m (a + 8);
     NumberOfPages := peek64 m (a + 24); Attribute := peek64 m (a + 32) |}.

Definition poke_desc (m : mem) (a type start pages : Z) : mem :=
  poke64 (poke64 (poke32 m a type) (a + 8) start) (a + 24) pages.

(** Frame 0 and 16 more frames of conventional memory, loader data that holds
    the bitmaps (at 0x8000) and the map (at 0x8100), and a device. *)
Definition map_mem : mem :=
  let m := fill (fill (fill ∅ 0 (Z.to_nat 4096) Init.Byte.x00) 0x8000 (Z.to_nat 4096) Init.Byte.x00)
             0x10000 (Z.to_nat 65536) Init.Byte.x00 in
  let m := poke_desc m 0x8100 7 0 1 in
  let m := poke_desc m 0x8128 2 0x8000 1 in
  let m := poke_desc m 0x8150 7 0x10000 16 in
  poke_desc m 0x8178 11 0xFEE00000 1.

Definition map_16 : efi_mmap_t :=
  {| start := 0x8100; end_ := 0x81A0; size := 160; key := 1; descriptorSize := 40 |}.

Definition storage_16 : pmm_storage :=
  {| physical_memory := {| blocks := replicate 20 (machine_block 0 0); block_count := 0 |};
     block_capacity := 20; bitmap := 0x8000; bitmap_words := 20 |}.

Definition region_of (type : efi_memory_type) (start pages : Z) : efi_descriptor :=
  {| Type_ := type; PhysicalStart := start; NumberOfPages := pages; Attribute := 0 |}.

Definition descs_16 : list efi_descriptor :=
  [region_of EfiConventionalMemory 0 1; region_of EfiLoaderData 0x8000 1;
   region_of EfiConventionalMemory 0x10000 16; region_of EfiMemoryMappedIO 0xFEE00000 1].

Lemma map_backed a k :
  (0 <= a /\ a + k <= 4096) \/ (0x8000 <= a /\ a + k <= 0x9000) \/ (0x10000 <= a /\ a + k <= 0x20000) ->
  backed map_mem a k.
Proof.
  intros Ha.
  unfold map_mem, poke_desc. cbv zeta. do 12 apply backed_poken.
  destruct Ha as [?|[?|?]].
  - apply backed_fill_mono. apply backed_fill_mono. apply backed_fill; lia.
  - apply backed_fill_mono. apply backed_fill; lia.
  - apply backed_fill; lia.
Qed.

(** Descriptors outside the bitmaps are read the same after build_pmm's writes. *)
Lemma uefi_desc_upd m m' a :
  mem_upd (bitmap_region storage_16) m m' -> 0x80A0 <= a -> uefi_desc m' a = uefi_desc m a.
Proof.
  intros U Ha. unfold uefi_desc.
  rewrite !(mem_upd_peekn _ _ _ _ _ U); [done | unfold bitmap_region, region; cbn; lia..].
Qed.

Lemma map_16_holds : map_holds uefi_desc map_mem storage_16 map_16 descs_16.
Proof.
  split; [done..|]. intros k d m' Hk U. rewrite (uefi_desc_upd map_mem) by (done || (cbn; lia)).
  destruct k as [|[|[|[|k]]]]; try done; injection Hk as <-; vm_compute; reflexivity.
Qed.

Lemma storage_16_ok : storage_ok map_mem storage_16.
Proof. split; [done.. |]. apply map_backed. cbn. lia. Qed.

Lemma regions_16_ok : regions_ok map_mem storage_16 descs_16.
Proof.
  assert (Hall : forall P : efi_descriptor -> Prop, Forall P descs_16 -> forall d, d ∈ descs_16 -> P d)
    by (intros P HP d Hd; by apply (proj1 (Forall_forall _ _) HP)).
  split.
  - apply Hall. repeat first [apply Forall_nil_2 | apply Forall_cons_2]; cbn; lia.
  - intros d Hd _. revert d Hd. apply Hall.
    repeat first [apply Forall_nil_2 | apply Forall_cons_2]; by split; vm_compute.
  - intros i j d e Hij Hd He. change (filter nonempty descs_16) with descs_16 in *.
    destruct i as [|[|[|[|i]]]]; try done; destruct j as [|[|[|[|j]]]]; try done;
      injection Hd as <-; injection He as <-;
      unfold block_end, frame_size; cbn; lia.
  - apply (Hall (fun d => Type_ d = EfiConventionalMemory ->
      backed map_mem (PhysicalStart d) (NumberOfPages d * frame_size))).
    repeat first [apply Forall_nil_2 | apply Forall_cons_2]; try done;
      intros _; apply map_backed; unfold frame_size; cbn; lia.
  - intros d x Hd. revert x. revert d Hd. apply (Hall (fun d => forall x,
      Type_ d = EfiConventionalMemory -> region (PhysicalStart d) (NumberOfPages d * frame_size) x ->
      ~ bitmap_region storage_16 x)).
    repeat first [apply Forall_nil_2 | apply Forall_cons_2]; try done;
      intros x _; unfold bitmap_region, region, frame_size; cbn; lia.
Qed.

(** C6: build_pmm terminates and establishes the invariant of the frame
    allocator, writing only to its bitmap storage.  Only frames of conventional
    memory other than frame 0 start out free; all of them do if the storage has
    a slot for every non-empty region and a bitmap for every region of RAM. *)
Theorem build_pmm_establishes desc_at fuel m st mm descs :
  storage_ok m st -> map_holds desc_at m st mm descs -> regions_ok m st descs ->
  Z.of_nat (length descs) <= Z.of_nat fuel ->
  wp (build_pmm desc_at fuel m st mm) (fun '(m', pm') =>
    pmm_inv m' pm' /\ mem_upd (bitmap_region st) m m' /\
    (forall a, pmm_avail m' pm' a -> exists d, d ∈ descs /\ free_frame d a) /\
    (Z.of_nat (length (filter nonempty descs)) <= block_capacity st ->
     total_words (filter nonempty descs) <= bitmap_words st ->
     forall d a, d ∈ descs -> free_frame d a -> pmm_avail m' pm' a)).
Proof.
  intros S M R Hf. eapply wp_mono; [by apply (wp_build_pmm desc_at m st mm descs)|].
  intros [m' pm'] (ds & rest & nm & wl & Hds & Hrest & B).
  split; [by eapply built_pmm_inv|]. split; [apply B|]. split.
  - intros a Ha. destruct (built_avail m st descs R m' pm' ds rest nm wl Hds B a Ha) as (i & d & Hd & Hfr).
    exists d. split; [|done]. by eapply ds_in.
  - intros Hcap Hw d a Hin Hfr.
    assert (Hne : d ∈ ds ++ rest).
    { rewrite <- Hds. apply list_elem_of_filter. split; [|done].
      destruct Hfr as (_ & _ & f & Hfd & _). unfold nonempty. lia. }
    assert (rest = []) as ->.
    { destruct Hrest as [|Hfull]; [done|]. rewrite Hds, length_app in Hcap. destruct rest; simpl in *; [done | lia]. }
    rewrite app_nil_r in *. rewrite Hds in Hw. apply list_elem_of_lookup in Hne as [i Hi].
    by eapply built_free.
Qed.

Lemma build_16_runs :
  match build_pmm uefi_desc 4 map_mem storage_16 map_16 with
  | Ok (_, pm) => block_count pm =? 4
  | _ => false
  end = true.
Proof. vm_compute. reflexivity. Qed.

Lemma build_pmm_establishes_witness :
  wp (build_pmm uefi_desc 4 map_mem storage_16 map_16) (fun '(m', pm') =>
    pmm_inv m' pm' /\ mem_upd (bitmap_region storage_16) map_mem m' /\
    (forall a, pmm_avail m' pm' a -> exists d, d ∈ descs_16 /\ free_frame d a) /\
    (Z.of_nat (length (filter nonempty descs_16)) <= block_capacity storage_16 ->
     total_words (filter nonempty descs_16) <= bitmap_words storage_16 ->
     forall d a, d ∈ descs_16 -> free_frame d a -> pmm_avail m' pm' a)).
Proof.
  apply (build_pmm_establishes uefi_desc 4 map_mem storage_16 map_16 descs_16);
    [exact storage_16_ok | exact map_16_holds | exact regions_16_ok | done].
Defined.
