(* ===== verification/KernelThm.v ===== *)
(** Theorems about the kernel entry of kernel/kernel.c. *)
From stdpp Require Import gmap list.
From Stdlib Require Import ZArith Lia.
From S2P Require Import Prelude Memory Physical FrameAllocator PhysicalSpec FrameCount LibString Paging PagingSpec Mapping MapRange TableCount Gdt GdtSpec Ssfn Console ConsoleSpec Kernel KernelSpec KernelText KernelBoot Machine ImageMachine PagingThm.
Local Open Scope Z_scope.

(** The machine of sixteen frames, with the image and its screen. *)
Definition system_16 : colonel_t :=
  {| physical_memory := p16; pml4 := 0; heap := 0; heap_size := 0; gdt := 0; rsdp2 := 0;
     cpus := {| count := 0; apic_data := 0 |}; fb := image_fb 0 0x2000; mmap_key := 0 |}.

Definition mem_16 : mem := machine_on image_base 16 (machine_word 16 0).

Definition kernel_16 : machine :=
  {| memory := mem_16; cr := {| cr0 := 0; cr2 := 0; cr3 := 0; cr4 := 0; cr8 := 0 |};
     seg := {| gdtr_limit := 0; gdtr_base := 0; cs := 0; ds := 0; es := 0; ss := 0 |};
     system := system_16; screen := ssfn_zero |}.

Lemma mem_16_inv : pmm_inv mem_16 p16.
Proof. exact (free_machine_inv image_base 16 ltac:(lia)). Qed.

Lemma kernel_16_paging fuel k :
  (16 <= fuel)%nat -> memory k = mem_16 -> system k = system_16 -> paging_ok fuel k.
Proof.
  intros Hf Hm Hs. pose proof mem_16_inv as I. rewrite <- Hm in I. clear Hm. assert (Hb : forall i b, active p16 i b -> b = machine_block 16 16) by (intros i b A; by apply active16 in A as [_ ->]).
  split; rewrite ?Hs; clear Hs; cbn [system_16 physical_memory fb].
  - exact I.
  - intros i b ->%Hb _. by vm_compute.
  - intros i b ->%Hb _. done.
  - done.
  - done.
  - by vm_compute.
  - intros i b ->%Hb _. cbn. lia.
  - change (range_pages _ _) with 2. lia.
Qed.

Lemma mem_16_shows : shows_image mem_16.
Proof.
  apply (shows_ext _ mem_16 image_base_shows). intros x Hx. unfold mem_16.
  apply lookup_machine; unfold region in Hx; lia.
Qed.

Lemma kernel_16_memory : memory kernel_16 = mem_16.
Proof. unfold kernel_16. cbn [memory]. reflexivity. Qed.

(** The bitmap word and the sixteen frames. *)
Lemma kernel_area_16 m a : kernel_area m p16 a -> 0x1000 <= a < 0x1008 \/ 0x10000 <= a < 0x20000.
Proof.
  intros [(i & b & A & _ & Hd)|(fr & (i & b & f & (A & _ & Hf) & _ & ->) & Hx)]; apply active16 in A as [-> ->].
  - left. unfold map_region, region in Hd. change (map_words (machine_block 16 16)) with 1 in Hd.
    cbn [machine_block pb_map] in Hd. lia.
  - right. cbn [machine_block pb_frames_total] in Hf.
    change (frame_addr (machine_block 16 16) f) with (0x10000 + f * 4096) in Hx. unfold region, frame_size in Hx. lia.
Qed.

Lemma kernel_16_console fuel :
  0x110000 <= Z.of_nat fuel ->
  console_ok package (image_face mem_16 0x2000) (memory kernel_16) (physical_memory system_16) (fb system_16) fuel.
Proof.
  intros Hf. destruct mem_16_shows as [F I S].
  apply (image_console_ok mem_16 (kernel_area mem_16 p16) fuel 0 0x2000 (or_introl eq_refl) I F); [|done|done|lia|].
  - apply (backed_sub _ _ _ _ _ S); lia.
  - intros a Ha%kernel_area_16. unfold region. lia.
Qed.

Lemma kernel_16_runs : returned (init_paging 16 kernel_16) 0 = true.
Proof. vm_compute. reflexivity. Qed.

(** C9: init_paging terminates.  If it returns 0, CR3 holds the new tables and
    they map exactly the pages of the RAM, ACPI and firmware regions above page
    0 and of the framebuffer, each address to itself; if it returns -1, no frame is
    left, there were no more free frames than such tables may take, CR3 has not been
    touched and the allocator is consistent. *)
Theorem init_paging_identity fuel k :
  paging_ok fuel k ->
  wp (init_paging fuel k) (fun '(r, k') =>
    (r = -1 /\ kernel_step k k' /\ out_of_frames k' /\
     frames_free (physical_memory (system k)) <= kernel_tables_needed (physical_memory (system k)) (fb (system k))) \/
    (r = 0 /\ cr k' = set_cr3 (cr k) (pml4 (system k')) /\
     forall va, 0 <= va < 2 ^ 48 ->
       let pm := physical_memory (system k) in
       (in_blocks pm (block_count pm) va \/ in_framebuffer (fb (system k)) va ->
        translate (memory k') (cr3 (cr k')) va = Some va) /\
       (~ (in_blocks pm (block_count pm) va \/ in_framebuffer (fb (system k)) va) ->
        translate (memory k') (cr3 (cr k')) va = None))).
Proof.
  intros Hok. eapply wp_mono; [by apply wp_init_paging|].
  intros [r k'] [(-> & root & k1 & K & ->)|?]; [right | by left].
  split; [done|]. cbn [with_cr cr system memory]. split; [cbn; by rewrite (kt_pml4 _ _ _ _ K)|].
  intros va Hva. split; [by apply (kt_in _ _ _ _ K) | by apply (kt_out _ _ _ _ K)].
Qed.

Lemma init_paging_identity_witness :
  returned (init_paging 16 kernel_16) 0 = true /\
  wp (init_paging 16 kernel_16) (fun '(r, k') =>
    (r = -1 /\ kernel_step kernel_16 k' /\ out_of_frames k' /\
     frames_free (physical_memory (system kernel_16)) <=
       kernel_tables_needed (physical_memory (system kernel_16)) (fb (system kernel_16))) \/
    (r = 0 /\ cr k' = set_cr3 (cr kernel_16) (pml4 (system k')) /\
     forall va, 0 <= va < 2 ^ 48 ->
       let pm := physical_memory (system kernel_16) in
       (in_blocks pm (block_count pm) va \/ in_framebuffer (fb (system kernel_16)) va ->
        translate (memory k') (cr3 (cr k')) va = Some va) /\
       (~ (in_blocks pm (block_count pm) va \/ in_framebuffer (fb (system kernel_16)) va) ->
        translate (memory k') (cr3 (cr k')) va = None))).
Proof. split; [exact kernel_16_runs|]. exact (init_paging_identity 16 kernel_16 (kernel_16_paging 16 kernel_16 ltac:(lia) kernel_16_memory eq_refl)). Defined.

(** C22: after init_paging returns 0 the kernel can go on editing its tables: they
    are well formed, the frame allocator is consistent, and every byte of every
    table is mapped to itself, as paging.c relies on. *)
Theorem init_paging_tables_mapped fuel k :
  paging_ok fuel k ->
  wp (init_paging fuel k) (fun '(r, k') => r = 0 ->
    pmm_inv (memory k') (physical_memory (system k')) /\
    exists T, tables_ok (memory k') (physical_memory (system k')) T (cr3 (cr k')) /\
      forall a l x, T !! a = Some l -> region a frame_size x ->
        translate (memory k') (cr3 (cr k')) x = Some x).
Proof.
  intros Hok. eapply wp_mono; [by apply wp_init_paging|].
  intros [r k'] [(-> & root & k1 & K & ->)|[-> _]]; intros Hr; [|done].
  cbn [with_cr cr system memory set_cr3 cr3]. split; [apply K|].
  destruct (kt_tables _ _ _ _ K) as (T & OK & HT & _). exists T. split; [done|].
  intros a l x Ha Hx. destruct (avail_mapped fuel k a x Hok (HT a l Ha) Hx). apply (kt_in _ _ _ _ K); [done | by left].
Qed.

Lemma init_paging_tables_mapped_witness :
  returned (init_paging 16 kernel_16) 0 = true /\
  wp (init_paging 16 kernel_16) (fun '(r, k') => r = 0 ->
    pmm_inv (memory k') (physical_memory (system k')) /\
    exists T, tables_ok (memory k') (physical_memory (system k')) T (cr3 (cr k')) /\
      forall a l x, T !! a = Some l -> region a frame_size x ->
        translate (memory k') (cr3 (cr k')) x = Some x).
Proof. split; [exact kernel_16_runs|]. exact (init_paging_tables_mapped 16 kernel_16 (kernel_16_paging 16 kernel_16 ltac:(lia) kernel_16_memory eq_refl)). Defined.

(** Page 0 stays unmapped: after init_paging returns 0, dereferencing an
    address below 4096 faults, unless the framebuffer lies there. *)
Theorem init_paging_null_faults fuel k va :
  paging_ok fuel k -> 0 <= va < frame_size -> ~ in_framebuffer (fb (system k)) va ->
  wp (init_paging fuel k) (fun '(r, k') =>
    r = 0 -> translate (memory k') (cr3 (cr k')) va = None).
Proof.
  intros Hok Hva Hfb. eapply wp_mono; [by apply wp_init_paging|].
  intros [r k'] [(-> & root & k1 & K & ->)|[-> _]]; intros Hr; [|done].
  apply (kt_out _ _ _ _ K); [unfold frame_size in *; zlia|].
  intros [(i & b & _ & _ & _ & Hb)|]; [|done]. unfold block_start in Hb. lia.
Qed.

Lemma init_paging_null_faults_witness :
  returned (init_paging 16 kernel_16) 0 = true /\
  wp (init_paging 16 kernel_16) (fun '(r, k') =>
    r = 0 -> translate (memory k') (cr3 (cr k')) 8 = None).
Proof.
  split; [exact kernel_16_runs|].
  apply (init_paging_null_faults 16 kernel_16 8 (kernel_16_paging 16 kernel_16 ltac:(lia) kernel_16_memory eq_refl)); [unfold frame_size; lia|].
  intros [Hlo _]. by apply Hlo.
Defined.

(** Whether kernel_start reached its idle loop. *)
Definition booted (c : res (boot * machine)) : bool :=
  match c with
  | Ok (b, _) => bool_decide (b = Running)
  | _ => false
  end.

Lemma kernel_16_boots : booted (kernel_start (Z.to_nat 0x110000) kernel_16 system_16) = true.
Proof. vm_compute. reflexivity. Qed.

(** C7: kernel_start: handed a consistent memory manager, a font and a screen with room for
    its messages, the kernel faults nowhere on the way and writes only to the allocator's
    bitmaps, to frames that were free, to the screen and to its stack.  It halts only when
    no frame is left, with CR3 untouched if it halts over the page tables, or reaches its
    idle loop: the descriptor table is in two frames of its own that stay allocated,
    loaded, its five segments in place, and mapped to itself; CR3 maps exactly the regions
    above page 0 and the framebuffer, to themselves; the allocator is consistent and has
    made no frame free. *)
Theorem kernel_start_boots `{Image} package ty fuel k sys :
  paging_ok fuel (with_system k sys) ->
  console_ok package ty (memory k) (physical_memory sys) (fb sys) fuel ->
  wp (kernel_start fuel k sys) (fun '(b, k') => kernel_started k sys b k' /\
    mem_upd (fun a => kernel_area (memory k) (physical_memory sys) a \/ console_area (fb sys) a)
      (memory k) (memory k')).
Proof. apply wp_kernel_start. Qed.

Lemma kernel_start_boots_witness :
  booted (kernel_start (Z.to_nat 0x110000) kernel_16 system_16) = true /\
  wp (kernel_start (Z.to_nat 0x110000) kernel_16 system_16) (fun '(b, k') => kernel_started kernel_16 system_16 b k' /\
    mem_upd (fun a => kernel_area (memory kernel_16) (physical_memory system_16) a \/ console_area (fb system_16) a)
      (memory kernel_16) (memory k')).
Proof.
  split; [exact kernel_16_boots|].
  apply (kernel_start_boots package (image_face mem_16 0x2000) (Z.to_nat 0x110000) kernel_16 system_16).
  - apply kernel_16_paging; [|exact kernel_16_memory | reflexivity]. apply Nat2Z.inj_le. rewrite Z2Nat.id by done. done.
  - apply kernel_16_console. by rewrite Z2Nat.id.
Defined.

(** ** The descriptor table *)

(** C23: kernel_start up to its descriptor table, from ssfn_setup to the message about the
    table: it halts only if no frame is left, and then no more than one was free; otherwise
    the table takes two distinct frames that were free, one for the descriptor and one for
    the segments, and no others; they hold the limit, the base and the five flat 64-bit
    segments, which are loaded.  The allocator stays consistent, CR3 as it was, and only
    the bitmaps, free frames, the screen and the console's arrays are written. *)
Theorem start_gdt_correct `{Image} package ty fuel k :
  pmm_inv (memory k) (physical_memory (system k)) ->
  console_ok package ty (memory k) (physical_memory (system k)) (fb (system k)) fuel ->
  wp (k1 ← start_messages fuel (setup_screen k); start_gdt fuel k1) (fun '((ok, k') : bool * machine) =>
    pmm_inv (memory k') (physical_memory (system k')) /\ cr k' = cr k /\
    mem_upd (fun a => kernel_area (memory k) (physical_memory (system k)) a \/ console_area (fb (system k)) a)
      (memory k) (memory k') /\
    if ok then exists desc base, table_done (memory k) (physical_memory (system k)) k' desc base
    else out_of_frames k' /\ frames_free (physical_memory (system k)) <= 1).
Proof.
  intros I K. wp_step. eapply wp_mono; [by apply (wp_start_messages package ty _ _ _ fuel K k)|].
  intros k1 (T & s & -> & U).
  eapply wp_mono; [by apply (wp_start_gdt package ty _ _ _ fuel K I (with_screen k s) T U)|].
  intros [ok k'] (T' & S & P). split; [apply (gs_inv _ _ _ S)|]. split; [apply (gs_cr _ _ _ S)|].
  split; [apply (ta_upd _ _ _ _ _ _ _ T') | exact P].
Qed.

Definition table_ready (c : res (bool * machine)) : bool :=
  match c with Ok (ok, _) => ok | _ => false end.

Lemma kernel_16_table :
  table_ready (k1 ← start_messages (Z.to_nat 0x110000) (setup_screen kernel_16); start_gdt (Z.to_nat 0x110000) k1) = true.
Proof. vm_compute. reflexivity. Qed.

Lemma start_gdt_correct_witness :
  table_ready (k1 ← start_messages (Z.to_nat 0x110000) (setup_screen kernel_16); start_gdt (Z.to_nat 0x110000) k1) = true /\
  wp (k1 ← start_messages (Z.to_nat 0x110000) (setup_screen kernel_16); start_gdt (Z.to_nat 0x110000) k1) (fun '((ok, k') : bool * machine) =>
    pmm_inv (memory k') (physical_memory (system k')) /\ cr k' = cr kernel_16 /\
    mem_upd (fun a => kernel_area (memory kernel_16) (physical_memory (system kernel_16)) a \/
      console_area (fb (system kernel_16)) a) (memory kernel_16) (memory k') /\
    if ok then exists desc base, table_done (memory kernel_16) (physical_memory (system kernel_16)) k' desc base
    else out_of_frames k' /\ frames_free (physical_memory (system kernel_16)) <= 1).
Proof.
  split; [exact kernel_16_table|].
  refine (start_gdt_correct package (image_face mem_16 0x2000) (Z.to_nat 0x110000) kernel_16 mem_16_inv _).
  apply kernel_16_console. by rewrite Z2Nat.id.
Defined.

(** Frames enough for two of the descriptor table and for every table the regions and the
    framebuffer may take. *)
Definition frames_enough (sys : colonel_t) : Prop :=
  kernel_tables_needed (physical_memory sys) (fb sys) + 2 < frames_free (physical_memory sys).

(** C21: the kernel gets where it is going unless memory runs out: if it is handed more
    free frames than the descriptor table and the page tables of the regions and the
    framebuffer may take, a number that depends on their bounds alone, or if a frame is
    still free when kernel_start ends, it ended in its idle loop.  In particular the
    regions and the framebuffer, mapped one after the other, never block each other,
    whatever they overlap. *)
Theorem kernel_start_progress `{Image} package ty fuel k sys :
  paging_ok fuel (with_system k sys) ->
  console_ok package ty (memory k) (physical_memory sys) (fb sys) fuel ->
  wp (kernel_start fuel k sys) (fun '(b, k') =>
    frames_enough sys \/ (exists a, pmm_avail (memory k') (physical_memory (system k')) a) -> b = Running).
Proof.
  intros Hok K. eapply wp_mono; [by apply (wp_kernel_start package ty)|].
  intros [[| |] k'] [Hk _] HE; [destruct Hk as [Hno Hfew] | destruct Hk as (_ & Hno & Hfew) | done];
    unfold too_few, frames_enough in *; destruct HE as [HE|[a Ha]]; [lia | by destruct (Hno a) | lia | by destruct (Hno a)].
Qed.

Lemma kernel_16_enough : frames_enough system_16.
Proof. unfold frames_enough. vm_compute. reflexivity. Qed.

Lemma kernel_start_progress_witness :
  booted (kernel_start (Z.to_nat 0x110000) kernel_16 system_16) = true /\ frames_enough system_16 /\
  wp (kernel_start (Z.to_nat 0x110000) kernel_16 system_16) (fun '(b, k') =>
    frames_enough system_16 \/ (exists a, pmm_avail (memory k') (physical_memory (system k')) a) -> b = Running).
Proof.
  split; [exact kernel_16_boots|]. split; [exact kernel_16_enough|].
  apply (kernel_start_progress package (image_face mem_16 0x2000) (Z.to_nat 0x110000) kernel_16 system_16).
  - apply kernel_16_paging; [|exact kernel_16_memory | reflexivity]. apply Nat2Z.inj_le. rewrite Z2Nat.id by done. done.
  - apply kernel_16_console. by rewrite Z2Nat.id.
Defined.
