(* ===== verification/KernelHeap.v ===== *)
(** The kernel's page tables and its heap together: a heap on the address space that
    init_paging has set up. *)
From stdpp Require Import gmap list.
From Stdlib Require Import ZArith Lia.
From S2P Require Import Prelude Memory Physical FrameAllocator PhysicalSpec FrameCount LibString Paging PagingSpec Mapping MapRange TableCount Heap Gdt GdtSpec Ssfn Console Kernel KernelSpec Machine ImageMachine PagingThm HeapThm KernelThm.
Local Open Scope Z_scope.

(** The frames init_paging has taken are not more than the tables it may need. *)
Lemma frames_after fuel k root k1 :
  paging_ok fuel k -> kernel_tables k root (kernel_mapped k) k1 ->
  frames_free (physical_memory (system k)) <=
    frames_free (physical_memory (system k1)) + kernel_tables_needed (physical_memory (system k)) (fb (system k)).
Proof.
  intros Hok K. destruct (kt_tables _ _ _ _ K) as (T & OK & HT & Hsp & HR).
  destruct (FrameCount.free_frames _ _ (ks_inv _ _ (kt_step _ _ _ _ K))) as (l & Hl & Hin).
  pose proof (reached_count (kernel_mapped k) (memory k1) (physical_memory (system k1)) T root _ OK HR
    (fun v => kernel_ranges_in (physical_memory (system k)) (fb (system k)) v)) as Hc.
  pose proof (frames_free_le _ _ (pk_inv _ _ Hok) (l ++ (map_to_list T).*1)) as Hle.
  rewrite length_app, Nat2Z.inj_add, length_fmap, length_map_to_list, Hl in Hle.
  etrans; [apply Hle | by apply Z.add_le_mono_l]. intros a Ha. apply elem_of_app.
  destruct (Hsp a Ha) as [Ha'|[lv Hlv]]; [left; by apply Hin | right].
  apply list_elem_of_fmap. exists (a, lv). by rewrite elem_of_map_to_list.
Qed.

(** The heap's pages in the middle of get_heap, and the kernel's. *)
Lemma heap_translate m (pm : pmm) T root vaddr length paddr k freed m' pm' T' va :
  heap_ok vaddr length -> vaddr + heap_pages length * page_size <= 2 ^ 48 -> 0 <= k <= heap_pages length ->
  heap_state m pm T root vaddr length paddr k freed m' pm' T' -> 0 <= va < 2 ^ 48 ->
  translate m' root va =
    if decide (vaddr <= va < vaddr + page_size * k) then Some (paddr + (va - vaddr)) else translate m root va.
Proof.
  intros Hok Hend Hk HS Hva.
  apply pages_translate; [apply Hok | apply Hok | lia | unfold page_size in *; lia | done | apply HS].
Qed.

Section heap.
Context (fuel : nat) (k : machine) (vaddr length : Z).
Let n := heap_pages length.
Context (Hok : paging_ok fuel k) (Hheap : heap_ok vaddr length) (Hfuel : n <= Z.of_nat fuel).
Context (Hend : vaddr + n * page_size <= 2 ^ 48).
Context (Hapart : forall va, kernel_mapped k va -> ~ vaddr <= va < vaddr + n * page_size).

(** What a heap on the kernel's tables leaves. *)
Record kernel_with_heap (k1 : machine) (r : Z) (m : mem) (pm : pmm) : Prop := {
  kh_inv : pmm_inv m pm;
  kh_kernel va : 0 <= va < 2 ^ 48 -> kernel_mapped k va -> translate m (cr3 (cr k1)) va = Some va;
  kh_heap : r = 0 -> exists paddr,
    (forall i, 0 <= i < n -> pmm_avail (memory k1) (physical_memory (system k1)) (run_frame paddr i) /\
       ~ pmm_avail m pm (run_frame paddr i)) /\
    forall off, 0 <= off < length -> translate m (cr3 (cr k1)) (vaddr + off) = Some (paddr + off);
  kh_succeeds : pmm_has_run (memory k1) (physical_memory (system k1)) n ->
    kernel_tables_needed (physical_memory (system k)) (fb (system k)) +
      n + range_tables (vaddr, vaddr + n * page_size) < frames_free (physical_memory (system k)) -> r = 0
}.

Lemma wp_kernel_heap :
  wp (init_paging fuel k) (fun '(r, k1) => r = 0 ->
    wp (get_heap fuel (memory k1) (physical_memory (system k1)) (cr3 (cr k1)) vaddr length)
      (fun '(r', (m, pm)) => kernel_with_heap k1 r' m pm)).
Proof using Hok Hheap Hfuel Hend Hapart.
  eapply wp_mono; [by apply wp_init_paging|].
  intros [r k'] [(-> & root & k1 & K & ->)|[-> _]]; intros Hr; [|done]. clear Hr.
  change (kernel_tables k root (kernel_mapped k) k1) in K. cbn [with_cr memory system cr set_cr3 cr3].
  destruct (kt_tables _ _ _ _ K) as (T & OK & _). pose proof (ks_inv _ _ (kt_step _ _ _ _ K)) as I.
  destruct (heap_n vaddr length Hheap) as (Hn & Hlen & _). fold n in Hn, Hlen.
  assert (Hv : 0 <= vaddr) by apply Hheap.
  assert (Hnone : forall va, vaddr <= va < vaddr + n * page_size -> translate (memory k1) root va = None).
  { intros va Hva. apply (kt_out _ _ _ _ K); [lia|]. intros Hm. by apply (Hapart va). }
  assert (Hkeep : forall paddr c freed m pm T', 0 <= c <= n ->
    heap_state (memory k1) (physical_memory (system k1)) T root vaddr length paddr c freed m pm T' ->
    forall va, 0 <= va < 2 ^ 48 -> kernel_mapped k va -> translate m root va = Some va).
  { intros paddr c freed m pm T' Hc HS va Hva Hm. rewrite (heap_translate _ _ _ _ _ _ _ _ _ _ _ _ va Hheap Hend Hc HS Hva).
    case_decide as Hd; [destruct (Hapart va Hm); unfold page_size in *; lia | by apply (kt_in _ _ _ _ K)]. }
  eapply wp_mono; [by apply (get_heap_spec (memory k1) (physical_memory (system k1)) T root vaddr length)|].
  intros [r [m pm]] [(-> & -> & -> & Hno)|[(-> & paddr & T' & HS)|(-> & paddr & c & T' & Hc & HS & Hwhy)]]; split.
  - exact I.
  - apply (kt_in _ _ _ _ K).
  - done.
  - intros Hrun. by destruct Hno.
  - apply HS.
  - apply (Hkeep paddr n false m pm T'); [lia | done].
  - intros _. exists paddr. split.
    + intros i Hi. destruct (hs_run _ _ _ _ _ _ _ _ _ _ _ _ HS (run_frame paddr i)) as [Ha _]; [by exists i|].
      split; [exact Ha|]. intros Ha'. apply (hs_avail _ _ _ _ _ _ _ _ _ _ _ _ HS) in Ha' as (_ & _ & Hno).
      apply Hno; [done|]. by exists i.
    + intros off Hoff. change (translate m root (vaddr + off) = Some (paddr + off)).
      rewrite (heap_translate _ _ _ _ _ _ _ n _ _ _ _ (vaddr + off) Hheap Hend ltac:(fold n; lia) HS) by lia.
      rewrite decide_True by (unfold page_size in *; lia). f_equal. lia.
  - done.
  - apply HS.
  - apply (Hkeep paddr c true m pm T'); [lia | done].
  - done.
  - intros _ Hfree. pose proof (frames_after fuel k root k1 Hok K).
    pose proof (heap_gives_up _ _ T root vaddr length paddr c m pm T' I OK Hheap Hnone Hc HS Hwhy) as Hg.
    fold n in Hg. lia.
Qed.
End heap.

(** C24: the kernel's address space bears a heap: after init_paging has returned 0, get_heap
    on a range apart from the identity-mapped regions leaves all of these mapped to
    themselves, whether it succeeds or not, and the allocator consistent.  If it returns 0,
    the bytes of the heap translate linearly to a run of frames that were free and are not
    any more; and it does return 0 if there is a run and init_paging was handed more free
    frames than the tables of both, by their bounds, and the heap may take. *)
Theorem kernel_heap fuel k vaddr length :
  paging_ok fuel k -> heap_ok vaddr length -> heap_pages length <= Z.of_nat fuel ->
  vaddr + heap_pages length * page_size <= 2 ^ 48 ->
  (forall va, kernel_mapped k va -> ~ vaddr <= va < vaddr + heap_pages length * page_size) ->
  wp (init_paging fuel k) (fun '(r, k1) => r = 0 ->
    wp (get_heap fuel (memory k1) (physical_memory (system k1)) (cr3 (cr k1)) vaddr length)
      (fun '(r', (m, pm)) => kernel_with_heap k vaddr length k1 r' m pm)).
Proof. apply wp_kernel_heap. Qed.

(** Twelve kilobytes at 16 MiB. *)
Definition heap_after (fuel : nat) (k : machine) (vaddr length : Z) : res (Z * (mem * pmm)) :=
  '(_, k1) ← init_paging fuel k;
  get_heap fuel (memory k1) (physical_memory (system k1)) (cr3 (cr k1)) vaddr length.

Lemma kernel_16_heap : returned (heap_after 16 kernel_16 0x1000000 0x2800) 0 = true.
Proof. vm_compute. reflexivity. Qed.

(** All that is mapped lies far below. *)
Lemma kernel_16_low va : kernel_mapped kernel_16 va -> va < 0x100000.
Proof.
  intros [(i & b & _ & A & _ & Hb)|[_ Hb]].
  - change (active p16 i b) in A. apply active16 in A as [_ ->]. apply (Z.lt_trans _ _ _ (proj2 Hb)). by vm_compute.
  - apply (Z.lt_trans _ _ _ Hb). by vm_compute.
Qed.

Lemma kernel_heap_witness :
  returned (heap_after 16 kernel_16 0x1000000 0x2800) 0 = true /\
  wp (init_paging 16 kernel_16) (fun '(r, k1) => r = 0 ->
    wp (get_heap 16 (memory k1) (physical_memory (system k1)) (cr3 (cr k1)) 0x1000000 0x2800)
      (fun '(r', (m, pm)) => kernel_with_heap kernel_16 0x1000000 0x2800 k1 r' m pm)).
Proof.
  split; [exact kernel_16_heap|].
  apply (kernel_heap 16 kernel_16 0x1000000 0x2800 (kernel_16_paging 16 kernel_16 ltac:(lia) kernel_16_memory eq_refl));
    [by split; vm_compute | by vm_compute | by vm_compute |].
  intros va Hva%kernel_16_low. lia.
Defined.
