(* ===== verification/LoaderThm.v ===== *)
(** Theorems about the loader of efi-stage. *)
From stdpp Require Import list gmultiset.
From Stdlib Require Import ZArith Lia.
From S2P Require Import Prelude Memory Physical EfiPmm EfiPmmSpec Firmware Loader LoaderMain LoaderSpec ReserveSpec EfiPmmThm.
Local Open Scope Z_scope.

(** A firmware: two volumes, the second with a file of 64 bytes; a memory map of four
    descriptors, that of [map_mem]; the first key is refused. *)
Definition toy_reply (log : list event) (c : call) : reply c :=
  match c with
  | LocateHandleBuffer =>
      if bool_decide (0x500 ∈ pools log) then (EFI_OUT_OF_RESOURCES, ([], 0)) else (EFI_SUCCESS, ([1; 2], 0x500))
  | HandleProtocol h => (EFI_SUCCESS, h + 10)
  | OpenVolume fs => (EFI_SUCCESS, Z.max 1 (fs + 10))
  | Open root _ => if root =? 21 then (EFI_NOT_FOUND, 0) else (EFI_SUCCESS, 31)
  | GetInfo _ => (EFI_SUCCESS, 64)
  | Read _ n _ => (EFI_SUCCESS, u64 n)
  | AllocatePool n =>
      if (n <? 2 ^ 32) && negb (bool_decide (0x8100 ∈ pools log)) then (EFI_SUCCESS, 0x8100) else (EFI_OUT_OF_RESOURCES, 0)
  | GetMemoryMap n _ => if n <? 160 then (EFI_BUFFER_TOO_SMALL, (160, 0, 40))
      else (EFI_SUCCESS, (160, Z.of_nat (length log), 40))
  | ExitBootServices _ => if refusals log <? 1 then EFI_INVALID_PARAMETER else EFI_SUCCESS
  | LocateProtocol => (EFI_SUCCESS, 1)
  | QueryMode _ mode => (EFI_SUCCESS, 0x600 + mode)
  | _ => EFI_SUCCESS
  end.

Definition toy : firmware := fun log m c => (toy_reply log c, m).

Lemma toy_sound : sound toy 160.
Proof.
  intros log m c. cbn [toy fst]. destruct c; cbn [sound_reply toy_reply]; try done.
  - case_bool_decide; [done|]. intros _. split; [unfold NULL; lia | done].
  - intros _. unfold NULL. lia.
  - by destruct (_ =? _).
  - unfold u64. zlia.
  - destruct (Z.ltb_spec size (2 ^ 32)); [|done]. cbn [andb]. case_bool_decide; [done|]. intros _. split; [done|]. split; [lia|].
    split; [lia | done].
  - unfold sound_map. destruct (Z.ltb_spec size 160); split_and!; try done; intros; lia.
Qed.

Definition toy_world : world := {| w_mem := map_mem; w_log := [] |}.

(** C15: efi_fread keeps no resource it does not hand out, and releases none it does not
    hold: on success exactly the buffer stays allocated, filled by a Read of the file of
    that name and of the length the file has; on an error nothing does; every volume and
    file is closed again. *)
Theorem efi_fread_no_leak fw cap filename w :
  sound fw cap ->
  iwp (efi_fread fw filename) w (fun '(result, out) w' =>
    (EFI_ERROR result = true <-> out = None) /\
    exists X, fread_out filename w' out X /\ pools (w_log w') = X ⊎ pools (w_log w) /\
      files (w_log w') = files (w_log w) /\ (releases_ok (w_log w) -> releases_ok (w_log w'))).
Proof.
  intros Hfw. eapply iwp_mono; [by apply (iwp_efi_fread fw cap Hfw)|].
  intros [result out] w' (Hiff & X & Hout & G). split; [done|]. exists X. split; [done|].
  split; [apply G|]. split; [by rewrite (gr_files _ _ _ _ G), (left_id_L ∅ (⊎)) | apply G].
Qed.

Lemma efi_fread_no_leak_witness :
  (match efi_fread toy [97] toy_world with Ok ((r, Some (b, n)), _) => (r =? 0) && (b =? 0x8100) && (n =? 64) | _ => false end) = true /\
  iwp (efi_fread toy [97]) toy_world (fun '(result, out) w' =>
    (EFI_ERROR result = true <-> out = None) /\
    exists X, fread_out [97] w' out X /\ pools (w_log w') = X ⊎ pools (w_log toy_world) /\
      files (w_log w') = files (w_log toy_world) /\
      (releases_ok (w_log toy_world) -> releases_ok (w_log w'))).
Proof. split; [by vm_compute|]. exact (efi_fread_no_leak toy 160 [97] toy_world toy_sound). Defined.

(** C20: getEFIMemoryMap ends: the buffer grows with every turn and maps are bounded.  On
    success the map is in the one buffer that stays allocated, between start and end; on
    an error nothing stays allocated and the range is empty. *)
Theorem getEFIMemoryMap_correct fw cap fuel mmap w :
  sound fw cap -> size mmap = 0 -> 0 <= cap + 1 < Z.of_nat fuel ->
  iwp (getEFIMemoryMap fw fuel mmap) w (fun '(result, mm) w' =>
    (result <> EFI_SUCCESS /\ start mm = 0 /\ end_ mm = 0 /\ grows ∅ ∅ w w') \/
    (result = EFI_SUCCESS /\ end_ mm = start mm + size mm /\
     map_filled fw cap w' mm (start mm) /\ grows {[+ start mm +]} ∅ w w')).
Proof. intros Hfw. by apply iwp_getEFIMemoryMap. Qed.

Lemma getEFIMemoryMap_correct_witness :
  (match getEFIMemoryMap toy 200 zero_mmap toy_world with Ok ((r, mm), _) => (r =? 0) && (end_ mm =? 0x81A0) | _ => false end) = true /\
  iwp (getEFIMemoryMap toy 200 zero_mmap) toy_world (fun '(result, mm) w' =>
    (result <> EFI_SUCCESS /\ start mm = 0 /\ end_ mm = 0 /\ grows ∅ ∅ toy_world w') \/
    (result = EFI_SUCCESS /\ end_ mm = start mm + size mm /\
     map_filled toy 160 w' mm (start mm) /\ grows {[+ start mm +]} ∅ toy_world w')).
Proof.
  split; [by vm_compute|]. apply (getEFIMemoryMap_correct toy 160 200 zero_mmap toy_world toy_sound); [done | lia].
Defined.

(** C14: leaving Boot Services: if the firmware refuses only so many keys, the loop ends.
    When it ends with a map, ExitBootServices was called with the key of that very map,
    fetched by the call before, and since the buffer for it was allocated nothing has been
    printed or allocated; that buffer is all that stays allocated. *)
Theorem exit_boot_services_protocol fw cap n fuel w :
  sound fw cap -> refuses fw n -> 0 <= n < Z.of_nat fuel ->
  iwp (exit_boot_services fw fuel) w (fun e w' =>
    (exists P, grows P ∅ w w') /\
    forall mmap, e = Exited mmap -> grows {[+ start mmap +]} ∅ w w' /\
      left_boot_services fw cap w w' mmap).
Proof. intros Hfw. by apply (iwp_exit_boot_services fw cap Hfw). Qed.

Lemma toy_refuses : refuses toy 1.
Proof.
  intros log m k Hn. cbn [toy fst toy_reply]. destruct (Z.ltb_spec (refusals log) 1); [lia | done].
Qed.

Lemma exit_boot_services_protocol_witness :
  (match exit_boot_services toy 2 toy_world with Ok (Exited mm, _) => key mm =? 4 | _ => false end) = true /\
  iwp (exit_boot_services toy 2) toy_world (fun e w' =>
    (exists P, grows P ∅ toy_world w') /\
    forall mmap, e = Exited mmap -> grows {[+ start mmap +]} ∅ toy_world w' /\
      left_boot_services toy 160 toy_world w' mmap).
Proof.
  split; [by vm_compute|].
  apply (exit_boot_services_protocol toy 160 1 2 toy_world toy_sound toy_refuses). cbn. lia.
Defined.

(** C18: the storage is big enough: if the final memory map has no more RAM than the
    provisional one and at most PMM_BLOCK_SLACK regions more, reserve_pmm's sizes give
    build_pmm a slot for every region and a bitmap for every region of RAM. *)
Theorem reserve_sizes_suffice l l' :
  pages_ok l -> pages_ok l' -> Z.of_nat (length l) + PMM_BLOCK_SLACK + ram_pages l < 2 ^ 64 ->
  slots l' <= slots l + PMM_BLOCK_SLACK -> ram_pages l' <= ram_pages l ->
  slots l' <= (sizes_for l).1 /\ total_words (filter nonempty l') <= (sizes_for l).2.
Proof. apply sizes_suffice. Qed.

Lemma reserve_sizes_suffice_witness :
  sizes_for descs_16 = (20, 20) /\
  slots (descs_16 ++ descs_16) <= (sizes_for descs_16).1 /\
  total_words (filter nonempty descs_16) <= (sizes_for descs_16).2.
Proof.
  split; [by vm_compute|]. split; [by vm_compute|].
  apply (reserve_sizes_suffice descs_16 descs_16); try (by vm_compute); repeat constructor; by vm_compute.
Defined.

(** C19: reserve_pmm ends; on success it has allocated the storage alone, with the sizes
    of the memory map it was given, the bitmap behind the block slots; on an error
    nothing stays allocated. *)
Theorem reserve_pmm_correct fw cap desc_at fuel junk w :
  sound fw cap -> 0 <= cap + 1 < Z.of_nat fuel ->
  iwp (reserve_pmm fw desc_at fuel junk) w (fun '(result, storage) w' =>
    reserved fw cap desc_at w w' result storage).
Proof. intros Hfw. by apply iwp_reserve_pmm. Qed.

Definition toy_block : pm_block :=
  {| pb_address := 0; pb_frames_total := 0; pb_frames_free := 0; pb_map := 0;
     pb_type := PM_RESERVED; pb_attributes := 0 |}.

Lemma reserve_pmm_correct_witness :
  (match reserve_pmm toy uefi_desc 200 toy_block toy_world with
   | Ok ((_, Some st), _) => bitmap st =? 0x8100 + 16 + 56 * block_capacity st
   | _ => false
   end) = true /\
  iwp (reserve_pmm toy uefi_desc 200 toy_block) toy_world (fun '(result, storage) w' =>
    reserved toy 160 uefi_desc toy_world w' result storage).
Proof.
  split; [by vm_compute|]. apply (reserve_pmm_correct toy 160 uefi_desc 200 toy_block toy_world toy_sound). lia.
Defined.
