(* ===== verification/BootThm.v ===== *)
(** The loader boots the kernel: a concrete firmware and the theorem on efi_main. *)
From stdpp Require Import gmap list.
From Stdlib Require Import ZArith Lia.
From S2P Require Import Prelude Memory Physical FrameAllocator PhysicalSpec EfiPmm EfiPmmSpec LibString Paging PagingSpec Mapping MapRange Gdt GdtSpec Stdio StdioSpec Ssfn SsfnSpec Console ConsoleSpec Kernel KernelText KernelSpec KernelBoot Firmware Loader LoaderMain LoaderSpec ReserveSpec LoaderBoot ImageMachine EfiPmmThm KernelThm LoaderThm.
Local Open Scope Z_scope.

(** ** A platform: a page of conventional memory at 0, the kernel's image, the loader's page
    at 0x8000, sixteen pages of conventional memory at 0x10000, the screen, and a device *)
#[export] Instance toy_platform : Platform := {
  guid := bool;
  ACPI2 := true;
  CompareGuid := fun a b => c_bool (Bool.eqb a b);
  ConfigurationTable := [(false, 5); (true, 0x7000)];
  desc_at := uefi_desc;
  gop_mode := fun _ _ => {| HorizontalResolution := 62; VerticalResolution := 46;
    PixelsPerScanLine := 66; FrameBufferBase := 0x30000 |};
  gop_max_mode := fun _ _ => 1;
  boot_cr := cr kernel_16;
  boot_seg := seg kernel_16;
  junk_system := system_16;
  junk_block := toy_block;
  junk_font := (0, 0)
}.

Definition boot_ram : mem :=
  fill (fill (fill (fill ∅ 0x30000 (Z.to_nat 12288) Init.Byte.x00)
    0 (Z.to_nat 4096) Init.Byte.x00) 0x8000 (Z.to_nat 4096) Init.Byte.x00) 0x10000 (Z.to_nat 65536) Init.Byte.x00.

Definition boot_base : mem := with_strings boot_ram.

(** The memory map, written at [p], and the font, read into 0x8000. *)
Definition boot_map (p : Z) : mem :=
  let m := poke_desc boot_base p 7 0 1 in
  let m := poke_desc m (p + 40) 2 0x8000 1 in
  let m := poke_desc m (p + 80) 7 0x10000 16 in
  let m := poke_desc m (p + 120) 11 0xFEE00000 1 in
  place m 0x8000 font_bytes.

(** Buffers come from the loader's page, one after the other. *)
Definition allocated (log : list event) : Z :=
  foldr (fun e n => match e with existT (AllocatePool z) _ => Z.max 0 z | _ => 0 end + n) 0 log.

Definition apart (a b : Z * Z) : bool := (a.1 + a.2 <=? b.1) || (b.1 + b.2 <=? a.1).

Fixpoint all_apart (L : list (Z * Z)) : bool :=
  match L with
  | [] => true
  | b :: L => forallb (apart b) L && all_apart L
  end.

Definition in_page (b : Z * Z) : bool := (0x8000 <=? b.1) && (b.1 + b.2 <=? 0x9000).

Definition is_font (b : Z * Z) : bool := (b.1 =? 0x8000) && (b.2 =? 66).

(** The firmware answers a request for the map if the buffers are where it put them. *)
Definition map_answer (log : list event) (p : Z) : bool :=
  ((p =? 0x8104) || (p =? 0x8704)) && forallb in_page (live log) && all_apart (live log) &&
  forallb is_font (file_reads font_name log).

Definition EFI_DEVICE_ERROR : Z := EFIERR 7.

Definition boot_reply (log : list event) (c : call) : reply c :=
  match c with
  | AllocatePool z =>
      if (0x8000 + allocated log + z <=? 0x9000) && negb (bool_decide (0x8000 + allocated log ∈ pools log)) then (EFI_SUCCESS, 0x8000 + allocated log)
      else (EFI_OUT_OF_RESOURCES, 0)
  | GetMemoryMap z p =>
      if z <? 160 then (EFI_BUFFER_TOO_SMALL, (160, 0, 40))
      else if map_answer log p then (EFI_SUCCESS, (160, Z.of_nat (length log), 40))
      else (EFI_DEVICE_ERROR, (160, 0, 40))
  | GetInfo _ => (EFI_SUCCESS, 66)
  | c => toy_reply log c
  end.

Definition boot_fw : firmware := fun log m c =>
  (boot_reply log c,
   match c with
   | GetMemoryMap z p => if z <? 160 then m else if map_answer log p then boot_map p else m
   | _ => m
   end).

Definition boot_world : world := {| w_mem := boot_base; w_log := [] |}.

(** ** The firmware conforms and the machine suits *)
(** Outside the font and the descriptors the memory is [boot_base]. *)
Lemma boot_lookup p x : 0x8042 <= p -> ~ (0x8000 <= x < 0x8042) -> ~ (p <= x < p + 160) -> boot_map p !! x = boot_base !! x.
Proof.
  intros Hp H1 H2. unfold boot_map, poke_desc. cbv zeta. rewrite lookup_place, decide_False by (change (Z.of_nat (length font_bytes)) with 66; lia).
  rewrite !lookup_poken_ne by (unfold region; lia). done.
Qed.

Lemma backed_place m a l b k : backed m b k -> backed (place m a l) b k.
Proof.
  intros B x Hx. rewrite lookup_place. case_decide as Hd; [|by apply B].
  destruct (lookup_lt_is_Some_2 l (Z.to_nat (x - a))) as [c ->]; [lia | done].
Qed.

Lemma base_lookup x : ~ (0x3000 <= x < 0x5000) -> boot_base !! x = boot_ram !! x.
Proof. apply lookup_with_strings. Qed.

Lemma boot_backed p a k :
  (0 <= a /\ a + k <= 4096) \/ (0x8000 <= a /\ a + k <= 0x9000) \/ (0x10000 <= a /\ a + k <= 0x20000) \/
  (0x30000 <= a /\ a + k <= 0x33000) ->
  backed (boot_map p) a k.
Proof.
  intros Ha. unfold boot_map, poke_desc. cbv zeta. apply backed_place. do 12 apply backed_poken.
  intros x Hx. rewrite base_lookup by lia. revert x Hx. unfold boot_ram.
  destruct Ha as [?|[?|[?|?]]].
  - do 2 apply backed_fill_mono. apply backed_fill; lia.
  - apply backed_fill_mono. apply backed_fill; lia.
  - apply backed_fill; lia.
  - do 3 apply backed_fill_mono. apply backed_fill; lia.
Qed.

Lemma boot_image p : 0x8042 <= p -> p + 160 <= 0x9000 -> has_image (boot_map p) /\ holds (boot_map p) 0x8000 font_bytes.
Proof.
  intros H1 H2. destruct (with_strings_image boot_ram : has_image boot_base) as [S B]. split; [split|].
  - apply (holds_ext _ _ _ _ S). rewrite length_strings. unfold region. intros x Hx. apply boot_lookup; lia.
  - intros x Hx. rewrite boot_lookup by lia. by apply B.
  - unfold boot_map. cbv zeta. exact (holds_place _ 0x8000 font_bytes).
Qed.

Lemma all_apart_lookup L : all_apart L = true -> forall i j b b',
  i <> j -> L !! i = Some b -> L !! j = Some b' -> apart b b' = true.
Proof.
  assert (Hsym : forall b b', apart b b' = apart b' b) by (intros b b'; apply orb_comm).
  induction L as [|c L IH]; intros HL i j b b' Hij Hi Hj; [done|].
  cbn in HL. apply andb_prop in HL as [Hc HL]. rewrite forallb_forall in Hc.
  destruct i as [|i], j as [|j]; try done.
  - injection Hi as <-. by eapply Hc, list_elem_of_In, list_elem_of_lookup_2.
  - injection Hj as <-. rewrite Hsym. by eapply Hc, list_elem_of_In, list_elem_of_lookup_2.
  - apply (IH HL i j); [lia | done | done].
Qed.

(** What the kernel writes on this map. *)
Lemma boot_writes R a :
  kernel_writes descs_16 R a -> 0 <= a < 4096 \/ 0x10000 <= a < 0x20000 \/ R a.
Proof.
  intros [(x & Hx & Ht & Ha)|]; [|by right; right]. revert x Hx Ht Ha.
  enough (H : Forall (fun d => Type_ d = EfiConventionalMemory ->
    region (PhysicalStart d) (NumberOfPages d * frame_size) a -> 0 <= a < 4096 \/ 0x10000 <= a < 0x20000 \/ R a) descs_16)
    by (intros x Hx; by apply (proj1 (Forall_forall _ _) H)).
  repeat first [apply Forall_nil_2 | apply Forall_cons_2]; try done; intros _; unfold region, frame_size; cbn; lia.
Qed.

Section answered.
Context (log : list event) (p : Z) (Hans : map_answer log p = true).

Lemma answer_parts :
  (p = 0x8104 \/ p = 0x8704) /\ (forall q n, (q, n) ∈ live log -> 0x8000 <= q /\ q + n <= 0x9000) /\
  all_apart (live log) = true /\ (forall q n, (q, n) ∈ file_reads font_name log -> q = 0x8000 /\ n = 66).
Proof.
  pose proof Hans as [[[Hp%orb_prop Hin]%andb_prop Hap]%andb_prop HF]%andb_prop.
  rewrite !Z.eqb_eq in Hp. rewrite forallb_forall in Hin, HF. split; [done|]. split; [|split; [done|]].
  - intros q n Hq%list_elem_of_In%Hin. unfold in_page in Hq. cbn in Hq. lia.
  - intros q n Hq%list_elem_of_In%HF. unfold is_font in Hq. cbn in Hq. lia.
Qed.

Lemma boot_apart i j q n q' n' : i <> j -> live log !! i = Some (q, n) -> live log !! j = Some (q', n') ->
  q + n <= q' \/ q' + n' <= q.
Proof.
  destruct answer_parts as (_ & _ & Hap & _).
  intros Hij Hi Hj. pose proof (all_apart_lookup _ Hap i j _ _ Hij Hi Hj) as Ha. unfold apart in Ha. cbn in Ha. lia.
Qed.

Lemma boot_console q n :
  (q, n) ∈ live log -> (q, n) ∈ file_reads font_name log ->
  console_on_font package (boot_map p) q n (kernel_writes descs_16 (other_buffers (live log) q)).
Proof.
  destruct answer_parts as (Hp & Hpage & _ & HF).
  intros [i Hi]%list_elem_of_lookup_1 [-> ->]%HF m0 gop fuel Hf. exists (image_face (boot_map p) 0x8000). split; [reflexivity|].
  change (screen_of (gop_mode m0 gop) 0x8000 66) with (image_fb 10 0x8000).
  destruct (boot_image p) as [I F]; [lia..|].
  apply image_console_ok; [by right | exact I | exact F | apply boot_backed; lia | done | done | lia |].
  intros a [Ha|[Ha|(q' & n' & Hq & Hne & Ha)]]%boot_writes; [unfold region; lia..|].
  pose proof (Hpage _ _ Hq) as Hin. apply list_elem_of_lookup_1 in Hq as [j Hj].
  assert (Hij : i <> j) by (intros ->; congruence).
  pose proof (boot_apart i j _ _ _ _ Hij Hi Hj). unfold region in *. lia.
Qed.

Lemma boot_reported : reported_map (boot_map p) p 40 descs_16 (live log).
Proof.
  destruct answer_parts as (Hp & Hpage & _ & _).
  assert (Hall : forall P : efi_descriptor -> Prop, Forall P descs_16 -> forall d, d ∈ descs_16 -> P d)
    by (intros P HP d Hd; by apply (proj1 (Forall_forall _ _) HP)).
  pose proof regions_16_ok as [Hpages Hgeom Hdis _ _]. split.
  - intros k x Hk. clear - Hp Hk. destruct Hp as [-> | ->]; destruct k as [|[|[|[|k]]]]; try done;
      injection Hk as <-; vm_compute; reflexivity.
  - repeat constructor; by vm_compute.
  - by vm_compute.
  - done.
  - done.
  - apply (Hall (fun d => Type_ d = EfiConventionalMemory ->
      backed (boot_map p) (PhysicalStart d) (NumberOfPages d * frame_size))).
    repeat first [apply Forall_nil_2 | apply Forall_cons_2]; try done;
      intros _; apply boot_backed; unfold frame_size; cbn; lia.
  - intros q n [Hlo Hhi]%Hpage. split; [apply boot_backed; lia|].
    intros x y Hx Ht Hy Hq. destruct (boot_writes (fun _ => False) y); [left; by exists x | unfold region in Hq; lia..].
  - exact boot_apart.
Qed.

Lemma boot_suits : suitable_map package 200 (boot_map p) descs_16 (live log) (file_reads font_name log).
Proof.
  split; [|exact boot_console]. intros x Hx. revert x Hx.
  apply (proj1 (Forall_forall (fun d => mappable (init_block d) -> block_end (init_block d) <= 2 ^ 47 /\ NumberOfPages d <= 200) descs_16)).
  repeat first [apply Forall_nil_2 | apply Forall_cons_2]; intros _; by vm_compute.
Qed.
End answered.

Lemma boot_sound : sound boot_fw 160.
Proof.
  intros log m c. pose proof (toy_sound log m c) as Ht. unfold toy in Ht. cbn [fst] in Ht.
  cbn [boot_fw fst]. destruct c; cbn [boot_reply]; try exact Ht.
  - cbn [sound_reply]. destruct (Z.leb_spec (0x8000 + allocated log + size) 0x9000); [|done].
    cbn [andb]. case_bool_decide; [done|].
    assert (0 <= allocated log); [|intros _; split; [done|]; split; [lia|]; split; [lia | done]].
    clear. induction log as [|[c r] log IH]; cbn [allocated foldr]; [done|].
    unfold allocated in IH. destruct c; lia.
  - cbn [sound_reply]. unfold sound_map. destruct (Z.ltb_spec size 160); [|destruct (map_answer log buffer)];
      split_and!; try done; intros; lia.
Qed.

(** A map that is handed out is the one above. *)
Lemma boot_answers log m z p s k d m' :
  boot_fw log m (GetMemoryMap z p) = ((EFI_SUCCESS, (s, k, d)), m') ->
  map_answer log p = true /\ s = 160 /\ d = 40 /\ m' = boot_map p.
Proof.
  unfold boot_fw. cbn [boot_reply]. destruct (z <? 160); [done|].
  destruct (map_answer log p); [|done]. generalize (boot_map p). by intros M [= <- <- <- <-].
Qed.

Lemma boot_conforming : conforming package boot_fw 160.
Proof.
  split.
  - exact boot_sound.
  - intros m m' a Hm. cbn [desc_at toy_platform]. unfold uefi_desc, sizeof_EFI_MEMORY_DESCRIPTOR in *.
    rewrite !(peekn_ext _ m' m); [done | intros x Hx; apply Hm; unfold region in *; lia..].
  - intros log m z p s k d m' (Hp & -> & -> & ->)%boot_answers.
    split; [done|]. exists descs_16. split; [done|]. exact (boot_reported log p Hp).
  - intros log m k m' [= _ <-]. by split.
  - by intros log m _.
Qed.

(** The descriptors of a map are what it says. *)
Lemma boot_descs log p descs :
  map_answer log p = true -> 160 = 40 * Z.of_nat (length descs) ->
  reported_map (boot_map p) p 40 descs (live log) -> descs = descs_16.
Proof.
  intros Hp Hl R. pose proof (mp_desc _ _ _ _ _ R) as H1. pose proof (mp_desc _ _ _ _ _ (boot_reported log p Hp)) as H2.
  revert H1 H2. generalize (boot_map p). intros M H1 H2. apply list_eq_same_length with 4%nat; [done | lia |].
  intros i x y _ Hx Hy. by rewrite <- (H1 i x Hx), (H2 i y Hy).
Qed.

Lemma boot_suitable : suitable package boot_fw 160 200 1.
Proof.
  split.
  - lia.
  - exact toy_refuses.
  - intros log m z p s k d m' descs (Hp & -> & -> & ->)%boot_answers Hl R.
    rewrite (boot_descs log p descs Hp Hl R). exact (boot_suits log p Hp).
  - intros m g. cbn. repeat split; by vm_compute.
  - by vm_compute.
Qed.


Lemma fuel_enough z : 0x110000 <= z -> 200 <= z /\ 0 <= 1 < z.
Proof. lia. Qed.

